(* ===== verification/_CoqProject ===== *)
-Q . S2P
Prelude.v
Framing.v
Crypto.v
Packet.v
Channel.v
Buffer.v
InboundQueues.v
Msgpack.v
Cbor.v
Clock.v
Resource.v
ResourceTransfer.v
ResourceSafety.v
Identity.v
Link.v
LinkSafety.v
LinkHandshake.v
Transport.v
PathRequests.v
Forwarding.v
Announcing.v
Ifac.v
Routing.v
Propagation.v
IngressControl.v
TransportEffects.v
TransportSafety.v
PathStore.v
Relaying.v
LxmfStamps.v
LxmfTickets.v
LxmfMessage.v
LxmfMessageFacts.v
LxmfRouter.v
LxmfNode.v
LxmfPeer.v
LxmfStore.v
LxmfRouterFacts.v
LxmfDelivery.v
LxmfForward.v
