(* ===== verification/Prelude.v ===== *)
(** * Verification of go-reticulum

    This library is a verification development for go-reticulum, a Go
    implementation of the Reticulum network stack.  Definitions are shallow
    embeddings of the Go functions they are named after; theorems state what
    makes each component correct and were proved from those definitions alone.

    ** The program

    Bytes arrive on interfaces ([src/rns/interfaces]), which cut them into
    packets with HDLC or KISS framing.  Packets ([src/rns/packet.go]) wait in
    prioritised inbound queues ([src/rns/inbound-queues.go]) for the transport,
    which routes them: it learns paths from announces, spreads announces,
    answers path requests and forwards packets, link traffic and proofs
    ([src/rns/transport.go]); interfaces may protect their frames with access
    codes and limit the announces they accept ([src/rns/interfaces/base.go]).
    End points are destinations of identities
    ([src/rns/destination.go], [src/rns/identity.go]), which announce
    themselves, sign, and encrypt with tokens ([src/rns/crypto]).  Two of them
    establish a link ([src/rns/link.go]).  A link carries a channel
    ([src/rns/channel.go]), which numbers, acknowledges and orders messages,
    and resources ([src/rns/resource.go]), which transfer large data in parts;
    a buffer ([src/rns/buffer.go]) makes byte streams of channel messages.
    Structured payloads are MessagePack ([src/rns/msgpack]).

    LXMF ([src/lxmf]) is a messaging protocol on top.  A message is signed and
    packed ([message.go]) and sent as a packet, over a link, on paper as a URI,
    or through a propagation node.  Stamps are proofs of work that senders
    attach ([stamper.go]), tickets spare them the work ([tickets.go]).  The
    router ([router.go]) delivers what arrives once, and can be a propagation
    node: it stores stamped messages, hands them to their receivers, and offers
    them to its peers ([peer.go], [announce-handler.go]).

    ** The library

    - [Prelude]: bytes and machine integers, the [res] type of Go results
      (value, error or panic), struct update, big-endian encodings, the
      tactics, hint and rewrite databases and the lemmas the components share.
    - [Framing]: byte stuffing, frame building, frame-length validation,
      [hdlcReassemble] and the read loops of the TCP, KISS, pipe and serial
      interfaces, from the bytes of each read to the payloads handed on.
    - [Crypto]: PKCS#7, AES-CBC, HMAC, HKDF and the token, over two
      interfaces ([Sha256], [BlockCipher]) with their laws.
    - [Packet]: the packet record, [Pack], [Unpack], the packet hash, [Send] up
      to the transport, and the receipt state machine.
    - [Channel]: envelopes, the sending side and the receiving side of a
      channel.  The mutex is released inside [Send] and [packetTimeout], so
      each of them is split at that point; [step] interleaves the halves with
      every other operation, and invariants are proved over [reachable].
    - [Buffer]: stream messages, the reader and the writer on top of the
      channel, over an interface for the bzip2 codec.
    - [InboundQueues]: the bounded priority queues; blocking getters are
      threads of the labelled relation [istep].
    - [Msgpack]: the encoder, the sorted encoder and the decoder with its
      options.
    - [Cbor]: the CBOR codec of the chat protocol ([src/rrc/cbor]).
    - [Clock]: instants, durations and the float conversions of Go.
    - [Resource]: advertisements, the sending and the receiving side of a
      resource, assembly, cancelling and the watchdog.  [ResourceTransfer]
      runs both sides against each other, [ResourceSafety] takes the receiver
      through any sequence of steps.
    - [Identity]: key pairs, identities, announces, ratchets with their file
      and destinations, over an interface ([Curves]) for X25519 and Ed25519.
    - [Link]: the handshake, the dispatch of received packets, sending,
      identification, requests, the watchdog and the teardown of a link.
      [HandleRTT] releases the mutex while it decrypts, so it is split there;
      [LinkSafety] is about every state a link can reach by [link_step], where
      other steps come between the halves of an activation.  [LinkHandshake]
      runs an initiator against a responder.
    - [Transport]: the state of the transport, duplicate detection, the packet
      filter, the path table and the handling of announces.  [PathRequests]:
      path requests and responses.  [Forwarding]: [Inbound] from the frame to
      the tables, forwarding along paths and links, proofs.  [Announcing]:
      rebroadcasting with its rates and queues, [Outbound], receipts, culling
      and registration.  An interface is a number and what it answers is an
      argument ([IfaceInfo]); what the transport sends, delivers or calls is
      an event ([tr_event]); random bytes, delays and the order of map
      iterations are arguments.
    - [Ifac]: the access codes of an interface.  [IngressControl]: its announce
      and path request limits, the announces it holds and the interface jobs.
    - [Routing] carries a packet and its proof along a chain of transports,
      [Propagation] an announce and then a packet back to its destination.
      [TransportEffects] says what every operation does to the tables and
      defines the histories of a transport ([run]), in which frames may also be
      queued and processed later; [TransportSafety] has the theorems about all
      histories, [PathStore] reads the path table from disk and adds that to
      the histories, [Relaying] is about the frames a relay sends.
    - [LxmfStamps]: stamps and their searches, the parallel one as a relation
      [pstep] on workers and channels.  [LxmfTickets]: the ticket store.
      [LxmfMessage]: the message record, [Pack] for every method, unpacking,
      stamps of messages and containers; [LxmfMessageFacts] has its theorems.
    - [LxmfRouter]: the state of the router, its policy, inbound delivery and
      paper URIs.  What it gives to the application is a log ([r_callbacks]).
      [LxmfNode]: the propagation node, its store and its requests, over an
      interface ([FloatText]) for the text form of floats.  [LxmfPeer]: the
      queues, keys and syncs of peers and the client of a node.
    - [LxmfRouterFacts] takes a router through any sequence of operations
      ([router_run]), [LxmfStore] a node and its directory of messages through
      any number of starts ([node_run]).
      [LxmfDelivery] brings a paper message, [LxmfForward] a message through a
      propagation node from its sender to its receiver.

    ** Conventions

    A Go [byte] or [uintN] is a [Z] kept in range by the explicit conversions
    [u8], [u16], [u32], [u64]; [int] is [Z] where its 64-bit range cannot be
    reached.  A [[]byte] is a list.  Struct methods that mutate their receiver
    return the new struct.  Errors are values of a per-component error type;
    run-time panics (slice bounds) are modelled as [Panic], never excluded.
    float64 values are primitive floats.  What lies outside the repository, or
    is only called (hash function, block cipher, compression, signature
    checks, the outlet under a channel), is a parameter whose documented
    behaviour is a named law; each such law is instantiated by a concrete
    function in the witnesses.

    Loops that are not structural run on fuel, and the fuel is proved enough:
    the length of the input for decoders (each nested call has read a byte),
    for the reassembly of frames and for the chunks of a write; two rounds
    more than twice the number of parts for a resource transfer; one run more
    than the retries left for the watchdog of a resource; 146 runs for the
    watchdog of a link, whose keepalive interval is at most 360 seconds and
    whose pauses are 5 seconds.

    ** The theorems

    Framing: what is sent and passes the length gate is what is handed over,
    however the stream is cut into reads, and buffers stay bounded. Crypto:
    sealing and opening round trip; every outcome of opening a token; key
    derivation. Packet: the wire format round trips, the packet hash covers
    exactly the fields a transport may not change, a forged proof has no effect
    on a receipt, and receipts are retired once. Channel: in-order,
    exactly-once delivery end to end while the link repeats packets within one
    cycle of sequence numbers only; window and sequence-number invariants over
    all interleavings; failing sends change nothing; and two ways delivery
    breaks when packets are reordered or repeated across the wrap-around of the
    sequence numbers. Buffer: a writer's count is what the reader gets.
    InboundQueues: conservation, priority, no lost wake-up, and starvation by
    strict priority. Msgpack and Cbor: round trips, totality and size bounds of
    decoding, canonical encodings and their limits. Resources: a transfer over
    a reliable network completes on both ends; whatever arrives, the receiver's
    books are right and a completed resource is the one advertised; a silent
    transfer is given up; and two kinds of resources that cannot be
    transferred. Identities: encryption with ratchets round trips, announces
    are accepted and bind a destination to one key, ratchet files round trip.
    Links: the handshake completes end to end through any relays; over all
    steps the status follows a state machine by role, an active initiator holds
    a signed proof, restricted requests are answered for signed identities
    only, and a silent link is closed in time; and two ways a link gets into a
    state it should not: a forged proof, and a teardown that races with the
    round-trip time.
    Transport: packets reach the destination along agreeing path tables and
    their proofs come back; an announce builds such paths, so that its
    destination is reachable from every node it spread to; over all histories
    duplicates of packets that are not exempt are suppressed for a window of
    frames, hash memory stays bounded, what announces teach the path table is
    well formed, a path of a transport that loaded none stems from an authentic
    announce and is not moved by replayed ones, link traffic is carried only
    after a signed proof, and no packet is forwarded more than 128 times; and a
    relay in a network with access codes sends frames its peers refuse.
    Interfaces: access codes round trip and authenticate; sampled and held
    announces stay bounded, a burst lasts its hold time and ends, and the
    interface jobs release the held announces one by one, fewest hops first.
    LXMF: messages round trip with a signature that verifies, no input makes
    unpacking panic, and a validated message is authentic; the stamp search
    ends with a valid stamp, the parallel one under every interleaving; tickets
    and stamps are accepted by those who asked for them; a message is delivered
    once while it is remembered; paper messages and messages left at a
    propagation node reach their receiver unchanged; a client of a node sees
    and removes its own messages only; a node that starts again finds the
    messages it wrote; and an offer with a generated peering key is answered
    with what the peer lacks. Lemmas show where messages are lost: a node drops
    what is addressed to itself, and a sync strips a message as if it had a
    stamp.

    ** Not modelled

    Sockets, serial ports, goroutine start-up, logging and configuration are
    I/O.  Of the transport, writing its tables to disk, tunnels, the blackhole
    list, caches and the scheduling of its jobs are left out: a history may run
    any job at any time.  The clock is read once per operation.  Of LXMF, the
    outbound queue with its delivery attempts, the router's own announces, the
    files of peers, tickets and remembered messages, QR codes and statistics
    are left out.  Request receipts, interface discovery and the chat hub are
    not modelled; the vendored compressor and the command-line tools are not
    part of the plan. *)

From stdpp Require Import base tactics option list gmap.
From Stdlib Require Import ZArith Lia.

Declare Scope go_scope.
Delimit Scope go_scope with go.

(** ** Machine integers and bytes

    A Go [byte] is a [Z] in [0, 256); a [[]byte] is a [list Z].  The
    conversions [byte(x)], [uint16(x)], [uint32(x)], [uint64(x)] and the
    signed reinterpretations are written out. *)

Abbreviation bytes := (list Z).

Definition u8 (z : Z) : Z := (z mod 2 ^ 8)%Z.
Definition u16 (z : Z) : Z := (z mod 2 ^ 16)%Z.
Definition u32 (z : Z) : Z := (z mod 2 ^ 32)%Z.
Definition u64 (z : Z) : Z := (z mod 2 ^ 64)%Z.

(** Two's-complement reading of an unsigned [w]-bit value. *)
Definition signed (w z : Z) : Z :=
  if (z <? 2 ^ (w - 1))%Z then z else (z - 2 ^ w)%Z.

Definition i8 (z : Z) : Z := signed 8 (u8 z).
Definition i16 (z : Z) : Z := signed 16 (u16 z).
Definition i32 (z : Z) : Z := signed 32 (u32 z).
Definition i64 (z : Z) : Z := signed 64 (u64 z).

Definition is_byte (b : Z) : Prop := (0 <= b < 256)%Z.
Definition bytes_ok (l : bytes) : Prop := Forall is_byte l.

#[global] Instance is_byte_dec b : Decision (is_byte b).
Proof. unfold is_byte. apply _. Defined.
#[global] Instance bytes_ok_dec l : Decision (bytes_ok l).
Proof. unfold bytes_ok. apply _. Defined.

(** [len(l)] as a Go [int]. *)
Definition zlen {A} (l : list A) : Z := Z.of_nat (length l).

(** Byte-slice equality, [bytes.Equal]. *)
Definition bytes_eqb (a b : bytes) : bool := bool_decide (a = b).

(** [bytes.IndexByte]: the first index of [c]. *)
Fixpoint index_byte (c : Z) (l : bytes) : option nat :=
  match l with
  | [] => None
  | b :: l' => if (b =? c)%Z then Some O else S <$> index_byte c l'
  end.

(** The Go slice expression [l[a:b]] for indices already known in range. *)
Definition slice {A} (a b : nat) (l : list A) : list A := take (b - a) (drop a l).

(** ** Results of Go functions

    [Ok] is a return with a nil error, [Err] a return with an error, and
    [Panic] a run-time panic (slice bounds, explicit [panic]). *)

Inductive res (E A : Type) : Type :=
  | Ok (a : A)
  | Err (e : E)
  | Panic.
Arguments Ok {E A} a.
Arguments Err {E A} e.
Arguments Panic {E A}.

#[global] Instance res_ret E : MRet (res E) := fun A a => Ok a.
#[global] Instance res_bind E : MBind (res E) := fun A B f r =>
  match r with Ok a => f a | Err e => Err e | Panic => Panic end.

#[global] Instance res_fmap E : FMap (res E) := fun A B f r =>
  match r with Ok a => Ok (f a) | Err e => Err e | Panic => Panic end.

#[global] Instance res_eq_dec `{EqDecision E, EqDecision A} : EqDecision (res E A).
Proof. solve_decision. Defined.

Definition is_ok {E A} (r : res E A) : bool :=
  match r with Ok _ => true | _ => false end.

Definition map_err {E F A} (f : E -> F) (r : res E A) : res F A :=
  match r with Ok a => Ok a | Err e => Err (f e) | Panic => Panic end.

(** ** Record update

    [r <| f := v |>] is a Go struct assignment [r.f = v] on a copy.  A record
    type opts in with an [Eta] instance listing its fields; the setter of a
    field is found by abstracting that field in the eta-expansion. *)

Class Eta (R : Type) := eta : R -> R.
Class Setter {R E : Type} (proj : R -> E) := modify : (E -> E) -> R -> R.

Ltac make_setter :=
  lazymatch goal with
  | |- @Setter ?R ?E ?proj =>
      let e := constr:(_ : Eta R) in
      let e := eval hnf in e in
      let upd := fresh "upd" in
      let r := fresh "r" in
      intros upd r;
      let body := eval cbv beta in (e r) in
      let abst := eval pattern (proj r) in body in
      lazymatch abst with
      | ?g _ => let t := eval cbv beta in (g (upd (proj r))) in exact t
      end
  end.
#[global] Hint Extern 1 (Setter _) => make_setter : typeclass_instances.

Notation "r <| f := v |>" := (modify (proj := f) (fun _ => v) r)
  (at level 12, f at next level, left associativity, format "r  <| f  :=  v |>") : go_scope.
Notation "r <| f ::= g |>" := (modify (proj := f) g r)
  (at level 12, f at next level, left associativity, format "r  <| f  ::=  g |>") : go_scope.

(** ** Big-endian encodings ([encoding/binary].[BigEndian]) *)

Fixpoint be_enc (n : nat) (v : Z) : bytes :=
  match n with
  | O => []
  | S n' => u8 (Z.shiftr v (8 * Z.of_nat n')) :: be_enc n' v
  end.

Definition be_dec_from (acc : Z) (l : bytes) : Z :=
  fold_left (fun a b => Z.lor (Z.shiftl a 8) b) l acc.

Definition be_dec (l : bytes) : Z := be_dec_from 0 l.

(** ** Tactics *)

(** Case analysis on the integer comparisons of a goal. *)
Ltac zcase_step :=
  match goal with
  | |- context [ (?a <? ?b)%Z ] => destruct (Z.ltb_spec a b)
  | |- context [ (?a <=? ?b)%Z ] => destruct (Z.leb_spec a b)
  | |- context [ (?a =? ?b)%Z ] => destruct (Z.eqb_spec a b)
  end.
Ltac zcase := repeat (zcase_step; try lia; cbn [andb orb negb]).

(** The same on a hypothesis. *)
Ltac zcase_in H :=
  repeat match type of H with
  | context [ (?a <? ?b)%Z ] => destruct (Z.ltb_spec a b)
  | context [ (?a <=? ?b)%Z ] => destruct (Z.leb_spec a b)
  | context [ (?a =? ?b)%Z ] => destruct (Z.eqb_spec a b)
  end; cbn [andb orb negb] in H.

(** Closed byte lists. *)
Ltac solve_bytes :=
  repeat (apply List.Forall_cons; [unfold is_byte; lia|]); apply List.Forall_nil.

(** Split on the value of a variable in a small literal range. *)
Ltac enumerate H :=
  lazymatch type of H with
  | (?a <= ?x < ?b)%Z =>
      let rec go k :=
        tryif (assert (b <= k)%Z by lia) then exfalso; lia
        else (destruct (Z.eq_dec x k) as [->|]; [clear H|let k' := eval compute in (k + 1)%Z in go k'])
      in let a' := eval compute in a in go a'
  end.

Create HintDb go discriminated.

(** ** Shared lemmas *)

Lemma zlen_nil {A} : zlen (@nil A) = 0%Z.
Proof. reflexivity. Qed.
Lemma zlen_cons {A} (x : A) l : zlen (x :: l) = (1 + zlen l)%Z.
Proof. unfold zlen. cbn. lia. Qed.
Lemma zlen_app {A} (l k : list A) : zlen (l ++ k) = (zlen l + zlen k)%Z.
Proof. unfold zlen. rewrite length_app. lia. Qed.
Lemma zlen_nonneg {A} (l : list A) : (0 <= zlen l)%Z.
Proof. unfold zlen. lia. Qed.
Lemma zlen_replicate {A} n (x : A) : zlen (replicate n x) = Z.of_nat n.
Proof. unfold zlen. by rewrite length_replicate. Qed.

Create Rewrite HintDb zlen.
#[export] Hint Rewrite @zlen_nil @zlen_cons @zlen_app @zlen_replicate : zlen.

Lemma bytes_ok_nil : bytes_ok [].
Proof. constructor. Qed.
Lemma bytes_ok_cons b l : is_byte b -> bytes_ok l -> bytes_ok (b :: l).
Proof. by constructor. Qed.
Lemma bytes_ok_app l k : bytes_ok l -> bytes_ok k -> bytes_ok (l ++ k).
Proof. apply Forall_app_2. Qed.
Lemma bytes_ok_app_inv l k : bytes_ok (l ++ k) -> bytes_ok l /\ bytes_ok k.
Proof. apply Forall_app. Qed.
Lemma bytes_ok_take n l : bytes_ok l -> bytes_ok (take n l).
Proof. apply Forall_take. Qed.
Lemma bytes_ok_drop n l : bytes_ok l -> bytes_ok (drop n l).
Proof. apply Forall_drop. Qed.
Lemma u8_is_byte z : is_byte (u8 z).
Proof. unfold is_byte, u8. apply (Z.mod_pos_bound z (2 ^ 8)). lia. Qed.
Lemma u8_id b : is_byte b -> u8 b = b.
Proof. intros H. unfold u8. apply Z.mod_small. unfold is_byte in H. lia. Qed.
Lemma bytes_ok_replicate n b : is_byte b -> bytes_ok (replicate n b).
Proof. intros. apply Forall_replicate. done. Qed.

#[export] Hint Resolve bytes_ok_nil bytes_ok_cons bytes_ok_app bytes_ok_take
  bytes_ok_drop u8_is_byte bytes_ok_replicate : go.

Lemma bytes_eqb_refl l : bytes_eqb l l = true.
Proof. unfold bytes_eqb. by apply bool_decide_eq_true_2. Qed.
Lemma bytes_eqb_eq l k : bytes_eqb l k = true <-> l = k.
Proof. unfold bytes_eqb. apply bool_decide_eq_true. Qed.

Lemma be_enc_length n v : length (be_enc n v) = n.
Proof. induction n as [|n IH] in v |- *; cbn; [done|by rewrite IH]. Qed.

Lemma be_enc_ok n v : bytes_ok (be_enc n v).
Proof. induction n; cbn; eauto with go. Qed.

#[export] Hint Resolve be_enc_ok : go.

(** Or-ing a value below [2 ^ n] into a word shifted by [n] is addition. *)
Lemma shift_or a b n :
  (0 <= n)%Z -> (0 <= b < 2 ^ n)%Z -> Z.lor (Z.shiftl a n) b = (a * 2 ^ n + b)%Z.
Proof.
  intros Hn Hb. assert (Z.land (Z.shiftl a n) b = 0%Z) as E.
  { apply Z.bits_inj'. intros i Hi. rewrite Z.land_spec, Z.bits_0.
    destruct (Z.ltb_spec i n).
    - by rewrite Z.shiftl_spec_low by lia.
    - assert (Z.testbit b i = false) as ->; [|by rewrite andb_false_r].
      destruct (Z.eq_dec b 0) as [->|]; [apply Z.bits_0|].
      apply Z.bits_above_log2; [lia|].
      assert (Z.log2 b < n)%Z by (apply Z.log2_lt_pow2; lia). lia. }
  pose proof (Z.add_lor_land (Z.shiftl a n) b) as E2.
  rewrite E, Z.add_0_r in E2. rewrite E2, Z.shiftl_mul_pow2 by lia. lia.
Qed.

Lemma shift_or_byte a b :
  (0 <= a)%Z -> is_byte b -> Z.lor (Z.shiftl a 8) b = (a * 256 + b)%Z.
Proof. intros _ Hb. by rewrite shift_or. Qed.

Lemma be_dec_from_app acc l k :
  be_dec_from acc (l ++ k) = be_dec_from (be_dec_from acc l) k.
Proof. unfold be_dec_from. apply fold_left_app. Qed.

Lemma be_dec_from_arith acc l :
  (0 <= acc)%Z -> bytes_ok l ->
  be_dec_from acc l = (acc * 256 ^ zlen l + be_dec_from 0 l)%Z.
Proof.
  intros Hacc Hl. induction Hl as [|b l Hb Hl IH] in acc, Hacc |- *.
  - unfold zlen. cbn. lia.
  - unfold be_dec_from in *. cbn [fold_left].
    rewrite !shift_or_byte by (lia || done).
    unfold is_byte in Hb. rewrite (IH (acc * 256 + b)%Z), (IH (0 * 256 + b)%Z) by lia.
    rewrite zlen_cons, Z.pow_add_r by (pose proof (zlen_nonneg l); lia). lia.
Qed.

Lemma be_dec_bound l : bytes_ok l -> (0 <= be_dec l < 256 ^ zlen l)%Z.
Proof.
  intros Hl. unfold be_dec. induction Hl as [|b l Hb Hl IH]; [unfold zlen; cbn; lia|].
  unfold be_dec_from in *. cbn [fold_left]. rewrite shift_or_byte by (lia || done).
  fold (be_dec_from (0 * 256 + b) l). unfold is_byte in Hb.
  rewrite be_dec_from_arith by (lia || done).
  rewrite zlen_cons, Z.pow_add_r by (pose proof (zlen_nonneg l); lia).
  unfold be_dec_from in *. nia.
Qed.

(** Encoding then decoding keeps the value modulo the width. *)
Lemma be_dec_enc n v : be_dec (be_enc n v) = (v mod 256 ^ Z.of_nat n)%Z.
Proof.
  unfold be_dec. induction n as [|n IH]; [cbn; by rewrite Z.mod_1_r|].
  cbn [be_enc]. unfold be_dec_from. cbn [fold_left].
  rewrite shift_or_byte by (lia || apply u8_is_byte).
  fold (be_dec_from (0 * 256 + u8 (Z.shiftr v (8 * Z.of_nat n))) (be_enc n v)).
  pose proof (u8_is_byte (Z.shiftr v (8 * Z.of_nat n))) as Hb. unfold is_byte in Hb.
  rewrite be_dec_from_arith by (lia || apply be_enc_ok).
  rewrite IH. unfold zlen. rewrite be_enc_length.
  unfold u8. rewrite Z.shiftr_div_pow2 by lia.
  replace (2 ^ (8 * Z.of_nat n))%Z with (256 ^ Z.of_nat n)%Z
    by (rewrite Z.pow_mul_r by lia; done).
  replace (256 ^ Z.of_nat (S n))%Z with (256 ^ Z.of_nat n * 256)%Z
    by (rewrite Nat2Z.inj_succ, Z.pow_succ_r by lia; lia).
  rewrite Z.rem_mul_r by (try apply Z.pow_nonzero; lia). change (2 ^ 8)%Z with 256%Z. lia.
Qed.

Lemma be_dec_enc_small n v :
  (0 <= v < 256 ^ Z.of_nat n)%Z -> be_dec (be_enc n v) = v.
Proof. intros. rewrite be_dec_enc. by apply Z.mod_small. Qed.

(** Decoding then encoding gives back the bytes. *)
Lemma be_dec_inj l k :
  bytes_ok l -> bytes_ok k -> length l = length k -> be_dec l = be_dec k -> l = k.
Proof.
  intros Hl Hk. induction Hl as [|b l Hb Hl IH] in k, Hk |- *; intros Hlen Heq.
  - by destruct k.
  - destruct Hk as [|c k Hc Hk]; [done|]. injection Hlen as Hlen.
    unfold be_dec, be_dec_from in Heq. cbn [fold_left] in Heq.
    rewrite !shift_or_byte in Heq by (lia || done).
    unfold is_byte in Hb, Hc.
    fold (be_dec_from (0 * 256 + b) l) in Heq.
    fold (be_dec_from (0 * 256 + c) k) in Heq.
    rewrite (be_dec_from_arith _ l), (be_dec_from_arith _ k) in Heq by (lia || done).
    pose proof (be_dec_bound l Hl) as B1. pose proof (be_dec_bound k Hk) as B2.
    unfold zlen in *. rewrite <- Hlen in *. unfold be_dec in *.
    assert (b = c) as -> by nia. f_equal. apply IH; [done..|]. unfold be_dec. lia.
Qed.

Lemma be_enc_dec l : bytes_ok l -> be_enc (length l) (be_dec l) = l.
Proof.
  intros Hl. apply be_dec_inj; [apply be_enc_ok|done|apply be_enc_length|].
  apply be_dec_enc_small. by apply be_dec_bound.
Qed.

Lemma be_enc_mod n v : be_enc n (v mod 256 ^ Z.of_nat n) = be_enc n v.
Proof.
  apply be_dec_inj; [apply be_enc_ok..|by rewrite !be_enc_length|].
  rewrite !be_dec_enc. apply Zmod_mod.
Qed.

(** ** [index_byte] *)

Lemma index_byte_None c l : index_byte c l = None <-> c ∉ l.
Proof.
  induction l as [|b l IH]; cbn; [set_solver|].
  destruct (Z.eqb_spec b c) as [->|].
  - split; [done|set_solver].
  - rewrite fmap_None, IH. set_solver.
Qed.

Lemma index_byte_Some c l i :
  index_byte c l = Some i ->
  l = take i l ++ (c :: drop (S i) l) /\ (c ∉ take i l) /\ (i < length l)%nat.
Proof.
  induction l as [|b l IH] in i |- *; cbn; [done|].
  destruct (Z.eqb_spec b c) as [->|Hne].
  - intros [= <-]. cbn. rewrite drop_0. split_and!; [done|set_solver|lia].
  - intros (j & Hj & ->)%fmap_Some. destruct (IH j Hj) as (H1 & H2 & H3).
    cbn. split_and!; [by f_equal|set_solver|lia].
Qed.

Lemma index_byte_app c l k :
  c ∉ l -> index_byte c (l ++ (c :: k)) = Some (length l).
Proof.
  induction l as [|b l IH]; cbn; intros H.
  - by rewrite Z.eqb_refl.
  - destruct (Z.eqb_spec b c) as [->|]; [set_solver|].
    rewrite not_elem_of_cons in H. destruct H as [_ H]. by rewrite (IH H).
Qed.

(** ** Prefixes *)

Lemma prefix_app_cases {A} (p l k : list A) :
  p `prefix_of` l ++ k ->
  p `prefix_of` l \/ exists p', p = l ++ p' /\ p' `prefix_of` k.
Proof.
  induction l as [|x l IH] in p |- *; cbn [app]; intros Hp.
  - right. by exists p.
  - destruct p as [|y p]; [left; apply prefix_nil|].
    pose proof (prefix_cons_inv_1 _ _ _ _ Hp) as ->.
    apply prefix_cons_inv_2 in Hp. destruct (IH p Hp) as [H|(p' & -> & H)].
    + left. by apply prefix_cons.
    + right. by exists p'.
Qed.

Lemma prefix_singleton {A} (p : list A) x : p `prefix_of` [x] -> p = [] \/ p = [x].
Proof.
  destruct p as [|y p]; [by left|]. intros H.
  pose proof (prefix_cons_inv_1 _ _ _ _ H) as ->.
  apply prefix_cons_inv_2, prefix_nil_inv in H as ->. by right.
Qed.

Lemma take_prefix_le {A} (l : list A) n m :
  (n <= m)%nat -> take n l `prefix_of` take m l.
Proof.
  intros. exists (drop n (take m l)).
  rewrite <- (take_drop n (take m l)) at 1. f_equal. rewrite take_take. f_equal. lia.
Qed.

Lemma Forall_mp {A} (P Q : A -> Prop) l :
  Forall (fun x => P x -> Q x) l -> Forall P l -> Forall Q l.
Proof. induction 1; inversion 1; subst; constructor; auto. Qed.

Lemma concat_length_ge {A} (f : A -> bytes) n l :
  Forall (fun x => (n <= length (f x))%nat) l -> (n * length l <= length (concat (map f l)))%nat.
Proof. induction 1; cbn; [lia|]. rewrite length_app. lia. Qed.

Lemma in_concat_length {A} (f : A -> bytes) x l :
  In x l -> (length (f x) <= length (concat (map f l)))%nat.
Proof.
  induction l as [|y l IH]; [done|]. intros [->|Hin]; cbn; rewrite length_app; [lia|].
  specialize (IH Hin). lia.
Qed.

(** ** Decoders

    A decoder takes the remaining input and gives a value with the rest of
    it.  [decodes_by oof size extra r x]: the step on [r] that returned [x]
    read a prefix of [r] which, with [extra] bytes read before, pays for the
    size of the result; it did not run out of fuel ([oof]). *)

Definition decodes_by {E A} (oof : E) (size : A -> nat) (extra : nat) (r : bytes)
    (x : res E (A * bytes)) : Prop :=
  match x with
  | Ok (a, r') => exists c, r = c ++ r' /\ (size a <= extra + length c)%nat
  | Err e => e <> oof
  | Panic => False
  end.

Lemma decodes_ret {E A} (oof : E) (size : A -> nat) extra r a :
  (size a <= extra)%nat -> decodes_by oof size extra r (Ok (a, r)).
Proof. intros. exists []. cbn. split; [done|lia]. Qed.

(** Sequencing: the first part pays for itself. *)
Lemma decodes_bind_lt {E A B} (oof : E) (sa : A -> nat) (sb : B -> nat) extra extra' r
    (x : res E (A * bytes)) (k : A * bytes -> res E (B * bytes)) :
  decodes_by oof sa extra r x ->
  (forall a r', (length r' <= length r)%nat -> (sa a + length r' <= extra + length r)%nat ->
     decodes_by oof sb (extra' + sa a) r' (k (a, r'))) ->
  decodes_by oof sb (extra + extra') r (x ≫= k).
Proof.
  intros Hx Hk. destruct x as [[a r']|e|]; cbn in *; [|done..].
  destruct Hx as (c & -> & Hs). specialize (Hk a r').
  rewrite length_app in Hk. specialize (Hk ltac:(lia) ltac:(lia)).
  destruct (k (a, r')) as [[b r'']|e|]; cbn in *; [|done..].
  destruct Hk as (c' & -> & Hs'). exists (c ++ c'). rewrite length_app, app_assoc.
  split; [done|lia].
Qed.

Lemma decodes_bind {E A B} (oof : E) (sa : A -> nat) (sb : B -> nat) extra extra' r
    (x : res E (A * bytes)) (k : A * bytes -> res E (B * bytes)) :
  decodes_by oof sa extra r x ->
  (forall a r', (length r' <= length r)%nat -> decodes_by oof sb (extra' + sa a) r' (k (a, r'))) ->
  decodes_by oof sb (extra + extra') r (x ≫= k).
Proof. intros Hx Hk. eapply decodes_bind_lt; [exact Hx|]. auto. Qed.

Lemma decodes_mono {E A} (oof : E) (size : A -> nat) e1 e2 r x :
  (e1 <= e2)%nat -> decodes_by oof size e1 r x -> decodes_by oof size e2 r x.
Proof.
  destruct x as [[a r']| |]; cbn; [|done..]. intros He (c & -> & Hs). exists c. split; [done|lia].
Qed.

(** [g] does on a longer input what [f] did. *)
Definition extends {E A} (f g : bytes -> res E (A * bytes)) : Prop :=
  forall r a r' s, f r = Ok (a, r') -> g (r ++ s) = Ok (a, r' ++ s).

Lemma extends_bind {E A B} (f g : bytes -> res E (A * bytes))
    (k h : A -> bytes -> res E (B * bytes)) :
  extends f g -> (forall a, extends (k a) (h a)) ->
  extends (fun r => '(a, r) ← f r; k a r) (fun r => '(a, r) ← g r; h a r).
Proof.
  intros Hf Hk r b r' s. unfold mbind, res_bind. destruct (f r) as [[a r1]| |] eqn:E1; [|done..].
  rewrite (Hf _ _ _ s E1). apply Hk.
Qed.

Lemma extends_ret {E A} (a : A) : extends (E := E) (fun r => Ok (a, r)) (fun r => Ok (a, r)).
Proof. by intros r a' r' s [= <- <-]. Qed.

(** A guard that a longer input can only relax. *)
Lemma extends_guard {E A} (f g : bytes -> res E (A * bytes)) (c : bytes -> Z) (e : E) (l : Z) :
  (forall r s, (c r <= c (r ++ s))%Z) -> extends f g ->
  extends (fun r => if (c r <? l)%Z then Err e else f r)
          (fun r => if (c r <? l)%Z then Err e else g r).
Proof.
  intros Hc Hf r a r' s. destruct (Z.ltb_spec (c r) l); [done|]. intros E1.
  rewrite (proj2 (Z.ltb_ge _ _)) by (specialize (Hc r s); lia). by apply Hf.
Qed.

(** ** Exclusive or on bytes *)

Lemma lxor_is_byte a b : is_byte a -> is_byte b -> is_byte (Z.lxor a b).
Proof.
  unfold is_byte. intros Ha Hb.
  assert (0 <= Z.lxor a b)%Z as Hn by (apply Z.lxor_nonneg; lia).
  split; [done|].
  destruct (Z.eq_dec (Z.lxor a b) 0) as [->|Hz]; [lia|].
  change 256%Z with (2 ^ 8)%Z. apply Z.log2_lt_pow2; [lia|].
  eapply Z.le_lt_trans; [apply Z.log2_lxor; lia|].
  apply Z.max_lub_lt.
  - destruct (Z.eq_dec a 0) as [->|]; [done|]. apply Z.log2_lt_pow2; lia.
  - destruct (Z.eq_dec b 0) as [->|]; [done|]. apply Z.log2_lt_pow2; lia.
Qed.

Definition xor_bytes (a b : bytes) : bytes := zip_with Z.lxor a b.

Lemma xor_bytes_ok a b : bytes_ok a -> bytes_ok b -> bytes_ok (xor_bytes a b).
Proof.
  intros Ha Hb. unfold xor_bytes. revert b Hb.
  induction Ha as [|x a Hx Ha IH]; intros [|y b] Hb; cbn; try constructor.
  - inversion Hb; subst. by apply lxor_is_byte.
  - inversion Hb; subst. by apply IH.
Qed.

Lemma xor_bytes_length a b : length a = length b -> length (xor_bytes a b) = length a.
Proof. intros. unfold xor_bytes. rewrite length_zip_with. lia. Qed.

Lemma xor_bytes_involutive a b :
  length a = length b -> xor_bytes (xor_bytes a b) b = a.
Proof.
  unfold xor_bytes. revert b. induction a as [|x a IH]; intros [|y b]; cbn; try done.
  intros [= H]. rewrite IH by done. f_equal. by rewrite Z.lxor_assoc, Z.lxor_nilpotent, Z.lxor_0_r.
Qed.

#[export] Hint Resolve lxor_is_byte xor_bytes_ok : go.

(** The middle of three pieces. *)
Lemma slice_app_mid {A} (a b c : list A) n k :
  length a = n -> k = (n + length b)%nat -> slice n k (a ++ b ++ c) = b.
Proof. intros <- ->. unfold slice. rewrite drop_app_length. by rewrite take_app_length' by lia. Qed.
