(* ===== verification/Framing.v ===== *)
(** * Link-layer framing

    Models the byte-stuffing codecs and the stream readers that recover
    packets from a byte stream: [rns/interfaces/hdlc.go],
    [rns/interfaces/kiss.go], the read loops of [tcp.go] and
    [kiss-unix.go], and the byte-at-a-time HDLC state machine of
    [pipe-subprocess.go] and [serial_linux.go].  The theorems show that the
    stuffing is transparent, that a reader delivers exactly the frames a
    sender wrote however the stream is cut into reads, and that a reader's
    buffer stays bounded. *)

From stdpp Require Import base tactics option list sets.
From Stdlib Require Import ZArith Lia.
From S2P Require Import Prelude.

(** ** HDLC byte stuffing *)

Definition HDLCFlag : Z := 0x7E.
Definition HDLCEsc : Z := 0x7D.
Definition HDLCEscMask : Z := 0x20.
Definition HDLCHeaderMinSize : Z := 2 + 1 + 128 / 8.

Definition CheckFrameLen (frameLen hwmtu ifacSize : Z) : bool :=
  if (frameLen <=? HDLCHeaderMinSize)%Z then false
  else if (hwmtu + ifacSize <? frameLen)%Z then false
  else true.

Fixpoint HDLCEscape (data : bytes) : bytes :=
  match data with
  | [] => []
  | b :: d =>
      if (b =? HDLCEsc)%Z then HDLCEsc :: Z.lxor HDLCEsc HDLCEscMask :: HDLCEscape d
      else if (b =? HDLCFlag)%Z then HDLCEsc :: Z.lxor HDLCFlag HDLCEscMask :: HDLCEscape d
      else b :: HDLCEscape d
  end.

Fixpoint HDLCUnescape (data : bytes) : bytes :=
  match data with
  | [] => []
  | b :: d =>
      match d with
      | n :: d' =>
          if (b =? HDLCEsc)%Z then
            if (n =? Z.lxor HDLCEsc HDLCEscMask)%Z then HDLCEsc :: HDLCUnescape d'
            else if (n =? Z.lxor HDLCFlag HDLCEscMask)%Z then HDLCFlag :: HDLCUnescape d'
            else b :: HDLCUnescape d
          else b :: HDLCUnescape d
      | [] => [b]
      end
  end.

(** The frame a sender writes: flag, stuffed payload, flag. *)
Definition hdlc_frame (data : bytes) : bytes :=
  HDLCFlag :: HDLCEscape data ++ [HDLCFlag].

(** ** The delimiter scan

    The loop shared by [hdlcReassemble] and the KISS read loops: look for a
    start delimiter, then for an end delimiter, emit what lies between, and
    keep the end delimiter as the next start.  [overflow n] says whether an
    unfinished buffer of [n] bytes is dropped; [emit] turns the bytes between
    two delimiters into at most one payload.  [None] is running out of
    fuel. *)

Section Scan.
Context (delim : Z) (emit : bytes -> option bytes) (overflow : Z -> bool).

Fixpoint scan_loop (fuel : nat) (frameBuffer : bytes) (frames : list bytes)
    : option (bytes * list bytes) :=
  match fuel with
  | O => None
  | S fuel' =>
      match index_byte delim frameBuffer with
      | None => Some ([], frames)
      | Some start =>
          match index_byte delim (drop (start + 1) frameBuffer) with
          | None =>
              if overflow (zlen frameBuffer) then Some ([], frames)
              else Some (drop start frameBuffer, frames)
          | Some e =>
              let end_ := (e + start + 1)%nat in
              let frame := slice (start + 1) end_ frameBuffer in
              let frames' :=
                match emit frame with
                | Some payload => frames ++ [payload]
                | None => frames
                end in
              scan_loop fuel' (drop end_ frameBuffer) frames'
          end
      end
  end.

Definition scan (frameBuffer : bytes) : option (bytes * list bytes) :=
  scan_loop (S (length frameBuffer)) frameBuffer [].
End Scan.

Definition nonempty (l : bytes) : option bytes :=
  if (0 <? zlen l)%Z then Some l else None.

Definition hdlc_emit (frame : bytes) : option bytes := nonempty (HDLCUnescape frame).

Definition hdlc_overflow (hwmtu n : Z) : bool := (hwmtu * 2 <? n)%Z.

Definition hdlcReassemble (frameBuffer : bytes) (hwmtu : Z) : option (bytes * list bytes) :=
  scan HDLCFlag hdlc_emit (hdlc_overflow hwmtu) frameBuffer.

(** One successful read of the TCP read loop with HDLC framing: the carried
    buffer and the payloads handed to the inbound handler. *)
Definition tcp_hdlc_read (hwmtu ifacSize : Z) (frameBuffer chunk : bytes)
    : option (bytes * list bytes) :=
  match hdlcReassemble (frameBuffer ++ chunk) hwmtu with
  | None => None
  | Some (frameBuffer', reassembled) =>
      Some (frameBuffer',
            List.filter (fun u => CheckFrameLen (zlen u) hwmtu ifacSize) reassembled)
  end.

(** ** KISS byte stuffing *)

Definition KISSFend : Z := 0xC0.
Definition KISSFesc : Z := 0xDB.
Definition KISSTfend : Z := 0xDC.
Definition KISSTfesc : Z := 0xDD.
Definition KISSCmdData : Z := 0x00.
Definition KISSCmdSelInt : Z := 0x1F.

Fixpoint KISSEscape (data : bytes) : bytes :=
  match data with
  | [] => []
  | b :: d =>
      if (b =? KISSFesc)%Z then KISSFesc :: KISSTfesc :: KISSEscape d
      else if (b =? KISSFend)%Z then KISSFesc :: KISSTfend :: KISSEscape d
      else b :: KISSEscape d
  end.

Fixpoint KISSUnescape_from (escape : bool) (data : bytes) : bytes :=
  match data with
  | [] => []
  | b :: d =>
      if escape then
        if (b =? KISSTfend)%Z then KISSFend :: KISSUnescape_from false d
        else if (b =? KISSTfesc)%Z then KISSFesc :: KISSUnescape_from false d
        else KISSUnescape_from false d
      else if (b =? KISSFesc)%Z then KISSUnescape_from true d
      else b :: KISSUnescape_from false d
  end.

Definition KISSUnescape (data : bytes) : bytes := KISSUnescape_from false data.

Definition KISSFrame (cmd : Z) (data : bytes) : bytes :=
  KISSFend :: cmd :: KISSEscape data ++ [KISSFend].

Definition KISSFrameUint32 (cmd value : Z) : bytes :=
  KISSFrame cmd [u8 (Z.shiftr value 24); u8 (Z.shiftr value 16);
                 u8 (Z.shiftr value 8); u8 value].

Definition KISSFrameUint8 (cmd value : Z) : bytes := KISSFrame cmd [value].

Definition KISSFrameUint16 (cmd value : Z) : bytes :=
  KISSFrame cmd [u8 (Z.shiftr value 8); u8 value].

Definition KISSFrameSelectInt (cmd index : Z) (data : bytes) : bytes :=
  [KISSFend; KISSCmdSelInt; index; KISSFend] ++
  [KISSFend; cmd] ++ KISSEscape data ++ [KISSFend].

(** What the KISS read loops do with the bytes between two delimiters. *)
Definition kiss_emit (frame : bytes) : option bytes :=
  match frame with
  | [] => None
  | c :: rest =>
      if (Z.land c 0x0F =? KISSCmdData)%Z then nonempty (KISSUnescape rest) else None
  end.

(** One successful read of a KISS read loop: no overflow guard, no length
    check. *)
Definition kiss_read (frameBuffer chunk : bytes) : option (bytes * list bytes) :=
  scan KISSFend kiss_emit (fun _ => false) (frameBuffer ++ chunk).

(** A read loop over a sequence of reads, collecting what it delivers. *)
Fixpoint read_chunks (read : bytes -> bytes -> option (bytes * list bytes))
    (frameBuffer : bytes) (chunks : list bytes) : option (bytes * list bytes) :=
  match chunks with
  | [] => Some (frameBuffer, [])
  | c :: cs =>
      match read frameBuffer c with
      | None => None
      | Some (fb, out) =>
          match read_chunks read fb cs with
          | None => None
          | Some (fb', out') => Some (fb', out ++ out')
          end
      end
  end.

(** ** The byte-at-a-time HDLC reader (pipe and serial interfaces) *)

Definition PipeHWMTU : Z := 1064.
Definition SerialHWMTU : Z := 564.

Record hdlc_rx := HdlcRx { inFrame : bool; escape : bool; dataBuffer : bytes }.

Definition hdlc_rx_init : hdlc_rx := HdlcRx false false [].

(** One byte of the read loop: the new state and the payload handed to the
    inbound handler, if any. *)
Definition hdlc_rx_step (hwmtu : Z) (s : hdlc_rx) (b : Z) : hdlc_rx * option bytes :=
  if inFrame s && (b =? HDLCFlag)%Z then
    (HdlcRx false (escape s) [], nonempty (dataBuffer s))
  else if (b =? HDLCFlag)%Z then (HdlcRx true false [], None)
  else if negb (inFrame s) || (hwmtu <=? zlen (dataBuffer s))%Z then (s, None)
  else if (b =? HDLCEsc)%Z then (HdlcRx (inFrame s) true (dataBuffer s), None)
  else
    let b' := if escape s then Z.lxor b HDLCEscMask else b in
    (HdlcRx (inFrame s) false (dataBuffer s ++ [b']), None).

Fixpoint hdlc_rx_run (hwmtu : Z) (s : hdlc_rx) (l : bytes) : hdlc_rx * list bytes :=
  match l with
  | [] => (s, [])
  | b :: l' =>
      let '(s1, o) := hdlc_rx_step hwmtu s b in
      let '(s2, out) := hdlc_rx_run hwmtu s1 l' in
      (s2, option_list o ++ out)
  end.

(** ** Stuffing is transparent *)

Lemma HDLCUnescape_cons b d :
  b <> HDLCEsc -> HDLCUnescape (b :: d) = b :: HDLCUnescape d.
Proof.
  intros Hb. destruct d as [|n d]; [done|].
  cbn [HDLCUnescape]. by rewrite (proj2 (Z.eqb_neq _ _) Hb).
Qed.

Lemma HDLCUnescape_escape data : HDLCUnescape (HDLCEscape data) = data.
Proof.
  induction data as [|b d IH]; [done|]. cbn [HDLCEscape].
  destruct (Z.eqb_spec b HDLCEsc) as [->|Hne].
  { change (HDLCEsc :: HDLCUnescape (HDLCEscape d) = HDLCEsc :: d). by rewrite IH. }
  destruct (Z.eqb_spec b HDLCFlag) as [->|].
  { change (HDLCFlag :: HDLCUnescape (HDLCEscape d) = HDLCFlag :: d). by rewrite IH. }
  by rewrite HDLCUnescape_cons, IH.
Qed.

Lemma HDLCEscape_no_flag data : HDLCFlag ∉ HDLCEscape data.
Proof.
  induction data as [|b d IH]; cbn [HDLCEscape]; [set_solver|].
  repeat case_match; rewrite ?not_elem_of_cons; split_and!; try done;
    by apply not_eq_sym, Z.eqb_neq.
Qed.

Lemma KISSUnescape_escape data : KISSUnescape (KISSEscape data) = data.
Proof.
  unfold KISSUnescape. induction data as [|b d IH]; [done|]. cbn [KISSEscape].
  destruct (Z.eqb_spec b KISSFesc) as [->|Hne]; [cbn; by f_equal|].
  destruct (Z.eqb_spec b KISSFend) as [->|]; [cbn; by f_equal|].
  cbn [KISSUnescape_from]. by rewrite (proj2 (Z.eqb_neq _ _) Hne), IH.
Qed.

Lemma KISSEscape_no_fend data : KISSFend ∉ KISSEscape data.
Proof.
  induction data as [|b d IH]; cbn [KISSEscape]; [set_solver|].
  repeat case_match; rewrite ?not_elem_of_cons; split_and!; try done;
    by apply not_eq_sym, Z.eqb_neq.
Qed.

(** ** The delimiter scan as a byte automaton

    [split acc l] reads [l] one byte at a time after a delimiter has been
    seen, with [acc] the bytes since that delimiter.  The scan loop and the
    chunked read loop refine it. *)

Section ScanSpec.
Context (delim : Z) (emit : bytes -> option bytes) (overflow : Z -> bool).

Fixpoint split (acc l : bytes) : bytes * list bytes :=
  match l with
  | [] => (acc, [])
  | b :: l' =>
      if (b =? delim)%Z then
        let '(a, fs) := split [] l' in (a, option_list (emit acc) ++ fs)
      else split (acc ++ [b]) l'
  end.

Lemma split_app acc l k :
  split acc (l ++ k) =
    let '(a, f1) := split acc l in
    let '(a', f2) := split a k in (a', f1 ++ f2).
Proof.
  induction l as [|b l IH] in acc |- *; cbn [app split].
  - by destruct (split acc k).
  - destruct (b =? delim)%Z; [|apply IH].
    rewrite IH. destruct (split [] l) as [a f1], (split a k).
    by rewrite (assoc_L (++)).
Qed.

Lemma split_plain acc l : delim ∉ l -> split acc l = (acc ++ l, []).
Proof.
  induction l as [|b l IH] in acc |- *; cbn [split]; intros Hl.
  - by rewrite app_nil_r.
  - rewrite not_elem_of_cons in Hl. destruct Hl as [Hb Hl].
    rewrite (proj2 (Z.eqb_neq _ _) (not_eq_sym Hb)), IH by done.
    by rewrite <- (assoc_L (++)).
Qed.

(** What the scan carries over to the next read. *)
Definition carry (acc : bytes) : bytes :=
  if overflow (1 + zlen acc) then [] else delim :: acc.

Lemma scan_loop_split fuel l frames :
  (length l < fuel)%nat ->
  scan_loop delim emit overflow fuel (delim :: l) frames =
    let '(a, fs) := split [] l in Some (carry a, frames ++ fs).
Proof.
  induction fuel as [|fuel IH] in l, frames |- *; intros Hf; [lia|].
  cbn [scan_loop index_byte]. rewrite Z.eqb_refl. cbn [Nat.add drop].
  rewrite drop_0. destruct (index_byte delim l) as [i|] eqn:E.
  - apply index_byte_Some in E as (El & Hni & Hi).
    rewrite Nat.add_0_r, Nat.add_1_r. unfold slice. cbn [drop]. rewrite drop_0.
    replace (S i - 1)%nat with i by lia.
    assert (drop i l = delim :: drop (S i) l) as Ed.
    { rewrite El at 1. rewrite drop_app_length'; [done|]. rewrite length_take; lia. }
    rewrite Ed, IH by (rewrite length_drop; lia).
    replace (split [] l) with (split [] (take i l ++ (delim :: drop (S i) l)))
      by (by rewrite <- El).
    rewrite split_app, (split_plain [] (take i l)) by done. cbn [app split].
    rewrite Z.eqb_refl. destruct (split [] (drop (S i) l)) as [a fs].
    destruct (emit (take i l)); cbn; by rewrite <- ?(assoc_L (++)).
  - apply index_byte_None in E. rewrite split_plain by done. cbn [app].
    unfold carry. rewrite zlen_cons, app_nil_r. cbn [drop]. by case_match.
Qed.

Lemma scan_loop_total fuel l frames :
  (length l < fuel)%nat -> is_Some (scan_loop delim emit overflow fuel l frames).
Proof.
  intros Hf. destruct fuel as [|fuel]; [lia|]. cbn [scan_loop].
  destruct (index_byte delim l) as [s|] eqn:E; [|eauto].
  destruct (index_byte delim (drop (s + 1) l)) as [e|] eqn:E2;
    [|case_match; eauto].
  apply index_byte_Some in E as (_ & _ & ?).
  apply index_byte_Some in E2 as (El & _ & Hlt). rewrite length_drop in Hlt.
  assert (drop (e + s + 1) l = delim :: drop (e + s + 2) l) as ->.
  { replace (e + s + 1)%nat with ((s + 1) + e)%nat by lia.
    rewrite <- drop_drop, El, drop_app_length'
      by (rewrite length_take, length_drop; lia).
    rewrite !drop_drop. do 2 f_equal. lia. }
  rewrite scan_loop_split by (rewrite length_drop; lia).
  destruct (split _ _). eauto.
Qed.

Definition scan_read (frameBuffer chunk : bytes) : option (bytes * list bytes) :=
  scan delim emit overflow (frameBuffer ++ chunk).

Lemma split_no_delim acc l : delim ∉ acc -> delim ∉ (split acc l).1.
Proof.
  induction l as [|b l IH] in acc |- *; cbn [split]; intros Ha; [done|].
  destruct (Z.eqb_spec b delim) as [->|Hne].
  - specialize (IH []). destruct (split [] l). cbn in *. set_solver.
  - apply IH. set_solver.
Qed.

Lemma split_resume acc l : delim ∉ acc -> split [] (acc ++ l) = split acc l.
Proof.
  intros Ha. rewrite split_app, split_plain by done. cbn [app].
  by destruct (split acc l).
Qed.

(** A read loop holding [delim :: acc] behaves as the automaton, as long as
    the automaton's partial frame never overflows. *)
Lemma read_chunks_split chunks acc :
  delim ∉ acc ->
  (forall p, p `prefix_of` concat chunks ->
     overflow (1 + zlen (split acc p).1) = false) ->
  read_chunks scan_read (delim :: acc) chunks =
    let '(a, fs) := split acc (concat chunks) in Some (delim :: a, fs).
Proof.
  induction chunks as [|c cs IH] in acc |- *; intros Ha Hov; [done|].
  cbn [read_chunks concat]. unfold scan_read at 1, scan. cbn [app].
  rewrite scan_loop_split, split_resume by (cbn; lia || done).
  pose proof (split_no_delim acc c Ha) as Hn.
  pose proof (Hov c (prefix_app_r _ _ _ (reflexivity c))) as Hc.
  rewrite split_app. destruct (split acc c) as [a f1] eqn:E1. cbn in Hn, Hc.
  unfold carry. rewrite Hc. cbn [app]. rewrite IH; [|done|].
  - by destruct (split a (concat cs)).
  - intros p Hp. specialize (Hov (c ++ p) (prefix_app _ _ _ Hp)).
    rewrite split_app, E1 in Hov. by destruct (split a p).
Qed.

(** From an empty buffer, once the stream opens with a delimiter. *)
Lemma read_chunks_start chunks s :
  concat chunks = delim :: s ->
  (forall p, p `prefix_of` s -> overflow (1 + zlen (split [] p).1) = false) ->
  read_chunks scan_read [] chunks =
    let '(a, fs) := split [] s in Some (delim :: a, fs).
Proof.
  induction chunks as [|c cs IH]; intros Hs Hov; [done|].
  cbn [concat] in Hs. destruct c as [|b c]; cbn [app] in Hs.
  - cbn [read_chunks]. unfold scan_read at 1, scan. cbn [app scan_loop index_byte].
    rewrite IH by done. by destruct (split [] s).
  - injection Hs as -> <-.
    change (read_chunks scan_read [] ((delim :: c) :: cs))
      with (read_chunks scan_read [delim] (c :: cs)).
    apply read_chunks_split; [set_solver|done].
Qed.

(** *** Streams written by a sender: each frame is a delimiter-free body
    between two delimiters. *)
Context (body : bytes -> bytes) (body_plain : forall p, delim ∉ body p)
  (emit_nil : emit [] = None).

Definition enframe (p : bytes) : bytes := delim :: body p ++ [delim].

Lemma split_enframe p rest :
  split [] (enframe p ++ rest) =
    let '(a, fs) := split [] rest in (a, option_list (emit (body p)) ++ fs).
Proof.
  unfold enframe. cbn [app split]. rewrite Z.eqb_refl, emit_nil.
  rewrite <- (assoc_L (++)), split_app, split_plain by apply body_plain.
  cbn [app split]. rewrite Z.eqb_refl. by destruct (split [] rest).
Qed.

Lemma split_stream ps :
  split [] (concat (map enframe ps)) = ([], omap (fun p => emit (body p)) ps).
Proof.
  induction ps as [|p ps IH]; [done|]. cbn [map concat].
  rewrite split_enframe, IH. cbn [omap list_omap]. by destruct (emit (body p)).
Qed.

Lemma split_stream_prefix ps p :
  p `prefix_of` concat (map enframe ps) ->
  (split [] p).1 = [] \/ exists q, q ∈ ps /\ (split [] p).1 `prefix_of` body q.
Proof.
  induction ps as [|q ps IH] in p |- *; cbn [map concat]; intros Hp.
  { apply prefix_nil_inv in Hp as ->. by left. }
  destruct (prefix_app_cases _ _ _ Hp) as [Hq|(p' & -> & Hp')].
  - clear Hp. unfold enframe in Hq. destruct p as [|b p]; [by left|].
    apply prefix_cons_inv_1 in Hq as Eb. apply prefix_cons_inv_2 in Hq. subst b.
    cbn [split]. rewrite Z.eqb_refl, emit_nil.
    destruct (prefix_app_cases _ _ _ Hq) as [Hb|(p' & -> & Hp')].
    + right. exists q. split; [set_solver|].
      rewrite split_plain; [done|].
      intros Hd. apply (body_plain q). destruct Hb as [k ->]. set_solver.
    + rewrite split_app, split_plain by apply body_plain.
      apply prefix_singleton in Hp' as [->| ->].
      * right. exists q. split; [set_solver|]. done.
      * left. cbn. by rewrite Z.eqb_refl.
  - rewrite split_enframe. destruct (IH p' Hp') as [Hl|(r & Hr & Hl)];
      destruct (split [] p') as [a fs]; cbn in *; [by left|].
    right. exists r. split; [set_solver|done].
Qed.
End ScanSpec.

(** ** The readers deliver what was sent *)

Lemma read_chunks_filter read f fb chunks :
  read_chunks (fun b c =>
    match read b c with
    | None => None | Some (b', out) => Some (b', List.filter f out)
    end) fb chunks =
  match read_chunks read fb chunks with
  | None => None | Some (b', out) => Some (b', List.filter f out)
  end.
Proof.
  induction chunks as [|c cs IH] in fb |- *; cbn [read_chunks]; [done|].
  destruct (read fb c) as [[b' out]|]; [|done]. rewrite IH.
  destruct (read_chunks read b' cs) as [[b'' out']|]; [|done].
  by rewrite List.filter_app.
Qed.

(** A scanning reader run on a sender's stream. *)
Lemma read_stream delim emit (overflow : Z -> bool) (body : bytes -> bytes)
    (ps chunks : list bytes) :
  (forall p, delim ∉ body p) -> emit [] = None ->
  (forall q, q ∈ ps -> forall r, r `prefix_of` body q -> overflow (1 + zlen r)%Z = false) ->
  concat chunks = concat (map (enframe delim body) ps) ->
  read_chunks (scan_read delim emit overflow) [] chunks =
    Some (match ps with [] => [] | _ => [delim] end,
          omap (fun p => emit (body p)) ps).
Proof.
  intros Hbody Hnil Hov Hs. destruct ps as [|p ps].
  - clear -Hs. induction chunks as [|c cs IH]; [done|].
    cbn in Hs. apply app_eq_nil in Hs as [-> Hs]. cbn. by rewrite (IH Hs).
  - pose proof (split_stream delim emit body Hbody Hnil (p :: ps)) as Hsp.
    rewrite (read_chunks_start delim emit overflow chunks
               ((body p ++ [delim]) ++ concat (map (enframe delim body) ps))).
    + cbn [map concat] in Hsp. unfold enframe at 1 in Hsp. cbn [app split] in Hsp.
      rewrite Z.eqb_refl, Hnil in Hsp. destruct (split _ _ [] _). by simplify_eq/=.
    + rewrite Hs. done.
    + intros r Hr.
      assert (delim :: r `prefix_of` concat (map (enframe delim body) (p :: ps))) as Hr'
        by (cbn; by apply prefix_cons).
      pose proof (split_stream_prefix delim emit overflow body Hbody Hnil _ _ Hr') as H.
      cbn [split] in H. rewrite Z.eqb_refl, Hnil in H. cbn in H.
      destruct (split delim emit [] r) as [a fs]. cbn in H |- *.
      destruct H as [->|(q & Hq & Ha)]; [|by apply (Hov q)].
      apply (Hov p); [set_solver|apply prefix_nil].
Qed.

Lemma omap_nonempty_filter (f : bytes -> bool) (ps : list bytes) :
  f [] = false -> List.filter f (omap nonempty ps) = List.filter f ps.
Proof.
  intros Hf. induction ps as [|p ps IH]; [done|]. cbn [omap list_omap List.filter].
  unfold nonempty at 1. destruct p as [|b p].
  - cbn. by rewrite Hf.
  - rewrite zlen_cons. pose proof (zlen_nonneg p).
    rewrite (proj2 (Z.ltb_lt 0 _)) by lia. cbn [List.filter]. by rewrite IH.
Qed.

Lemma omap_ext' {A B} (f g : A -> option B) (l : list A) :
  (forall x, f x = g x) -> omap f l = omap g l.
Proof. intros H. induction l as [|x l IH]; [done|]. cbn. by rewrite H, IH. Qed.

(** C14: however a TCP byte stream of HDLC frames is cut into reads, the read
    loop hands the inbound handler exactly the payloads the sender framed
    that pass the frame-length gate, in order and unaltered, provided each
    stuffed payload fits the reassembly buffer (twice the hardware MTU). *)
Theorem tcp_hdlc_stream_delivery hwmtu ifacSize payloads chunks :
  Forall (fun p => (zlen (HDLCEscape p) < 2 * hwmtu)%Z) payloads ->
  concat chunks = concat (map hdlc_frame payloads) ->
  read_chunks (tcp_hdlc_read hwmtu ifacSize) [] chunks =
    Some (match payloads with [] => [] | _ => [HDLCFlag] end,
          List.filter (fun p => CheckFrameLen (zlen p) hwmtu ifacSize) payloads).
Proof.
  intros Hfit Hs. unfold tcp_hdlc_read, hdlcReassemble.
  fold (scan_read HDLCFlag hdlc_emit (hdlc_overflow hwmtu)).
  rewrite (read_chunks_filter (scan_read HDLCFlag hdlc_emit (hdlc_overflow hwmtu))).
  rewrite (read_stream _ _ _ HDLCEscape payloads) by
    (try apply HDLCEscape_no_flag; try done;
     intros q Hq r [k Hk]; unfold hdlc_overflow; apply Z.ltb_ge;
     apply (proj1 (Forall_forall _ _) Hfit) in Hq; rewrite Hk, zlen_app in Hq;
     pose proof (zlen_nonneg k); lia).
  rewrite (omap_ext' _ nonempty)
    by (intros; unfold hdlc_emit; by rewrite HDLCUnescape_escape).
  by rewrite omap_nonempty_filter.
Qed.

(** Two frames cut in the middle of the first one and of its escape. *)
Lemma tcp_hdlc_stream_delivery_witness :
  let p1 := replicate 20 0x7D%Z in let p2 := 0x7E%Z :: replicate 20 1%Z in
  let s := concat (map hdlc_frame [p1; p2]) in
  read_chunks (tcp_hdlc_read 64 0) [] [take 6 s; drop 6 s] = Some ([HDLCFlag], [p1; p2]).
Proof.
  intros p1 p2 s.
  apply (tcp_hdlc_stream_delivery 64 0 [p1; p2] [take 6 s; drop 6 s]).
  - repeat constructor.
  - reflexivity.
Defined.

(** Reassembly always terminates, and what it keeps for the next read is
    empty or one start flag followed by flag-free bytes, at most twice the
    hardware MTU long whatever the peer sends. *)
Theorem hdlcReassemble_bounded frameBuffer hwmtu :
  (0 <= hwmtu)%Z ->
  exists tail frames,
    hdlcReassemble frameBuffer hwmtu = Some (tail, frames) /\
    (zlen tail <= 2 * hwmtu)%Z /\
    (tail = [] \/ exists r, tail = HDLCFlag :: r /\ HDLCFlag ∉ r).
Proof.
  intros Hm. unfold hdlcReassemble, scan.
  destruct (scan_loop_total HDLCFlag hdlc_emit (hdlc_overflow hwmtu)
              (S (length frameBuffer)) frameBuffer []) as [[tail frames] E]; [lia|].
  exists tail, frames. split; [done|]. clear -Hm E.
  revert E. generalize (S (length frameBuffer)) as fuel, (@nil bytes) as acc. intros fuel.
  induction fuel as [|fuel IH] in frameBuffer |- *; intros acc; cbn [scan_loop]; [done|].
  destruct (index_byte HDLCFlag frameBuffer) as [s|] eqn:E1.
  2:{ intros [= <- <-]. split; [rewrite zlen_nil; lia|by left]. }
  destruct (index_byte HDLCFlag (drop (s + 1) frameBuffer)) as [e|] eqn:E2; [apply IH|].
  unfold hdlc_overflow. destruct (Z.ltb_spec (hwmtu * 2) (zlen frameBuffer)) as [|Hle].
  { intros [= <- <-]. split; [rewrite zlen_nil; lia|by left]. }
  intros [= <- <-]. split.
  - unfold zlen in *. rewrite length_drop. lia.
  - right. apply index_byte_None in E2. apply index_byte_Some in E1 as (El & _ & Hl).
    exists (drop (s + 1) frameBuffer). split; [|done].
    rewrite El at 1. rewrite drop_app_length' by (rewrite length_take; lia).
    by rewrite Nat.add_1_r.
Qed.

Lemma hdlcReassemble_bounded_witness :
  exists tail frames,
    hdlcReassemble [1; 0x7E; 2; 3; 0x7E; 0x7E; 4]%Z 8 = Some (tail, frames) /\
    (zlen tail <= 16)%Z /\
    (tail = [] \/ exists r, tail = HDLCFlag :: r /\ HDLCFlag ∉ r).
Proof. apply (hdlcReassemble_bounded [1; 0x7E; 2; 3; 0x7E; 0x7E; 4]%Z 8). lia. Defined.

(** The KISS read loops of the TCP and serial interfaces deliver exactly
    the non-empty payloads that were framed as data, in order, whatever the
    read boundaries. *)
Theorem kiss_stream_delivery payloads chunks :
  concat chunks = concat (map (KISSFrame KISSCmdData) payloads) ->
  read_chunks kiss_read [] chunks =
    Some (match payloads with [] => [] | _ => [KISSFend] end, omap nonempty payloads).
Proof.
  intros Hs. unfold kiss_read. fold (scan_read KISSFend kiss_emit (fun _ => false)).
  rewrite (read_stream _ _ _ (fun p => KISSCmdData :: KISSEscape p) payloads); try done.
  - f_equal. f_equal. apply omap_ext'. intros p. unfold kiss_emit.
    change (Z.land KISSCmdData 15 =? KISSCmdData)%Z with true.
    by rewrite KISSUnescape_escape.
  - intros p. rewrite not_elem_of_cons. split; [done|apply KISSEscape_no_fend].
Qed.

Lemma kiss_stream_delivery_witness :
  let s := concat (map (KISSFrame KISSCmdData) [[0xC0; 0xDB]; []; [5]])%Z in
  read_chunks kiss_read [] [take 3 s; drop 3 s] =
    Some ([KISSFend], [[0xC0; 0xDB]; [5]])%Z.
Proof.
  intros s.
  apply (kiss_stream_delivery [[0xC0; 0xDB]; []; [5]]%Z [take 3 s; drop 3 s]). reflexivity.
Defined.

(** ** The byte-at-a-time reader *)

Lemma hdlc_rx_run_app hwmtu s l k :
  hdlc_rx_run hwmtu s (l ++ k) =
    let '(s1, o1) := hdlc_rx_run hwmtu s l in
    let '(s2, o2) := hdlc_rx_run hwmtu s1 k in (s2, o1 ++ o2).
Proof.
  induction l as [|b l IH] in s |- *; cbn [app hdlc_rx_run].
  - by destruct (hdlc_rx_run hwmtu s k).
  - destruct (hdlc_rx_step hwmtu s b) as [s1 o]. rewrite IH.
    destruct (hdlc_rx_run hwmtu s1 l) as [s2 o2], (hdlc_rx_run hwmtu s2 k).
    by rewrite (assoc_L (++)).
Qed.

Lemma hdlc_rx_plain hwmtu acc b :
  b <> HDLCFlag -> b <> HDLCEsc ->
  hdlc_rx_step hwmtu (HdlcRx true false acc) b =
    (HdlcRx true false (if (hwmtu <=? zlen acc)%Z then acc else acc ++ [b]), None).
Proof.
  intros H1 H2. unfold hdlc_rx_step. cbn.
  rewrite (proj2 (Z.eqb_neq _ _) H1), (proj2 (Z.eqb_neq _ _) H2).
  by destruct (hwmtu <=? zlen acc)%Z.
Qed.

(** An escape byte and the byte it protects add one byte to the buffer. *)
Lemma hdlc_rx_escape hwmtu acc :
  hdlc_rx_step hwmtu (HdlcRx true false acc) HDLCEsc =
    (HdlcRx true (negb (hwmtu <=? zlen acc)%Z) acc, None).
Proof. unfold hdlc_rx_step. cbn. by destruct (hwmtu <=? zlen acc)%Z. Qed.

Lemma hdlc_rx_escaped hwmtu acc c x k :
  Z.lxor c HDLCEscMask = x -> c <> HDLCFlag -> c <> HDLCEsc ->
  hdlc_rx_run hwmtu (HdlcRx true (negb (hwmtu <=? zlen acc)%Z) acc) (c :: k) =
  hdlc_rx_run hwmtu
    (HdlcRx true false (if (hwmtu <=? zlen acc)%Z then acc else acc ++ [x])) k.
Proof.
  intros Hx H1 H2. cbn [hdlc_rx_run]. unfold hdlc_rx_step. cbn [inFrame escape dataBuffer].
  rewrite (proj2 (Z.eqb_neq _ _) H1), (proj2 (Z.eqb_neq _ _) H2), Hx.
  destruct (hwmtu <=? zlen acc)%Z; cbn; by destruct (hdlc_rx_run _ _ _).
Qed.

(** Feeding a stuffed payload inside a frame appends it, up to the MTU. *)
Lemma hdlc_rx_payload hwmtu p acc :
  (0 <= hwmtu)%Z -> (zlen acc <= hwmtu)%Z ->
  hdlc_rx_run hwmtu (HdlcRx true false acc) (HDLCEscape p) =
    (HdlcRx true false (take (Z.to_nat hwmtu) (acc ++ p)), []).
Proof.
  intros Hm. induction p as [|b p IH] in acc |- *; intros Ha.
  { cbn. rewrite app_nil_r, take_ge; [done|]. unfold zlen in Ha. lia. }
  assert (Hnext : forall x,
    hdlc_rx_run hwmtu
      (HdlcRx true false (if (hwmtu <=? zlen acc)%Z then acc else acc ++ [x]))
      (HDLCEscape p) = (HdlcRx true false (take (Z.to_nat hwmtu) (acc ++ x :: p)), [])).
  { intros x. destruct (Z.leb_spec hwmtu (zlen acc)).
    - rewrite IH by done. unfold zlen in *. by rewrite !take_app_le by lia.
    - rewrite IH by (autorewrite with zlen; lia). by rewrite <- (assoc_L (++)). }
  assert (Hesc : forall c x, Z.lxor c HDLCEscMask = x -> c <> HDLCFlag -> c <> HDLCEsc ->
    hdlc_rx_run hwmtu (HdlcRx true false acc) (HDLCEsc :: c :: HDLCEscape p) =
      (HdlcRx true false (take (Z.to_nat hwmtu) (acc ++ x :: p)), [])).
  { intros c x Hx H1 H2. cbn [hdlc_rx_run].
    rewrite hdlc_rx_escape.
    pose proof (hdlc_rx_escaped hwmtu acc c x (HDLCEscape p) Hx H1 H2) as E.
    cbn [hdlc_rx_run] in E. rewrite E, Hnext. done. }
  cbn [HDLCEscape]. destruct (Z.eqb_spec b HDLCEsc) as [->|Hb]; [by apply Hesc|].
  destruct (Z.eqb_spec b HDLCFlag) as [->|Hb2]; [by apply Hesc|].
  cbn [hdlc_rx_run]. rewrite hdlc_rx_plain, Hnext by done. done.
Qed.

(** The pipe and serial readers turn a stream of HDLC frames back into
    the framed payloads, each cut at the interface MTU, dropping empty ones,
    and are idle again after each frame. *)
Theorem hdlc_rx_stream hwmtu payloads :
  (0 <= hwmtu)%Z ->
  hdlc_rx_run hwmtu hdlc_rx_init (concat (map hdlc_frame payloads)) =
    (hdlc_rx_init, omap (fun p => nonempty (take (Z.to_nat hwmtu) p)) payloads).
Proof.
  intros Hm. induction payloads as [|p ps IH]; [done|]. cbn [map concat].
  rewrite hdlc_rx_run_app. unfold hdlc_frame at 1. cbn [hdlc_rx_run].
  change (hdlc_rx_step hwmtu hdlc_rx_init HDLCFlag) with (HdlcRx true false [], @None bytes).
  cbn [option_list]. rewrite hdlc_rx_run_app, hdlc_rx_payload by (rewrite ?zlen_nil; lia).
  cbn [hdlc_rx_run app]. unfold hdlc_rx_step. cbn [inFrame dataBuffer escape].
  rewrite Z.eqb_refl. cbn [andb]. fold hdlc_rx_init. rewrite IH.
  cbn [omap list_omap]. by destruct (nonempty (take (Z.to_nat hwmtu) p)).
Qed.

Lemma hdlc_rx_stream_witness :
  hdlc_rx_run SerialHWMTU hdlc_rx_init (concat (map hdlc_frame [[0x7D; 0x7E]; []; [3]]%Z)) =
    (hdlc_rx_init, [[0x7D; 0x7E]; [3]]%Z).
Proof. apply (hdlc_rx_stream SerialHWMTU [[0x7D; 0x7E]; []; [3]]%Z). done. Defined.
