(* ===== verification/Crypto.v ===== *)
(** * Cryptographic envelopes

    Models [rns/crypto]: PKCS#7 padding ([pkcs7.go]), AES-CBC ([aes.go]),
    HMAC-SHA-256 ([hmac.go]), the authenticated [Token] envelope
    ([token.go]) and HKDF ([hkdf.go]).  The SHA-256 compression and the AES
    block permutation are parameters (classes [Sha256] and [BlockCipher])
    with their documented laws; the HMAC construction and CBC chaining of
    the Go standard library are written out. *)

From stdpp Require Import base tactics option list.
From Stdlib Require Import ZArith Lia.
From S2P Require Import Prelude.

(** ** Primitives *)

Class Sha256 := SHA256 : bytes -> bytes.
Class Sha256Laws `{Sha256} := {
  sha256_length m : length (SHA256 m) = 32%nat;
  sha256_bytes m : bytes_ok (SHA256 m);
}.

(** One AES block under a key accepted by [aes.NewCipher]. *)
Class BlockCipher := {
  enc_block : bytes -> bytes -> bytes;
  dec_block : bytes -> bytes -> bytes;
}.
Definition aes_key_ok (key : bytes) : Prop :=
  length key = 16%nat \/ length key = 32%nat.
Class BlockCipherLaws `{BlockCipher} := {
  enc_block_length key b : length b = 16%nat -> length (enc_block key b) = 16%nat;
  enc_block_bytes key b : bytes_ok b -> bytes_ok (enc_block key b);
  dec_enc_block key b : aes_key_ok key -> length b = 16%nat -> bytes_ok b ->
    dec_block key (enc_block key b) = b;
}.

Inductive crypto_err :=
  | ErrInvalidPadding
  | ErrInvalidKeyLength (bits : Z)
  | ErrTokenKeyLength (bits : Z)
  | ErrTokenHMAC
  | ErrTokenTooShort
  | ErrTokenDecrypt (e : crypto_err)
  | ErrOutputKeyLength
  | ErrEmptyKeyMaterial
  | ErrRandom.

(** ** PKCS#7 *)

Definition PKCS7Pad (data : bytes) (blockSize : Z) : res crypto_err bytes :=
  if (blockSize =? 0)%Z then Panic else
  let padding := (blockSize - Z.rem (zlen data) blockSize)%Z in
  let n := (zlen data + padding)%Z in
  if (n <? 0)%Z then Panic else
  Ok (take (Z.to_nat n) data ++ replicate (Z.to_nat (n - zlen data)) (u8 padding)).

Definition PKCS7Unpad (data : bytes) : res crypto_err bytes :=
  match last data with
  | None => Err ErrInvalidPadding
  | Some padding =>
      if (padding =? 0)%Z || (zlen data <? padding)%Z then Err ErrInvalidPadding
      else if forallb (fun b => (b =? u8 padding)%Z)
                (drop (length data - Z.to_nat padding) data)
      then Ok (take (length data - Z.to_nat padding) data)
      else Err ErrInvalidPadding
  end.

(** ** AES in CBC mode ([cipher.NewCBCEncrypter] and [NewCBCDecrypter]) *)

Section Aes.
Context `{BlockCipher}.

Fixpoint cbc_encrypt (nblocks : nat) (key prev src : bytes) : bytes :=
  match nblocks with
  | O => []
  | S n =>
      let c := enc_block key (xor_bytes (take 16 src) prev) in
      c ++ cbc_encrypt n key c (drop 16 src)
  end.

Fixpoint cbc_decrypt (nblocks : nat) (key prev src : bytes) : bytes :=
  match nblocks with
  | O => []
  | S n =>
      xor_bytes (dec_block key (take 16 src)) prev ++
      cbc_decrypt n key (take 16 src) (drop 16 src)
  end.

(** A wrong IV length panics in [NewCBC*], a partial block in
    [CryptBlocks]. *)
Definition crypt_blocks (mode : nat -> bytes -> bytes -> bytes -> bytes)
    (key iv src : bytes) : res crypto_err bytes :=
  if negb (zlen iv =? 16)%Z then Panic
  else if negb (zlen src mod 16 =? 0)%Z then Panic
  else Ok (mode (length src / 16)%nat key iv src).

Definition AES128CBCEncrypt (plaintext key iv : bytes) : res crypto_err bytes :=
  if negb (zlen key =? 16)%Z then Err (ErrInvalidKeyLength (zlen key * 8))
  else crypt_blocks cbc_encrypt key iv plaintext.

Definition AES128CBCDecrypt (ciphertext key iv : bytes) : res crypto_err bytes :=
  if negb (zlen key =? 16)%Z then Err (ErrInvalidKeyLength (zlen key * 8))
  else crypt_blocks cbc_decrypt key iv ciphertext.

Definition AES256CBCEncrypt (plaintext key iv : bytes) : res crypto_err bytes :=
  if negb (zlen key =? 32)%Z then Err (ErrInvalidKeyLength (zlen key * 8))
  else crypt_blocks cbc_encrypt key iv plaintext.

Definition AES256CBCDecrypt (ciphertext key iv : bytes) : res crypto_err bytes :=
  if negb (zlen key =? 32)%Z then Err (ErrInvalidKeyLength (zlen key * 8))
  else crypt_blocks cbc_decrypt key iv ciphertext.
End Aes.

(** ** HMAC and HKDF *)

Section Hmac.
Context `{Sha256}.

Definition hmac_pad (key : bytes) : bytes :=
  let key := if (64 <? zlen key)%Z then SHA256 key else key in
  key ++ replicate (64 - length key) 0%Z.

Definition HMAC (key data : bytes) : bytes :=
  let k := hmac_pad key in
  SHA256 (map (fun b => Z.lxor b 0x5c) k ++
          SHA256 (map (fun b => Z.lxor b 0x36) k ++ data)).

Definition hkdfHashLen : Z := 32.

(** The expand loop: iterations [i .. i + n - 1] starting from [block]. *)
Fixpoint hkdf_expand (n : nat) (i : Z) (prk context block : bytes) : bytes :=
  match n with
  | O => []
  | S n' =>
      let block' := HMAC prk (block ++ context ++ [u8 ((i + 1) mod 256)]) in
      block' ++ hkdf_expand n' (i + 1) prk context block'
  end.

(** [int(math.Ceil(float64(length) / 32))] is [(length + 31) / 32] for the
    lengths a float64 holds exactly (below 2^53). *)
Definition HKDF (length : Z) (deriveFrom salt context : bytes) : res crypto_err bytes :=
  if (length <? 1)%Z then Err ErrOutputKeyLength
  else if (zlen deriveFrom =? 0)%Z then Err ErrEmptyKeyMaterial
  else
    let salt := if (zlen salt =? 0)%Z then replicate (Z.to_nat hkdfHashLen) 0%Z else salt in
    let pseudoRandomKey := HMAC salt deriveFrom in
    let numBlocks := ((length + (hkdfHashLen - 1)) / hkdfHashLen)%Z in
    let derived := hkdf_expand (Z.to_nat numBlocks) 0 pseudoRandomKey context [] in
    Ok (take (Z.to_nat length) derived).
End Hmac.

(** ** The token envelope *)

Definition TokenOverhead : Z := 48.

Record Token := mkToken {
  signingKey : bytes;
  encryptionKey : bytes;
  isAES256 : bool;
}.

Definition NewToken (key : bytes) : res crypto_err Token :=
  if (zlen key =? 32)%Z then
    Ok {| signingKey := take 16 key; encryptionKey := drop 16 key; isAES256 := false |}
  else if (zlen key =? 64)%Z then
    Ok {| signingKey := take 32 key; encryptionKey := drop 32 key; isAES256 := true |}
  else Err (ErrTokenKeyLength (zlen key * 8)).

(** [RandomBytes]: what the process-wide source returns for a buffer of [n]
    bytes. *)
Definition random_source := nat -> res crypto_err bytes.

Definition GenerateTokenKey (rnd : random_source) (aes256 : bool) : res crypto_err bytes :=
  rnd (if aes256 then 64 else 32)%nat.

Section TokenOps.
Context `{Sha256, BlockCipher}.

Definition VerifyHMAC (t : Token) (token : bytes) : bool :=
  if (zlen token <=? 32)%Z then false else
  let receivedHMAC := drop (length token - 32) token in
  let signedParts := take (length token - 32) token in
  bytes_eqb receivedHMAC (HMAC (signingKey t) signedParts).

Definition Encrypt (rnd : random_source) (t : Token) (data : bytes) : res crypto_err bytes :=
  iv ← rnd 16%nat;
  padded ← PKCS7Pad data 16;
  ciphertext ← (if isAES256 t then AES256CBCEncrypt padded (encryptionKey t) iv
                else AES128CBCEncrypt padded (encryptionKey t) iv);
  let signedParts := iv ++ ciphertext in
  Ok (signedParts ++ HMAC (signingKey t) signedParts).

Definition Decrypt (t : Token) (token : bytes) : res crypto_err bytes :=
  if negb (VerifyHMAC t token) then Err ErrTokenHMAC
  else if (zlen token <? 16 + 32)%Z then Err ErrTokenTooShort
  else
    let iv := take 16 token in
    let ciphertext := slice 16 (length token - 32) token in
    match (if isAES256 t then AES256CBCDecrypt ciphertext (encryptionKey t) iv
           else AES128CBCDecrypt ciphertext (encryptionKey t) iv) with
    | Ok padded => PKCS7Unpad padded
    | Err e => Err (ErrTokenDecrypt e)
    | Panic => Panic
    end.
End TokenOps.

(** ** PKCS#7 *)

Lemma PKCS7Pad_eq data bs :
  (0 < bs)%Z ->
  exists p, (1 <= p <= bs)%Z /\ ((zlen data + p) mod bs = 0)%Z /\
    PKCS7Pad data bs = Ok (data ++ replicate (Z.to_nat p) (u8 p)).
Proof.
  intros Hbs. pose proof (zlen_nonneg data) as Hd.
  pose proof (Z.mod_pos_bound (zlen data) bs Hbs) as Hm.
  exists (bs - zlen data mod bs)%Z. split; [lia|]. split.
  - replace (zlen data + (bs - zlen data mod bs))%Z
      with ((zlen data - zlen data mod bs) + 1 * bs)%Z by lia.
    rewrite Z.mod_add by lia. rewrite Zminus_mod, Zmod_mod, Z.sub_diag. done.
  - unfold PKCS7Pad. rewrite (proj2 (Z.eqb_neq bs 0)) by lia.
    rewrite Z.rem_mod_nonneg by lia.
    rewrite (proj2 (Z.ltb_ge _ _)) by lia.
    rewrite take_ge by (unfold zlen in *; lia).
    do 3 f_equal. lia.
Qed.

Lemma forallb_replicate b l :
  forallb (fun x => (x =? b)%Z) l = true -> l = replicate (length l) b.
Proof.
  induction l as [|x l IH]; [done|]. cbn. intros [Hx Hl]%andb_true_iff.
  apply Z.eqb_eq in Hx as ->. by rewrite <- IH.
Qed.

Lemma forallb_replicate_true b n : forallb (fun x => (x =? b)%Z) (replicate n b) = true.
Proof. induction n; cbn; [done|]. by rewrite Z.eqb_refl. Qed.

Lemma last_app_replicate (r : bytes) p b :
  (0 < p)%nat -> last (r ++ replicate p b) = Some b.
Proof. intros. destruct p; [lia|]. rewrite replicate_S_end, (assoc_L (++)). apply last_snoc. Qed.

Lemma PKCS7Unpad_pad r p :
  (1 <= p <= 255)%Z -> PKCS7Unpad (r ++ replicate (Z.to_nat p) p) = Ok r.
Proof.
  intros Hp. unfold PKCS7Unpad. rewrite last_app_replicate by lia.
  rewrite (proj2 (Z.eqb_neq p 0)) by lia. cbn [orb].
  rewrite zlen_app, zlen_replicate. pose proof (zlen_nonneg r).
  rewrite (proj2 (Z.ltb_ge _ _)) by lia.
  rewrite length_app, length_replicate.
  replace (length r + Z.to_nat p - Z.to_nat p)%nat with (length r) by lia.
  rewrite drop_app_length, take_app_length, u8_id by (unfold is_byte; lia).
  by rewrite forallb_replicate_true.
Qed.

(** PKCS#7 removal succeeds exactly on well-padded buffers and strips
    exactly the padding: the result is [r] iff the buffer is [r] followed by
    [p] copies of [p] for some [p] in [1, 255]. *)
Theorem PKCS7Unpad_spec data r :
  bytes_ok data ->
  PKCS7Unpad data = Ok r <->
  exists p, (1 <= p <= 255)%Z /\ data = r ++ replicate (Z.to_nat p) p.
Proof.
  intros Hok. split.
  - unfold PKCS7Unpad. destruct (last data) as [p|] eqn:El; [|done].
    assert (is_byte p) as Hp.
    { apply last_Some in El as [k ->]. apply bytes_ok_app_inv in Hok as [_ Hok].
      by inversion Hok. }
    destruct (Z.eqb_spec p 0) as [|Hnz]; [done|].
    destruct (Z.ltb_spec (zlen data) p) as [|Hle]; [done|]. cbn [orb].
    rewrite u8_id by done.
    destruct (forallb _ _) eqn:Ef; [|done]. intros [= <-].
    apply forallb_replicate in Ef. unfold is_byte in Hp. exists p. split; [lia|].
    rewrite length_drop in Ef. unfold zlen in Hle.
    replace (length data - (length data - Z.to_nat p))%nat with (Z.to_nat p) in Ef by lia.
    by rewrite <- Ef, take_drop.
  - intros (p & Hp & ->). by apply PKCS7Unpad_pad.
Qed.

Lemma PKCS7Unpad_spec_witness :
  PKCS7Unpad [7; 2; 2]%Z = Ok [7]%Z <->
  exists p, (1 <= p <= 255)%Z /\ [7; 2; 2]%Z = [7]%Z ++ replicate (Z.to_nat p) p.
Proof. apply (PKCS7Unpad_spec [7; 2; 2]%Z [7]%Z). solve_bytes. Defined.

(** ** CBC *)

Section CbcFacts.
Context `{BlockCipherLaws}.

Lemma cbc_encrypt_length n key prev src :
  length prev = 16%nat -> length src = (n * 16)%nat ->
  length (cbc_encrypt n key prev src) = (n * 16)%nat.
Proof.
  revert prev src. induction n as [|n IH]; intros prev src Hp Hs; cbn; [done|].
  rewrite length_app, IH; rewrite ?length_drop, ?enc_block_length; try lia;
    rewrite xor_bytes_length; rewrite ?length_take; lia.
Qed.

Lemma cbc_roundtrip n key prev src :
  aes_key_ok key -> length prev = 16%nat -> length src = (n * 16)%nat ->
  bytes_ok prev -> bytes_ok src ->
  cbc_decrypt n key prev (cbc_encrypt n key prev src) = src.
Proof.
  intros Hk. revert prev src. induction n as [|n IH]; intros prev src Hp Hs Hpo Hso.
  { cbn. destruct src; [done|cbn in Hs; lia]. }
  cbn [cbc_encrypt cbc_decrypt].
  set (x := xor_bytes (take 16 src) prev).
  assert (length x = 16%nat) as Hx.
  { unfold x. rewrite xor_bytes_length; rewrite length_take; lia. }
  assert (bytes_ok x) as Hxo by (unfold x; eauto with go).
  pose proof (enc_block_length key x Hx) as Hc.
  rewrite take_app_length', drop_app_length' by lia.
  rewrite dec_enc_block by done. unfold x at 1.
  rewrite xor_bytes_involutive by (rewrite length_take; lia).
  rewrite IH; [by rewrite take_drop|done|rewrite length_drop; lia| |by apply bytes_ok_drop].
  by apply enc_block_bytes.
Qed.

Lemma cbc_encrypt_bytes n key prev src : bytes_ok prev -> bytes_ok src -> bytes_ok (cbc_encrypt n key prev src).
Proof.
  revert prev src. induction n as [|n IH]; intros prev src Hp Hs; [constructor|]. cbn [cbc_encrypt].
  assert (bytes_ok (enc_block key (xor_bytes (take 16 src) prev))) as Hc by (apply enc_block_bytes; eauto with go).
  apply bytes_ok_app; [done|]. apply IH; [done|by apply bytes_ok_drop].
Qed.

Lemma crypt_blocks_ok mode key iv src n :
  length iv = 16%nat -> length src = (n * 16)%nat ->
  crypt_blocks mode key iv src = Ok (mode n key iv src).
Proof.
  intros Hi Hs. unfold crypt_blocks, zlen. rewrite Hi, Hs.
  rewrite Nat2Z.inj_mul, Z_mod_mult, Nat.div_mul by lia. done.
Qed.
End CbcFacts.

(** ** Tokens *)

Lemma NewToken_keys key t :
  NewToken key = Ok t ->
  length (encryptionKey t) = (if isAES256 t then 32 else 16)%nat.
Proof.
  unfold NewToken, zlen. destruct (Z.eqb_spec (Z.of_nat (length key)) 32).
  { intros [= <-]. cbn. rewrite length_drop. lia. }
  destruct (Z.eqb_spec (Z.of_nat (length key)) 64); [|done].
  intros [= <-]. cbn. rewrite length_drop. lia.
Qed.

Section TokenFacts.
Context `{Sha256Laws, BlockCipherLaws}.

Lemma HMAC_length key data : length (HMAC key data) = 32%nat.
Proof. apply sha256_length. Qed.

(** Both AES variants reduce to the CBC mode under a token's key. *)
Lemma token_encrypt_mode key t iv padded n :
  NewToken key = Ok t -> length iv = 16%nat -> length padded = (n * 16)%nat ->
  (if isAES256 t then AES256CBCEncrypt padded (encryptionKey t) iv
   else AES128CBCEncrypt padded (encryptionKey t) iv) =
  Ok (cbc_encrypt n (encryptionKey t) iv padded).
Proof.
  intros Ht Hi Hp. apply NewToken_keys in Ht.
  unfold AES256CBCEncrypt, AES128CBCEncrypt, zlen. rewrite Ht.
  destruct (isAES256 t); cbn [Z.of_nat Z.eqb negb]; by apply crypt_blocks_ok.
Qed.

Lemma token_decrypt_mode key t iv ct :
  NewToken key = Ok t ->
  (if isAES256 t then AES256CBCDecrypt ct (encryptionKey t) iv
   else AES128CBCDecrypt ct (encryptionKey t) iv) =
  crypt_blocks cbc_decrypt (encryptionKey t) iv ct.
Proof.
  intros Ht. apply NewToken_keys in Ht.
  unfold AES256CBCDecrypt, AES128CBCDecrypt, zlen. rewrite Ht.
  by destruct (isAES256 t).
Qed.

Lemma Encrypt_ok rnd key t iv data :
  NewToken key = Ok t -> rnd 16%nat = Ok iv -> length iv = 16%nat ->
  exists p n,
    (1 <= p <= 16)%Z /\ length (data ++ replicate (Z.to_nat p) p) = (n * 16)%nat /\
    let signed := iv ++ cbc_encrypt n (encryptionKey t) iv
                          (data ++ replicate (Z.to_nat p) p) in
    Encrypt rnd t data = Ok (signed ++ HMAC (signingKey t) signed).
Proof.
  intros Ht Hr Hi. destruct (PKCS7Pad_eq data 16) as (p & Hp & Hm & E); [lia|].
  set (padded := data ++ replicate (Z.to_nat p) p).
  assert (u8 p = p) as Hu by (apply u8_id; unfold is_byte; lia).
  rewrite Hu in E.
  assert (length padded = (Z.to_nat ((zlen data + p) / 16) * 16)%nat) as Hl.
  { unfold padded. rewrite length_app, length_replicate.
    pose proof (Z.div_mod (zlen data + p) 16). pose proof (zlen_nonneg data).
    pose proof (Z.div_pos (zlen data + p) 16). unfold zlen in *. lia. }
  exists p, (Z.to_nat ((zlen data + p) / 16)). split; [done|]. split; [done|].
  unfold Encrypt. rewrite Hr. cbn [mbind res_bind]. rewrite E. cbn [mbind res_bind].
  fold padded. rewrite (token_encrypt_mode key t iv padded _ Ht Hi Hl). done.
Qed.

Lemma Encrypt_longer rnd key t iv data token :
  NewToken key = Ok t -> rnd 16%nat = Ok iv -> length iv = 16%nat -> Encrypt rnd t data = Ok token ->
  (zlen data + 48 < zlen token)%Z.
Proof.
  intros Ht Hr Hi. destruct (Encrypt_ok rnd key t iv data Ht Hr Hi) as (p & n & Hp & Hl & ->). intros [= <-].
  unfold zlen. rewrite !length_app, HMAC_length, (cbc_encrypt_length n), Hi by done.
  rewrite length_app, length_replicate in Hl. lia.
Qed.

Lemma Encrypt_bytes rnd key t iv data token :
  NewToken key = Ok t -> rnd 16%nat = Ok iv -> length iv = 16%nat -> bytes_ok iv -> bytes_ok data ->
  Encrypt rnd t data = Ok token -> bytes_ok token.
Proof.
  intros Ht Hr Hi Hio Hdo. destruct (Encrypt_ok rnd key t iv data Ht Hr Hi) as (p & n & Hp & Hl & ->). intros [= <-].
  apply bytes_ok_app; [apply bytes_ok_app; [done|]|apply sha256_bytes].
  apply cbc_encrypt_bytes; [done|]. apply bytes_ok_app; [done|]. apply bytes_ok_replicate. unfold is_byte. lia.
Qed.

(** Opening what was sealed, and how long a token is. *)
Lemma Token_opens rnd key t iv data :
  NewToken key = Ok t -> rnd 16%nat = Ok iv -> length iv = 16%nat ->
  bytes_ok iv -> bytes_ok data ->
  exists token, Encrypt rnd t data = Ok token /\ Decrypt t token = Ok data /\
    zlen token = (TokenOverhead + 16 * (zlen data / 16 + 1))%Z.
Proof.
  intros Ht Hr Hi Hio Hdo.
  destruct (Encrypt_ok rnd key t iv data Ht Hr Hi) as (p & n & Hp & Hl & E).
  set (padded := data ++ replicate (Z.to_nat p) p) in *.
  set (ct := cbc_encrypt n (encryptionKey t) iv padded) in *.
  assert (length ct = (n * 16)%nat) as Hct by (by apply cbc_encrypt_length).
  set (mac := HMAC (signingKey t) (iv ++ ct)) in *.
  assert (length mac = 32%nat) as Hmac by apply HMAC_length.
  exists ((iv ++ ct) ++ mac). split; [exact E|]. split.
  - assert (length ((iv ++ ct) ++ mac) - 32 = length (iv ++ ct))%nat as Hcut.
    { rewrite length_app. lia. }
    unfold Decrypt, VerifyHMAC. rewrite Hcut.
    rewrite (proj2 (Z.leb_gt _ _)), (proj2 (Z.ltb_ge _ _))
      by (unfold zlen; rewrite !length_app; lia).
    rewrite drop_app_length, take_app_length. fold mac. rewrite bytes_eqb_refl.
    cbn [negb]. rewrite (token_decrypt_mode key t _ _ Ht).
    unfold slice. rewrite <- (assoc_L (++)), take_app_length' by done.
    rewrite drop_app_length' by done.
    rewrite take_app_length' by (rewrite length_app; lia).
    rewrite (crypt_blocks_ok _ _ _ _ n) by done. unfold ct.
    rewrite cbc_roundtrip; try done.
    + apply PKCS7Unpad_pad. lia.
    + unfold aes_key_ok. rewrite (NewToken_keys key t Ht). destruct (isAES256 t); auto.
    + apply bytes_ok_app; [done|]. apply bytes_ok_replicate. unfold is_byte. lia.
  - unfold TokenOverhead, zlen. rewrite !length_app, Hmac, Hct, Hi.
    unfold padded in Hl. rewrite length_app, length_replicate in Hl.
    pose proof (Z.div_mod (Z.of_nat (length data)) 16).
    pose proof (Z.mod_pos_bound (Z.of_nat (length data)) 16). lia.
Qed.

(** A token decrypts back to the sealed plaintext, for both key sizes,
    every plaintext and every initialization vector, and is the IV, the
    padded ciphertext and the 32-byte MAC long. *)
Theorem Token_roundtrip rnd key t iv data :
  NewToken key = Ok t -> rnd 16%nat = Ok iv -> length iv = 16%nat ->
  bytes_ok iv -> bytes_ok data ->
  exists token, Encrypt rnd t data = Ok token /\ Decrypt t token = Ok data /\
    zlen token = (TokenOverhead + 16 * (zlen data / 16 + 1))%Z.
Proof. apply Token_opens. Qed.

(** Every outcome of opening a token.  A token whose last 32 bytes are
    not the MAC of the rest is rejected before decryption; an authentic one
    shorter than IV and MAC is rejected; an authentic one whose ciphertext
    is not a whole number of blocks panics in the block mode; otherwise the
    result is that of removing the padding of the decrypted blocks. *)
Theorem Token_Decrypt_outcomes key t token :
  NewToken key = Ok t ->
  let ct := slice 16 (length token - 32) token in
  Decrypt t token =
    if negb (VerifyHMAC t token) then Err ErrTokenHMAC
    else if (zlen token <? 48)%Z then Err ErrTokenTooShort
    else if negb (zlen token mod 16 =? 0)%Z then Panic
    else PKCS7Unpad (cbc_decrypt (length ct / 16) (encryptionKey t) (take 16 token) ct).
Proof.
  intros Ht ct. unfold Decrypt. destruct (negb (VerifyHMAC t token)); [done|].
  change (16 + 32)%Z with 48%Z. destruct (Z.ltb_spec (zlen token) 48) as [|Hlen]; [done|].
  rewrite (token_decrypt_mode key t _ _ Ht). fold ct. unfold crypt_blocks.
  assert (zlen (take 16 token) = 16%Z) as ->.
  { unfold zlen in *. rewrite length_take. lia. }
  assert (zlen ct = (zlen token - 48)%Z) as Hct.
  { unfold ct, slice, zlen in *. rewrite length_take, length_drop. lia. }
  cbn [Z.eqb negb]. rewrite Hct.
  replace ((zlen token - 48) mod 16)%Z with (zlen token mod 16)%Z.
  2:{ replace (zlen token - 48)%Z with (zlen token + (-3) * 16)%Z by lia.
      by rewrite Z.mod_add. }
  by destruct (negb (zlen token mod 16 =? 0)%Z).
Qed.

Lemma hkdf_expand_length n i prk ctx block :
  length (hkdf_expand n i prk ctx block) = (n * 32)%nat.
Proof.
  revert i block. induction n as [|n IH]; intros i block; cbn; [done|].
  by rewrite length_app, IH, HMAC_length.
Qed.

Lemma hkdf_expand_prefix n m i prk ctx block :
  (n <= m)%nat ->
  hkdf_expand n i prk ctx block `prefix_of` hkdf_expand m i prk ctx block.
Proof.
  revert m i block. induction n as [|n IH]; intros m i block Hm; cbn.
  - apply prefix_nil.
  - destruct m as [|m]; [lia|]. cbn. apply prefix_app, IH. lia.
Qed.

(** The expansion yields as many bytes as were asked for. *)
Lemma hkdf_enough prk context (k : Z) :
  (1 <= k)%Z ->
  (Z.to_nat k <= length (hkdf_expand (Z.to_nat ((k + (hkdfHashLen - 1)) / hkdfHashLen)) 0 prk context []))%nat.
Proof.
  intros Hk. rewrite hkdf_expand_length. unfold hkdfHashLen.
  pose proof (Z.div_mod (k + (32 - 1)) 32). pose proof (Z.mod_pos_bound (k + (32 - 1)) 32). lia.
Qed.

Lemma HKDF_size n deriveFrom salt context :
  (1 <= n)%Z -> deriveFrom <> [] -> exists k, HKDF n deriveFrom salt context = Ok k /\ zlen k = n.
Proof.
  intros Hn Hne. unfold HKDF. rewrite (proj2 (Z.ltb_ge _ _)) by lia.
  rewrite (proj2 (Z.eqb_neq (zlen deriveFrom) 0))
    by (destruct deriveFrom; [done|rewrite zlen_cons; pose proof (zlen_nonneg deriveFrom); lia]).
  eexists. split; [reflexivity|]. unfold zlen. rewrite length_take, Nat.min_l by (by apply hkdf_enough). lia.
Qed.

(** HKDF returns exactly the number of bytes asked for, and asking for
    fewer bytes of the same key material gives a prefix of asking for
    more. *)
Theorem HKDF_length_prefix n m deriveFrom salt context :
  (1 <= n <= m)%Z -> deriveFrom <> [] ->
  exists short long,
    HKDF n deriveFrom salt context = Ok short /\
    HKDF m deriveFrom salt context = Ok long /\
    zlen short = n /\ zlen long = m /\ short `prefix_of` long.
Proof.
  intros Hn Hne. unfold HKDF.
  rewrite !(proj2 (Z.ltb_ge _ _)) by lia.
  rewrite (proj2 (Z.eqb_neq (zlen deriveFrom) 0))
    by (destruct deriveFrom; [done|rewrite zlen_cons; pose proof (zlen_nonneg deriveFrom); lia]).
  set (prk := HMAC _ deriveFrom).
  pose proof (hkdf_enough prk context) as Hlen.
  eexists _, _. do 2 (split; [reflexivity|]).
  unfold zlen. rewrite !length_take, !Nat.min_l by (apply Hlen; lia).
  split_and!; [lia|lia|].
  set (d := hkdf_expand (Z.to_nat ((m + _) / _)) 0 prk context []).
  assert (hkdf_expand (Z.to_nat ((n + (hkdfHashLen - 1)) / hkdfHashLen)) 0 prk context []
            `prefix_of` d) as [k Hk].
  { apply hkdf_expand_prefix, Z2Nat.inj_le; unfold hkdfHashLen;
      [apply Z.div_pos; lia..|apply Z.div_le_mono; lia]. }
  assert (take (Z.to_nat n) d = take (Z.to_nat n) (hkdf_expand
    (Z.to_nat ((n + (hkdfHashLen - 1)) / hkdfHashLen)) 0 prk context [])) as <-.
  { rewrite Hk. apply take_app_le, Hlen. lia. }
  apply take_prefix_le. lia.
Qed.
End TokenFacts.

(** ** A concrete instance, for the witnesses: a checksum in place of the
    hash and a keyed reversal in place of the block permutation. *)
Module ToyCrypto.
#[export] Instance toy_sha : Sha256 := fun m =>
  be_enc 32 (fold_left (fun a b => (a * 31 + b + 7)%Z) m 1%Z).
#[export] Instance toy_sha_laws : Sha256Laws.
Proof. split; intros m; [apply be_enc_length|apply be_enc_ok]. Qed.
#[export] Instance toy_cipher : BlockCipher :=
  {| enc_block := fun _ b => reverse b; dec_block := fun _ b => reverse b |}.
#[export] Instance toy_cipher_laws : BlockCipherLaws.
Proof.
  split; cbn; intros key b.
  - by rewrite length_reverse.
  - apply Forall_reverse.
  - intros _ _ _. apply reverse_involutive.
Qed.
Definition rnd : random_source := fun n => Ok (replicate n 9%Z).
Definition key : bytes := replicate 32 5%Z.
Definition tok : Token :=
  {| signingKey := replicate 16 5%Z; encryptionKey := replicate 16 5%Z; isAES256 := false |}.
End ToyCrypto.

Section CryptoWitnesses.
Import ToyCrypto.

Lemma Token_roundtrip_witness :
  exists token, Encrypt rnd tok [1; 2; 3]%Z = Ok token /\
    Decrypt tok token = Ok [1; 2; 3]%Z /\
    zlen token = (TokenOverhead + 16 * (zlen [1; 2; 3]%Z / 16 + 1))%Z.
Proof.
  apply (Token_roundtrip rnd key tok (replicate 16 9%Z) [1; 2; 3]%Z);
    [reflexivity..|solve_bytes|solve_bytes].
Defined.

(** An authentic token with a 17-byte ciphertext. *)
Lemma Token_Decrypt_outcomes_witness :
  let body := replicate 33 0%Z in
  Decrypt tok (body ++ HMAC (signingKey tok) body) = Panic.
Proof.
  intros body. rewrite (Token_Decrypt_outcomes key tok) by reflexivity.
  vm_compute. reflexivity.
Defined.

Lemma HKDF_length_prefix_witness :
  exists short long,
    HKDF 20 [1%Z] [] [] = Ok short /\ HKDF 70 [1%Z] [] [] = Ok long /\
    zlen short = 20%Z /\ zlen long = 70%Z /\ short `prefix_of` long.
Proof. apply (HKDF_length_prefix 20 70 [1%Z] [] []); [lia|discriminate]. Defined.
End CryptoWitnesses.
