(* ===== verification/Packet.v ===== *)
(** * Packets and delivery receipts

    Models [rns/packet.go] with the constants of [rns/constants.go] and the
    hash helpers of [rns/identity.go]: the packet record, its wire format
    ([Pack] and [Unpack]), the transport-independent packet hash, [Send] up
    to the hand-over to the transport, and the [PacketReceipt] state
    machine.  The destination interface is a record of operations; float64
    times are Rocq's primitive floats. *)

From stdpp Require Import base tactics option list.
From Stdlib Require Import ZArith Lia PrimFloat.
From S2P Require Import Prelude Crypto.
Local Open Scope go_scope.

(** ** Constants *)

Definition PacketData : Z := 0x00.
Definition PacketAnnounce : Z := 0x01.
Definition PacketLinkRequest : Z := 0x02.
Definition PacketProof : Z := 0x03.
Definition Header1 : Z := 0x00.
Definition Header2 : Z := 0x01.
Definition TransportRelay : Z := 0x02.
Definition TransportTunnel : Z := 0x03.
Definition ContextNone : Z := 0x00.
Definition ContextResource : Z := 0x01.
Definition ContextResourcePrf : Z := 0x05.
Definition ContextCacheRequest : Z := 0x08.
Definition ContextChannel : Z := 0x0e.
Definition ContextKeepalive : Z := 0xfa.
Definition ContextLrproof : Z := 0xff.
Definition FlagUnset : Z := 0x00.
Definition DestinationSingle : Z := 0x00.
Definition DestinationPlain : Z := 0x02.
Definition DestinationLink : Z := 0x03.
Definition MTU : Z := 500.
Definition PathfinderM : Z := 128.
Definition TruncatedHashLength : Z := 128.
Definition HashLength : Z := 256.
Definition dstLen : nat := 16. (* TruncatedHashLength/8 *)
Definition ExplLength : Z := HashLength / 8 + 64.
Definition ImplLength : Z := 64.

Inductive pkt_err :=
  | ErrNoDestination
  | ErrNoTransportID
  | ErrExceedsMTU (size mtu : Z)
  | ErrTooShort
  | ErrTooShortHeader1
  | ErrTooShortHeader2
  | ErrHopCount (hops : Z)
  | ErrAlreadySent
  | ErrHopBudget (hops : Z)
  | ErrLinkClosed
  | ErrUnknownTransport
  | ErrEncrypt.

(** ** Destinations

    What a [PacketDestination] promises, and which Go type implements it:
    a [*Destination] (with its identity's [Verify], if it has one), a
    [*Link] (with its status and [Verify]), or another one. *)

Inductive dest_impl :=
  | DDestination (latestRatchetID : option bytes) (verifier : option (bytes -> bytes -> bool))
  | DLink (closed : bool) (verify : bytes -> bytes -> bool)
  | DOther.

Record PacketDestination := {
  GetHash : bytes;
  GetType : Z;
  HasTransport : bool;
  DEncrypt : bytes -> res pkt_err bytes;
  Impl : dest_impl;
}.

Definition FullHash `{Sha256} (data : bytes) : bytes := SHA256 data.
Definition TruncatedHash `{Sha256} (data : bytes) : bytes := take dstLen (FullHash data).

(** ** Receipts *)

Definition ReceiptFailed : Z := 0x00.
Definition ReceiptSent : Z := 0x01.
Definition ReceiptDelivered : Z := 0x02.
Definition ReceiptCulled : Z := 0xff.
Definition receiptTimeoutCulled : float := (-1)%float.

Record PacketReceipt := mkReceipt {
  RHash : bytes;
  RTruncatedHash : bytes;
  RSent : bool;
  RSentAt : float;
  RTimeout : float;
  RProved : bool;
  RStatus : Z;
  RDestination : option PacketDestination;
  RConcludedAt : float;
  timeoutCallback : bool;
  deliveryCallback : bool;
}.
#[global] Instance eta_PacketReceipt : Eta PacketReceipt := fun r =>
  mkReceipt (RHash r) (RTruncatedHash r) (RSent r) (RSentAt r) (RTimeout r) (RProved r)
    (RStatus r) (RDestination r) (RConcludedAt r) (timeoutCallback r) (deliveryCallback r).

(** ** The packet record *)

Record Packet := mkPacket {
  Hops : Z;
  HeaderType : Z;
  PacketType : Z;
  TransportType : Z;
  Context : Z;
  ContextFlag : Z;
  Destination : option PacketDestination;
  TransportID : bytes;
  Data : bytes;
  Flags : Z;
  Raw : bytes;
  Packed : bool;
  Sent : bool;
  CreateReceipt : bool;
  Receipt : option PacketReceipt;
  FromPacked : bool;
  PMTU : Z;
  SentAt : float;
  PacketHash : bytes;
  RatchetID : option bytes;
  DestinationHash : bytes;
  DestinationType : Z;
  Ciphertext : bytes;
  transport : bool;
}.
#[global] Instance eta_Packet : Eta Packet := fun p =>
  mkPacket (Hops p) (HeaderType p) (PacketType p) (TransportType p) (Context p)
    (ContextFlag p) (Destination p) (TransportID p) (Data p) (Flags p) (Raw p) (Packed p)
    (Sent p) (CreateReceipt p) (Receipt p) (FromPacked p) (PMTU p) (SentAt p) (PacketHash p)
    (RatchetID p) (DestinationHash p) (DestinationType p) (Ciphertext p) (transport p).

(** The zero value of the struct. *)
Definition zeroPacket : Packet :=
  mkPacket 0 0 0 0 0 0 None [] [] 0 [] false false false None false 0 0 [] None [] 0 [] false.

Definition packFlags (headerType contextFlag transportType destType packetType : Z) : Z :=
  u8 (Z.lor (Z.lor (Z.lor (Z.lor (Z.shiftl headerType 6) (Z.shiftl contextFlag 5))
                          (Z.shiftl transportType 4)) (Z.shiftl destType 2)) packetType).

Definition calculatePackedFlags (p : Packet) : Z :=
  if (Context p =? ContextLrproof)%Z then
    packFlags (HeaderType p) (ContextFlag p) (TransportType p) DestinationLink (PacketType p)
  else
    let destType := match Destination p with
                    | Some d => GetType d | None => DestinationPlain end in
    packFlags (HeaderType p) (ContextFlag p) (TransportType p) destType (PacketType p).

Definition NewPacketWithTransport (ts : bool) (destination : option PacketDestination)
    (data : bytes) : Packet :=
  let p := zeroPacket <| Destination := destination |> <| Data := data |>
             <| PacketType := PacketData |> <| Context := ContextNone |>
             <| TransportType := 0%Z |> <| HeaderType := Header1 |>
             <| CreateReceipt := true |> <| ContextFlag := FlagUnset |>
             <| PMTU := MTU |> <| transport := ts |> in
  match destination with
  | None => p
  | Some d =>
      let p := p <| DestinationType := GetType d |> in
      let p := match Impl d with
               | DDestination (Some r) _ => p <| RatchetID := Some r |>
               | _ => p
               end in
      p <| Flags := calculatePackedFlags p |>
  end.

Definition NewPacket (destination : PacketDestination) (data : bytes) : Packet :=
  NewPacketWithTransport (HasTransport destination) (Some destination) data.

Definition NewPacketFromRaw (data : bytes) : Packet :=
  zeroPacket <| Raw := data |> <| Packed := true |> <| FromPacked := true |>
    <| CreateReceipt := false |>.

(** The part of the packet covered by its hash: the low four flag bits and
    everything after the transport ID.  Slicing past the end of [Raw]
    panics. *)
Definition GetHashablePart (p : Packet) : res pkt_err bytes :=
  match Raw p with
  | [] => Panic
  | r0 :: _ =>
      let start := if (HeaderType p =? Header2)%Z then (dstLen + 2)%nat else 2%nat in
      if (length (Raw p) <? start)%nat then Panic
      else Ok (Z.land r0 0x0F :: drop start (Raw p))
  end.

Section WithHash.
Context `{Sha256}.

Definition PGetHash (p : Packet) : res pkt_err bytes := FullHash <$> GetHashablePart p.

Definition GetTruncatedHash (p : Packet) : res pkt_err bytes :=
  TruncatedHash <$> GetHashablePart p.

Definition UpdateHash (p : Packet) : res pkt_err Packet :=
  h ← PGetHash p; Ok (p <| PacketHash := h |>).

(** Whether a header-1 packet's payload is encrypted for its destination. *)
Definition shouldEncrypt (p : Packet) : bool :=
  negb ((PacketType p =? PacketAnnounce)%Z ||
        (PacketType p =? PacketLinkRequest)%Z ||
        ((PacketType p =? PacketProof)%Z && (Context p =? ContextResourcePrf)%Z) ||
        ((PacketType p =? PacketProof)%Z && (DestinationType p =? DestinationLink)%Z) ||
        (Context p =? ContextResource)%Z ||
        (Context p =? ContextKeepalive)%Z ||
        (Context p =? ContextCacheRequest)%Z ||
        (Context p =? ContextLrproof)%Z).

(** The end of [Pack]: append the context and the ciphertext, check the
    MTU, hash. *)
Definition finishPack (p : Packet) (header : bytes) : Packet * res pkt_err unit :=
  let header := header ++ [u8 (Context p)] in
  let p := p <| Raw := header ++ Ciphertext p |> in
  if (PMTU p <? zlen (Raw p))%Z then
    (p, Err (ErrExceedsMTU (zlen (Raw p)) (PMTU p)))
  else
    let p := p <| Packed := true |> in
    match UpdateHash p with
    | Ok p' => (p', Ok tt)
    | Err e => (p, Err e)
    | Panic => (p, Panic)
    end.

(** [Pack] mutates the packet as it goes: the packet after the call, and
    [Ok tt] for a nil error. *)
Definition Pack (p : Packet) : Packet * res pkt_err unit :=
  match Destination p with
  | None => (p, Err ErrNoDestination)
  | Some d =>
      let p := p <| DestinationHash := GetHash d |> in
      let p := p <| Flags := calculatePackedFlags p |> in
      let header := [Flags p; u8 (Hops p)] in
      if (HeaderType p =? Header1)%Z then
        let header := header ++ DestinationHash p in
        if shouldEncrypt p then
          match DEncrypt d (Data p) with
          | Ok ct => finishPack (p <| Ciphertext := ct |>) header
          | Err e => (p <| Ciphertext := [] |>, Err e)
          | Panic => (p, Panic)
          end
        else finishPack (p <| Ciphertext := Data p |>) header
      else if (HeaderType p =? Header2)%Z then
        if (zlen (TransportID p) =? 0)%Z then (p, Err ErrNoTransportID)
        else
          let header := header ++ TransportID p ++ GetHash d in
          finishPack (p <| Ciphertext := Data p |>) header
      else finishPack p header
  end.

Definition Unpack (p : Packet) : Packet * res pkt_err unit :=
  match Raw p with
  | f :: h :: _ :: _ =>
      let p := p <| Flags := f |> <| Hops := h |> in
      if (PathfinderM <=? Hops p)%Z then (p, Err (ErrHopCount (Hops p)))
      else
        let p := p <| HeaderType := Z.shiftr (Z.land (Flags p) 0x40) 6 |>
                   <| ContextFlag := Z.shiftr (Z.land (Flags p) 0x20) 5 |>
                   <| TransportType := Z.shiftr (Z.land (Flags p) 0x10) 4 |>
                   <| DestinationType := Z.shiftr (Z.land (Flags p) 0x0c) 2 |>
                   <| PacketType := Z.land (Flags p) 0x03 |> in
        let conclude (p : Packet) : Packet * res pkt_err unit :=
          let p := p <| Packed := false |> in
          match UpdateHash p with
          | Ok p' => (p', Ok tt)
          | Err e => (p, Err e)
          | Panic => (p, Panic)
          end in
        if (HeaderType p =? Header2)%Z then
          if (length (Raw p) <? 2 * dstLen + 3)%nat then (p, Err ErrTooShortHeader2)
          else conclude
            (p <| TransportID := slice 2 (dstLen + 2) (Raw p) |>
               <| DestinationHash := slice (dstLen + 2) (2 * dstLen + 2) (Raw p) |>
               <| Context := nth (2 * dstLen + 2) (Raw p) 0%Z |>
               <| Data := drop (2 * dstLen + 3) (Raw p) |>)
        else
          if (length (Raw p) <? dstLen + 3)%nat then (p, Err ErrTooShortHeader1)
          else conclude
            (p <| TransportID := [] |>
               <| DestinationHash := slice 2 (dstLen + 2) (Raw p) |>
               <| Context := nth (dstLen + 2) (Raw p) 0%Z |>
               <| Data := drop (dstLen + 3) (Raw p) |>)
  | _ => (p, Err ErrTooShort)
  end.

(** What [Send] does besides mutating the packet. *)
Inductive send_effect :=
  | RecordOutbound (ciphertextLen : Z) (keepalive : bool)
  | TransportOutbound.

Definition Send (p : Packet) : Packet * list send_effect * res pkt_err unit :=
  if Sent p then (p, [], Err ErrAlreadySent)
  else if (PathfinderM <=? Hops p)%Z then (p, [], Err (ErrHopBudget (Hops p)))
  else
    let '(p, r) := if Packed p then (p, Ok tt) else Pack p in
    match r with
    | Err e => (p, [], Err e)
    | Panic => (p, [], Panic)
    | Ok _ =>
        let link := match Destination p with
                    | Some d => match Impl d with
                                | DLink closed _ => Some closed | _ => None end
                    | None => None end in
        match link with
        | Some true => (p <| Sent := false |> <| Receipt := None |>, [], Err ErrLinkClosed)
        | _ =>
            let eff := match link with
                       | Some _ => [RecordOutbound (zlen (Ciphertext p))
                                      (Context p =? ContextKeepalive)%Z]
                       | None => [] end in
            let with_receipt :=
              match CreateReceipt p, Receipt p with
              | true, None =>
                  th ← GetTruncatedHash p;
                  Ok (p <| Receipt := Some (mkReceipt (PacketHash p) th false 0 0 false
                             ReceiptSent (Destination p) 0 false false) |>)
              | _, _ => Ok p
              end in
            match with_receipt with
            | Err e => (p, eff, Err e)
            | Panic => (p, eff, Panic)
            | Ok p =>
                if transport p then (p, eff ++ [TransportOutbound], Ok tt)
                else match Destination p with
                     | Some d =>
                         if HasTransport d then (p, eff ++ [TransportOutbound], Ok tt)
                         else (p, eff, Err ErrUnknownTransport)
                     | None => (p, eff, Err ErrUnknownTransport)
                     end
            end
        end
    end.

(** The proof destination of a received packet: the truncated packet hash,
    no encryption. *)
Definition GenerateProofDestination (p : Packet) : res pkt_err PacketDestination :=
  if (length (PacketHash p) <? dstLen)%nat then Panic
  else Ok {| GetHash := take dstLen (PacketHash p); GetType := DestinationSingle;
             HasTransport := transport p; DEncrypt := fun pt => Ok pt; Impl := DOther |}.
End WithHash.

(** ** Receipt operations *)

Inductive receipt_event := TimeoutFired | DeliveryFired.

Definition fire (b : bool) (e : receipt_event) : list receipt_event := if b then [e] else [].

Definition MarkSent (pr : PacketReceipt) (sentAt : float) : PacketReceipt :=
  pr <| RSent := true |> <| RSentAt := sentAt |> <| RStatus := ReceiptSent |>.

Definition SetTimeout (pr : PacketReceipt) (t : float) : PacketReceipt := pr <| RTimeout := t |>.
Definition SetTimeoutCallback (pr : PacketReceipt) (b : bool) : PacketReceipt :=
  pr <| timeoutCallback := b |>.
Definition SetDeliveryCallback (pr : PacketReceipt) (b : bool) : PacketReceipt :=
  pr <| deliveryCallback := b |>.

Definition TriggerDelivery (pr : PacketReceipt) : PacketReceipt * list receipt_event :=
  (pr <| RProved := true |> <| RStatus := ReceiptDelivered |>,
   fire (deliveryCallback pr) DeliveryFired).

Definition TriggerTimeout (pr : PacketReceipt) : PacketReceipt * list receipt_event :=
  (pr <| RStatus := ReceiptFailed |>, fire (timeoutCallback pr) TimeoutFired).

(** [CheckTimeout now]: the receipt, whether it fired, and the callbacks. *)
Definition CheckTimeout (pr : PacketReceipt) (now : float)
    : PacketReceipt * bool * list receipt_event :=
  if negb (RStatus pr =? ReceiptSent)%Z || PrimFloat.leb now (RSentAt pr + RTimeout pr)
  then (pr, false, [])
  else
    let status := if PrimFloat.eqb (RTimeout pr) receiptTimeoutCulled
                  then ReceiptCulled else ReceiptFailed in
    (pr <| RStatus := status |> <| RConcludedAt := now |>, true,
     fire (timeoutCallback pr) TimeoutFired).

Definition conclude_proved (pr : PacketReceipt) (now : float)
    : PacketReceipt * list receipt_event :=
  (pr <| RStatus := ReceiptDelivered |> <| RProved := true |> <| RConcludedAt := now |>,
   fire (deliveryCallback pr) DeliveryFired).

(** What the progress of a response resource does to the receipt of the
    request's packet: the response itself shows that it arrived. *)
Definition responseResourceProgress (pr : PacketReceipt) (now : float) : PacketReceipt * list receipt_event :=
  if (RStatus pr =? ReceiptDelivered)%Z then (pr, []) else conclude_proved pr now.

(** [ValidateLinkProof]: [proofCap] is the capacity of the proof slice, which
    bounds the slice expression that comes before the length check. *)
Definition ValidateLinkProof (pr : PacketReceipt) (proof : bytes) (proofCap : nat)
    (verify : bytes -> bytes -> bool) (now : float)
    : res pkt_err (PacketReceipt * bool * list receipt_event) :=
  if (proofCap <? 32)%nat then Panic
  else if (zlen proof <? ExplLength)%Z then Ok (pr, false, [])
  else
    let proofHash := take 32 proof in
    let signature := slice 32 (32 + 64) proof in
    if bytes_eqb proofHash (RHash pr) && verify signature (RHash pr) then
      let '(pr', ev) := conclude_proved pr now in Ok (pr', true, ev)
    else Ok (pr, false, []).

Definition ValidateProof (pr : PacketReceipt) (proof : bytes) (now : float)
    : PacketReceipt * bool * list receipt_event :=
  let signature :=
    if (ExplLength <=? zlen proof)%Z then
      if negb (bytes_eqb (take 32 proof) (RHash pr)) then None
      else Some (slice 32 (32 + 64) proof)
    else if (zlen proof =? ImplLength)%Z then Some (take 64 proof)
    else None in
  match signature with
  | None => (pr, false, [])
  | Some sig =>
      let id := match RDestination pr with
                | Some d => match Impl d with
                            | DDestination _ verifier => verifier | _ => None end
                | None => None end in
      match id with
      | Some verify =>
          if verify sig (RHash pr) then
            let '(pr', ev) := conclude_proved pr now in (pr', true, ev)
          else (pr, false, [])
      | None => (pr, false, [])
      end
  end.

Definition ValidateProofPacket (pr : PacketReceipt) (proof : bytes) (proofCap : nat)
    (now : float) : res pkt_err (PacketReceipt * bool * list receipt_event) :=
  match RDestination pr with
  | Some d => match Impl d with
              | DLink _ verify => ValidateLinkProof pr proof proofCap verify now
              | _ => Ok (ValidateProof pr proof now)
              end
  | None => Ok (ValidateProof pr proof now)
  end.

(** ** Flag bits *)

Definition small_flags (ht cf tt dt pt : Z) : Prop :=
  (0 <= ht <= 1)%Z /\ (0 <= cf <= 1)%Z /\ (0 <= tt <= 1)%Z /\ (0 <= dt <= 3)%Z /\
  (0 <= pt <= 3)%Z.

Ltac enum H :=
  match type of H with
  | (0 <= ?x <= 1)%Z =>
      let E := fresh in assert (x = 0 \/ x = 1)%Z as E by lia; clear H;
      destruct E as [-> | ->]
  | (0 <= ?x <= 3)%Z =>
      let E := fresh in assert (x = 0 \/ x = 1 \/ x = 2 \/ x = 3)%Z as E by lia; clear H;
      destruct E as [-> | [-> | [-> | ->]]]
  end.

Lemma packFlags_fields ht cf tt dt pt :
  small_flags ht cf tt dt pt ->
  let f := packFlags ht cf tt dt pt in
  Z.shiftr (Z.land f 0x40) 6 = ht /\ Z.shiftr (Z.land f 0x20) 5 = cf /\
  Z.shiftr (Z.land f 0x10) 4 = tt /\ Z.shiftr (Z.land f 0x0c) 2 = dt /\
  Z.land f 0x03 = pt.
Proof.
  intros (H1 & H2 & H3 & H4 & H5). enum H1; enum H2; enum H3; enum H4; enum H5; done.
Qed.

(** The low nibble of a flags byte is its destination and packet type. *)
Lemma low_nibble_fields f g :
  is_byte f -> is_byte g ->
  Z.land f 0x0F = Z.land g 0x0F <->
  Z.shiftr (Z.land f 0x0c) 2 = Z.shiftr (Z.land g 0x0c) 2 /\ Z.land f 3 = Z.land g 3.
Proof.
  intros _ _.
  assert (Hn : forall z, Z.land z 0x0F =
    (4 * Z.shiftr (Z.land z 0x0c) 2 + Z.land z 3)%Z).
  { intros z. rewrite Z.shiftr_land. change (Z.shiftr 0x0c 2) with (Z.ones 2).
    change 0x0F%Z with (Z.ones 4). change 3%Z with (Z.ones 2).
    rewrite !Z.land_ones, Z.shiftr_div_pow2 by lia. change (2 ^ 2)%Z with 4%Z.
    change (2 ^ 4)%Z with (4 * 4)%Z. rewrite Z.rem_mul_r by lia. lia. }
  assert (Hb : forall z, (0 <= Z.land z 3 < 4)%Z).
  { intros z. change 3%Z with (Z.ones 2). rewrite Z.land_ones by lia.
    apply Z.mod_pos_bound. lia. }
  rewrite !Hn. pose proof (Hb f). pose proof (Hb g). lia.
Qed.

(** ** Wire layout *)

Definition raw_of (f h : Z) (tid dst : bytes) (ctx : Z) (data : bytes) : bytes :=
  f :: h :: tid ++ dst ++ ctx :: data.

(** Reduction that leaves slices and comparisons alone. *)
Ltac pcbn :=
  cbn -[slice nth drop take app length Nat.ltb Z.leb Z.eqb Z.land Z.shiftr dstLen
        raw_of Nat.add Nat.mul UpdateHash FullHash].

Section PacketFacts.
Context `{Sha256}.

Lemma UpdateHash_ok p f l :
  Raw p = f :: l ->
  let start := if (HeaderType p =? Header2)%Z then 18%nat else 2%nat in
  (start <= S (length l))%nat ->
  UpdateHash p = Ok (p <| PacketHash := FullHash (Z.land f 0x0F :: drop start (f :: l)) |>).
Proof.
  intros E start Hs. unfold UpdateHash, PGetHash, GetHashablePart. rewrite E.
  change (dstLen + 2)%nat with 18%nat. fold start.
  by rewrite (proj2 (Nat.ltb_ge _ _)).
Qed.

Lemma raw_of_length f h tid dst ctx data :
  length (raw_of f h tid dst ctx data) = (3 + length tid + length dst + length data)%nat.
Proof. unfold raw_of. cbn. rewrite !length_app. cbn. lia. Qed.

Lemma raw_of_parts f h tid dst ctx data n m :
  n = length tid -> m = length dst ->
  let raw := raw_of f h tid dst ctx data in
  slice 2 (n + 2) raw = tid /\ slice (n + 2) (n + m + 2) raw = dst /\
  nth (n + m + 2) raw 0%Z = ctx /\ drop (n + m + 3) raw = data /\
  drop (n + 2) raw = dst ++ ctx :: data.
Proof.
  intros -> -> raw. unfold raw, raw_of, slice.
  assert (drop (length tid + 2) (f :: h :: tid ++ dst ++ ctx :: data) =
          dst ++ ctx :: data) as Hd.
  { rewrite Nat.add_comm. cbn [Nat.add drop]. apply drop_app_length. }
  assert (drop (length tid + length dst + 2) (f :: h :: tid ++ dst ++ ctx :: data) =
          ctx :: data) as Hc.
  { replace (length tid + length dst + 2)%nat with ((length tid + 2) + length dst)%nat by lia.
    rewrite <- drop_drop, Hd. apply drop_app_length. }
  split_and!.
  - cbn [drop]. rewrite drop_0. apply take_app_length'. lia.
  - rewrite Hd. apply take_app_length'. lia.
  - rewrite <- (Nat.add_0_r (length tid + length dst + 2)), <- nth_skipn.
    change (@skipn Z) with (@drop Z). by rewrite Hc.
  - replace (length tid + length dst + 3)%nat
      with ((length tid + length dst + 2) + 1)%nat by lia.
    by rewrite <- drop_drop, Hc.
  - exact Hd.
Qed.

(** [Unpack] on each of the two layouts. *)
Lemma Unpack_raw f h tid dst ctx data :
  length dst = 16%nat -> (h < 128)%Z ->
  length tid = (if (Z.shiftr (Z.land f 0x40) 6 =? 1)%Z then 16 else 0)%nat ->
  exists q, Unpack (NewPacketFromRaw (raw_of f h tid dst ctx data)) = (q, Ok tt) /\
    Raw q = raw_of f h tid dst ctx data /\ Flags q = f /\ Hops q = h /\
    HeaderType q = Z.shiftr (Z.land f 0x40) 6 /\
    ContextFlag q = Z.shiftr (Z.land f 0x20) 5 /\
    TransportType q = Z.shiftr (Z.land f 0x10) 4 /\
    DestinationType q = Z.shiftr (Z.land f 0x0c) 2 /\ PacketType q = Z.land f 0x03 /\
    TransportID q = tid /\ DestinationHash q = dst /\ Context q = ctx /\ Data q = data /\
    PacketHash q = FullHash (Z.land f 0x0F :: dst ++ ctx :: data).
Proof.
  intros Hd Hh Ht.
  pose proof (raw_of_length f h tid dst ctx data) as Hlen.
  assert (exists b2 l, tid ++ dst ++ ctx :: data = b2 :: l) as (b2 & l & E).
  { destruct tid; [|by eexists _, _]. destruct dst; [done|]. by eexists _, _. }
  assert (raw_of f h tid dst ctx data = f :: h :: b2 :: l) as Er.
  { unfold raw_of. by rewrite E. }
  unfold Unpack. pcbn. rewrite Er. pcbn. rewrite <- Er.
  rewrite (proj2 (Z.leb_gt _ _)) by (unfold PathfinderM; lia).
  unfold Header2 at 1.
  destruct (Z.eqb_spec (Z.shiftr (Z.land f 64) 6) 1) as [Hf|Hf].
  - rewrite (proj2 (Nat.ltb_ge _ _)) by (rewrite Hlen; unfold dstLen; lia).
    erewrite UpdateHash_ok; [|pcbn; exact Er|].
    2:{ pcbn. rewrite Hf. pcbn. rewrite Er in Hlen. cbn in Hlen |- *. lia. }
    eexists. split; [reflexivity|]. pcbn. rewrite Hf, <- Er. change (1 =? Header2)%Z with true.
    destruct (raw_of_parts f h tid dst ctx data 16 16) as (P1 & P2 & P3 & P4 & P5); [done..|].
    split_and!; first [done | exact P1 | exact P2 | exact P3 | exact P4 | by rewrite <- P5].
  - rewrite (proj2 (Nat.ltb_ge _ _)) by (rewrite Hlen; unfold dstLen; lia).
    erewrite UpdateHash_ok; [|pcbn; exact Er|].
    2:{ pcbn. unfold Header2. rewrite (proj2 (Z.eqb_neq _ _) Hf). cbn. lia. }
    eexists. split; [reflexivity|]. pcbn. rewrite <- Er. unfold Header2.
    rewrite (proj2 (Z.eqb_neq _ _) Hf).
    destruct (raw_of_parts f h tid dst ctx data 0 16) as (P1 & P2 & P3 & P4 & P5); [done..|].
    destruct tid; [|done]. split_and!; first [done | exact P1 | exact P2 | exact P3 | exact P4 | by rewrite <- P5].
Qed.

(** Conversely, every raw packet that [Unpack] accepts has one of the two
    layouts. *)
Lemma Unpack_ok_layout raw q :
  Unpack (NewPacketFromRaw raw) = (q, Ok tt) ->
  exists f h tid dst ctx data,
    raw = raw_of f h tid dst ctx data /\ length dst = 16%nat /\ (h < 128)%Z /\
    length tid = (if (Z.shiftr (Z.land f 0x40) 6 =? 1)%Z then 16 else 0)%nat.
Proof.
  intros Hu.
  assert (exists f h b2 l, raw = f :: h :: b2 :: l) as (f & h & b2 & l & Er).
  { destruct raw as [|f [|h [|b2 l]]]; try done. by eexists _, _, _, _. }
  revert Hu. unfold Unpack. pcbn. rewrite Er. pcbn. rewrite <- Er.
  destruct (Z.leb_spec PathfinderM h) as [|Hh]; [done|]. unfold Header2 at 1.
  assert (Hsplit : forall n, (n + 19 <= length raw)%nat ->
    exists tid dst ctx data, raw = raw_of f h tid dst ctx data /\
      length tid = n /\ length dst = 16%nat).
  { intros n Hn. exists (slice 2 (n + 2) raw), (slice (n + 2) (n + 18) raw).
    destruct (drop (n + 18) raw) as [|c data] eqn:Ed.
    { apply (f_equal length) in Ed. rewrite length_drop in Ed. change (length (@nil Z)) with 0%nat in Ed. lia. }
    exists c, data. unfold slice.
    replace (n + 2 - 2)%nat with n by lia. replace (n + 18 - (n + 2))%nat with 16%nat by lia.
    split_and!; [|rewrite length_take, length_drop; lia..].
    clear Hn. subst raw. unfold raw_of. f_equal. f_equal.
    cbn [drop]. rewrite <- Ed.
    rewrite <- (take_drop n (b2 :: l)) at 1. f_equal.
    rewrite Nat.add_comm. cbn [Nat.add drop].
    rewrite <- (take_drop 16 (drop n (b2 :: l))) at 1. f_equal.
    rewrite drop_drop. replace (n + 18)%nat with (S (S (n + 16))) by lia. done. }
  destruct (Z.shiftr (Z.land f 64) 6 =? 1)%Z eqn:Hf.
  - destruct (Nat.ltb_spec (length raw) (2 * dstLen + 3)) as [|Hl]; [done|]. intros _.
    destruct (Hsplit 16%nat) as (tid & dst & ctx & data & E & Ht & Hd);
      [unfold dstLen in Hl; lia|].
    exists f, h, tid, dst, ctx, data. unfold PathfinderM in Hh. rewrite Hf. done.
  - destruct (Nat.ltb_spec (length raw) (dstLen + 3)) as [|Hl]; [done|]. intros _.
    destruct (Hsplit 0%nat) as (tid & dst & ctx & data & E & Ht & Hd);
      [unfold dstLen in Hl; lia|].
    exists f, h, tid, dst, ctx, data. unfold PathfinderM in Hh. rewrite Hf. done.
Qed.

(** A packet whose header fields fit the wire format. *)
Definition wire_ok (p : Packet) (d : PacketDestination) : Prop :=
  Destination p = Some d /\
  small_flags (HeaderType p) (ContextFlag p) (TransportType p) (GetType d) (PacketType p) /\
  is_byte (Context p) /\ (0 <= Hops p < PathfinderM)%Z /\ length (GetHash d) = dstLen /\
  (HeaderType p = Header2 -> length (TransportID p) = dstLen).

Definition wire_dest_type (p : Packet) (d : PacketDestination) : Z :=
  if (Context p =? ContextLrproof)%Z then DestinationLink else GetType d.

(** The transport ID actually written. *)
Definition wire_tid (p : Packet) : bytes :=
  if (HeaderType p =? Header2)%Z then TransportID p else [].

Lemma finishPack_ok q f h tid dst q' :
  length tid = (if (HeaderType q =? Header2)%Z then 16 else 0)%nat -> is_byte (Context q) ->
  finishPack q (f :: h :: tid ++ dst) = (q', Ok tt) ->
  Raw q' = raw_of f h tid dst (Context q) (Ciphertext q) /\
  Ciphertext q' = Ciphertext q /\ (zlen (Raw q') <= PMTU q)%Z /\
  PacketHash q' = FullHash (Z.land f 0x0F :: dst ++ Context q :: Ciphertext q).
Proof.
  intros Ht Hc. unfold finishPack. rewrite (u8_id _ Hc). pcbn.
  assert (((f :: h :: tid ++ dst) ++ [Context q]) ++ Ciphertext q =
          raw_of f h tid dst (Context q) (Ciphertext q)) as ->.
  { unfold raw_of. cbn [app]. by rewrite <- !app_assoc. }
  destruct (raw_of_parts f h tid dst (Context q) (Ciphertext q) _ _ eq_refl eq_refl)
    as (_ & _ & _ & _ & Hd).
  destruct (Z.ltb_spec (PMTU q) (zlen (raw_of f h tid dst (Context q) (Ciphertext q))))
    as [|Hm]; [done|].
  erewrite UpdateHash_ok; [|reflexivity|].
  - intros [= <-]. pcbn. split_and!; [done..|].
    f_equal. f_equal. rewrite Ht in Hd. by destruct (HeaderType q =? Header2)%Z.
  - pcbn. cbn [length]. rewrite !length_app, Ht. cbn [length].
    destruct (HeaderType q =? Header2)%Z; lia.
Qed.

Lemma Pack_ok_inv p d p' :
  wire_ok p d -> Pack p = (p', Ok tt) ->
  let f := packFlags (HeaderType p) (ContextFlag p) (TransportType p)
             (wire_dest_type p d) (PacketType p) in
  Raw p' = raw_of f (Hops p) (wire_tid p) (GetHash d) (Context p) (Ciphertext p') /\
  (zlen (Raw p') <= PMTU p)%Z /\
  PacketHash p' = FullHash (Z.land f 0x0F :: GetHash d ++ Context p :: Ciphertext p').
Proof.
  intros (Hd & (Hht & _) & Hc & Hh & Hlen & Htid) Hp f.
  unfold Pack in Hp. rewrite Hd in Hp.
  assert (forall x, calculatePackedFlags (p <| DestinationHash := x |>) = f) as Hf.
  { intros x. unfold calculatePackedFlags, f, wire_dest_type. cbn. rewrite Hd.
    by destruct (Context p =? ContextLrproof)%Z. }
  assert (u8 (Hops p) = Hops p) as Hu.
  { apply u8_id. unfold is_byte, PathfinderM in *. lia. }
  assert (Hgo : forall q ct,
    finishPack (q <| Ciphertext := ct |>) (f :: Hops p :: wire_tid p ++ GetHash d) = (p', Ok tt) ->
    HeaderType q = HeaderType p -> Context q = Context p -> PMTU q = PMTU p ->
    Raw p' = raw_of f (Hops p) (wire_tid p) (GetHash d) (Context p) (Ciphertext p') /\
    (zlen (Raw p') <= PMTU p)%Z /\
    PacketHash p' = FullHash (Z.land f 0x0F :: GetHash d ++ Context p :: Ciphertext p')).
  { intros q ct Hfin E1 E2 E3. apply finishPack_ok in Hfin; [|cbn; rewrite E1|cbn; by rewrite E2].
    - destruct Hfin as (R1 & R2 & R3 & R4). rewrite R2, <- E2, <- E3.
      split_and!; [exact R1|exact R3|exact R4].
    - unfold wire_tid. destruct (Z.eqb_spec (HeaderType p) Header2) as [E|]; [by apply Htid|done]. }
  revert Hp. pcbn. rewrite Hf, Hu. unfold wire_tid in Hgo |- *.
  destruct (Z.eqb_spec (HeaderType p) Header1) as [E|E].
  - rewrite E in Hgo |- *. change (Header1 =? Header2)%Z with false in Hgo |- *. cbn [app] in Hgo |- *.
    destruct (shouldEncrypt _).
    + destruct (DEncrypt d (Data p)); [|done..]. intros Hp. by apply (Hgo _ _ Hp).
    + intros Hp. by apply (Hgo _ _ Hp).
  - assert (HeaderType p = Header2) as E2 by (unfold Header1, Header2 in *; lia).
    rewrite E2 in Hgo |- *. rewrite Z.eqb_refl in Hgo |- *.
    destruct (zlen (TransportID p) =? 0)%Z; [done|]. cbn [app].
    intros Hp. by apply (Hgo _ _ Hp).
Qed.

(** The fields of the wire format. *)
Lemma Pack_Unpack_fields p d p' :
  wire_ok p d -> Pack p = (p', Ok tt) ->
  (zlen (Raw p') <= PMTU p)%Z /\
  exists q, Unpack (NewPacketFromRaw (Raw p')) = (q, Ok tt) /\
    Hops q = Hops p /\ HeaderType q = HeaderType p /\ ContextFlag q = ContextFlag p /\
    TransportType q = TransportType p /\ PacketType q = PacketType p /\
    DestinationType q = wire_dest_type p d /\ Context q = Context p /\
    TransportID q = wire_tid p /\ DestinationHash q = GetHash d /\
    Data q = Ciphertext p' /\ PacketHash q = PacketHash p'.
Proof.
  intros Hok Hp. destruct (Pack_ok_inv p d p' Hok Hp) as (Hr & Hm & Hph).
  split; [done|]. destruct Hok as (_ & (H1 & H2 & H3 & H4 & H5) & Hc & Hh & Hl & Ht).
  rewrite Hr, Hph.
  destruct (packFlags_fields (HeaderType p) (ContextFlag p) (TransportType p)
              (wire_dest_type p d) (PacketType p)) as (F1 & F2 & F3 & F4 & F5).
  { split_and!; try lia; unfold wire_dest_type, DestinationLink; case_match; lia. }
  cbv zeta in F1, F2, F3, F4, F5.
  destruct (Unpack_raw (packFlags (HeaderType p) (ContextFlag p) (TransportType p)
              (wire_dest_type p d) (PacketType p)) (Hops p) (wire_tid p) (GetHash d)
              (Context p) (Ciphertext p'))
    as (q & E & _ & _ & E3 & E4 & E5 & E6 & E7 & E8 & E9 & E10 & E11 & E12 & E13).
  - done.
  - unfold PathfinderM in Hh. lia.
  - rewrite F1. unfold wire_tid, Header2 in *.
    destruct (Z.eqb_spec (HeaderType p) 1) as [E|]; [by apply Ht|done].
  - exists q. rewrite E4, F1, E5, F2, E6, F3, E7, F4, E8, F5. done.
Qed.

(** What [Pack] writes, [Unpack] reads back: every header field, the
    destination hash, the transport ID, the context, the (encrypted)
    payload and the packet hash; and the packed form respects the MTU. *)
Theorem Pack_Unpack_roundtrip p d p' :
  wire_ok p d -> Pack p = (p', Ok tt) ->
  (zlen (Raw p') <= PMTU p)%Z /\
  exists q, Unpack (NewPacketFromRaw (Raw p')) = (q, Ok tt) /\
    Hops q = Hops p /\ HeaderType q = HeaderType p /\ ContextFlag q = ContextFlag p /\
    TransportType q = TransportType p /\ PacketType q = PacketType p /\
    DestinationType q = wire_dest_type p d /\ Context q = Context p /\
    TransportID q = wire_tid p /\ DestinationHash q = GetHash d /\
    Data q = Ciphertext p' /\ PacketHash q = PacketHash p'.
Proof. apply Pack_Unpack_fields. Qed.

(** The fields a packet hash covers. *)
Definition hash_view (p : Packet) : Z * Z * bytes * Z * bytes :=
  (DestinationType p, PacketType p, DestinationHash p, Context p, Data p).

Lemma Unpack_view raw q :
  Unpack (NewPacketFromRaw raw) = (q, Ok tt) ->
  exists f, In f raw /\ length (DestinationHash q) = 16%nat /\
    DestinationType q = Z.shiftr (Z.land f 0x0c) 2 /\ PacketType q = Z.land f 3 /\
    GetHashablePart q = Ok (Z.land f 0x0F :: DestinationHash q ++ Context q :: Data q).
Proof.
  intros Hu. destruct (Unpack_ok_layout raw q Hu) as (f & h & tid & dst & ctx & data & -> & Hd & Hh & Ht).
  destruct (Unpack_raw f h tid dst ctx data Hd Hh Ht)
    as (q' & E & R & _ & _ & E4 & _ & _ & E7 & E8 & _ & E10 & E11 & E12 & _).
  rewrite Hu in E. injection E as <-. exists f. split; [by left|].
  rewrite E7, E8, E10, E11, E12. split_and!; [done..|].
  destruct (raw_of_parts f h tid dst ctx data _ _ eq_refl eq_refl) as (_ & _ & _ & _ & Hr).
  unfold GetHashablePart. rewrite R, E4. change (raw_of f h tid dst ctx data) with
    (f :: h :: tid ++ dst ++ ctx :: data) at 1. cbv beta iota zeta.
  unfold Header2. rewrite (proj2 (Nat.ltb_ge _ _)).
  - rewrite <- Hr, Ht. by destruct (_ =? 1)%Z.
  - rewrite raw_of_length, Ht. destruct (_ =? 1)%Z; unfold dstLen; lia.
Qed.

(** The hashed part of a received packet determines, and is determined
    by, its destination type, packet type, destination hash, context and
    payload.  So the packet hash is the same whatever hop count, header
    type, transport ID, transport type and context flag the packet picked
    up on its way, and covers everything else. *)
Theorem packet_hash_transport_invariant raw1 raw2 p1 p2 :
  bytes_ok raw1 -> bytes_ok raw2 ->
  Unpack (NewPacketFromRaw raw1) = (p1, Ok tt) ->
  Unpack (NewPacketFromRaw raw2) = (p2, Ok tt) ->
  GetHashablePart p1 = GetHashablePart p2 <-> hash_view p1 = hash_view p2.
Proof.
  intros B1 B2 U1 U2.
  destruct (Unpack_view raw1 p1 U1) as (f1 & I1 & L1 & D1 & T1 & G1).
  destruct (Unpack_view raw2 p2 U2) as (f2 & I2 & L2 & D2 & T2 & G2).
  pose proof (proj1 (List.Forall_forall _ _) B1 f1 I1) as By1.
  pose proof (proj1 (List.Forall_forall _ _) B2 f2 I2) as By2.
  pose proof (low_nibble_fields f1 f2 By1 By2) as Hn.
  rewrite G1, G2. unfold hash_view. rewrite D1, D2, T1, T2. split.
  - intros [= Hf Hl]. apply Hn in Hf as [-> ->].
    apply app_inj_1 in Hl as [-> [= -> ->]]; [done|lia].
  - intros [= Ha Hb -> -> ->]. assert (Z.land f1 15 = Z.land f2 15) as -> by (by apply Hn).
    done.
Qed.
End PacketFacts.

(** Transport types above 1 spill into the context-flag bit: the relay type
    is written exactly as a broadcast with the context flag set. *)
Lemma packFlags_relay_alias ht dt pt :
  small_flags ht 0 0 dt pt ->
  packFlags ht 0 TransportRelay dt pt = packFlags ht 1 0 dt pt.
Proof.
  intros (H1 & _ & _ & H4 & H5). enum H1; enum H4; enum H5; done.
Qed.

(** ** Receipts *)

(** The verification function a receipt's proofs are checked with. *)
Definition receipt_verifier (pr : PacketReceipt) : option (bytes -> bytes -> bool) :=
  match RDestination pr with
  | Some d => match Impl d with
              | DDestination _ v => v | DLink _ v => Some v | DOther => None end
  | None => None
  end.

(** [proof] carries a signature over the receipt's packet hash that verifies:
    either an explicit proof (hash, signature) or a bare signature. *)
Definition authentic (pr : PacketReceipt) (proof : bytes) : Prop :=
  exists verify sig,
    receipt_verifier pr = Some verify /\ verify sig (RHash pr) = true /\
    ((96 <= zlen proof)%Z /\ take 32 proof = RHash pr /\ sig = slice 32 96 proof \/
     zlen proof = 64%Z /\ sig = take 64 proof).

Inductive receipt_op :=
  | OMarkSent (sentAt : float)
  | OSetTimeout (t : float)
  | OSetTimeoutCallback (b : bool)
  | OSetDeliveryCallback (b : bool)
  | OTriggerTimeout
  | OTriggerDelivery
  | OResponse (now : float)
  | OCheckTimeout (now : float)
  | OProof (proof : bytes) (proofCap : nat) (now : float).

Definition receipt_step (pr : PacketReceipt) (op : receipt_op) : res pkt_err PacketReceipt :=
  match op with
  | OMarkSent t => Ok (MarkSent pr t)
  | OSetTimeout t => Ok (SetTimeout pr t)
  | OSetTimeoutCallback b => Ok (SetTimeoutCallback pr b)
  | OSetDeliveryCallback b => Ok (SetDeliveryCallback pr b)
  | OTriggerTimeout => Ok (TriggerTimeout pr).1
  | OTriggerDelivery => Ok (TriggerDelivery pr).1
  | OResponse now => Ok (responseResourceProgress pr now).1
  | OCheckTimeout now => Ok (CheckTimeout pr now).1.1
  | OProof proof cap now => r ← ValidateProofPacket pr proof cap now; Ok r.1.1
  end.

Fixpoint receipt_run (pr : PacketReceipt) (ops : list receipt_op) : res pkt_err PacketReceipt :=
  match ops with
  | [] => Ok pr
  | op :: ops' => pr' ← receipt_step pr op; receipt_run pr' ops'
  end.

Lemma ValidateProofPacket_spec pr proof cap now pr' ok ev :
  ValidateProofPacket pr proof cap now = Ok (pr', ok, ev) ->
  (ok = false /\ pr' = pr /\ ev = [] \/ ok = true /\ authentic pr proof /\ pr' = (conclude_proved pr now).1).
Proof.
  unfold ValidateProofPacket, authentic, receipt_verifier.
  assert (Hsig : forall verify sig,
    zlen proof = 64%Z /\ sig = take 64 proof \/
    (96 <= zlen proof)%Z /\ take 32 proof = RHash pr /\ sig = slice 32 96 proof ->
    verify sig (RHash pr) = true -> forall v', Some verify = v' ->
    exists verify' sig', v' = Some verify' /\ verify' sig' (RHash pr) = true /\
      ((96 <= zlen proof)%Z /\ take 32 proof = RHash pr /\ sig' = slice 32 96 proof \/
       zlen proof = 64%Z /\ sig' = take 64 proof)).
  { intros verify sig Hs Hv v' <-. exists verify, sig. tauto. }
  assert (Hplain : forall v,
    (match RDestination pr with
     | Some d => match Impl d with DDestination _ v => v | _ => None end
     | None => None end) = v ->
    ValidateProof pr proof now = (pr', ok, ev) ->
    ok = false /\ pr' = pr /\ ev = [] \/ ok = true /\ (exists verify' sig', v = Some verify' /\
      verify' sig' (RHash pr) = true /\
      ((96 <= zlen proof)%Z /\ take 32 proof = RHash pr /\ sig' = slice 32 96 proof \/
       zlen proof = 64%Z /\ sig' = take 64 proof)) /\ pr' = (conclude_proved pr now).1).
  { intros v Hv. unfold ValidateProof. rewrite Hv. change (32 + 64)%nat with 96%nat.
    change ExplLength with 96%Z. change ImplLength with 64%Z.
    destruct (Z.leb_spec 96 (zlen proof)) as [Hl|Hl].
    - destruct (bytes_eqb (take 32 proof) (RHash pr)) eqn:Eh; cbn [negb];
        [|intros [= <- <- <-]; by left].
      apply bytes_eqb_eq in Eh. destruct v as [vf|]; [|intros [= <- <- <-]; by left].
      destruct (vf _ _) eqn:Evf; intros [= <- <- <-]; [right|by left].
      split_and!; [done| |done]. apply (Hsig vf _ ltac:(right; split_and!; eauto) Evf); done.
    - destruct (Z.eqb_spec (zlen proof) 64) as [E|]; [|intros [= <- <- <-]; by left].
      destruct v as [vf|]; [|intros [= <- <- <-]; by left].
      destruct (vf _ _) eqn:Evf; intros [= <- <- <-]; [right|by left].
      split_and!; [done| |done]. apply (Hsig vf _ ltac:(left; eauto) Evf); done. }
  destruct (RDestination pr) as [d|] eqn:Ed; [|intros [= E]; by eapply Hplain].
  destruct (Impl d) as [rid v|closed v|] eqn:Ei; [intros [= E]; by eapply Hplain| |
    intros [= E]; by eapply Hplain].
  unfold ValidateLinkProof. destruct (cap <? 32)%nat; [done|].
  change ExplLength with 96%Z. change (32 + 64)%nat with 96%nat.
  destruct (Z.ltb_spec (zlen proof) 96); [intros [= <- <- <-]; by left|].
  destruct (bytes_eqb (take 32 proof) (RHash pr)) eqn:Eh; cbn [andb];
    [|intros [= <- <- <-]; by left].
  apply bytes_eqb_eq in Eh.
  destruct (v _ _) eqn:Ev; intros [= <- <- <-]; [right|by left].
  split_and!; [done| |done]. apply (Hsig v _ ltac:(right; split_and!; eauto) Ev); done.
Qed.

(** A proof that is not authentic is without effect. *)
Lemma ValidateProofPacket_rejects pr proof cap now r ok ev :
  ~ authentic pr proof -> ValidateProofPacket pr proof cap now = Ok (r, ok, ev) -> r = pr /\ ok = false /\ ev = [].
Proof.
  intros Hn E. by destruct (ValidateProofPacket_spec _ _ _ _ _ _ _ E) as [(-> & -> & ->)|(_ & Ha & _)].
Qed.

(** What makes a receipt proved: an authentic proof of its packet, the call by
    which local code declares it delivered, or a response to its request. *)
Definition proving (pr : PacketReceipt) (op : receipt_op) : Prop :=
  match op with
  | OProof proof _ _ => authentic pr proof
  | OTriggerDelivery | OResponse _ => True
  | _ => False
  end.

Lemma receipt_step_stable pr op pr' :
  receipt_step pr op = Ok pr' ->
  RHash pr' = RHash pr /\ RDestination pr' = RDestination pr /\
  (RProved pr' = RProved pr \/ proving pr op).
Proof.
  destruct op; cbn; try (intros [= <-]; cbn; by auto).
  - intros [= <-]. unfold responseResourceProgress. case_match; cbn; auto.
  - intros [= <-]. unfold CheckTimeout. case_match; cbn; auto.
  - unfold mbind, res_bind. destruct (ValidateProofPacket _ _ _ _) as [[[q ok] ev]| |] eqn:E;
      [|done..]. intros [= <-]. apply ValidateProofPacket_spec in E as [(_ & -> & _)|(_ & Ha & ->)]; cbn; auto.
Qed.

(** C24: no forged proof has an effect on a receipt.  A proof packet whose
    signature over the packet's hash does not verify under the destination's
    key leaves the receipt as it is and runs no callback; and whatever sequence
    of sends, timeouts, callback changes, responses and proof packets a receipt
    goes through, if it was not proved and ends up proved then at one of these
    operations it became proved, which was an authentic proof of its packet,
    a response to the request the packet carried, or [TriggerDelivery], by
    which local code declares the delivery. *)
Theorem receipt_proved_authentic pr ops pr' :
  RProved pr = false -> receipt_run pr ops = Ok pr' ->
  (RProved pr' = true -> exists ops1 op ops2 q, ops = ops1 ++ op :: ops2 /\ receipt_run pr ops1 = Ok q /\
     RProved q = false /\ RHash q = RHash pr /\ RDestination q = RDestination pr /\ proving q op) /\
  (forall proof cap now r ok ev, ~ authentic pr' proof -> ValidateProofPacket pr' proof cap now = Ok (r, ok, ev) ->
     r = pr' /\ ok = false /\ ev = []).
Proof.
  intros H0 Hr. split; [|intros proof cap now r ok ev Hn E; by apply (ValidateProofPacket_rejects pr' proof cap now)].
  intros H1. revert pr H0 Hr.
  induction ops as [|op ops IH]; intros pr H0 Hr; cbn in Hr; [congruence|].
  unfold mbind, res_bind in Hr. destruct (receipt_step pr op) as [q| |] eqn:E; [|done..].
  destruct (receipt_step_stable pr op q E) as (Eh & Ed & Hp).
  destruct (RProved q) eqn:Eq.
  - exists [], op, ops, pr. destruct Hp as [Hp|Hp]; [congruence|done].
  - destruct (IH q Eq Hr) as (ops1 & op' & ops2 & q' & -> & R & Hq & Eh' & Ed' & Hp').
    exists (op :: ops1), op', ops2, q'. split; [done|]. split; [cbn; unfold mbind, res_bind; by rewrite E|].
    split_and!; [done|congruence|congruence|done].
Qed.

(** The transport's receipt sweep and the channel's timeout pass retire a
    receipt at most once between them: whichever of two checks fires first,
    the other changes nothing and runs no callback. *)
Theorem CheckTimeout_once pr t1 t2 :
  let '(pr1, fired1, ev1) := CheckTimeout pr t1 in
  let '(pr2, fired2, ev2) := CheckTimeout pr1 t2 in
  fired1 = true -> fired2 = false /\ pr2 = pr1 /\ ev2 = [].
Proof.
  unfold CheckTimeout at 1.
  destruct (negb (RStatus pr =? ReceiptSent)%Z || _) eqn:E.
  { by destruct (CheckTimeout pr t2) as [[? ?] ?]. }
  unfold CheckTimeout. cbn. by destruct (PrimFloat.eqb (RTimeout pr) receiptTimeoutCulled).
Qed.

(** Validating a proof packet against a receipt panics exactly when the
    receipt belongs to a link and the proof slice's capacity is below the 32
    bytes of a packet hash: the hash is sliced off before the length check
    that would have rejected a short proof. *)
Theorem ValidateProofPacket_panic_iff pr proof cap now :
  ValidateProofPacket pr proof cap now = Panic <->
  (exists d closed v, RDestination pr = Some d /\ Impl d = DLink closed v) /\ (cap < 32)%nat.
Proof.
  unfold ValidateProofPacket. split.
  - destruct (RDestination pr) as [d|]; [|done]. destruct (Impl d) as [| closed v|] eqn:Ei; [done| |done].
    unfold ValidateLinkProof. destruct (Nat.ltb_spec cap 32); [|unfold conclude_proved; by repeat case_match].
    intros _. split; [by exists d, closed, v|done].
  - intros [(d & closed & v & -> & ->) Hc]. unfold ValidateLinkProof.
    by rewrite (proj2 (Nat.ltb_lt _ _)).
Qed.

(** ** Witnesses *)

Section PacketWitnesses.
Import ToyCrypto.

Definition w_dest : PacketDestination :=
  {| GetHash := replicate 16 7%Z; GetType := 0; HasTransport := true;
     DEncrypt := fun pt => Ok (1%Z :: pt); Impl := DDestination None (Some (fun _ _ => true)) |}.
Definition w_packet : Packet := NewPacket w_dest [1; 2; 3]%Z.

Lemma Pack_Unpack_roundtrip_witness :
  (zlen (Raw (Pack w_packet).1) <= 500)%Z /\
  exists q, Unpack (NewPacketFromRaw (Raw (Pack w_packet).1)) = (q, Ok tt) /\
    Hops q = 0%Z /\ HeaderType q = 0%Z /\ ContextFlag q = 0%Z /\ TransportType q = 0%Z /\
    PacketType q = 0%Z /\ DestinationType q = 0%Z /\ Context q = 0%Z /\
    TransportID q = [] /\ DestinationHash q = replicate 16 7%Z /\
    Data q = [1; 1; 2; 3]%Z /\ PacketHash q = PacketHash (Pack w_packet).1.
Proof.
  apply (Pack_Unpack_roundtrip w_packet w_dest (Pack w_packet).1).
  - split_and!; try reflexivity; cbn; try lia; try discriminate; by vm_compute; split_and!.
  - vm_compute. reflexivity.
Defined.

(** The same announce with and without a transport header, one hop apart. *)
Definition w_raw1 : bytes := raw_of 1 0 [] (replicate 16 7%Z) 0 [5; 6]%Z.
Definition w_raw2 : bytes :=
  raw_of 0x51 1 (replicate 16 9%Z) (replicate 16 7%Z) 0 [5; 6]%Z.

Lemma packet_hash_transport_invariant_witness :
  GetHashablePart (Unpack (NewPacketFromRaw w_raw1)).1 =
  GetHashablePart (Unpack (NewPacketFromRaw w_raw2)).1 <->
  hash_view (Unpack (NewPacketFromRaw w_raw1)).1 =
  hash_view (Unpack (NewPacketFromRaw w_raw2)).1.
Proof.
  refine (packet_hash_transport_invariant w_raw1 w_raw2 _ _ _ _ _ _);
    [by apply (bool_decide_unpack _)|by apply (bool_decide_unpack _)| |];
    by vm_compute.
Defined.

(** The key of this destination signs a hash by repeating it. *)
Definition w_signer : PacketDestination :=
  {| GetHash := replicate 16 7%Z; GetType := 0; HasTransport := true;
     DEncrypt := fun pt => Ok pt; Impl := DDestination None (Some (fun sig h => bytes_eqb sig (h ++ h))) |}.
Definition w_receipt : PacketReceipt :=
  mkReceipt (replicate 32 4%Z) [] true 1 5 false ReceiptSent (Some w_signer) 0 true true.

(** A forged proof has no effect, the genuine one after it is accepted. *)
Lemma receipt_proved_authentic_witness :
  let ops := [OCheckTimeout 2; OProof (replicate 64 0%Z) 64 3; OProof (replicate 64 4%Z) 64 4] in
  receipt_run w_receipt (take 2 ops) = Ok w_receipt /\ ~ authentic w_receipt (replicate 64 0%Z) /\
  exists ops1 op ops2 q, ops = ops1 ++ op :: ops2 /\ receipt_run w_receipt ops1 = Ok q /\
     RProved q = false /\ RHash q = RHash w_receipt /\ RDestination q = RDestination w_receipt /\ proving q op.
Proof.
  intros ops. split; [reflexivity|]. split.
  - intros (verify & sig & [= <-] & Hv & [(Hl & _)|(_ & ->)]); [vm_compute in Hl; destruct Hl; reflexivity|discriminate Hv].
  - apply (receipt_proved_authentic w_receipt ops ((conclude_proved w_receipt 4).1)); reflexivity.
Defined.

Lemma CheckTimeout_once_witness :
  let '(pr1, fired1, ev1) := CheckTimeout w_receipt 10 in
  let '(pr2, fired2, ev2) := CheckTimeout pr1 20 in
  fired1 = true -> fired2 = false /\ pr2 = pr1 /\ ev2 = [].
Proof. exact (CheckTimeout_once w_receipt 10 20). Defined.
End PacketWitnesses.
