(* ===== verification/Channel.v ===== *)
(** * Channels: sequenced, windowed delivery over a link

    Models [rns/channel.go] and the outlet of [rns/link.go] that carries it:
    the envelope wire format, the sending side (sequence reservation, the
    transmit ring, the adaptive window, retries) and the receiving side
    (window check, receive ring, in-order hand-over to the handlers).

    Packets are shared between the channel and the transport, so they live in
    a heap of pointers; a packet's receipt is reached through its packet.
    Envelopes of the transmit ring are shared between the ring and the calls in
    progress, so they live in a heap too; those of the receive ring are not
    shared and are kept by value.  [Send] and [packetTimeout] release the
    channel's mutex around the outlet call: each is split at that point, and
    [step] interleaves the halves with every other operation. *)

From stdpp Require Import base tactics option list gmap relations.
From Stdlib Require Import ZArith Lia PrimFloat Uint63.
From S2P Require Import Prelude Crypto Packet.
Local Open Scope go_scope.

(** ** Constants *)

Definition ChannelWindowDefault : Z := 4.
Definition ChannelWindowMin : Z := 2.
Definition ChannelWindowMinMedium : Z := 5.
Definition ChannelWindowMinFast : Z := 16.
Definition ChannelWindowMaxSlow : Z := 5.
Definition ChannelWindowMaxMedium : Z := 12.
Definition ChannelWindowMaxFast : Z := 48.
Definition ChannelSeqMax : Z := 0xFFFF.
Definition ChannelFastRateRounds : Z := 10.
Definition ChannelRTTFast : float := 0.18%float.
Definition ChannelRTTMedium : float := 0.75%float.
Definition ChannelRTTSlow : float := 1.45%float.

Inductive ch_err :=
  | ErrEnvTooShort
  | ErrEnvTruncated
  | ErrUnknownType (t : Z)
  | ErrMessage (code : Z)
  | ErrNotReady
  | ErrTooBig (len mdu : Z)
  | ErrNotTransmitted
  | ErrOutlet (code : Z)
  | ErrNotPlaced.

#[global] Instance ch_err_eq_dec : EqDecision ch_err.
Proof. solve_decision. Defined.

(** A type of messages: the wire type, [Pack], and [Unpack] on the fresh
    value made by the factory registered for a wire type. *)
Class Message (M : Type) := {
  GetMsgType : M -> Z;
  MPack : M -> res ch_err bytes;
}.

Section Channel.
Context {M : Type} `{Message M}.

Definition factories := gmap Z (bytes -> res ch_err M).

(** ** Envelopes *)

Record Envelope := mkEnvelope {
  EMessage : option M;
  ERaw : bytes;
  EPacket : option nat;
  Sequence : Z;
  Tries : Z;
  tracked : bool;
}.

#[global] Instance eta_Envelope : Eta Envelope := fun e =>
  mkEnvelope (EMessage e) (ERaw e) (EPacket e) (Sequence e) (Tries e) (tracked e).

(** [Envelope.Pack] of an envelope holding [msg]: the bytes stored in
    [env.Raw]. *)
Definition EnvelopePack (msg : M) (sequence : Z) : res ch_err bytes :=
  data ← MPack msg;
  Ok (be_enc 2 (GetMsgType msg) ++ be_enc 2 sequence ++ be_enc 2 (u16 (zlen data)) ++ data).

(** [Envelope.Unpack]: the envelope's sequence number and message are set
    from [env.Raw]. *)
Definition EnvelopeUnpack (fs : factories) (env : Envelope) : res ch_err Envelope :=
  let raw := ERaw env in
  if (length raw <? 6)%nat then Err ErrEnvTooShort
  else
    let msgType := be_dec (slice 0 2 raw) in
    let env := env <| Sequence := be_dec (slice 2 4 raw) |> in
    let len := be_dec (slice 4 6 raw) in
    if (zlen raw <? 6 + len)%Z then Err ErrEnvTruncated
    else match fs !! msgType with
         | None => Err (ErrUnknownType msgType)
         | Some unpack =>
             msg ← unpack (slice 6 (6 + Z.to_nat len) raw);
             Ok (env <| EMessage := Some msg |>)
         end.

(** ** The channel *)

Record Channel := mkChannel {
  stopped : bool;
  txRing : list nat;
  rxRing : list Envelope;
  messageHandlers : list (Z * (M -> bool));
  nextHandlerID : Z;
  nextSequence : Z;
  nextRXSequence : Z;
  messageFactories : factories;
  maxTries : Z;
  window : Z;
  windowMax : Z;
  windowMin : Z;
  windowFlexibility : Z;
  fastRateRounds : Z;
  mediumRateRounds : Z;
}.

#[global] Instance eta_Channel : Eta Channel := fun c =>
  mkChannel (stopped c) (txRing c) (rxRing c) (messageHandlers c) (nextHandlerID c)
    (nextSequence c) (nextRXSequence c) (messageFactories c) (maxTries c) (window c)
    (windowMax c) (windowMin c) (windowFlexibility c) (fastRateRounds c)
    (mediumRateRounds c).

(** The channel with the heaps its pointers go to. *)
Record World := mkWorld {
  chan : Channel;
  packets : gmap nat Packet;
  envs : gmap nat Envelope;
  nextEnv : nat;
}.

#[global] Instance eta_World : Eta World := fun w =>
  mkWorld (chan w) (packets w) (envs w) (nextEnv w).

(** What the outlet reports at the time of a call: [RTT()], [MDU()],
    [IsUsable()]. *)
Record Outlet := mkOutlet { RTT : float; OMDU : Z; IsUsable : bool }.

(** [LinkChannelOutlet.GetPacketID]: none for a nil packet or one that was
    never packed. *)
Definition GetPacketID (p : option Packet) : option bytes :=
  match p with
  | None => None
  | Some p => if (zlen (Raw p) =? 0)%Z then None else Some (PacketHash p)
  end.

Definition NewChannel (o : Outlet) : Channel :=
  let c := mkChannel false [] [] [] 0 0 0 ∅ 5 ChannelWindowDefault ChannelWindowMaxSlow
             ChannelWindowMin 4 0 0 in
  if PrimFloat.ltb ChannelRTTSlow (RTT o) then
    c <| window := 1%Z |> <| windowMax := 1%Z |> <| windowMin := 1%Z |>
      <| windowFlexibility := 1%Z |>
  else c.

(** ** Handlers and message types *)

Definition RegisterMessageType (c : Channel) (msgType : Z) (f : bytes -> res ch_err M) : Channel :=
  c <| messageFactories ::= <[msgType := f]> |>.

Definition addMessageHandler (c : Channel) (handler : M -> bool) : Channel * Z :=
  let handlerID := u64 (nextHandlerID c + 1) in
  (c <| nextHandlerID := handlerID |>
     <| messageHandlers ::= fun hs => hs ++ [(handlerID, handler)] |>, handlerID).

Fixpoint remove_first (id : Z) (hs : list (Z * (M -> bool))) : list (Z * (M -> bool)) :=
  match hs with
  | [] => []
  | h :: hs' => if (h.1 =? id)%Z then hs' else h :: remove_first id hs'
  end.

Definition removeMessageHandlerByID (c : Channel) (handlerID : Z) : Channel :=
  c <| messageHandlers ::= remove_first handlerID |>.

(** The handler calls made for a message: each handler in order until one
    reports it handled the message. *)
Fixpoint handle_loop (hs : list (Z * (M -> bool))) (msg : M) : list (Z * M) :=
  match hs with
  | [] => []
  | (id, h) :: hs' => (id, msg) :: if h msg then [] else handle_loop hs' msg
  end.

Definition handleMessage (c : Channel) (msg : M) : list (Z * M) :=
  handle_loop (messageHandlers c) msg.

(** ** The rings *)

(** [emplaceEnvelope] on a ring whose entries carry a sequence number:
    [None] when the sequence number is already there. *)
Fixpoint emplace {A} (seqOf : A -> Z) (nextRX : Z) (env : A) (ring : list A)
    : option (list A) :=
  match ring with
  | [] => Some [env]
  | existing :: ring' =>
      if (seqOf env =? seqOf existing)%Z then None
      else if (seqOf env <? seqOf existing)%Z &&
              negb (ChannelSeqMax / 2 <? u16 (nextRX - seqOf env))%Z
      then Some (env :: existing :: ring')
      else cons existing <$> emplace seqOf nextRX env ring'
  end.

Definition seq_of_env (w : World) (e : nat) : Z :=
  match envs w !! e with Some env => Sequence env | None => 0%Z end.

Definition emplaceTx (w : World) (e : nat) : option World :=
  ring ← emplace (seq_of_env w) (nextRXSequence (chan w)) e (txRing (chan w));
  Some (w <| chan ::= fun c => c <| txRing := ring |> |>
          <| envs ::= alter (fun env => env <| tracked := true |>) e |>).

Definition emplaceRx (c : Channel) (env : Envelope) : option Channel :=
  ring ← emplace Sequence (nextRXSequence c) (env <| tracked := true |>) (rxRing c);
  Some (c <| rxRing := ring |>).

(** ** Timeouts *)

(** [math.Pow(1.5, n)] for a small exponent: the powers of 1.5 up to the
    33rd are exact in binary64, and a packet is tried at most five times. *)
Definition pow_1_5 (n : nat) : float := Nat.iter n (fun x => x * 1.5)%float 1%float.

(** [math.Max]. *)
Definition fmax (x y : float) : float :=
  if PrimFloat.eqb x infinity || PrimFloat.eqb y infinity then infinity
  else if negb (PrimFloat.eqb x x) || negb (PrimFloat.eqb y y) then nan
  else if PrimFloat.ltb y x then x else y.

Definition float_of_nat (n : nat) : float := PrimFloat.of_uint63 (Uint63.of_nat n).

Definition getPacketTimeoutSeconds (c : Channel) (o : Outlet) (tries : Z) : float :=
  (pow_1_5 (Z.to_nat (tries - 1)) * fmax (RTT o * 2.5) 0.025 *
   (float_of_nat (length (txRing c)) + 1.5))%float.

Definition isReadyToSend (c : Channel) (o : Outlet) : bool :=
  if negb (IsUsable o) then false else (zlen (txRing c) <? window c)%Z.

Definition packet_of (w : World) (e : nat) : option nat :=
  env ← envs w !! e; EPacket env.

Definition lookup_packet (w : World) (p : option nat) : option Packet :=
  i ← p; packets w !! i.

(** Apply [f] to the receipt of the packet at [p], if both exist. *)
Definition on_receipt (f : PacketReceipt -> PacketReceipt) (p : option nat) (w : World) : World :=
  match p with
  | None => w
  | Some i => w <| packets ::= alter (fun q => q <| Receipt ::= fmap f |>) i |>
  end.

Definition receipt_of (w : World) (p : option nat) : option PacketReceipt :=
  q ← lookup_packet w p; Receipt q.

Definition update_timeout (o : Outlet) (w : World) (e : nat) : World :=
  match envs w !! e with
  | None => w
  | Some env =>
      match receipt_of w (EPacket env) with
      | None => w
      | Some pr =>
          let updated := getPacketTimeoutSeconds (chan w) o (Tries env) in
          if PrimFloat.ltb (RTimeout pr) updated
          then on_receipt (fun pr => SetTimeout pr updated) (EPacket env) w else w
      end
  end.

Definition updatePacketTimeouts (o : Outlet) (w : World) : World :=
  fold_left (update_timeout o) (txRing (chan w)) w.

(** The position in the transmit ring of the envelope whose packet carries
    the given hash. *)
Definition matches (w : World) (hash : bytes) (e : nat) : bool :=
  match GetPacketID (lookup_packet w (packet_of w e)) with
  | Some id => bytes_eqb id hash
  | None => false
  end.

Fixpoint find_index (f : nat -> bool) (l : list nat) : option nat :=
  match l with
  | [] => None
  | e :: l' => if f e then Some O else S <$> find_index f l'
  end.

(** ** Shutdown *)

Definition clear_tx (w : World) (e : nat) : World :=
  on_receipt (fun pr => SetDeliveryCallback (SetTimeoutCallback pr false) false)
    (packet_of w e) w
    <| envs ::= alter (fun env => env <| tracked := false |>) e |>.

Definition clearRings (w : World) : World :=
  fold_left clear_tx (txRing (chan w)) w
    <| chan ::= fun c => c <| txRing := [] |> <| rxRing := [] |> |>.

Definition Shutdown (w : World) : World :=
  clearRings (w <| chan ::= fun c => c <| stopped := true |> <| messageHandlers := [] |> |>).

(** ** Sending *)

(** The first critical section of [Send]: reserve a sequence number and
    pack the envelope.  Gives the reserved number, the packed bytes and the
    envelope's pointer. *)
Definition Send_reserve (w : World) (o : Outlet) (msg : M)
    : World * res ch_err (Z * bytes * nat) :=
  if negb (isReadyToSend (chan w) o) then (w, Err ErrNotReady)
  else
    let reserved := nextSequence (chan w) in
    match EnvelopePack msg reserved with
    | Err e => (w, Err e)
    | Panic => (w, Panic)
    | Ok raw =>
        if (OMDU o <? zlen raw)%Z then (w, Err (ErrTooBig (zlen raw) (OMDU o)))
        else
          let e := nextEnv w in
          let env := mkEnvelope (Some msg) raw None reserved 0 false in
          (w <| chan ::= fun c => c <| nextSequence := u16 (reserved + 1) |> |>
             <| envs ::= <[e := env]> |> <| nextEnv := S e |>,
           Ok (reserved, raw, e))
    end.

Definition rollback (w : World) (reserved : Z) : World :=
  w <| chan ::= fun c => c <| nextSequence := reserved |> |>.

(** [Tries] of the envelope at a pointer. *)
Definition tries_of (w : World) (e : nat) : Z :=
  match envs w !! e with Some env => Tries env | None => 0%Z end.

Section WithHash.
Context `{Sha256}.

(** The receipt of a packet that was just sent, with its hashes filled in
    and its send time recorded. *)
Definition arm_receipt (q : Packet) (pr : PacketReceipt) (now : float)
    : res ch_err PacketReceipt :=
  let pr := if (zlen (RHash pr) =? 0)%Z then pr <| RHash := PacketHash q |> else pr in
  pr ← (if (zlen (RTruncatedHash pr) =? 0)%Z then
          if (0 <? zlen (Raw q))%Z then
            match GetTruncatedHash q with
            | Ok h => Ok (pr <| RTruncatedHash := h |>)
            | _ => Panic
            end
          else Ok (pr <| RTruncatedHash := TruncatedHash (PacketHash q) |>)
        else Ok pr);
  Ok (MarkSent pr (if PrimFloat.ltb 0 (SentAt q) then SentAt q else now)).

(** The second critical section of [Send], after the outlet returned
    [r]. *)
Definition Send_commit (w : World) (o : Outlet) (now : float) (reserved : Z) (e : nat)
    (r : res ch_err (option nat)) : World * res ch_err nat :=
  match r with
  | Panic => (w, Panic)
  | Err x => (rollback w reserved, Err x)
  | Ok None => (rollback w reserved, Err ErrNotTransmitted)
  | Ok (Some p) =>
      let w := w <| envs ::= alter (fun env => env <| EPacket := Some p |>
                                      <| Tries ::= Z.add 1 |>) e |> in
      match packets w !! p with
      | None => (w, Ok e)
      | Some q =>
          match Receipt q with
          | None => (w, Ok e)
          | Some pr =>
              match arm_receipt q pr now with
              | Err x => (w, Err x)
              | Panic => (w, Panic)
              | Ok pr =>
                  let pr := SetTimeoutCallback (SetDeliveryCallback pr true) true in
                  let pr := SetTimeout pr (getPacketTimeoutSeconds (chan w) o (tries_of w e)) in
                  let w := w <| packets ::= <[p := q <| Receipt := Some pr |>]> |> in
                  match emplaceTx w e with
                  | None => (rollback w reserved, Err ErrNotPlaced)
                  | Some w => (updatePacketTimeouts o w, Ok e)
                  end
              end
          end
      end
  end.

(** [Send] with nothing in between: the outlet maps the bytes and the
    packet heap to a new heap and a result. *)
Definition Send (w : World) (o : Outlet) (now : float)
    (outletSend : bytes -> gmap nat Packet -> gmap nat Packet * res ch_err (option nat))
    (msg : M) : World * res ch_err nat :=
  let '(w, r) := Send_reserve w o msg in
  match r with
  | Err x => (w, Err x)
  | Panic => (w, Panic)
  | Ok (reserved, raw, e) =>
      let '(ps, r) := outletSend raw (packets w) in
      Send_commit (w <| packets := ps |>) o now reserved e r
  end.
End WithHash.

(** ** Acknowledgements *)

(** The window growth of [packetDelivered]. *)
Definition grow_window (o : Outlet) (c : Channel) : Channel :=
  let c := if (window c <? windowMax c)%Z then c <| window ::= Z.add 1 |> else c in
  let rtt := RTT o in
  if PrimFloat.eqb rtt 0 then c
  else if PrimFloat.ltb ChannelRTTFast rtt then
    let c := c <| fastRateRounds := 0%Z |> in
    if PrimFloat.ltb ChannelRTTMedium rtt then c <| mediumRateRounds := 0%Z |>
    else
      let c := c <| mediumRateRounds ::= Z.add 1 |> in
      if (windowMax c <? ChannelWindowMaxMedium)%Z &&
         (ChannelFastRateRounds <=? mediumRateRounds c)%Z
      then c <| windowMax := ChannelWindowMaxMedium |> <| windowMin := ChannelWindowMinMedium |>
      else c
  else
    let c := c <| fastRateRounds ::= Z.add 1 |> in
    if (windowMax c <? ChannelWindowMaxFast)%Z && (ChannelFastRateRounds <=? fastRateRounds c)%Z
    then c <| windowMax := ChannelWindowMaxFast |> <| windowMin := ChannelWindowMinFast |>
    else c.

Definition packetDelivered (w : World) (o : Outlet) (hash : bytes) : World :=
  match find_index (matches w hash) (txRing (chan w)) with
  | None => w
  | Some i =>
      let e := nth i (txRing (chan w)) O in
      w <| envs ::= alter (fun env => env <| tracked := false |>) e |>
        <| chan ::= fun c => grow_window o
             (c <| txRing := take i (txRing c) ++ drop (S i) (txRing c) |>) |>
  end.

(** ** Retries *)

(** What [packetTimeout] does once it has released the mutex. *)
Inductive timeout_cont :=
  | TDone
  | TShutdown
  | TResend (e p : nat).

Definition shrink_window (c : Channel) : Channel :=
  if (windowMin c <? window c)%Z then
    let c := c <| window ::= Z.pred |> in
    if (windowMin c + windowFlexibility c <? windowMax c)%Z
    then c <| windowMax ::= Z.pred |> else c
  else c.

Definition packetTimeout_begin (w : World) (o : Outlet) (pr : PacketReceipt)
    : World * timeout_cont :=
  if RProved pr then (w, TDone)
  else match find_index (matches w (RHash pr)) (txRing (chan w)) with
  | None => (w, TDone)
  | Some i =>
      let e := nth i (txRing (chan w)) O in
      if (maxTries (chan w) <=? tries_of w e)%Z then (w, TShutdown)
      else
        let w := w <| envs ::= alter (fun env => env <| Tries ::= Z.add 1 |>) e |>
                   <| chan ::= shrink_window |> in
        let w := on_receipt (fun pr => SetTimeout pr
                   (getPacketTimeoutSeconds (chan w) o (tries_of w e))) (packet_of w e) w in
        let w := updatePacketTimeouts o w in
        match packet_of w e with
        | None => (w, TDone)
        | Some p => (w, TResend e p)
        end
  end.

(** The part of [packetTimeout] after [outlet.Resend] returned [r]; the
    second component is the hash of the receipt to run the delivered path
    on, when the proof arrived during the resend. *)
Definition packetTimeout_finish (w : World) (o : Outlet) (e : nat) (r : res ch_err (option nat))
    : World * option bytes :=
  match r with
  | Ok resent =>
      let w := match resent with
               | Some p => w <| envs ::= alter (fun env => env <| EPacket := Some p |>) e |>
               | None => w end in
      match receipt_of w (packet_of w e) with
      | None => (w, None)
      | Some pr =>
          (on_receipt (fun pr => SetTimeout (SetTimeoutCallback (SetDeliveryCallback pr true) true)
                         (getPacketTimeoutSeconds (chan w) o (tries_of w e))) (packet_of w e) w,
           if RProved pr then Some (RHash pr) else None)
      end
  | _ => (w, None)
  end.

(** [packetTimeout] with nothing in between; the second component reports
    that the outlet was told the channel timed out. *)
Definition packetTimeout (w : World) (o : Outlet)
    (resend : nat -> gmap nat Packet -> gmap nat Packet * res ch_err (option nat))
    (pr : PacketReceipt) : World * bool :=
  match packetTimeout_begin w o pr with
  | (w, TDone) => (w, false)
  | (w, TShutdown) => (Shutdown w, true)
  | (w, TResend e p) =>
      let '(ps, r) := resend p (packets w) in
      match packetTimeout_finish (w <| packets := ps |>) o e r with
      | (w, Some hash) => (packetDelivered w o hash, false)
      | (w, None) => (w, false)
      end
  end.

(** One maintenance pass: collect the receipts that are due, then check each
    of them, which runs [packetTimeout] for those that fire. *)
Definition due (w : World) (now : float) (e : nat) : option nat :=
  p ← packet_of w e;
  pr ← receipt_of w (Some p);
  if timeoutCallback pr && PrimFloat.ltb 0 (RSentAt pr) && PrimFloat.ltb 0 (RTimeout pr) &&
     PrimFloat.leb (RSentAt pr + RTimeout pr) now
  then Some p else None.

Definition check_one (o : Outlet) (now : float)
    (resend : nat -> gmap nat Packet -> gmap nat Packet * res ch_err (option nat))
    (w : World) (p : nat) : World :=
  match receipt_of w (Some p) with
  | None => w
  | Some pr =>
      let '(pr', _, ev) := CheckTimeout pr now in
      let w := on_receipt (fun _ => pr') (Some p) w in
      match ev with
      | [] => w
      | _ => (packetTimeout w o resend pr').1
      end
  end.

Definition checkTimeouts (w : World) (o : Outlet) (now : float)
    (resend : nat -> gmap nat Packet -> gmap nat Packet * res ch_err (option nat)) : World :=
  fold_left (check_one o now resend) (omap (due w now) (txRing (chan w))) w.

(** ** Receiving *)

(** The loop that takes the in-order envelopes off the receive ring. *)
Fixpoint take_contiguous (next : Z) (ring : list Envelope) : list Envelope * list Envelope * Z :=
  match ring with
  | e :: ring' =>
      if (Sequence e =? next)%Z then
        let '(out, rest, next') := take_contiguous (u16 (next + 1)) ring' in
        (e :: out, rest, next')
      else ([], ring, next)
  | [] => ([], [], next)
  end.

(** The duplicate and window check of [Receive]: whether the envelope is
    rejected. *)
Definition out_of_window (c : Channel) (sequence : Z) : bool :=
  if (sequence <? nextRXSequence c)%Z then
    let windowOverflow := u16 (nextRXSequence c + ChannelWindowMaxFast) in
    if (windowOverflow <? nextRXSequence c)%Z then (windowOverflow <? sequence)%Z else true
  else false.

(** [Receive]: the channel after the call, whether the packet was
    acknowledged, and the envelopes handed to the handlers, in order. *)
Definition Receive (c : Channel) (raw : bytes) (packet : option nat)
    : res ch_err (Channel * bool * list Envelope) :=
  match EnvelopeUnpack (messageFactories c) (mkEnvelope None raw packet 0 0 false) with
  | Panic => Panic
  | Err _ => Ok (c, false, [])
  | Ok env =>
      if out_of_window c (Sequence env) then Ok (c, false, [])
      else match emplaceRx c env with
      | None => Ok (c, false, [])
      | Some c =>
          let '(contiguous, rest, next) := take_contiguous (nextRXSequence c) (rxRing c) in
          Ok (c <| rxRing := rest |> <| nextRXSequence := next |>,
              bool_decide (packet <> None), contiguous)
      end
  end.

(** The handler calls that follow, over all envelopes handed over. *)
Definition dispatch (c : Channel) (contiguous : list Envelope) : list (Z * M) :=
  concat (map (fun e => match EMessage e with
                        | Some m => handleMessage c m | None => [] end) contiguous).
End Channel.
Arguments Envelope M : clear implicits.
Arguments Channel M : clear implicits.
Arguments World M : clear implicits.
Arguments factories M : clear implicits.

(** ** Interleavings

    The operations of a channel as steps of a system in which at most one
    [Send] is between its critical sections (the send lock), any number of
    [packetTimeout] calls are between theirs, and the outlet and the transport
    may change packets and receipts at any time. *)

Section System.
Context {M : Type} `{Message M} `{Sha256}.

Record Sys := mkSys {
  world : World M;
  inflight : option (Z * bytes * nat * M);
  pending : list timeout_cont;
  accepted : list (M * bytes);
}.

Definition on_chan (f : Channel M -> Channel M) (s : Sys) : Sys :=
  mkSys (world s <| chan ::= f |>) (inflight s) (pending s) (accepted s).

Definition on_world (f : World M -> World M) (s : Sys) : Sys :=
  mkSys (f (world s)) (inflight s) (pending s) (accepted s).

Inductive step : Sys -> Sys -> Prop :=
  | step_reserve w o msg w' rs raw e pend acc :
      Send_reserve w o msg = (w', Ok (rs, raw, e)) ->
      step (mkSys w None pend acc) (mkSys w' (Some (rs, raw, e, msg)) pend acc)
  | step_reserve_fail w o msg w' x pend acc :
      Send_reserve w o msg = (w', Err x) ->
      step (mkSys w None pend acc) (mkSys w' None pend acc)
  | step_commit w o now rs raw e msg r w' e' pend acc :
      Send_commit w o now rs e r = (w', Ok e') ->
      step (mkSys w (Some (rs, raw, e, msg)) pend acc)
           (mkSys w' None pend (acc ++ [(msg, raw)]))
  | step_commit_fail w o now rs raw e msg r w' x pend acc :
      Send_commit w o now rs e r = (w', Err x) ->
      step (mkSys w (Some (rs, raw, e, msg)) pend acc) (mkSys w' None pend acc)
  | step_outlet s ps : step s (on_world (fun w => w <| packets := ps |>) s)
  | step_delivered s o hash : step s (on_world (fun w => packetDelivered w o hash) s)
  | step_timeout w o pr w' k i pend acc :
      packetTimeout_begin w o pr = (w', k) ->
      step (mkSys w i pend acc) (mkSys w' i (k :: pend) acc)
  | step_timeout_shutdown s :
      In TShutdown (pending s) -> step s (on_world Shutdown s)
  | step_resent s o e p r :
      In (TResend e p) (pending s) ->
      step s (on_world (fun w => (packetTimeout_finish w o e r).1) s)
  | step_receive s raw packet c' ack out :
      Receive (chan (world s)) raw packet = Ok (c', ack, out) ->
      step s (on_chan (fun _ => c') s)
  | step_shutdown s : step s (on_world Shutdown s)
  | step_register s t f : step s (on_chan (fun c => RegisterMessageType c t f) s)
  | step_handler s h : step s (on_chan (fun c => (addMessageHandler c h).1) s)
  | step_unhandler s id : step s (on_chan (fun c => removeMessageHandlerByID c id) s).

Definition init_sys (o : Outlet) : Sys :=
  mkSys (mkWorld (NewChannel o) ∅ ∅ O) None [] [].

Definition reachable (o : Outlet) (s : Sys) : Prop := rtc step (init_sys o) s.

(** ** The sending invariant *)

Definition window_ok (c : Channel M) : Prop :=
  (1 <= windowMin c <= windowMax c)%Z /\ (0 <= windowFlexibility c)%Z /\
  (1 <= window c <= windowMax c)%Z /\ (windowMax c <= ChannelWindowMaxFast)%Z.

Definition in_flight (s : Sys) : Z := match inflight s with Some _ => 1 | None => 0 end.

(** The part of the channel the sending invariant is about. *)
Definition tx_view (c : Channel M) :=
  (nextSequence c, windowMin c, windowMax c, window c, windowFlexibility c).

Definition sending_ok (s : Sys) : Prop :=
  let c := chan (world s) in
  window_ok c /\
  (zlen (txRing c) + in_flight s <= ChannelWindowMaxFast)%Z /\
  nextSequence c = u16 (zlen (accepted s) + in_flight s) /\
  (forall rs raw e msg, inflight s = Some (rs, raw, e, msg) ->
     rs = u16 (zlen (accepted s)) /\ EnvelopePack msg rs = Ok raw) /\
  (forall i m raw, accepted s !! i = Some (m, raw) ->
     EnvelopePack m (u16 (Z.of_nat i)) = Ok raw).

Lemma window_ok_view c c' : tx_view c' = tx_view c -> window_ok c -> window_ok c'.
Proof. unfold tx_view, window_ok. intros [= _ -> -> -> ->]. done. Qed.

Lemma NewChannel_window_ok o : window_ok (NewChannel o).
Proof.
  unfold NewChannel, window_ok, ChannelWindowMaxFast. case_match; cbn;
    unfold ChannelWindowDefault, ChannelWindowMaxSlow, ChannelWindowMin; lia.
Qed.

Lemma grow_window_ok o (c : Channel M) : window_ok c -> window_ok (grow_window o c).
Proof.
  intros (H1 & H2 & H3 & H4). unfold grow_window, window_ok in *.
  unfold ChannelWindowMaxFast, ChannelWindowMaxMedium, ChannelWindowMinMedium,
    ChannelWindowMinFast, ChannelFastRateRounds in *.
  destruct (Z.ltb_spec (window c) (windowMax c)); cbn; repeat case_match; cbn in *;
    repeat match goal with E : (_ && _)%bool = true |- _ => apply andb_prop in E as [? _] end;
    lia.
Qed.

Lemma grow_window_frame o (c : Channel M) :
  txRing (grow_window o c) = txRing c /\ nextSequence (grow_window o c) = nextSequence c.
Proof. unfold grow_window. cbv zeta. repeat case_match; cbn; done. Qed.

Lemma shrink_window_ok (c : Channel M) : window_ok c -> window_ok (shrink_window c).
Proof.
  intros (H1 & H2 & H3 & H4). unfold shrink_window, window_ok in *. cbv zeta.
  destruct (Z.ltb_spec (windowMin c) (window c)); [|lia]. cbn.
  case_match; cbn; lia.
Qed.

Lemma shrink_window_frame (c : Channel M) :
  txRing (shrink_window c) = txRing c /\ nextSequence (shrink_window c) = nextSequence c.
Proof. unfold shrink_window. cbv zeta. repeat case_match; cbn; done. Qed.

(** Operations on receipts and envelopes leave the channel record alone. *)
Lemma on_receipt_chan f p (w : World M) : chan (on_receipt f p w) = chan w.
Proof. by destruct p. Qed.

Lemma fold_chan {A} (f : World M -> A -> World M) l w :
  (forall w a, chan (f w a) = chan w) -> chan (fold_left f l w) = chan w.
Proof. intros Hf. induction l as [|a l IH] in w |- *; cbn; [done|]. by rewrite IH, Hf. Qed.

Lemma update_timeouts_chan o (w : World M) : chan (updatePacketTimeouts o w) = chan w.
Proof.
  apply fold_chan. intros w' e. unfold update_timeout.
  repeat (case_match; try done). apply on_receipt_chan.
Qed.

Lemma Shutdown_chan (w : World M) :
  txRing (chan (Shutdown w)) = [] /\ rxRing (chan (Shutdown w)) = [] /\
  tx_view (chan (Shutdown w)) = tx_view (chan w).
Proof.
  unfold Shutdown, clearRings. cbn. rewrite fold_chan; [done|].
  intros w' e. unfold clear_tx. cbn. apply on_receipt_chan.
Qed.

Lemma packetTimeout_finish_chan (w : World M) o e r :
  chan (packetTimeout_finish w o e r).1 = chan w.
Proof.
  unfold packetTimeout_finish. destruct r as [resent| |]; [|done..].
  set (w1 := match resent with Some p => _ | None => w end).
  assert (chan w1 = chan w) as E by (unfold w1; by destruct resent).
  destruct (receipt_of w1 _); cbn; [by rewrite on_receipt_chan|done].
Qed.

Lemma emplace_length {A} (f : A -> Z) n e ring ring' :
  emplace f n e ring = Some ring' -> length ring' = S (length ring).
Proof.
  induction ring as [|x ring IH] in ring' |- *; cbn; [by intros [= <-]|].
  repeat case_match; [done|by intros [= <-]|].
  intros (r & Hr & ->)%fmap_Some. cbn. by rewrite (IH r).
Qed.

Lemma Send_reserve_spec (w : World M) o msg w' r :
  Send_reserve w o msg = (w', r) ->
  match r with
  | Ok (rs, raw, e) =>
      rs = nextSequence (chan w) /\ EnvelopePack msg rs = Ok raw /\
      (zlen raw <= OMDU o)%Z /\ (zlen (txRing (chan w)) < window (chan w))%Z /\
      chan w' = chan w <| nextSequence := u16 (rs + 1) |>
  | _ => w' = w
  end.
Proof.
  unfold Send_reserve, isReadyToSend. destruct (IsUsable o); cbn; [|by intros [= <- <-]].
  destruct (Z.ltb_spec (zlen (txRing (chan w))) (window (chan w))); cbn; [|by intros [= <- <-]].
  destruct (EnvelopePack _ _) eqn:E; [|by intros [= <- <-]..].
  destruct (Z.ltb_spec (OMDU o) (zlen a)); intros [= <- <-]; [done|].
  cbn. split_and!; auto; lia.
Qed.

(** What committing or rolling back a reserved send does to the channel. *)
Lemma Send_commit_spec (w : World M) o now rs e r w' x :
  Send_commit w o now rs e r = (w', x) ->
  match x with
  | Ok _ => tx_view (chan w') = tx_view (chan w) /\
            (length (txRing (chan w')) <= S (length (txRing (chan w))))%nat
  | Err _ => chan w' = chan w <| nextSequence := rs |>
  | Panic => True
  end.
Proof.
  unfold Send_commit. destruct r as [[p|]| |]; [|by intros [= <- <-]..].
  set (w1 := w <| envs ::= _ |>). assert (chan w1 = chan w) as E1 by done.
  destruct (packets w1 !! p) as [q|]; [|intros [= <- <-]; rewrite E1; auto].
  destruct (Receipt q) as [pr|]; [|intros [= <- <-]; rewrite E1; auto].
  assert (forall y, arm_receipt q pr now <> Err y) as Hne.
  { intros y. unfold arm_receipt, mbind, res_bind. by repeat case_match. }
  destruct (arm_receipt q pr now) as [pr'|y|]; [|by destruct (Hne y)|by intros [= <- <-]].
  set (w2 := w1 <| packets ::= _ |>). assert (chan w2 = chan w) as E2 by done.
  unfold emplaceTx. destruct (emplace _ _ _ _) as [ring|] eqn:Er; cbn -[updatePacketTimeouts];
    intros [= <- <-]; [|done].
  rewrite update_timeouts_chan. cbn. apply emplace_length in Er.
  rewrite E2 in Er. split; [done|cbn; lia].
Qed.

Lemma u16_step z : u16 (u16 z + 1) = u16 (z + 1).
Proof. unfold u16. by rewrite Zplus_mod_idemp_l. Qed.

Lemma sending_ok_frame s s' :
  sending_ok s -> inflight s' = inflight s -> accepted s' = accepted s ->
  window_ok (chan (world s')) ->
  (length (txRing (chan (world s'))) <= length (txRing (chan (world s))))%nat ->
  nextSequence (chan (world s')) = nextSequence (chan (world s)) -> sending_ok s'.
Proof.
  intros (_ & H2 & H3 & H4 & H5) Ei Ea Hw Hl Hn.
  unfold sending_ok, in_flight, zlen in *. rewrite Ei, Ea, Hn. split_and!; auto; lia.
Qed.

Lemma sending_ok_view s s' :
  sending_ok s -> inflight s' = inflight s -> accepted s' = accepted s ->
  tx_view (chan (world s')) = tx_view (chan (world s)) ->
  (length (txRing (chan (world s'))) <= length (txRing (chan (world s))))%nat ->
  sending_ok s'.
Proof.
  intros Hs Ei Ea Hv Hl. eapply sending_ok_frame; eauto.
  - by eapply window_ok_view, Hs.
  - by injection Hv.
Qed.

Lemma step_send_ok s s' :
  sending_ok s -> step s s' ->
  (inflight s' <> inflight s \/ accepted s' <> accepted s) -> sending_ok s'.
Proof.
  intros (Hw & Hl & Hn & Hi & Ha) Hst Hd. destruct Hst; cbn in *; try (by destruct Hd).
  - apply Send_reserve_spec in H1 as (-> & Hp & _ & Hlt & Hc).
    unfold sending_ok, in_flight, window_ok in *. cbn in *. rewrite Hc. cbn.
    rewrite Z.add_0_r in Hn. split_and!; try lia; try done.
    + by rewrite Hn, u16_step.
    + intros ? ? ? ? [= <- <- <- <-]. by rewrite Hn in *.
  - destruct (Hi _ _ _ _ eq_refl) as [-> Hp].
    apply Send_commit_spec in H1 as [Hv Hlen].
    unfold sending_ok, in_flight in *. cbn in *.
    pose proof (window_ok_view _ _ Hv Hw) as Hw'. injection Hv as Hs _ _ _ _.
    unfold zlen in *. rewrite length_app, Hs. cbn. split_and!; try done; try lia.
    + rewrite Hn. f_equal. lia.
    + intros i m raw' Hl'. apply lookup_app_Some in Hl' as [Hl'|[Hge Hl']]; [by apply Ha|].
      apply list_lookup_singleton_Some in Hl' as [Hz [= <- <-]].
      by replace (Z.of_nat i) with (Z.of_nat (length acc)) by lia.
  - destruct (Hi _ _ _ _ eq_refl) as [-> Hp]. apply Send_commit_spec in H1.
    unfold sending_ok, in_flight, window_ok in *. cbn in *. rewrite H1. cbn.
    rewrite !Z.add_0_r. split_and!; try lia; done.
Qed.

Lemma packetDelivered_ok (w : World M) o hash :
  window_ok (chan w) ->
  window_ok (chan (packetDelivered w o hash)) /\
  (length (txRing (chan (packetDelivered w o hash))) <= length (txRing (chan w)))%nat /\
  nextSequence (chan (packetDelivered w o hash)) = nextSequence (chan w).
Proof.
  intros Hw. unfold packetDelivered. destruct (find_index _ _) as [i|]; [|auto]. cbn.
  destruct (grow_window_frame o (chan w <| txRing := take i (txRing (chan w)) ++
                                            drop (S i) (txRing (chan w)) |>)) as [-> ->].
  split_and!; [by apply grow_window_ok| |done].
  cbn. rewrite length_app, length_take, length_drop. lia.
Qed.

Lemma packetTimeout_begin_ok (w : World M) o pr w' k :
  packetTimeout_begin w o pr = (w', k) -> window_ok (chan w) ->
  window_ok (chan w') /\ txRing (chan w') = txRing (chan w) /\
  nextSequence (chan w') = nextSequence (chan w).
Proof.
  intros Hb Hw. unfold packetTimeout_begin in Hb.
  destruct (RProved pr); [by injection Hb as <- <-|].
  destruct (find_index _ _) as [i|]; [|by injection Hb as <- <-].
  destruct (_ <=? _)%Z; [by injection Hb as <- <-|].
  assert (chan w' = shrink_window (chan w)) as ->.
  { match type of Hb with match ?p with _ => _ end = _ => destruct p end;
      injection Hb as <- <-; rewrite update_timeouts_chan, on_receipt_chan; done. }
  destruct (shrink_window_frame (chan w)) as [-> ->].
  split_and!; [by apply shrink_window_ok|done..].
Qed.

Lemma Receive_tx_view (c : Channel M) raw packet c' ack out :
  Receive c raw packet = Ok (c', ack, out) ->
  tx_view c' = tx_view c /\ txRing c' = txRing c.
Proof.
  unfold Receive, emplaceRx. destruct (EnvelopeUnpack _ _) as [env| |]; [|by intros [= <- <- <-]|done].
  destruct (out_of_window _ _); [by intros [= <- <- <-]|].
  destruct (emplace _ _ _ _) as [ring|]; cbn; [|by intros [= <- <- <-]].
  destruct (take_contiguous _ _) as [[out' rest] next]. by intros [= <- <- <-].
Qed.

Lemma step_sending_ok s s' : sending_ok s -> step s s' -> sending_ok s'.
Proof.
  intros Hs Hst.
  assert (Hw : window_ok (chan (world s))) by apply Hs.
  destruct Hst as [w o msg w' rs raw e pend acc Hr | w o msg w' x pend acc Hr
    | w o now rs raw e msg r w' e' pend acc Hc | w o now rs raw e msg r w' x pend acc Hc
    | s ps | s o hash | w o pr w' k i pend acc Hb | s Hin | s o e p r Hin
    | s raw packet c' ack out Hr | s | s t f | s h | s id].
  - eapply step_send_ok; [exact Hs|by eapply step_reserve|by left].
  - apply Send_reserve_spec in Hr as ->. done.
  - eapply step_send_ok; [exact Hs|by eapply step_commit|by left].
  - eapply step_send_ok; [exact Hs|by eapply step_commit_fail|by left].
  - by eapply sending_ok_view.
  - destruct (packetDelivered_ok (world s) o hash Hw) as (? & ? & ?).
    by eapply sending_ok_frame.
  - destruct (packetTimeout_begin_ok w o pr w' k Hb Hw) as (? & Et & ?).
    eapply sending_ok_frame; [exact Hs|done..| |done]. cbn. by rewrite Et.
  - destruct (Shutdown_chan (world s)) as (Et & _ & Hv).
    eapply sending_ok_view; [exact Hs|done..|]. cbn -[Shutdown]. rewrite Et. cbn. lia.
  - eapply sending_ok_view; [exact Hs|done..| |]; cbn -[packetTimeout_finish]; by rewrite packetTimeout_finish_chan.
  - apply Receive_tx_view in Hr as [Hv Ht].
    eapply sending_ok_view; [exact Hs|done..|]. cbn. by rewrite Ht.
  - destruct (Shutdown_chan (world s)) as (Et & _ & Hv).
    eapply sending_ok_view; [exact Hs|done..|]. cbn -[Shutdown]. rewrite Et. cbn. lia.
  - by eapply sending_ok_view.
  - by eapply sending_ok_view.
  - by eapply sending_ok_view.
Qed.
End System.

(** ** The receiving side *)

Section Receiving.
Context {M : Type} `{Message M}.

(** Receive a list of payloads one after the other; the envelopes handed to
    the handlers, in order. *)
Fixpoint receive_all (c : Channel M) (rs : list (bytes * option nat))
    : res ch_err (Channel M * list (Envelope M)) :=
  match rs with
  | [] => Ok (c, [])
  | (raw, p) :: rs' =>
      r ← Receive c raw p;
      let '(c1, _, out) := r in
      r' ← receive_all c1 rs';
      let '(c2, out') := r' in
      Ok (c2, out ++ out')
  end.

Definition seqs (n : Z) (k : nat) : list Z := map (fun i => u16 (n + Z.of_nat i)) (seq 0 k).

Definition is_seq (n : Z) : Prop := (0 <= n < 2 ^ 16)%Z.

Lemma u16_is_seq z : is_seq (u16 z).
Proof. unfold is_seq, u16. apply Z.mod_pos_bound. lia. Qed.

Lemma u16_id n : is_seq n -> u16 n = n.
Proof. intros Hn. by apply Z.mod_small. Qed.

Lemma seqs_cons n k : is_seq n -> seqs n (S k) = n :: seqs (u16 (n + 1)) k.
Proof.
  intros Hn. unfold seqs. cbn [seq map]. f_equal; [by rewrite Z.add_0_r, u16_id|].
  rewrite <- seq_shift, map_map. apply map_ext. intros i.
  unfold u16. rewrite Zplus_mod_idemp_l. f_equal. lia.
Qed.

Lemma seqs_app n k m : seqs n (k + m) = seqs n k ++ seqs (u16 (n + Z.of_nat k)) m.
Proof.
  unfold seqs. rewrite seq_app, map_app. f_equal. cbn.
  rewrite <- (Nat.add_0_r k) at 1. rewrite <- fmap_add_seq, map_map. apply map_ext. intros i.
  unfold u16. rewrite Zplus_mod_idemp_l. f_equal. lia.
Qed.

Lemma take_contiguous_spec n ring out (rest : list (Envelope M)) n' :
  is_seq n -> take_contiguous n ring = (out, rest, n') ->
  ring = out ++ rest /\ map Sequence out = seqs n (length out) /\
  n' = u16 (n + zlen out) /\ (forall e r, rest = e :: r -> Sequence e <> n').
Proof.
  induction ring as [|e ring IH] in n, out, rest, n' |- *; cbn [take_contiguous]; intros Hn.
  - intros [= <- <- <-]. split_and!; [done..| |done]. by rewrite zlen_nil, Z.add_0_r, u16_id.
  - destruct (Z.eqb_spec (Sequence e) n) as [He|He].
    + destruct (take_contiguous (u16 (n + 1)) ring) as [[o r] m] eqn:E. intros [= <- <- <-].
      destruct (IH _ _ _ _ (u16_is_seq _) E) as (-> & Hs & -> & Hh). split_and!; [done| | |done].
      * cbn [map length]. by rewrite seqs_cons, Hs, He.
      * rewrite zlen_cons. unfold u16. rewrite Zplus_mod_idemp_l. f_equal. lia.
    + intros [= <- <- <-]. split_and!; [done..| |].
      * by rewrite zlen_nil, Z.add_0_r, u16_id.
      * by intros ? ? [= <- <-].
Qed.

Lemma emplace_perm {A} (f : A -> Z) n e ring ring' :
  emplace f n e ring = Some ring' -> ring' ≡ₚ e :: ring.
Proof.
  induction ring as [|x ring IH] in ring' |- *; cbn; [by intros [= <-]|].
  repeat case_match; [done|by intros [= <-]|].
  intros (r & Hr & ->)%fmap_Some. rewrite (IH r Hr). apply Permutation_swap.
Qed.

Lemma Receive_inv (c : Channel M) raw p c' ack out :
  Receive c raw p = Ok (c', ack, out) ->
  (c' = c /\ ack = false /\ out = []) \/
  exists env ring rest next,
    EnvelopeUnpack (messageFactories c) (mkEnvelope None raw p 0 0 false) = Ok env /\
    out_of_window c (Sequence env) = false /\
    emplace Sequence (nextRXSequence c) (env <| tracked := true |>) (rxRing c) = Some ring /\
    take_contiguous (nextRXSequence c) ring = (out, rest, next) /\
    c' = c <| rxRing := rest |> <| nextRXSequence := next |>.
Proof.
  unfold Receive. destruct (EnvelopeUnpack _ _) as [env| |]; [|intros [= <- <- <-]; auto|done].
  destruct (out_of_window _ _) eqn:Eo; [intros [= <- <- <-]; auto|].
  unfold emplaceRx. destruct (emplace _ _ _ _) as [ring|] eqn:Er; cbn;
    [|intros [= <- <- <-]; auto].
  destruct (take_contiguous _ _) as [[o rest] next] eqn:Et. intros [= <- <- <-].
  right. by exists env, ring, rest, next.
Qed.

(** An envelope that came from one of the payloads. *)
Definition came_from (fs : factories M) (rs : list (bytes * option nat)) (e : Envelope M) : Prop :=
  exists raw p env, (raw, p) ∈ rs /\
    EnvelopeUnpack fs (mkEnvelope None raw p 0 0 false) = Ok env /\ e = env <| tracked := true |>.

(** Whatever payloads arrive, in whatever order, the envelopes handed
    to the handlers carry consecutive sequence numbers from the channel's
    expected one on, modulo 2^16: none is skipped, repeated or reordered;
    and each of them was received or waiting. *)
Theorem receive_in_sequence (c : Channel M) rs c' out :
  is_seq (nextRXSequence c) -> receive_all c rs = Ok (c', out) ->
  map Sequence out = seqs (nextRXSequence c) (length out) /\
  nextRXSequence c' = u16 (nextRXSequence c + zlen out) /\
  (forall e, e ∈ out ++ rxRing c' -> e ∈ rxRing c \/ came_from (messageFactories c) rs e).
Proof.
  induction rs as [|[raw p] rs IH] in c, c', out |- *; cbn [receive_all]; intros Hn.
  { intros [= <- <-]. rewrite zlen_nil, Z.add_0_r, u16_id by done. auto. }
  unfold mbind, res_bind. destruct (Receive c raw p) as [[[c1 ack] o1]| |] eqn:E1; [|done..].
  destruct (receive_all c1 rs) as [[c2 o2]| |] eqn:E2; [|done..]. intros [= <- <-].
  assert (Hstep : map Sequence o1 = seqs (nextRXSequence c) (length o1) /\
    nextRXSequence c1 = u16 (nextRXSequence c + zlen o1) /\
    messageFactories c1 = messageFactories c /\
    (forall e, e ∈ o1 ++ rxRing c1 -> e ∈ rxRing c \/ came_from (messageFactories c) [(raw, p)] e)).
  { apply Receive_inv in E1 as [(-> & _ & ->)|(env & ring & rest & next & Hu & _ & He & Ht & ->)].
    - rewrite zlen_nil, Z.add_0_r, u16_id by done. auto.
    - destruct (take_contiguous_spec _ _ _ _ _ Hn Ht) as (-> & Hs & -> & _). cbn.
      split_and!; [done..|]. intros e Hin. apply emplace_perm in He. rewrite He in Hin.
      apply elem_of_cons in Hin as [->|Hin]; [right|by left].
      exists raw, p, env. set_solver. }
  destruct Hstep as (Hs1 & Hn1 & Hf1 & Hin1).
  destruct (IH c1 c2 o2) as (Hs2 & Hn2 & Hin2); [rewrite Hn1; apply u16_is_seq|done|].
  split_and!.
  - by rewrite map_app, length_app, seqs_app, Hs1, Hs2, Hn1.
  - rewrite Hn2, Hn1, zlen_app. unfold u16. rewrite Zplus_mod_idemp_l. f_equal. lia.
  - intros e He. rewrite <- app_assoc in He.
    assert (forall x, came_from (messageFactories c) [(raw, p)] x ->
              came_from (messageFactories c) ((raw, p) :: rs) x) as Hl.
    { intros x (r & q & env & Hr & ?). exists r, q, env. set_solver. }
    apply elem_of_app in He as [He|He].
    + destruct (Hin1 e) as [?|?]; [set_solver|by left|right; by apply Hl].
    + destruct (Hin2 e He) as [He'|(r & q & env & Hr & Hu & ->)].
      * destruct (Hin1 e) as [?|?]; [set_solver|by left|right; by apply Hl].
      * right. exists r, q, env. rewrite Hf1 in Hu. set_solver.
Qed.

(** ** Delivery *)

(** A message that survives the wire under the receiver's factories. *)
Definition sendable (fs : factories M) (m : M) : Prop :=
  (0 <= GetMsgType m < 2 ^ 16)%Z /\
  exists data f, MPack m = Ok data /\ (zlen data < 2 ^ 16)%Z /\
    fs !! GetMsgType m = Some f /\ f data = Ok m.

Lemma Unpack_Pack_envelope fs m n raw p :
  sendable fs m -> is_seq n -> EnvelopePack m n = Ok raw ->
  EnvelopeUnpack fs (mkEnvelope None raw p 0 0 false) = Ok (mkEnvelope (Some m) raw p n 0 false).
Proof.
  intros (Ht & data & f & Hd & Hl & Hf & Hm) Hn. unfold EnvelopePack. rewrite Hd.
  unfold mbind, res_bind. set (l := u16 (zlen data)). intros Hr.
  assert (raw = be_enc 2 (GetMsgType m) ++ be_enc 2 n ++ be_enc 2 l ++ data) as -> by congruence.
  pose proof (zlen_nonneg data) as Hz. assert (l = zlen data) as El by (by apply Z.mod_small).
  unfold EnvelopeUnpack. cbn [ERaw]. cbv zeta.
  assert (forall a b c d : bytes, length a = 2 -> length b = 2 -> length c = 2 ->
    slice 0 2 (a ++ b ++ c ++ d) = a /\ slice 2 4 (a ++ b ++ c ++ d) = b /\
    slice 4 6 (a ++ b ++ c ++ d) = c /\
    forall k, slice 6 (6 + k) (a ++ b ++ c ++ d) = take k d)%nat as Hsl.
  { intros [|? [|? [|]]] [|? [|? [|]]] [|? [|? [|]]] d; try done. intros _ _ _.
    unfold slice. cbn. rewrite !drop_0. split_and!; try done.
    intros k. by replace (k - 0)%nat with k by lia. }
  destruct (Hsl (be_enc 2 (GetMsgType m)) (be_enc 2 n) (be_enc 2 l) data) as (-> & -> & -> & Hk);
    [apply be_enc_length..|].
  rewrite Hk, !length_app, !be_enc_length, zlen_app, zlen_app, zlen_app.
  rewrite (proj2 (Nat.ltb_ge _ _)) by lia.
  rewrite !be_dec_enc_small by (unfold is_seq, l in *; change (256 ^ Z.of_nat 2)%Z with 65536%Z; lia).
  unfold zlen at 1 2 3. rewrite !be_enc_length. rewrite El.
  rewrite (proj2 (Z.ltb_ge _ _)) by lia.
  rewrite Hf, take_ge by (unfold zlen; lia). cbn. by rewrite Hm.
Qed.

(** What receiving a packed envelope does, by its sequence number. *)
Lemma Receive_packed (c : Channel M) m n raw p :
  sendable (messageFactories c) m -> is_seq n -> EnvelopePack m n = Ok raw ->
  let env := mkEnvelope (Some m) raw p n 0 true in
  Receive c raw p =
    if out_of_window c n then Ok (c, false, [])
    else match emplace Sequence (nextRXSequence c) env (rxRing c) with
         | None => Ok (c, false, [])
         | Some ring =>
             let '(out, rest, next) := take_contiguous (nextRXSequence c) ring in
             Ok (c <| rxRing := rest |> <| nextRXSequence := next |>,
                 bool_decide (p <> None), out)
         end.
Proof.
  intros Hm Hn Hr env. unfold Receive. erewrite Unpack_Pack_envelope; [|done..]. cbn [Sequence].
  destruct (out_of_window c n); [done|]. unfold emplaceRx.
  change (mkEnvelope (Some m) raw p n 0 false <| tracked := true |>) with env.
  by destruct (emplace _ _ _ _).
Qed.

Lemma out_of_window_expected (c : Channel M) n : (nextRXSequence c <= n)%Z -> out_of_window c n = false.
Proof. intros. unfold out_of_window. by rewrite (proj2 (Z.ltb_ge _ _)). Qed.

Lemma take_contiguous_head n (e : Envelope M) ring :
  Sequence e = n -> take_contiguous n (e :: ring) =
    let '(out, rest, next') := take_contiguous (u16 (n + 1)) ring in (e :: out, rest, next').
Proof. intros <-. cbn [take_contiguous]. by rewrite Z.eqb_refl. Qed.

(** Arrival orders without reordering: the sequence of message indices that
    arrive when [k] messages have been delivered, ending with [k'] delivered.
    Each is the next message, or a retransmission of a recent one from the
    same cycle of sequence numbers. *)
Inductive arrives : nat -> list nat -> nat -> Prop :=
  | arr_nil k : arrives k [] k
  | arr_new k ns k' : arrives (S k) ns k' -> arrives k (k :: ns) k'
  | arr_dup i k ns k' :
      (i < k)%nat -> (Z.of_nat k - Z.of_nat i < 2 ^ 16 - ChannelWindowMaxFast)%Z ->
      (Z.of_nat i / 2 ^ 16 = Z.of_nat k / 2 ^ 16)%Z ->
      arrives k ns k' -> arrives k (i :: ns) k'.

Lemma arrives_le k ns k' : arrives k ns k' -> (k <= k')%nat.
Proof. induction 1; lia. Qed.

Lemma out_of_window_dup (c : Channel M) i k :
  nextRXSequence c = u16 (Z.of_nat k) -> (i < k)%nat ->
  (Z.of_nat k - Z.of_nat i < 2 ^ 16 - ChannelWindowMaxFast)%Z ->
  (Z.of_nat i / 2 ^ 16 = Z.of_nat k / 2 ^ 16)%Z ->
  out_of_window c (u16 (Z.of_nat i)) = true.
Proof.
  intros Hn Hi Hd He. unfold out_of_window. rewrite Hn.
  pose proof (Z.div_mod (Z.of_nat i) (2 ^ 16) ltac:(lia)) as Di.
  pose proof (Z.div_mod (Z.of_nat k) (2 ^ 16) ltac:(lia)) as Dk.
  fold (u16 (Z.of_nat i)) in Di. fold (u16 (Z.of_nat k)) in Dk. rewrite He in Di.
  pose proof (u16_is_seq (Z.of_nat i)) as Bi. pose proof (u16_is_seq (Z.of_nat k)) as Bk.
  unfold is_seq in *. unfold ChannelWindowMaxFast in *.
  rewrite (proj2 (Z.ltb_lt _ _)) by lia.
  destruct (Z.ltb_spec (u16 (u16 (Z.of_nat k) + 48)) (u16 (Z.of_nat k))) as [Hlt|]; [|done].
  apply Z.ltb_lt.
  assert (u16 (u16 (Z.of_nat k) + 48) = u16 (Z.of_nat k) + 48 - 2 ^ 16)%Z as ->; [|lia].
  destruct (Z.lt_ge_cases (u16 (Z.of_nat k) + 48) (2 ^ 16)) as [Hs|Hs].
  - unfold u16 at 1 in Hlt. rewrite Z.mod_small in Hlt; lia.
  - unfold u16 at 1. rewrite <- (Z_mod_plus_full _ (-1)), Z.mod_small; lia.
Qed.

(** The payloads [rs] are those of the messages numbered [ns]. *)
Definition payloads (ms : list (M * bytes)) (ns : list nat) (rs : list (bytes * option nat)) : Prop :=
  Forall2 (fun i r => exists m, ms !! i = Some (m, r.1)) ns rs.

Lemma receive_arrivals (c : Channel M) (ms : list (M * bytes)) rs k ns k' :
  (forall i m raw, ms !! i = Some (m, raw) ->
     sendable (messageFactories c) m /\ EnvelopePack m (u16 (Z.of_nat i)) = Ok raw) ->
  arrives k ns k' -> payloads ms ns rs ->
  rxRing c = [] -> nextRXSequence c = u16 (Z.of_nat k) ->
  exists c' out,
    receive_all c rs = Ok (c', out) /\
    map EMessage out = map (fun x => Some x.1) (slice k k' ms) /\
    rxRing c' = [] /\ nextRXSequence c' = u16 (Z.of_nat k').
Proof.
  intros Hms Ha. revert c rs Hms.
  induction Ha as [k|k ns k' Ha IH|i k ns k' Hi Hd He Ha IH]; intros c rs Hms Hp Hr Hn.
  - inversion Hp; subst. exists c, []. unfold slice. by rewrite Nat.sub_diag.
  - inversion Hp as [|? [raw p] ? rs' (m & Hm) Hp']; subst. cbn in Hm.
    destruct (Hms _ _ _ Hm) as [Hs Hraw]. cbn [receive_all].
    rewrite (Receive_packed c m (u16 (Z.of_nat k)) raw p Hs (u16_is_seq _) Hraw).
    rewrite out_of_window_expected by (rewrite Hn; lia). rewrite Hr. cbn [emplace].
    rewrite take_contiguous_head by done. cbn [take_contiguous].
    destruct (IH (c <| rxRing := [] |> <| nextRXSequence := u16 (nextRXSequence c + 1) |>) rs')
      as (c' & out & E & Ho & Hr' & Hn'); [done..| |].
    { cbn. rewrite Hn. unfold u16. rewrite Zplus_mod_idemp_l. f_equal. lia. }
    eexists c', (_ :: out). unfold mbind, res_bind. cbn [app]. rewrite E.
    split_and!; [done| |done..]. cbn [map EMessage]. rewrite Ho.
    apply arrives_le in Ha. unfold slice. replace (k' - k)%nat with (S (k' - S k)) by lia.
    by rewrite (drop_S _ _ _ Hm).
  - inversion Hp as [|? [raw p] ? rs' (m & Hm) Hp']; subst. cbn in Hm.
    destruct (Hms _ _ _ Hm) as [Hs Hraw]. cbn [receive_all].
    rewrite (Receive_packed c m (u16 (Z.of_nat i)) raw p Hs (u16_is_seq _) Hraw).
    rewrite (out_of_window_dup c i k) by done. unfold mbind, res_bind. cbn [app].
    destruct (IH c rs') as (c' & out & E & Ho & Hr' & Hn'); [done..|].
    exists c', out. by rewrite E.
Qed.

(** ** Reordering *)

(** The expected envelope waits in the ring behind another one. *)
Definition Stalled (c : Channel M) : Prop :=
  exists h r e, rxRing c = h :: r /\ e ∈ r /\
    Sequence h <> nextRXSequence c /\ Sequence e = nextRXSequence c.

Definition wire_sequence (raw : bytes) : Z := be_dec (slice 2 4 raw).

Lemma EnvelopeUnpack_sequence fs raw p env :
  EnvelopeUnpack fs (mkEnvelope (M := M) None raw p 0 0 false) = Ok env ->
  Sequence env = wire_sequence raw.
Proof.
  unfold EnvelopeUnpack. cbn [ERaw]. cbv zeta. repeat (case_match; try done).
  unfold mbind, res_bind. destruct (r _); [|done..]. by intros [= <-].
Qed.

Lemma emplace_head {A} (f : A -> Z) n e h r ring :
  emplace f n e (h :: r) = Some ring ->
  ring = e :: h :: r \/ exists r', ring = h :: r' /\ r' ≡ₚ e :: r.
Proof.
  cbn. repeat case_match; [done|intros [= <-]; by left|].
  intros (r' & Hr & ->)%fmap_Some. right. exists r'. split; [done|by eapply emplace_perm].
Qed.

Lemma Stalled_step (c : Channel M) raw p c' ack out :
  Stalled c -> wire_sequence raw <> nextRXSequence c ->
  Receive c raw p = Ok (c', ack, out) ->
  Stalled c' /\ nextRXSequence c' = nextRXSequence c /\ out = [].
Proof.
  intros (h & r & e & Hr & Hin & Hh & He) Hs HR.
  destruct (Receive_inv _ _ _ _ _ _ HR)
    as [(-> & _ & ->)|(env & ring & rest & next & Hu & _ & Hem & Ht & ->)].
  { split_and!; [by exists h, r, e|done..]. }
  apply EnvelopeUnpack_sequence in Hu. rewrite Hr in Hem.
  assert (exists h' r', ring = h' :: r' /\ e ∈ r' /\ Sequence h' <> nextRXSequence c)
    as (h' & r' & -> & Hin' & Hh').
  { destruct (emplace_head _ _ _ _ _ _ Hem) as [->|(r' & -> & Hp)].
    - eexists _, _. split_and!; [done|set_solver|cbn; congruence].
    - exists h, r'. split_and!; [done| |done]. rewrite Hp. set_solver. }
  cbn in Ht. rewrite (proj2 (Z.eqb_neq _ _) Hh') in Ht. injection Ht as <- <- <-.
  split_and!; [|done..]. by exists h', r', e.
Qed.

Lemma Stalled_forever (c : Channel M) rs c' out :
  Stalled c -> Forall (fun r => wire_sequence r.1 <> nextRXSequence c) rs ->
  receive_all c rs = Ok (c', out) -> out = [].
Proof.
  intros Hs Hf. revert c Hs out Hf. induction rs as [|[raw p] rs IH]; intros c Hs out Hf; cbn [receive_all].
  { by intros [= <- <-]. }
  inversion Hf as [|? ? Hw Hf']; subst.
  unfold mbind, res_bind. destruct (Receive c raw p) as [[[c1 ack] o1]| |] eqn:E1; [|done..].
  destruct (Stalled_step _ _ _ _ _ _ Hs Hw E1) as (Hs1 & Hn1 & ->).
  destruct (receive_all c1 rs) as [[c2 o2]| |] eqn:E2; [|done..]. intros [= <- <-].
  cbn. eapply IH; [exact Hs1| |exact E2]. by rewrite Hn1.
Qed.

(** Three envelopes that arrive in reverse order are all acknowledged,
    but only the first is handed over: the subtraction in the ring's
    wrap-around test is done modulo 2^16, so an envelope ahead of the
    expected one is always appended, and the second stays behind the third.
    Since both were acknowledged the sender does not repeat them, and no
    other traffic ever gets the channel going again. *)
Theorem reversed_arrival_stalls (c : Channel M) m0 m1 m2 raw0 raw1 raw2 p0 p1 p2 :
  rxRing c = [] -> nextRXSequence c = 0%Z ->
  Forall (sendable (messageFactories c)) [m0; m1; m2] ->
  EnvelopePack m0 0 = Ok raw0 -> EnvelopePack m1 1 = Ok raw1 -> EnvelopePack m2 2 = Ok raw2 ->
  exists c1 c2 c3 e0,
    Receive c raw2 (Some p2) = Ok (c1, true, []) /\
    Receive c1 raw1 (Some p1) = Ok (c2, true, []) /\
    Receive c2 raw0 (Some p0) = Ok (c3, true, [e0]) /\ EMessage e0 = Some m0 /\
    forall rs c4 out, Forall (fun r => wire_sequence r.1 <> 1%Z) rs ->
      receive_all c3 rs = Ok (c4, out) -> out = [].
Proof.
  intros Hr Hn Hs R0 R1 R2.
  rewrite !List.Forall_cons_iff in Hs. destruct Hs as (S0 & S1 & S2 & _).
  assert (forall z, (0 <= z <= 2)%Z -> is_seq z) as Hq by (unfold is_seq; lia).
  set (e2 := mkEnvelope (Some m2) raw2 (Some p2) 2 0 true).
  set (e1 := mkEnvelope (Some m1) raw1 (Some p1) 1 0 true).
  set (e0 := mkEnvelope (Some m0) raw0 (Some p0) 0 0 true).
  set (c1 := c <| rxRing := [e2] |> <| nextRXSequence := 0%Z |>).
  set (c2 := c1 <| rxRing := [e2; e1] |> <| nextRXSequence := 0%Z |>).
  set (c3 := c2 <| rxRing := [e2; e1] |> <| nextRXSequence := 1%Z |>).
  exists c1, c2, c3, e0. split_and!.
  - rewrite (Receive_packed c m2 2), out_of_window_expected, Hr, Hn by (done || lia || auto with lia).
    done.
  - rewrite (Receive_packed c1 m1 1) by (done || auto with lia). done.
  - rewrite (Receive_packed c2 m0 0) by (done || auto with lia). done.
  - done.
  - intros rs c4 out Hf. apply Stalled_forever; [|done].
    exists e2, [e1], e1. split_and!; [done|set_solver|done..].
Qed.

(** ** Replay across the wrap-around *)

Lemma receive_with_stale (c : Channel M) stale ms rs k :
  (forall i m raw, ms !! i = Some (m, raw) ->
     sendable (messageFactories c) m /\ EnvelopePack m (Z.of_nat (k + i)) = Ok raw) ->
  payloads ms (seq 0 (length ms)) rs -> (Z.of_nat (k + length ms) = ChannelSeqMax)%Z ->
  ms <> [] ->
  rxRing c = [stale] -> Sequence stale = ChannelSeqMax -> nextRXSequence c = Z.of_nat k ->
  exists c' out, receive_all c rs = Ok (c', out) /\
    map EMessage out = map (fun x => Some x.1) ms ++ [EMessage stale] /\
    rxRing c' = [] /\ nextRXSequence c' = 0%Z.
Proof.
  unfold ChannelSeqMax. induction ms as [|[m raw] ms IH] in c, rs, k |- *;
    intros Hms Hp Hk Hne Hr Hst Hn; [done|].
  cbn in Hp, Hk. inversion Hp as [|? [raw' p] ? rs' (m' & Hm) Hp']; subst. cbn in Hm.
  injection Hm as <- <-. destruct (Hms 0%nat m raw eq_refl) as [Hs Hraw].
  rewrite Nat.add_0_r in Hraw. cbn [receive_all].
  rewrite (Receive_packed c m (Z.of_nat k) raw p) by (done || unfold is_seq; lia).
  rewrite out_of_window_expected by lia. rewrite Hr, Hn. cbn [emplace Sequence].
  rewrite Hst, (proj2 (Z.eqb_neq _ _)), (proj2 (Z.ltb_lt _ _)) by lia.
  rewrite Z.sub_diag. change (ChannelSeqMax / 2 <? u16 0)%Z with false. cbn [andb negb].
  rewrite take_contiguous_head by done.
  destruct ms as [|x ms].
  - inversion Hp'; subst. cbn [take_contiguous]. rewrite Hst.
    replace (Z.of_nat k) with 65534%Z in * by (cbn in Hk; lia).
    change (65535 =? u16 (65534 + 1))%Z with true. cbn [receive_all mbind res_bind].
    eexists _, _. split; [reflexivity|]. done.
  - cbn [take_contiguous]. rewrite Hst.
    assert (u16 (Z.of_nat k + 1) = Z.of_nat (S k)) as Hu.
    { unfold u16. rewrite Z.mod_small; cbn in Hk; lia. }
    rewrite Hu, (proj2 (Z.eqb_neq _ _)) by (cbn in Hk; lia).
    destruct (IH (c <| rxRing := [stale] |> <| nextRXSequence := Z.of_nat (S k) |>) rs' (S k))
      as (c' & out & E & Ho & Hr' & Hn'); try done.
    + intros i mi ri Hi. cbn. replace (S (k + i)) with (k + S i)%nat by lia. by apply Hms.
    + unfold payloads in *. rewrite <- seq_shift in Hp'. apply Forall2_fmap_l in Hp'. done.
    + cbn in *. lia.
    + unfold mbind, res_bind. cbn [app]. rewrite E. eexists c', (_ :: out).
      split_and!; [done| |done..]. cbn [map EMessage]. by rewrite Ho.
Qed.

(** A retransmission of the last message of one cycle of sequence
    numbers that arrives when the receiver has moved on to the next cycle is
    not recognised as a duplicate.  It is acknowledged, waits in the ring
    while the 65535 messages of the new cycle are delivered, and is then
    delivered a second time, in the place of the message that belongs
    there. *)
Theorem stale_retransmission_replayed (c : Channel M) old rawOld p ms rs :
  rxRing c = [] -> nextRXSequence c = 0%Z -> Z.of_nat (length ms) = ChannelSeqMax ->
  sendable (messageFactories c) old -> EnvelopePack old ChannelSeqMax = Ok rawOld ->
  (forall i m raw, ms !! i = Some (m, raw) ->
     sendable (messageFactories c) m /\ EnvelopePack m (Z.of_nat i) = Ok raw) ->
  payloads ms (seq 0 (length ms)) rs ->
  exists c' out, receive_all c ((rawOld, p) :: rs) = Ok (c', out) /\
    map EMessage out = map (fun x => Some x.1) ms ++ [Some old] /\ nextRXSequence c' = 0%Z.
Proof.
  intros Hr Hn Hl Hs Ho Hms Hp. cbn [receive_all].
  rewrite (Receive_packed c old ChannelSeqMax rawOld p) by done.
  rewrite out_of_window_expected by (rewrite Hn; done). rewrite Hr, Hn.
  cbn [emplace take_contiguous Sequence]. change (ChannelSeqMax =? 0)%Z with false.
  set (stale := mkEnvelope (Some old) rawOld p ChannelSeqMax 0 true).
  destruct (receive_with_stale (c <| rxRing := [stale] |> <| nextRXSequence := 0%Z |>)
              stale ms rs 0) as (c' & out & E & Hout & _ & Hn'); try done.
  { by intros ->. }
  exists c', out. unfold mbind, res_bind. cbn [app]. by rewrite E.
Qed.
End Receiving.

(** ** Properties of the system *)

Section SystemProperties.
Context {M : Type} `{Message M} `{Sha256}.

Lemma reachable_sending_ok o (s : Sys (M := M)) : reachable o s -> sending_ok s.
Proof.
  intros Hr. unfold reachable in Hr. remember (init_sys o) as s0 eqn:E0.
  assert (sending_ok s0) as Hs0.
  { subst s0. unfold sending_ok. cbn [init_sys world chan inflight accepted in_flight].
    assert (txRing (NewChannel (M := M) o) = [] /\ nextSequence (NewChannel (M := M) o) = 0%Z)
      as [-> ->] by (unfold NewChannel; case_match; done).
    split_and!; [apply NewChannel_window_ok|done|done|done|by intros i]. }
  clear E0. induction Hr as [|s0 s1 s2 Hst _ IH]; [done|].
  apply IH. by eapply step_sending_ok.
Qed.

(** Over every interleaving of sends, acknowledgements, timeouts,
    resends, receives and shutdowns the window stays between 1 and its
    maximum, the maximum never passes 48, and no more than 48 packets
    (counting a send in progress) are ever outstanding.  So the window never
    closes for good: with nothing outstanding, a usable channel is ready to
    send. *)
Theorem channel_window_bounded o (s : Sys (M := M)) :
  reachable o s ->
  let c := chan (world s) in
  (1 <= window c <= windowMax c)%Z /\ (windowMax c <= ChannelWindowMaxFast)%Z /\
  (zlen (txRing c) + in_flight s <= ChannelWindowMaxFast)%Z /\
  (forall o', IsUsable o' = true -> txRing c = [] -> isReadyToSend c o' = true).
Proof.
  intros Hr c. destruct (reachable_sending_ok o s Hr) as ((Hm & _ & Hw & Hx) & Hl & _).
  fold c in Hm, Hw, Hx, Hl. split_and!; try lia.
  intros o' Hu Ht. unfold isReadyToSend. rewrite Hu, Ht. cbn. apply Z.ltb_lt.
  rewrite zlen_nil. lia.
Qed.

(** C3: end to end, what one channel accepts for sending, under any
    interleaving of its own operations, the other one hands to its handlers,
    in order and exactly once, when the link delivers the payloads without
    reordering.  The link may repeat a payload it delivered before, as long as
    the repeated message is of the same cycle of 2^16 sequence numbers as the
    next expected one and fewer than 2^16 - 48 messages back; a repeat from
    before the wrap-around would be taken for a new message
    ([stale_retransmission_replayed]). *)
Theorem channel_end_to_end o (s : Sys (M := M)) (c : Channel M) ns rs k :
  reachable o s ->
  Forall (fun x => sendable (messageFactories c) x.1) (accepted s) ->
  rxRing c = [] -> nextRXSequence c = 0%Z ->
  arrives 0 ns k -> payloads (accepted s) ns rs ->
  exists c' out, receive_all c rs = Ok (c', out) /\
    map EMessage out = map (fun x => Some x.1) (take k (accepted s)).
Proof.
  intros Hr Hf Hx Hn Ha Hp.
  destruct (reachable_sending_ok o s Hr) as (_ & _ & _ & _ & Hacc).
  destruct (receive_arrivals c (accepted s) rs 0 ns k) as (c' & out & E & Ho & _); try done.
  - intros i m raw Hi. split; [|by apply Hacc].
    by apply (proj1 (Forall_lookup _ _) Hf i (m, raw)).
  - exists c', out. split; [done|]. rewrite Ho. unfold slice. by rewrite drop_0, Nat.sub_0_r.
Qed.

(** A send that fails, for whatever reason (channel not ready, message
    too big, outlet error, no packet transmitted, envelope not placed),
    leaves the channel's next sequence number, its rings and its window as
    they were; one that succeeds consumes exactly one sequence number and
    has respected the MDU. *)
Theorem Send_outcomes (w : World M) o now outletSend msg w' r :
  is_seq (nextSequence (chan w)) ->
  Send w o now outletSend msg = (w', r) ->
  match r with
  | Err _ => chan w' = chan w
  | Ok e => nextSequence (chan w') = u16 (nextSequence (chan w) + 1) /\
            (length (txRing (chan w')) <= S (length (txRing (chan w))))%nat /\
            exists raw, EnvelopePack msg (nextSequence (chan w)) = Ok raw /\
              (zlen raw <= OMDU o)%Z
  | Panic => True
  end.
Proof.
  intros Hn. unfold Send. destruct (Send_reserve w o msg) as [w1 r1] eqn:E.
  apply Send_reserve_spec in E. destruct r1 as [[[rs raw] e]| |]; cycle 1.
  { intros [= <- <-]. by subst. }
  { by intros [= <- <-]. }
  destruct E as (-> & Hp & Hm & _ & Hc). destruct (outletSend raw (packets w1)) as [ps ro].
  intros Hs. pose proof (Send_commit_spec _ _ _ _ _ _ _ _ Hs) as Hx.
  destruct r as [e'| |]; cbn in Hx.
  - destruct Hx as [Hv Hl]. injection Hv as -> _ _ _ _. rewrite Hc in Hl |- *. cbn in *.
    split_and!; [done|done|]. by exists raw.
  - rewrite Hx, Hc. cbn. by destruct (chan w).
  - done.
Qed.
End SystemProperties.

(** ** Witnesses *)

Module ToyChannel.
Import ToyCrypto.

(** Messages are byte strings of wire type 7, packed as they are. *)
#[export] Instance toy_message : Message bytes :=
  {| GetMsgType := fun _ => 7%Z; MPack := fun m => Ok m |}.

Definition o : Outlet := mkOutlet 0.1 400 true.
Definition fs : factories bytes := {[ 7%Z := fun d => Ok d ]}.
Definition c0 : Channel bytes := NewChannel o <| messageFactories := fs |>.
Definition raw (n : Z) (m : bytes) : bytes := be_enc 2 7 ++ be_enc 2 n ++ be_enc 2 (u16 (zlen m)) ++ m.

Lemma toy_sendable m : (zlen m < 2 ^ 16)%Z -> sendable fs m.
Proof. intros Hm. split; [cbn; lia|]. eexists m, _. split_and!; [done|done|done|done]. Qed.

(** Envelopes 1, 0 and 9 arrive, in this order. *)
Definition rs3 : list (bytes * option nat) :=
  [(raw 1 [5]%Z, None); (raw 0 [4]%Z, None); (raw 9 [], None)].
Definition rx : Channel bytes * list (Envelope bytes) :=
  match receive_all c0 rs3 with Ok r => r | _ => (c0, []) end.

(** A packet with a receipt, as the link's outlet returns it. *)
Definition receipt : PacketReceipt :=
  mkReceipt [] [] false 0 0 false ReceiptSent None 0 false false.
Definition packet : Packet :=
  zeroPacket <| Raw := [0; 0; 1; 2]%Z |> <| PacketHash := [9]%Z |> <| Receipt := Some receipt |>
    <| SentAt := 5%float |>.
Definition outletSend (b : bytes) (ps : gmap nat Packet)
    : gmap nat Packet * res ch_err (option nat) := (<[O := packet]> ps, Ok (Some O)).

Definition w0 : World bytes := mkWorld (NewChannel o) ∅ ∅ O.
Definition w1 : World bytes := (Send_reserve w0 o [5]%Z).1.
Definition w2 : World bytes := w1 <| packets := {[ O := packet ]} |>.
Definition w3 : World bytes := (Send_commit w2 o 1 0 0 (Ok (Some O))).1.
Definition s3 : Sys := mkSys w3 None [] [([5]%Z, raw 0 [5]%Z)].

Lemma s3_reachable : reachable o s3.
Proof.
  eapply rtc_l; [eapply (step_reserve w0 o [5]%Z w1 0 (raw 0 [5]%Z) 0); reflexivity|].
  eapply rtc_l; [eapply (step_outlet _ {[ O := packet ]})|].
  eapply rtc_l; [|apply rtc_refl].
  eapply (step_commit w2 o 1 0 (raw 0 [5]%Z) 0 [5]%Z (Ok (Some O)) w3 0). vm_compute. reflexivity.
Qed.
End ToyChannel.

Section ChannelWitnesses.
Import ToyCrypto ToyChannel.

Lemma channel_window_bounded_witness :
  let c := chan (world s3) in
  (1 <= window c <= windowMax c)%Z /\ (windowMax c <= ChannelWindowMaxFast)%Z /\
  (zlen (txRing c) + in_flight s3 <= ChannelWindowMaxFast)%Z /\
  (forall o', IsUsable o' = true -> txRing c = [] -> isReadyToSend c o' = true).
Proof. apply (channel_window_bounded o s3). apply s3_reachable. Defined.

Lemma channel_end_to_end_witness :
  exists c' out, receive_all c0 [(raw 0 [5]%Z, None); (raw 0 [5]%Z, None)] = Ok (c', out) /\
    map EMessage out = [Some [5]%Z].
Proof.
  apply (channel_end_to_end o s3 c0 [0; 0]%nat _ 1).
  - apply s3_reachable.
  - apply List.Forall_cons; [apply toy_sendable; reflexivity|apply List.Forall_nil].
  - reflexivity.
  - reflexivity.
  - apply arr_new, arr_dup; [lia|unfold ChannelWindowMaxFast; lia|reflexivity|constructor].
  - constructor; [by exists [5]%Z|constructor; [by exists [5]%Z|constructor]].
Defined.

Lemma receive_in_sequence_witness :
  length rx.2 = 2%nat /\ map Sequence rx.2 = seqs (nextRXSequence c0) (length rx.2) /\
  nextRXSequence rx.1 = u16 (nextRXSequence c0 + zlen rx.2).
Proof.
  assert (receive_all c0 rs3 = Ok (rx.1, rx.2)) as E by (vm_compute; reflexivity).
  assert (is_seq (nextRXSequence c0)) as Hn by (vm_compute; split; congruence).
  destruct (receive_in_sequence c0 rs3 _ _ Hn E) as (Hs & Hx & _).
  split; [vm_compute; reflexivity|split; [exact Hs|exact Hx]].
Defined.

Lemma Send_outcomes_witness :
  let w' := (Send w0 o 1 outletSend [5]%Z).1 in
  nextSequence (chan w') = u16 (nextSequence (chan w0) + 1) /\
  (length (txRing (chan w')) <= S (length (txRing (chan w0))))%nat /\
  exists raw, EnvelopePack [5]%Z (nextSequence (chan w0)) = Ok raw /\ (zlen raw <= OMDU o)%Z.
Proof.
  intros w'.
  assert (Send w0 o 1 outletSend [5]%Z = (w', Ok 0%nat)) as E by (vm_compute; reflexivity).
  assert (is_seq (nextSequence (chan w0))) as Hn by (vm_compute; split; congruence).
  exact (Send_outcomes w0 o 1 outletSend [5]%Z w' _ Hn E).
Defined.

Lemma reversed_arrival_stalls_witness :
  exists c1 c2 c3 e0,
    Receive c0 (raw 2 [2]%Z) (Some 2%nat) = Ok (c1, true, []) /\
    Receive c1 (raw 1 [1]%Z) (Some 1%nat) = Ok (c2, true, []) /\
    Receive c2 (raw 0 [0]%Z) (Some 0%nat) = Ok (c3, true, [e0]) /\ EMessage e0 = Some [0]%Z /\
    forall rs c4 out, Forall (fun r => wire_sequence r.1 <> 1%Z) rs ->
      receive_all c3 rs = Ok (c4, out) -> out = [].
Proof.
  apply (reversed_arrival_stalls c0 [0]%Z [1]%Z [2]%Z);
    [reflexivity|reflexivity| |reflexivity|reflexivity|reflexivity].
  repeat (apply List.Forall_cons; [apply toy_sendable; reflexivity|]). apply List.Forall_nil.
Defined.

Lemma stale_retransmission_replayed_witness :
  let n := Z.to_nat ChannelSeqMax in
  let ms := map (fun i => ([Z.of_nat i], raw (Z.of_nat i) [Z.of_nat i])) (seq 0 n) in
  let rs := map (fun x => (x.2, None)) ms in
  exists c' out, receive_all c0 ((raw ChannelSeqMax [3]%Z, None) :: rs) = Ok (c', out) /\
    map EMessage out = map (fun x => Some x.1) ms ++ [Some [3]%Z] /\ nextRXSequence c' = 0%Z.
Proof.
  intros n ms rs.
  assert (length ms = n) as Hl by (unfold ms; rewrite length_map, length_seq; reflexivity).
  apply (stale_retransmission_replayed c0 [3]%Z (raw ChannelSeqMax [3]%Z) None ms rs).
  - reflexivity.
  - reflexivity.
  - rewrite Hl. unfold n. apply Z2Nat.id. discriminate.
  - apply toy_sendable. reflexivity.
  - reflexivity.
  - intros i m r Hi. unfold ms in Hi. apply list_lookup_fmap_Some in Hi as (j & [= -> ->] & Hj).
    apply lookup_seq in Hj as [-> _]. split; [apply toy_sendable; reflexivity|reflexivity].
  - unfold payloads, rs. rewrite Hl. apply Forall2_fmap_r. apply Forall2_same_length_lookup.
    split; [by rewrite length_seq|]. intros i k [m r] Hk Hi.
    apply lookup_seq in Hk as [-> _]. by exists m.
Defined.
End ChannelWitnesses.
