(* ===== verification/Buffer.v ===== *)
(** * Byte streams over a channel

    Models [rns/buffer.go] and the bounded decompression of [rns/bzip2.go]:
    the stream message wire format, the reader that collects the data of one
    stream, and the writer that splits and compresses what it is given.  The
    bzip2 codec itself is an interface with its round-trip law; channel sends
    are those of the channel component. *)

From stdpp Require Import base tactics option list gmap.
From Stdlib Require Import ZArith Lia.
From S2P Require Import Prelude Crypto Packet Channel.
Local Open Scope go_scope.

Definition SMTStreamData : Z := 0xff00.
Definition StreamIDMax : Z := 0x3fff.
Definition bufferMaxChunkLen : Z := 16 * 1024.
Definition bufferCompressionTries : Z := 4.

(** ** The codec

    [bz_compress] is the vendored writer run over a whole input; [bz_stream]
    is what its reader yields for an input: the bytes before the end of the
    stream, and the error it ends with, if any. *)

Class Bzip2 := {
  bz_compress : bytes -> res ch_err bytes;
  bz_stream : bytes -> bytes * option ch_err;
}.

Class Bzip2Laws `{Bzip2} := {
  bz_roundtrip : forall d c, bz_compress d = Ok c -> bz_stream c = (d, None);
  bz_bytes : forall d c, bytes_ok d -> bz_compress d = Ok c -> bytes_ok c;
}.

Definition CompressBzip2 `{Bzip2} (input : bytes) : res ch_err bytes := bz_compress input.

(** Two errors of their own: the decompression limit, and the reader's. *)
Definition ErrDecompressedTooLarge : ch_err := ErrMessage 1.
Definition ErrStreamIDTooLarge : ch_err := ErrMessage 2.
Definition ErrStreamTooShort : ch_err := ErrMessage 3.
Definition ErrChunkTooLarge : ch_err := ErrMessage 4.
Definition ErrDecompress : ch_err := ErrMessage 5.
Definition ErrMDUTooSmall : ch_err := ErrMessage 6.

(** Reading through [io.LimitReader] stops after [maxLen+1] bytes; an error
    of the stream is seen only if the stream ends before that. *)
Definition DecompressBzip2WithLimit `{Bzip2} (input : bytes) (maxLen : Z) : res ch_err bytes :=
  let maxLen := Z.max 0 maxLen in
  let '(data, err) := bz_stream input in
  if (maxLen <? zlen data)%Z then Err ErrDecompressedTooLarge
  else match err with
       | Some e => Err e
       | None => Ok data
       end.

(** ** Stream messages *)

Record StreamDataMessage := mkStream {
  StreamID : Z;
  SData : bytes;
  EOF : bool;
  Compressed : bool;
}.
#[global] Instance eta_Stream : Eta StreamDataMessage := fun m =>
  mkStream (StreamID m) (SData m) (EOF m) (Compressed m).

(** The header word: the stream ID with the end-of-stream flag and the
    compression flag in its top bits. *)
Definition headerVal (m : StreamDataMessage) : Z :=
  let h := Z.land (StreamID m) 0x3fff in
  let h := if EOF m then Z.lor h 0x8000 else h in
  if Compressed m then Z.lor h 0x4000 else h.

Definition StreamPack (m : StreamDataMessage) : res ch_err bytes :=
  if (StreamIDMax <? StreamID m)%Z then Err ErrStreamIDTooLarge
  else Ok (be_enc 2 (headerVal m) ++ SData m).

Definition StreamUnpack `{Bzip2} (data : bytes) : res ch_err StreamDataMessage :=
  if (length data <? 2)%nat then Err ErrStreamTooShort
  else
    let headerVal := be_dec (take 2 data) in
    let m := mkStream (Z.land headerVal 0x3fff) (drop 2 data)
               (negb (Z.land headerVal 0x8000 =? 0)%Z) (negb (Z.land headerVal 0x4000 =? 0)%Z) in
    if Compressed m then
      match DecompressBzip2WithLimit (SData m) bufferMaxChunkLen with
      | Ok d => Ok (m <| SData := d |>)
      | Err e => if bool_decide (e = ErrDecompressedTooLarge) then Err ErrChunkTooLarge
                 else Err ErrDecompress
      | Panic => Panic
      end
    else Ok m.

(** The messages of a channel that carries streams next to an application's
    own messages [U]. *)
Inductive AnyMessage (U : Type) := Stream (m : StreamDataMessage) | User (u : U).
Arguments Stream {U} m.
Arguments User {U} u.

#[global] Instance any_message `{Message U} : Message (AnyMessage U) := {|
  GetMsgType := fun m => match m with Stream _ => SMTStreamData | User u => GetMsgType u end;
  MPack := fun m => match m with Stream s => StreamPack s | User u => MPack u end;
|}.

(** ** Reading *)

Record ChannelReader := mkReader {
  rstreamID : Z;
  rhandlerID : Z;
  buffer : bytes;
  eof : bool;
}.
#[global] Instance eta_Reader : Eta ChannelReader := fun r =>
  mkReader (rstreamID r) (rhandlerID r) (buffer r) (eof r).

Section Reader.
Context `{Bzip2} `{Message U}.

(** The handler a reader registers: the message is the reader's when it is a
    stream message of its stream. *)
Definition accepts (streamID : Z) (msg : AnyMessage U) : bool :=
  match msg with Stream sm => (StreamID sm =? streamID)%Z | User _ => false end.

Definition NewChannelReader (streamID : Z) (c : Channel (AnyMessage U))
    : ChannelReader * Channel (AnyMessage U) :=
  let c := RegisterMessageType c SMTStreamData (fun d => Stream <$> StreamUnpack d) in
  let '(c, id) := addMessageHandler c (accepts streamID) in
  (mkReader streamID id [] false, c).

Definition handleMessage (cr : ChannelReader) (msg : AnyMessage U) : ChannelReader * bool :=
  match msg with
  | User _ => (cr, false)
  | Stream sm =>
      if negb (StreamID sm =? rstreamID cr)%Z then (cr, false)
      else
        let cr := if (0 <? zlen (SData sm))%Z
                  then cr <| buffer ::= fun b => b ++ SData sm |> else cr in
        let cr := if EOF sm then cr <| eof := true |> else cr in
        (cr, true)
  end.

Inductive read_result := RBlock | REOF | RData (d : bytes).

(** [Read] into a slice of [n] bytes; [RBlock] is a reader left waiting. *)
Definition Read (cr : ChannelReader) (n : nat) : ChannelReader * read_result :=
  if (length (buffer cr) =? 0)%nat then
    if eof cr then (cr, REOF) else (cr, RBlock)
  else (cr <| buffer ::= drop n |>, RData (take n (buffer cr))).
End Reader.

(** ** Writing *)

Record ChannelWriter := mkWriter { wstreamID : Z; enableCompression : bool }.

Section Writer.
Context `{Bzip2} {St : Type} (send : St -> StreamDataMessage -> St * res ch_err nat).

(** The attempts to compress a leading segment of [remaining], from
    [compTry] on. *)
Fixpoint try_compress (tries : nat) (compTry : Z) (mdu : Z) (remaining : bytes) (candidateLen : Z)
    : res ch_err (option (bytes * Z)) :=
  match tries with
  | O => Ok None
  | S tries' =>
      if (32 <? candidateLen)%Z && (compTry <? bufferCompressionTries)%Z then
        let segmentLen := (candidateLen / compTry)%Z in
        if (segmentLen <=? 0)%Z then try_compress tries' (compTry + 1) mdu remaining candidateLen
        else
          compressedChunk ← CompressBzip2 (take (Z.to_nat segmentLen) remaining);
          if (zlen compressedChunk <? mdu)%Z && (zlen compressedChunk <? segmentLen)%Z
          then Ok (Some (compressedChunk, segmentLen))
          else try_compress tries' (compTry + 1) mdu remaining candidateLen
      else Ok None
  end.

(** The next chunk: the message data, how many input bytes it stands for,
    and whether it is compressed. *)
Definition next_chunk (cw : ChannelWriter) (mdu : Z) (remaining : bytes) : res ch_err (bytes * Z * bool) :=
  let candidateLen := Z.min (zlen remaining) bufferMaxChunkLen in
  r ← (if enableCompression cw
       then try_compress (Z.to_nat bufferCompressionTries) 1 mdu remaining candidateLen
       else Ok None);
  match r with
  | Some (chunk, segmentLen) => Ok (chunk, segmentLen, true)
  | None =>
      let processedLen := if (mdu <? candidateLen)%Z then mdu else candidateLen in
      Ok (take (Z.to_nat processedLen) remaining, processedLen, false)
  end.

Fixpoint write_loop (fuel : nat) (cw : ChannelWriter) (mdu : Z) (s : St) (p : bytes) (sent : Z)
    : St * Z * res ch_err unit :=
  match fuel with
  | O => (s, sent, Ok tt)
  | S fuel' =>
      if (sent <? zlen p)%Z then
        let remaining := drop (Z.to_nat sent) p in
        match next_chunk cw mdu remaining with
        | Err e => (s, sent, Err e)
        | Panic => (s, sent, Panic)
        | Ok (chunk, processedLen, compressed) =>
            let msg := mkStream (wstreamID cw) chunk false compressed in
            match send s msg with
            | (s, Err e) => (s, sent, Err e)
            | (s, Panic) => (s, sent, Panic)
            | (s, Ok _) => write_loop fuel' cw mdu s p (sent + processedLen)
            end
        end
      else (s, sent, Ok tt)
  end.

(** [Write]: every round sends at least one byte, so the length of the
    input is enough fuel. *)
Definition Write (cw : ChannelWriter) (channelMDU : Z) (s : St) (p : bytes) : St * Z * res ch_err unit :=
  let mdu := (channelMDU - 6 - 2)%Z in
  if (mdu <=? 0)%Z then (s, 0%Z, Err ErrMDUTooSmall)
  else write_loop (S (length p)) cw mdu s p 0.

Definition Close (cw : ChannelWriter) (s : St) : St * res ch_err unit :=
  match send s (mkStream (wstreamID cw) [] true false) with
  | (s, Ok _) => (s, Ok tt)
  | (s, Err e) => (s, Err e)
  | (s, Panic) => (s, Panic)
  end.
End Writer.

(** The send of a writer attached to a channel. *)
Definition channel_send `{Message U} `{Sha256} (o : Outlet) (now : PrimFloat.float)
    (outletSend : bytes -> gmap nat Packet -> gmap nat Packet * res ch_err (option nat))
    (w : World (AnyMessage U)) (m : StreamDataMessage) : World (AnyMessage U) * res ch_err nat :=
  Send w o now outletSend (Stream m).

(** Closing a bidirectional buffer: the reading half stops listening, then
    the writing half announces the end of its stream. *)
Definition BidirectionalClose `{Message U} `{Sha256} (o : Outlet) (now : PrimFloat.float)
    (outletSend : bytes -> gmap nat Packet -> gmap nat Packet * res ch_err (option nat))
    (cr : ChannelReader) (cw : ChannelWriter) (w : World (AnyMessage U))
    : World (AnyMessage U) * res ch_err unit :=
  Close (channel_send o now outletSend) cw
    (w <| chan ::= fun c => removeMessageHandlerByID c (rhandlerID cr) |>).

(** ** The wire format *)

Lemma stream_header m :
  (0 <= StreamID m <= StreamIDMax)%Z ->
  let v := be_dec (be_enc 2 (headerVal m)) in
  Z.land v 0x3fff = StreamID m /\ negb (Z.land v 0x8000 =? 0)%Z = EOF m /\
  negb (Z.land v 0x4000 =? 0)%Z = Compressed m.
Proof.
  intros Hid v. unfold StreamIDMax in Hid. set (h := Z.land (StreamID m) 0x3fff).
  assert (Z.land (StreamID m) 0x3fff = StreamID m) as Hl.
  { change 0x3fff%Z with (Z.ones 14). rewrite Z.land_ones by lia. apply Z.mod_small. lia. }
  assert (forall k, Z.land 0xffff k = k -> Z.land v k = Z.land (headerVal m) k) as Hv.
  { intros k Hk. unfold v. rewrite be_dec_enc. change (256 ^ Z.of_nat 2)%Z with (2 ^ 16)%Z.
    rewrite <- Z.land_ones by lia. change (Z.ones 16) with 0xffff%Z. by rewrite <- Z.land_assoc, Hk. }
  assert (forall k, Z.land h k = Z.land (StreamID m) (Z.land 0x3fff k)) as Hh.
  { intros k. unfold h. symmetry. apply Z.land_assoc. }
  rewrite !Hv by done. unfold headerVal. fold h.
  destruct (EOF m), (Compressed m); cbv zeta; rewrite ?Z.land_lor_distr_l, !Hh;
    cbn [Z.land Z.of_N N.land Pos.land];
    rewrite ?Hl, ?Z.land_0_r, ?Z.lor_0_r; done.
Qed.

Section BufferFacts.
Context `{Bz : Bzip2} {BzL : Bzip2Laws}.

(** Unpacking a packed message, up to decompression. *)
Lemma StreamUnpack_packed m :
  (0 <= StreamID m <= StreamIDMax)%Z ->
  StreamUnpack (be_enc 2 (headerVal m) ++ SData m) =
    if Compressed m then
      match DecompressBzip2WithLimit (SData m) bufferMaxChunkLen with
      | Ok d => Ok (m <| SData := d |>)
      | Err e => if bool_decide (e = ErrDecompressedTooLarge) then Err ErrChunkTooLarge
                 else Err ErrDecompress
      | Panic => Panic
      end
    else Ok m.
Proof.
  intros Hid. destruct (stream_header m Hid) as (H1 & H2 & H3).
  unfold StreamUnpack. rewrite length_app, be_enc_length, (proj2 (Nat.ltb_ge _ _)) by lia.
  rewrite take_app_length', drop_app_length' by (by rewrite be_enc_length).
  rewrite H1, H2, H3. by destruct m as [id d e []].
Qed.

(** What a message reads as after the wire, given the data it stands for. *)
Lemma Stream_wire m d :
  (0 <= StreamID m <= StreamIDMax)%Z ->
  (if Compressed m then bz_compress d = Ok (SData m) /\ (zlen d <= bufferMaxChunkLen)%Z
   else d = SData m) ->
  exists raw, StreamPack m = Ok raw /\ zlen raw = (2 + zlen (SData m))%Z /\
    StreamUnpack raw = Ok (m <| SData := d |>).
Proof.
  intros Hid Hd. unfold StreamPack. rewrite (proj2 (Z.ltb_ge _ _)) by lia.
  eexists. split; [reflexivity|]. rewrite StreamUnpack_packed by done.
  split; [rewrite zlen_app; unfold zlen; rewrite be_enc_length; lia|].
  destruct m as [id data e c]. cbn in Hd |- *. destruct c; [|by subst].
  destruct Hd as [Hc Hl]. unfold DecompressBzip2WithLimit.
  rewrite (bz_roundtrip _ _ Hc). unfold bufferMaxChunkLen in *.
  by rewrite (proj2 (Z.ltb_ge _ _)) by lia.
Qed.

(** Every stream message survives its wire format: stream ID, flags and
    data, the data decompressed when it was compressed; and only the 14-bit
    stream IDs can be packed. *)
Theorem Stream_roundtrip m :
  (0 <= StreamID m)%Z ->
  match StreamPack m with
  | Ok raw =>
      (StreamID m <= StreamIDMax)%Z /\ zlen raw = (2 + zlen (SData m))%Z /\
      (Compressed m = false -> StreamUnpack raw = Ok m) /\
      (forall d, Compressed m = true -> bz_compress d = Ok (SData m) ->
         StreamUnpack raw = if (bufferMaxChunkLen <? zlen d)%Z then Err ErrChunkTooLarge
                            else Ok (m <| SData := d |>))
  | Err e => e = ErrStreamIDTooLarge /\ (StreamIDMax < StreamID m)%Z
  | Panic => False
  end.
Proof.
  intros Hid. unfold StreamPack.
  destruct (Z.ltb_spec StreamIDMax (StreamID m)) as [Hgt|Hle]; [done|].
  rewrite StreamUnpack_packed by lia. rewrite zlen_app. unfold zlen at 1. rewrite be_enc_length.
  split_and!; [done|lia|by intros ->|]. intros d -> Hd. unfold DecompressBzip2WithLimit.
  rewrite (bz_roundtrip _ _ Hd). unfold bufferMaxChunkLen.
  by destruct (Z.ltb_spec (Z.max 0 (16 * 1024)) (zlen d)), (Z.ltb_spec (16 * 1024) (zlen d)); try lia.
Qed.

(** ** Writing *)

Lemma try_compress_spec tries k mdu remaining cand chunk seg :
  (1 <= k)%Z -> (0 <= cand <= zlen remaining)%Z ->
  try_compress tries k mdu remaining cand = Ok (Some (chunk, seg)) ->
  bz_compress (take (Z.to_nat seg) remaining) = Ok chunk /\ (zlen chunk < mdu)%Z /\
  (0 < seg <= cand)%Z.
Proof.
  induction tries as [|tries IH] in k |- *; cbn [try_compress]; intros Hk Hc; [done|].
  destruct (_ && _) eqn:Eg; [|done].
  apply andb_prop in Eg as [Eg _]. apply Z.ltb_lt in Eg.
  destruct (Z.leb_spec (cand / k) 0); [apply IH; lia|].
  unfold mbind, res_bind, CompressBzip2. destruct (bz_compress (take (Z.to_nat (cand / k)) remaining)) as [cc| |] eqn:Ec; [|done..].
  destruct (_ && _) eqn:Es; [|apply IH; lia].
  apply andb_prop in Es as [Es1 Es2]. apply Z.ltb_lt in Es1, Es2.
  intros [= <- <-]. split_and!; [done|lia|lia|]. apply Z.div_le_upper_bound; nia.
Qed.

Lemma next_chunk_spec cw mdu remaining chunk n compressed :
  (0 < mdu)%Z -> remaining <> [] ->
  next_chunk cw mdu remaining = Ok (chunk, n, compressed) ->
  (0 < n <= zlen remaining)%Z /\ (zlen chunk <= mdu)%Z /\
  (if compressed then bz_compress (take (Z.to_nat n) remaining) = Ok chunk /\
                      (n <= bufferMaxChunkLen)%Z
   else chunk = take (Z.to_nat n) remaining).
Proof.
  intros Hm Hne. unfold next_chunk. set (cand := Z.min _ _).
  assert (0 < cand <= zlen remaining)%Z as Hc.
  { unfold cand, bufferMaxChunkLen. destruct remaining; [done|].
    rewrite zlen_cons. pose proof (zlen_nonneg remaining). lia. }
  assert (cand <= bufferMaxChunkLen)%Z as Hc' by (unfold cand; lia).
  assert (forall chunk' seg,
    (if enableCompression cw then try_compress (Z.to_nat bufferCompressionTries) 1 mdu remaining cand
     else Ok None) = Ok (Some (chunk', seg)) ->
    bz_compress (take (Z.to_nat seg) remaining) = Ok chunk' /\ (zlen chunk' < mdu)%Z /\
    (0 < seg <= cand)%Z) as Ht.
  { intros chunk' seg E. destruct (enableCompression cw); [|done].
    by apply try_compress_spec in E; [|lia|lia]. }
  unfold mbind, res_bind. destruct (if enableCompression cw then _ else _) as [[[ch seg]|]| |];
    [| |done..].
  - destruct (Ht ch seg eq_refl) as (H1 & H2 & H3). intros [= <- <- <-].
    split_and!; try lia. done.
  - intros [= <- <- <-]. destruct (Z.ltb_spec mdu cand); split_and!; try lia; try done;
      unfold zlen; rewrite length_take; unfold zlen in *; lia.
Qed.

(** A send that also records the messages it accepted. *)
Definition logged {St} (send : St -> StreamDataMessage -> St * res ch_err nat)
    (s : St * list StreamDataMessage) (m : StreamDataMessage)
    : (St * list StreamDataMessage) * res ch_err nat :=
  match send s.1 m with
  | (s', Ok e) => ((s', s.2 ++ [m]), Ok e)
  | (s', r) => ((s', s.2), r)
  end.

(** [m] fits the channel's MDU and reads as [m'] at the other end. *)
Definition wire_as (channelMDU : Z) (m m' : StreamDataMessage) : Prop :=
  exists raw, StreamPack m = Ok raw /\ (6 + zlen raw <= channelMDU)%Z /\ StreamUnpack raw = Ok m'.

Definition data_message (id : Z) (m : StreamDataMessage) : Prop :=
  StreamID m = id /\ EOF m = false.

(** Everything sent so far stands for the first [sent] bytes of [p]. *)
Definition written (cw : ChannelWriter) (channelMDU : Z) (log : list StreamDataMessage)
    (done : bytes) : Prop :=
  exists ms, Forall2 (wire_as channelMDU) log ms /\ Forall (data_message (wstreamID cw)) ms /\
    concat (map SData ms) = done.

Lemma write_loop_spec {St} (send : St -> StreamDataMessage -> St * res ch_err nat)
    fuel cw channelMDU p s log sent s' log' n r :
  (0 <= wstreamID cw <= StreamIDMax)%Z -> (8 < channelMDU)%Z ->
  (0 <= sent <= zlen p)%Z -> (zlen p - sent < Z.of_nat fuel)%Z ->
  written cw channelMDU log (take (Z.to_nat sent) p) ->
  write_loop (logged send) fuel cw (channelMDU - 6 - 2) (s, log) p sent = ((s', log'), n, r) ->
  (0 <= n <= zlen p)%Z /\ (r = Ok tt -> n = zlen p) /\
  written cw channelMDU log' (take (Z.to_nat n) p).
Proof.
  intros Hid Hm. induction fuel as [|fuel IH] in s, log, sent |- *; intros Hs Hf Hw; [lia|].
  cbn [write_loop]. destruct (Z.ltb_spec sent (zlen p)) as [Hlt|Hge];
    [|intros [= <- <- <- <-]; split_and!; [lia|lia|lia|done]].
  set (remaining := drop (Z.to_nat sent) p).
  assert (zlen remaining = zlen p - sent)%Z as Hrem
    by (unfold remaining, zlen in *; rewrite length_drop; lia).
  destruct (next_chunk cw _ remaining) as [[[chunk k] compressed]| |] eqn:En;
    [|intros [= <- <- <- <-]; split_and!; [lia|lia|done|done]|intros [= <- <- <- <-]; split_and!; [lia|lia|done|done]].
  apply next_chunk_spec in En as (Hk & Hcl & Hch); [|lia|by intros E; rewrite E, zlen_nil in Hrem; lia].
  unfold logged at 1. cbn [fst snd]. destruct (send s _) as [s1 [e|e|]] eqn:Es;
    [|intros [= <- <- <- <-]; split_and!; [lia|lia|done|done]|intros [= <- <- <- <-]; split_and!; [lia|lia|done|done]].
  apply IH; [lia|lia|]. destruct Hw as (ms & Hf2 & Hd & Hc).
  set (d := take (Z.to_nat k) remaining).
  destruct (Stream_wire (mkStream (wstreamID cw) chunk false compressed) d) as (raw & Hp & Hl & Hu).
  { done. }
  { cbn. destruct compressed; [|done]. split; [by destruct Hch|].
    unfold d, zlen. rewrite length_take. lia. }
  exists (ms ++ [mkStream (wstreamID cw) d false compressed]). split_and!.
  - apply Forall2_app; [done|]. constructor; [|constructor]. exists raw. cbn in *. split_and!; [done|lia|done].
  - apply Forall_app. split; [done|]. constructor; [done|constructor].
  - rewrite map_app, concat_app, Hc. cbn. rewrite app_nil_r. unfold d, remaining.
    rewrite Z2Nat.inj_add, <- take_take_drop by lia. done.
Qed.

(** ** Reader and writer together *)

Lemma handle_data_messages {U} (cr : ChannelReader) id ms :
  rstreamID cr = id -> Forall (data_message id) ms ->
  fold_left (fun cr m => (handleMessage cr (Stream (U := U) m)).1) ms cr =
    cr <| buffer ::= fun b => b ++ concat (map SData ms) |>.
Proof.
  intros Hid Hf. revert cr Hid. induction Hf as [|m ms [Hm He] Hf IH]; intros cr Hid; cbn [fold_left].
  { destruct cr. unfold modify. cbn. by rewrite app_nil_r. }
  assert ((handleMessage cr (Stream (U := U) m)).1 = cr <| buffer ::= fun b => b ++ SData m |>) as ->.
  { unfold handleMessage. rewrite Hm, Hid, Z.eqb_refl, He. cbn [negb].
    destruct (Z.ltb_spec 0 (zlen (SData m))) as [|Hz]; [done|].
    destruct (SData m) as [|b d]; [|rewrite zlen_cons in Hz; pose proof (zlen_nonneg d); lia].
    destruct cr. unfold modify. cbn. by rewrite app_nil_r. }
  rewrite IH by (by destruct cr). destruct cr. unfold modify. cbn. by rewrite <- app_assoc.
Qed.

(** C20: whatever a write returns, error or not, the count it reports is
    exactly what the peer will read.  Each accepted message fits the
    channel's MDU and passes the reader's decompression limit, and when the
    reader of that stream has handled them its buffer has grown by the first
    [n] bytes of the input, all of it if the write succeeded.  The loop
    terminates: the fuel is enough. *)
Theorem Write_Read_stream {St U} (send : St -> StreamDataMessage -> St * res ch_err nat)
    cw channelMDU s p s' log n r (cr : ChannelReader) :
  (0 <= wstreamID cw <= StreamIDMax)%Z -> rstreamID cr = wstreamID cw ->
  Write (logged send) cw channelMDU (s, []) p = ((s', log), n, r) ->
  (0 <= n <= zlen p)%Z /\ (r = Ok tt -> n = zlen p) /\
  exists ms, Forall2 (wire_as channelMDU) log ms /\
    buffer (fold_left (fun cr m => (handleMessage cr (Stream (U := U) m)).1) ms cr) =
      buffer cr ++ take (Z.to_nat n) p.
Proof.
  intros Hid Hr. unfold Write. pose proof (zlen_nonneg p) as Hz.
  destruct (Z.leb_spec (channelMDU - 6 - 2) 0).
  { intros [= <- <- <- <-]. split_and!; [lia|lia|done|]. exists []. split; [constructor|].
    cbn. by rewrite app_nil_r. }
  intros Hw. eapply write_loop_spec in Hw as (Hn & Ho & ms & Hf & Hd & Hc); try lia; try done.
  - split_and!; [lia|lia|done|]. exists ms. split; [done|].
    rewrite (handle_data_messages cr (wstreamID cw)) by done. cbn. by rewrite Hc.
  - unfold zlen. lia.
  - exists []. split_and!; [constructor|constructor|done].
Qed.

(** Read with the given slice sizes until the stream ends. *)
Fixpoint read_all (cr : ChannelReader) (sizes : list nat) : bytes * list read_result :=
  match sizes with
  | [] => ([], [])
  | k :: sizes' =>
      match Read cr k with
      | (cr', RData d) => let '(ds, rs) := read_all cr' sizes' in (d ++ ds, RData d :: rs)
      | (cr', r) => let '(ds, rs) := read_all cr' sizes' in (ds, r :: rs)
      end
  end.

(** A reader returns the bytes of its buffer in order, whatever slice
    sizes it is read with, never more than asked; it blocks only on an empty
    unfinished stream, and reports the end of the stream only after every
    byte was returned. *)
Theorem Read_drains (cr : ChannelReader) sizes :
  let '(ds, rs) := read_all cr sizes in
  ds = take (fold_right Nat.add O sizes) (buffer cr) /\
  Forall2 (fun k r => match r with RData d => (length d <= k)%nat | _ => True end) sizes rs /\
  (RBlock ∈ rs -> eof cr = false /\ ds = buffer cr) /\
  (REOF ∈ rs -> eof cr = true /\ ds = buffer cr).
Proof.
  induction sizes as [|k sizes IH] in cr |- *; cbn [read_all fold_right].
  { rewrite take_0. split_and!; [done|constructor|by intros ?%elem_of_nil|by intros ?%elem_of_nil]. }
  unfold Read. destruct (Nat.eqb_spec (length (buffer cr)) 0) as [Hb|Hb].
  - apply length_zero_iff_nil in Hb. specialize (IH cr).
    assert (forall x, (if eof cr then (cr, REOF) else (cr, RBlock)) = x ->
      x = (cr, if eof cr then REOF else RBlock)) as Hx by (intros x <-; by destruct (eof cr)).
    rewrite (Hx _ eq_refl). clear Hx. destruct (read_all cr sizes) as [ds rs].
    destruct IH as (-> & Hf & Hbl & He). rewrite Hb, !take_nil in *.
    destruct (eof cr); (split_and!; [done|by constructor|..]); set_solver.
  - specialize (IH (cr <| buffer ::= drop k |>)).
    destruct (read_all (cr <| buffer ::= drop k |>) sizes) as [ds rs].
    destruct IH as (-> & Hf & Hbl & He). cbn in *. split_and!.
    + by rewrite take_take_drop.
    + constructor; [|done]. rewrite length_take. lia.
    + intros [?|Hin]%elem_of_cons; [done|]. destruct (Hbl Hin) as [-> ->]. by rewrite take_drop.
    + intros [?|Hin]%elem_of_cons; [done|]. destruct (He Hin) as [-> ->]. by rewrite take_drop.
Qed.
End BufferFacts.

(** ** Witnesses *)

Module ToyBzip2.
(** Short runs of zeros are stored by their length, everything else verbatim. *)
#[export] Instance toy_bz : Bzip2 := {|
  bz_compress := fun d =>
    Ok (if bool_decide (d = replicate (length d) 0%Z /\ length d < 256)%nat then [66; 0; zlen d]%Z else 66%Z :: 1%Z :: d);
  bz_stream := fun c =>
    match c with
    | [66%Z; 0%Z; n] => (replicate (Z.to_nat n) 0%Z, None)
    | 66%Z :: 1%Z :: d => (d, None)
    | _ => ([], Some ErrDecompress)
    end;
|}.
#[export] Instance toy_bz_laws : Bzip2Laws.
Proof.
  split.
  - intros d c. cbn. case_bool_decide as Hd; intros [= <-]; [|done].
    unfold zlen. by rewrite Nat2Z.id, <- (proj1 Hd).
  - intros d c Hb. cbn. case_bool_decide as Hd; intros [= <-]; [|repeat (apply bytes_ok_cons; [done|]); exact Hb].
    repeat constructor; unfold zlen; lia.
Qed.
Definition msg : StreamDataMessage := mkStream 77 [66; 0; 40]%Z false true.
Definition send (s : nat) (m : StreamDataMessage) : nat * res ch_err nat :=
  if (s =? 3)%nat then (s, Err ErrNotReady) else (S s, Ok s).
Definition input : bytes := replicate 50 0%Z ++ seqZ 1 20.
End ToyBzip2.

Section BufferWitnesses.
Import ToyBzip2.

Lemma Stream_roundtrip_witness :
  match StreamPack msg with
  | Ok raw =>
      (StreamID msg <= StreamIDMax)%Z /\ zlen raw = (2 + zlen (SData msg))%Z /\
      (Compressed msg = false -> StreamUnpack raw = Ok msg) /\
      (forall d, Compressed msg = true -> bz_compress d = Ok (SData msg) ->
         StreamUnpack raw = if (bufferMaxChunkLen <? zlen d)%Z then Err ErrChunkTooLarge
                            else Ok (msg <| SData := d |>))
  | Err e => e = ErrStreamIDTooLarge /\ (StreamIDMax < StreamID msg)%Z
  | Panic => False
  end.
Proof. apply (Stream_roundtrip msg). cbn. lia. Defined.

(** A write that is cut short by the channel after three messages. *)
Lemma Write_Read_stream_witness :
  let x := Write (logged send) (mkWriter 77 true) 20 (0%nat, []) input in
  let cr := mkReader 77 1 [9]%Z false in
  x.1.2 <> 0%Z /\ x.2 = Err ErrNotReady /\
  exists ms, Forall2 (wire_as 20) x.1.1.2 ms /\
    buffer (fold_left (fun cr m => (handleMessage cr (Stream (U := bytes) m)).1) ms cr) =
      [9]%Z ++ take (Z.to_nat x.1.2) input.
Proof.
  intros x cr.
  assert (Write (logged send) (mkWriter 77 true) 20 (0%nat, []) input =
            ((x.1.1.1, x.1.1.2), x.1.2, x.2)) as E by (vm_compute; reflexivity).
  split; [vm_compute; discriminate|]. split; [vm_compute; reflexivity|].
  destruct (Write_Read_stream (U := bytes) send (mkWriter 77 true) 20 0%nat input _ _ _ _ cr
              ltac:(vm_compute; split; congruence) eq_refl E) as (_ & _ & Hms).
  exact Hms.
Defined.
(** Reading a finished three-byte stream two bytes at a time. *)
Lemma Read_drains_witness :
  let '(ds, rs) := read_all (mkReader 77 1 [1; 2; 3]%Z true) [2; 2; 2]%nat in
  REOF ∈ rs /\ ds = [1; 2; 3]%Z.
Proof.
  pose proof (Read_drains (mkReader 77 1 [1; 2; 3]%Z true) [2; 2; 2]%nat) as H.
  destruct (read_all (mkReader 77 1 [1; 2; 3]%Z true) [2; 2; 2]%nat) as [ds rs] eqn:E.
  assert (REOF ∈ rs) as Hin by (injection E as <- <-; apply list_elem_of_In; cbn; auto).
  split; [exact Hin|]. destruct H as (_ & _ & _ & H). exact (proj2 (H Hin)).
Defined.
End BufferWitnesses.
