(* ===== verification/InboundQueues.v ===== *)
(** * Inbound queues: bounded, prioritised, blocking

    Models [rns/inbound-queues.go]: one bounded FIFO per traffic class, a
    non-blocking [Put] that drops when its class is full, and getters that scan
    the classes in priority order and wait on a notification channel when all
    are empty.  The notification channel that [Put] closes and replaces is a
    generation number: the channels of earlier generations are closed.  Getters
    run as threads of a labelled step relation, each critical section one
    step, so that every interleaving of producers, getters, the clock and the
    stop channel is covered. *)

From stdpp Require Import base tactics option list relations.
From Stdlib Require Import ZArith Lia.
From S2P Require Import Prelude.
Local Open Scope go_scope.

Definition NumTrafficClasses : Z := 4.

Inductive iq_err :=
  | ErrInboundQueueFull
  | ErrInboundQueueEmpty
  | ErrInboundQueueStopped
  | ErrInvalidTrafficClass.

#[global] Instance iq_err_eq_dec : EqDecision iq_err.
Proof. solve_decision. Defined.

Section Queues.
Context {T : Type}.

Record InboundQueues := mkQueues {
  queues : list (list T);
  sizes : list Z;
  dropped : list Z;
  notify : nat;
}.
#[global] Instance eta_Queues : Eta InboundQueues := fun q =>
  mkQueues (queues q) (sizes q) (dropped q) (notify q).

(** [sizes] is the four-element array of the source. *)
Definition NewInboundQueues (szs : list Z) : InboundQueues :=
  mkQueues (replicate (Z.to_nat NumTrafficClasses) [])
    (take (Z.to_nat NumTrafficClasses) szs) (replicate (Z.to_nat NumTrafficClasses) 0%Z) 0.

Definition valid_class (trafficClass : Z) : bool :=
  (0 <=? trafficClass)%Z && (trafficClass <? NumTrafficClasses)%Z.

Definition queue_of (q : InboundQueues) (c : nat) : list T := nth c (queues q) [].
Definition size_of (q : InboundQueues) (c : nat) : Z := nth c (sizes q) 0%Z.
Definition dropped_of (q : InboundQueues) (c : nat) : Z := nth c (dropped q) 0%Z.

Definition Put (q : InboundQueues) (trafficClass : Z) (item : T) : InboundQueues * res iq_err unit :=
  if negb (valid_class trafficClass) then (q, Err ErrInvalidTrafficClass)
  else
    let c := Z.to_nat trafficClass in
    if (size_of q c <=? zlen (queue_of q c))%Z then
      (q <| dropped ::= alter (Z.add 1) c |>, Err ErrInboundQueueFull)
    else
      (q <| queues ::= alter (fun l => l ++ [item]) c |> <| notify ::= S |>, Ok tt).

(** The scan shared by the getters: the first class that holds an item,
    the item, and the queues without it. *)
Fixpoint scan (qs : list (list T)) : option (nat * T * list (list T)) :=
  match qs with
  | [] => None
  | (x :: l) :: qs' => Some (O, x, l :: qs')
  | [] :: qs' => '(c, x, r) ← scan qs'; Some (S c, x, [] :: r)
  end.

Definition TryGet (q : InboundQueues) : InboundQueues * res iq_err T :=
  match scan (queues q) with
  | Some (_, x, qs) => (q <| queues := qs |>, Ok x)
  | None => (q, Err ErrInboundQueueEmpty)
  end.

Definition QSize (q : InboundQueues) : Z := fold_left (fun t l => (t + zlen l)%Z) (queues q) 0%Z.

Definition QSizeOf (q : InboundQueues) (trafficClass : Z) : Z :=
  if negb (valid_class trafficClass) then 0%Z else zlen (queue_of q (Z.to_nat trafficClass)).

Definition Snapshot (q : InboundQueues) : Z * list Z * list Z :=
  (QSize q, map zlen (queues q), dropped q).

(** ** Getters as threads *)

(** The four getters: [TryGet], [Get], [GetWithTimeout] (with its deadline)
    and [GetUntil]. *)
Inductive getter := KTry | KGet | KTimeout (deadline : Z) | KUntil.

(** Where a getter is: about to scan; between releasing the lock and
    waiting; waiting on a channel; about to scan once more after the stop;
    returned. *)
Inductive gstate :=
  | GScan
  | GArm (ch : nat)
  | GWait (ch : nat)
  | GStop
  | GRet (r : res iq_err T).

(** What a critical section of a getter does when it holds the lock:
    the queues after it, the getter's next state, and the class and item
    taken, if any. *)
Definition scan_section (k : getter) (now : Z) (q : InboundQueues)
    : InboundQueues * gstate * option (nat * T) :=
  match scan (queues q) with
  | Some (c, x, qs) => (q <| queues := qs |>, GRet (Ok x), Some (c, x))
  | None =>
      match k with
      | KTry => (q, GRet (Err ErrInboundQueueEmpty), None)
      | KTimeout d => if (now <? d)%Z then (q, GArm (notify q), None)
                      else (q, GRet (Err ErrInboundQueueEmpty), None)
      | KGet | KUntil => (q, GWait (notify q), None)
      end
  end.

(** The last scan of [GetUntil], after the stop channel closed. *)
Definition stop_section (q : InboundQueues) : InboundQueues * gstate * option (nat * T) :=
  match scan (queues q) with
  | Some (c, x, qs) => (q <| queues := qs |>, GRet (Ok x), Some (c, x))
  | None => (q, GRet (Err ErrInboundQueueStopped), None)
  end.

Record QSys := mkQSys {
  iq : InboundQueues;
  threads : list (getter * gstate);
  clock : Z;
  stop : bool;
}.

Inductive ievent :=
  | EPut (c : nat) (x : T)
  | EDrop (c : nat) (x : T)
  | EGot (c : nat) (x : T)
  | ETau.

Definition got (o : option (nat * T)) : ievent :=
  match o with Some (c, x) => EGot c x | None => ETau end.

Inductive istep : QSys -> ievent -> QSys -> Prop :=
  | is_put q ths now st c x q' :
      (0 <= c < NumTrafficClasses)%Z -> Put q c x = (q', Ok tt) ->
      istep (mkQSys q ths now st) (EPut (Z.to_nat c) x) (mkQSys q' ths now st)
  | is_drop q ths now st c x q' :
      (0 <= c < NumTrafficClasses)%Z -> Put q c x = (q', Err ErrInboundQueueFull) ->
      istep (mkQSys q ths now st) (EDrop (Z.to_nat c) x) (mkQSys q' ths now st)
  | is_spawn q ths now st k :
      istep (mkQSys q ths now st) ETau (mkQSys q (ths ++ [(k, GScan)]) now st)
  | is_scan q ths now st i k q' g o :
      ths !! i = Some (k, GScan) -> scan_section k now q = (q', g, o) ->
      istep (mkQSys q ths now st) (got o) (mkQSys q' (<[i := (k, g)]> ths) now st)
  | is_arm q ths now st i d ch :
      ths !! i = Some (KTimeout d, GArm ch) ->
      istep (mkQSys q ths now st) ETau
        (mkQSys q (<[i := (KTimeout d, if (d <=? now)%Z then GRet (Err ErrInboundQueueEmpty)
                                       else GWait ch)]> ths) now st)
  | is_wake q ths now st i k ch :
      ths !! i = Some (k, GWait ch) -> (ch < notify q)%nat ->
      istep (mkQSys q ths now st) ETau (mkQSys q (<[i := (k, GScan)]> ths) now st)
  | is_timer q ths now st i d ch :
      ths !! i = Some (KTimeout d, GWait ch) -> (d <= now)%Z ->
      istep (mkQSys q ths now st) ETau (mkQSys q (<[i := (KTimeout d, GScan)]> ths) now st)
  | is_stopped q ths now i ch :
      ths !! i = Some (KUntil, GWait ch) ->
      istep (mkQSys q ths now true) ETau (mkQSys q (<[i := (KUntil, GStop)]> ths) now true)
  | is_last q ths now st i q' g o :
      ths !! i = Some (KUntil, GStop) -> stop_section q = (q', g, o) ->
      istep (mkQSys q ths now st) (got o) (mkQSys q' (<[i := (KUntil, g)]> ths) now st)
  | is_clock q ths now now' st :
      (now <= now')%Z -> istep (mkQSys q ths now st) ETau (mkQSys q ths now' st)
  | is_stop q ths now st : istep (mkQSys q ths now st) ETau (mkQSys q ths now true).

Inductive itrace (s0 : QSys) : list ievent -> QSys -> Prop :=
  | it_nil : itrace s0 [] s0
  | it_snoc tr s e s' : itrace s0 tr s -> istep s e s' -> itrace s0 (tr ++ [e]) s'.

Definition init_qsys (szs : list Z) : QSys := mkQSys (NewInboundQueues szs) [] 0 false.

(** ** Lemmas on the operations *)

Lemma scan_spec qs c x qs' :
  scan qs = Some (c, x, qs') ->
  exists l, qs !! c = Some (x :: l) /\ qs' = <[c := l]> qs /\
    (forall c', (c' < c)%nat -> qs !! c' = Some []).
Proof.
  induction qs as [|[|y l] qs IH] in c, x, qs' |- *; cbn; [done| |].
  - destruct (scan qs) as [[[c1 x1] r]|]; [|done]. cbn. intros [= <- <- <-].
    destruct (IH _ _ _ eq_refl) as (l & H1 & -> & H2). exists l. split_and!; [done..|].
    intros [|c'] Hc; [done|]. cbn. apply H2. lia.
  - intros [= <- <- <-]. exists l. split_and!; [done..|]. lia.
Qed.

Lemma scan_None qs : scan qs = None <-> Forall (fun l => l = []) qs.
Proof.
  induction qs as [|[|y l] qs IH]; cbn.
  - split; [constructor|done].
  - rewrite Forall_cons, <- IH. destruct (scan qs) as [[[? ?] ?]|]; cbn; intuition congruence.
  - rewrite Forall_cons. intuition congruence.
Qed.

(** What each successful operation does to one class. *)
Lemma queue_of_alter f q c c' :
  (c < length (queues q))%nat ->
  nth c' (alter f c (queues q)) [] = if (c' =? c)%nat then f (queue_of q c) else queue_of q c'.
Proof.
  intros Hc. unfold queue_of. rewrite !nth_lookup.
  destruct (Nat.eqb_spec c' c) as [->|Hne].
  - rewrite list_lookup_alter_eq. destruct (lookup_lt_is_Some_2 _ _ Hc) as [l ->]. done.
  - by rewrite list_lookup_alter_ne.
Qed.

(** ** Traces *)

Definition puts (c : nat) (tr : list ievent) : list T :=
  omap (fun e => match e with EPut c' x => if (c' =? c)%nat then Some x else None | _ => None end) tr.
Definition gets (c : nat) (tr : list ievent) : list T :=
  omap (fun e => match e with EGot c' x => if (c' =? c)%nat then Some x else None | _ => None end) tr.
Definition drops (c : nat) (tr : list ievent) : list T :=
  omap (fun e => match e with EDrop c' x => if (c' =? c)%nat then Some x else None | _ => None end) tr.

(** Effect of a labelled step on the queues. *)
Inductive effect (q : InboundQueues) : ievent -> InboundQueues -> Prop :=
  | eff_put c x :
      (c < 4)%nat -> (zlen (queue_of q c) < size_of q c)%Z ->
      effect q (EPut c x) (q <| queues ::= alter (fun l => l ++ [x]) c |> <| notify ::= S |>)
  | eff_drop c x :
      (c < 4)%nat -> (size_of q c <= zlen (queue_of q c))%Z ->
      effect q (EDrop c x) (q <| dropped ::= alter (Z.add 1) c |>)
  | eff_got c x qs :
      scan (queues q) = Some (c, x, qs) -> effect q (EGot c x) (q <| queues := qs |>)
  | eff_tau : effect q ETau q.

Lemma Put_effect q c x q' r :
  (0 <= c < NumTrafficClasses)%Z -> Put q c x = (q', r) ->
  r = Ok tt /\ effect q (EPut (Z.to_nat c) x) q' \/
  r = Err ErrInboundQueueFull /\ effect q (EDrop (Z.to_nat c) x) q'.
Proof.
  unfold NumTrafficClasses, Put, valid_class. intros Hc.
  rewrite (proj2 (Z.leb_le _ _)), (proj2 (Z.ltb_lt _ _)) by (unfold NumTrafficClasses; lia).
  cbn [andb negb]. destruct (Z.leb_spec (size_of q (Z.to_nat c)) (zlen (queue_of q (Z.to_nat c))));
    intros [= <- <-]; [right|left]; (split; [done|]); constructor; (lia || done).
Qed.

Lemma scan_section_effect k now q q' g o :
  scan_section k now q = (q', g, o) -> effect q (got o) q'.
Proof.
  unfold scan_section. destruct (scan (queues q)) as [[[c x] qs]|] eqn:E.
  - intros [= <- <- <-]. by constructor.
  - destruct k; try (destruct (_ <? _)%Z); intros [= <- <- <-]; constructor.
Qed.

Lemma stop_section_effect q q' g o : stop_section q = (q', g, o) -> effect q (got o) q'.
Proof.
  unfold stop_section. destruct (scan (queues q)) as [[[c x] qs]|] eqn:E;
    intros [= <- <- <-]; by constructor.
Qed.

Lemma istep_effect s e s' : istep s e s' -> effect (iq s) e (iq s').
Proof.
  destruct 1; cbn; try apply eff_tau.
  - destruct (Put_effect q c x q' _ H H0) as [[_ ?]|[? _]]; done.
  - destruct (Put_effect q c x q' _ H H0) as [[? _]|[_ ?]]; done.
  - by eapply scan_section_effect.
  - by eapply stop_section_effect.
Qed.

(** Conservation, per class. *)
Definition balanced (szs : list Z) (tr : list ievent) (q : InboundQueues) : Prop :=
  length (queues q) = 4%nat /\ length (dropped q) = 4%nat /\
  sizes q = take 4 szs /\
  forall c, (c < 4)%nat ->
    puts c tr = gets c tr ++ queue_of q c /\
    (zlen (queue_of q c) <= Z.max 0 (size_of q c))%Z /\
    dropped_of q c = zlen (drops c tr).

Lemma effect_balanced szs tr q e q' :
  balanced szs tr q -> effect q e q' -> balanced szs (tr ++ [e]) q'.
Proof.
  intros (Hl & Hd & Hs & Hb) He. unfold balanced, puts, gets, drops in *.
  destruct He as [c x Hc Hlt|c x Hc Hge|c x qs Hsc|].
  - assert (forall c', queue_of (q <| queues ::= alter (fun l => l ++ [x]) c |> <| notify ::= S |>) c' =
      if (c' =? c)%nat then queue_of q c ++ [x] else queue_of q c') as Hq
      by (intros c'; apply queue_of_alter; lia).
    cbn -[queue_of]. rewrite length_alter. split_and!; [done..|]. intros c' Hc'.
    destruct (Hb c' Hc') as (H1 & H2 & H3). rewrite !omap_app, Hq. cbn -[queue_of].
    rewrite Nat.eqb_sym. destruct (Nat.eqb_spec c' c) as [->|Hne]; cbn.
    + rewrite !app_nil_r, H1, app_assoc. split_and!; [done| |done].
      rewrite zlen_app, zlen_cons, zlen_nil. unfold size_of in *. cbn in *. lia.
    + rewrite !app_nil_r. done.
  - cbn. rewrite length_alter. split_and!; [done..|]. intros c' Hc'.
    destruct (Hb c' Hc') as (H1 & H2 & H3). rewrite !omap_app. cbn. rewrite !app_nil_r.
    split_and!; [done..|]. unfold dropped_of in *. cbn.
    rewrite nth_lookup, Nat.eqb_sym. rewrite nth_lookup in H3.
    destruct (Nat.eqb_spec c' c) as [->|Hne].
    + rewrite list_lookup_alter_eq.
      destruct (lookup_lt_is_Some_2 (dropped q) c) as [v Hv]; [lia|]. rewrite Hv in *. cbn in *.
      rewrite zlen_app, zlen_cons, zlen_nil. lia.
    + rewrite list_lookup_alter_ne by done. by rewrite app_nil_r.
  - destruct (scan_spec _ _ _ _ Hsc) as (l & Hx & -> & _). cbn. rewrite length_insert.
    split_and!; [done..|]. intros c' Hc'. destruct (Hb c' Hc') as (H1 & H2 & H3).
    rewrite !omap_app. cbn. rewrite !app_nil_r. unfold queue_of in *. cbn.
    rewrite nth_lookup in *. rewrite Nat.eqb_sym. destruct (Nat.eqb_spec c' c) as [->|Hne].
    + rewrite list_lookup_insert_eq by lia. rewrite Hx in *. cbn in *.
      rewrite zlen_cons in H2. unfold size_of in *. cbn. split_and!; [|lia|done].
      by rewrite H1, <- app_assoc.
    + rewrite list_lookup_insert_ne by done. by rewrite app_nil_r.
  - split_and!; [done..|]. intros c' Hc'. destruct (Hb c' Hc') as (H1 & H2 & H3).
    rewrite !omap_app. cbn. by rewrite !app_nil_r.
Qed.

(** C34: for every interleaving of producers and getters, each traffic class
    is a bounded FIFO: the items accepted into it are, in order, those
    already handed out followed by those still queued; its length never
    passes its bound; and its drop counter counts exactly the refused
    items. *)
Theorem inbound_queues_conserve szs tr s c :
  length szs = 4%nat -> itrace (init_qsys szs) tr s -> (c < 4)%nat ->
  puts c tr = gets c tr ++ queue_of (iq s) c /\
  (zlen (queue_of (iq s) c) <= Z.max 0 (nth c szs 0))%Z /\
  dropped_of (iq s) c = zlen (drops c tr).
Proof.
  intros Hl Ht Hc. assert (balanced szs tr (iq s)) as Hb.
  { induction Ht as [|tr s e s' Ht IH Hs].
    - split_and!; [done..|]. intros c' Hc'.
      assert (queue_of (iq (init_qsys szs)) c' = []) as ->
        by (do 4 (destruct c' as [|c']; [done|]); lia).
      split_and!; [done|unfold zlen; cbn; lia|].
      do 4 (destruct c' as [|c']; [done|]); lia.
    - eapply effect_balanced; [exact IH|]. by apply istep_effect. }
  destruct Hb as (_ & _ & Hs & Hb). destruct (Hb c Hc) as (H1 & H2 & H3).
  unfold size_of in H2. rewrite Hs, take_ge in H2 by lia. done.
Qed.

(** Strict priority: whichever getter takes an item takes the oldest of
    the highest-priority class that has one, every class before it being
    empty. *)
Theorem get_takes_highest_priority s c x s' :
  istep s (EGot c x) s' ->
  hd_error (queue_of (iq s) c) = Some x /\
  forall c', (c' < c)%nat -> queue_of (iq s) c' = [].
Proof.
  intros Hs%istep_effect. inversion Hs as [| |? ? qs Hsc|]; subst.
  destruct (scan_spec _ _ _ _ Hsc) as (l & Hx & _ & He). unfold queue_of. split.
  - by rewrite nth_lookup, Hx.
  - intros c' Hc'. by rewrite nth_lookup, (He c' Hc').
Qed.

(** ** No lost wake-up *)

Definition waits_on (g : gstate) : option nat :=
  match g with GArm ch | GWait ch => Some ch | _ => None end.

Definition wake_ok (q : InboundQueues) (ths : list (getter * gstate)) : Prop :=
  forall i k g ch, ths !! i = Some (k, g) -> waits_on g = Some ch ->
    (ch <= notify q)%nat /\ (ch = notify q -> scan (queues q) = None).

Lemma wake_ok_insert q ths i k g :
  wake_ok q ths ->
  (forall ch, waits_on g = Some ch -> (ch <= notify q)%nat /\ (ch = notify q -> scan (queues q) = None)) ->
  wake_ok q (<[i := (k, g)]> ths).
Proof.
  intros Hw Hg j k' g' ch Hj Hch. apply list_lookup_insert_Some in Hj as [(-> & [= -> ->] & _)|[_ Hj]].
  - by apply Hg.
  - by eapply Hw.
Qed.

Lemma wake_ok_effect q e q' ths : effect q e q' -> wake_ok q ths -> wake_ok q' ths.
Proof.
  intros He Hw i k g ch Hi Hch. destruct (Hw i k g ch Hi Hch) as [Hle Heq].
  destruct He as [c x Hc Hlt|c x Hc Hge|c x qs Hsc|]; cbn; try done.
  - split; [lia|]. intros ->. lia.
  - split; [done|]. intros E. apply Heq in E. congruence.
Qed.

Lemma istep_wake_ok s e s' :
  istep s e s' -> wake_ok (iq s) (threads s) -> wake_ok (iq s') (threads s').
Proof.
  intros Hs Hw. pose proof (istep_effect _ _ _ Hs) as He.
  pose proof (wake_ok_effect _ _ _ _ He Hw) as Hw'.
  destruct Hs as [| |q ths now st k|q ths now st i k q' g o Hi Hsec|q ths now st i d ch Hi
    |q ths now st i k ch Hi Hc| | |q ths now st i q' g o Hi Hsec| |]; cbn in *; try done;
    try (by apply wake_ok_insert).
  - intros i k' g ch Hi Hg. apply lookup_app_Some in Hi as [Hi|[_ Hi]]; [by eapply Hw|].
    by apply list_lookup_singleton_Some in Hi as [_ [= <- <-]].
  - apply wake_ok_insert; [done|]. intros ch Hch. unfold scan_section in Hsec.
    destruct (scan (queues q)) as [[[c x] qs]|] eqn:E; [by injection Hsec as <- <- <-|].
    destruct k; try (destruct (_ <? _)%Z); injection Hsec as <- <- <-; try done;
      by injection Hch as <-.
  - apply wake_ok_insert; [done|]. intros ch' Hch. destruct (_ <=? _)%Z; [done|].
    injection Hch as <-. by eapply (Hw i).
  - apply wake_ok_insert; [done|]. intros ch Hch. unfold stop_section in Hsec.
    destruct (scan (queues q)) as [[[c x] qs]|]; by injection Hsec as <- <- <-.
Qed.

(** No wake-up is lost: in every reachable state in which an item is
    queued, a getter that waits holds a closed channel, so its wake-up is
    enabled; and its next critical section, taken at once, returns an
    item. *)
Theorem no_lost_wakeup szs tr s i k ch :
  itrace (init_qsys szs) tr s -> threads s !! i = Some (k, GWait ch) ->
  scan (queues (iq s)) <> None ->
  exists s' s'' c x, istep s ETau s' /\ istep s' (EGot c x) s'' /\
    threads s'' !! i = Some (k, GRet (Ok x)).
Proof.
  intros Ht Hi Hne. assert (wake_ok (iq s) (threads s)) as Hw.
  { clear Hi Hne. induction Ht as [|tr s e s' Ht IH Hs]; [by intros j|by eapply istep_wake_ok]. }
  destruct (Hw i k _ ch Hi eq_refl) as [Hle Heq].
  assert (ch < notify (iq s))%nat as Hlt.
  { destruct (Nat.eq_dec ch (notify (iq s))) as [E|]; [by apply Heq in E|lia]. }
  destruct s as [q ths now st]. cbn in *. destruct (scan (queues q)) as [[[c x] qs]|] eqn:Es; [|done].
  eexists _, _, c, x. split_and!.
  - by eapply is_wake.
  - eapply (is_scan q _ now st i k (q <| queues := qs |>) (GRet (Ok x)) (Some (c, x))).
    + apply list_lookup_insert_eq. by eapply lookup_lt_Some.
    + unfold scan_section. by rewrite Es.
  - cbn. apply list_lookup_insert_eq. rewrite length_insert. by eapply lookup_lt_Some.
Qed.

(** ** Starvation *)

(** A steady stream of data: one data item arrives before each get. *)
Fixpoint serve (q : InboundQueues) (ds : list T) : InboundQueues * list (res iq_err T) :=
  match ds with
  | [] => (q, [])
  | d :: ds' =>
      let '(q1, _) := Put q 0 d in
      let '(q2, r) := TryGet q1 in
      let '(q3, rs) := serve q2 ds' in (q3, r :: rs)
  end.

(** A busy data stream starves the other classes: as long as a data item
    arrives before each get, the drainer returns the data items only, and
    announces, path requests and ingress-limited packets stay queued for
    ever. *)
Theorem data_starves_other_classes q l1 l2 l3 ds :
  queues q = [[]; l1; l2; l3] -> (0 < size_of q 0)%Z ->
  (serve q ds).2 = map Ok ds /\ queues (serve q ds).1 = [[]; l1; l2; l3].
Proof.
  intros Hq Hs. induction ds as [|d ds IH] in q, Hq, Hs |- *; [done|].
  destruct q as [qs sz dr n]. cbn in Hq. subst qs.
  assert (Put (mkQueues [[]; l1; l2; l3] sz dr n) 0 d =
          (mkQueues [[d]; l1; l2; l3] sz dr (S n), Ok tt)) as Hp.
  { unfold Put. change (negb (valid_class 0)) with false. cbn iota.
    unfold size_of in *. cbn in *. by rewrite (proj2 (Z.leb_gt _ _)). }
  cbn [serve]. rewrite Hp. cbn -[serve].
  destruct (IH (mkQueues [[]; l1; l2; l3] sz dr (S n)) eq_refl Hs) as [H1 H2].
  unfold modify. cbn -[serve].
  destruct (serve (mkQueues [[]; l1; l2; l3] sz dr (S n)) ds) as [q3 rs].
  cbn in *. by rewrite H1.
Qed.
End Queues.
Arguments InboundQueues T : clear implicits.
Arguments QSys T : clear implicits.
Arguments ievent T : clear implicits.

(** ** Witnesses *)

Section QueueWitnesses.
Definition w_sizes : list Z := [2; 1; 1; 1]%Z.

(** A getter waits, an announce and then a data packet arrive, the getter
    wakes up and takes the data packet. *)
Definition w_q0 : InboundQueues Z := NewInboundQueues w_sizes.
Definition w_q1 : InboundQueues Z := (Put w_q0 1 11%Z).1.
Definition w_q2 : InboundQueues Z := (Put w_q1 0 10%Z).1.
Definition w_q3 : InboundQueues Z := (TryGet w_q2).1.
Definition w_s2 : QSys Z := mkQSys w_q2 [(KUntil, GWait O)] 0 false.
Definition w_s3 : QSys Z := mkQSys w_q2 [(KUntil, GScan)] 0 false.
Definition w_s4 : QSys Z := mkQSys w_q3 [(KUntil, GRet (Ok 10%Z))] 0 false.

Lemma w_trace2 : itrace (init_qsys w_sizes) [ETau; ETau; EPut 1 11%Z; EPut 0 10%Z] w_s2.
Proof.
  apply (it_snoc _ [ETau; ETau; EPut 1 11%Z] (mkQSys w_q1 [(KUntil, GWait O)] 0 false));
    [|by apply (is_put w_q1 _ _ _ 0 10%Z)].
  apply (it_snoc _ [ETau; ETau] (mkQSys w_q0 [(KUntil, GWait O)] 0 false));
    [|by apply (is_put w_q0 _ _ _ 1 11%Z)].
  apply (it_snoc _ [ETau] (mkQSys w_q0 [(KUntil, GScan)] 0 false));
    [|by apply (is_scan w_q0 [(KUntil, GScan)] 0 false O KUntil w_q0 (GWait O) None)].
  apply (it_snoc _ [] (init_qsys w_sizes)); [apply it_nil|].
  apply (is_spawn w_q0 [] 0 false KUntil).
Qed.

Lemma w_step4 : istep w_s3 (EGot 0 10%Z) w_s4.
Proof. by apply (is_scan w_q2 [(KUntil, GScan)] 0 false O KUntil w_q3 (GRet (Ok 10%Z)) (Some (O, 10%Z))). Qed.

Lemma inbound_queues_conserve_witness :
  puts 1 [ETau; ETau; EPut 1 11%Z; EPut 0 10%Z] =
    gets 1 [ETau; ETau; EPut 1 11%Z; EPut 0 10%Z] ++ queue_of (iq w_s2) 1 /\
  (zlen (queue_of (iq w_s2) 1) <= Z.max 0 (nth 1 w_sizes 0))%Z /\
  dropped_of (iq w_s2) 1 = zlen (drops 1 [ETau; ETau; EPut 1 11%Z; EPut 0 10%Z]).
Proof. apply (inbound_queues_conserve w_sizes); [reflexivity|apply w_trace2|lia]. Defined.

Lemma get_takes_highest_priority_witness :
  hd_error (queue_of (iq w_s3) 0) = Some 10%Z /\
  forall c', (c' < 0)%nat -> queue_of (iq w_s3) c' = [].
Proof. apply (get_takes_highest_priority w_s3 0 10%Z w_s4). apply w_step4. Defined.

Lemma no_lost_wakeup_witness :
  exists s' s'' c x, istep w_s2 ETau s' /\ istep s' (EGot c x) s'' /\
    threads s'' !! O = Some (KUntil, GRet (Ok x)).
Proof.
  apply (no_lost_wakeup w_sizes _ w_s2 O KUntil O w_trace2); [reflexivity|discriminate].
Defined.

Lemma data_starves_other_classes_witness :
  (serve (Put (NewInboundQueues w_sizes) 1 11%Z).1 [1; 2; 3]%Z).2 = map Ok [1; 2; 3]%Z /\
  queues (serve (Put (NewInboundQueues w_sizes) 1 11%Z).1 [1; 2; 3]%Z).1 = [[]; [11%Z]; []; []].
Proof. apply (data_starves_other_classes _ [11%Z] [] []); reflexivity. Defined.
End QueueWitnesses.
