(* ===== verification/Msgpack.v ===== *)
(** * MessagePack

    Models [rns/msgpack/msgpack.go]: the encoder ([Pack], [PackSorted]) and the
    decoder with its options ([Unpack], [UnpackPreserveBinMapKeys],
    [UnpackPreserveBinMapKeyOrder] and the strict variants).

    A Go value is a [value]; a Go map is the association list of its entries in
    the order one iteration yields them, so that a statement about every
    iteration order is a statement about every permutation.  Floats are their
    bit patterns.  The encoder is a writer: the bytes written so far, and the
    error it stopped with.  The decoder's recursion is bounded by fuel: every
    nested call has consumed a byte, so the length of the input is enough. *)

From stdpp Require Import base tactics option list sorting.
From Stdlib Require Import ZArith Lia.
From S2P Require Import Prelude.
Local Open Scope Z_scope.
Local Open Scope go_scope.

(** ** Values *)

Inductive value :=
  | VNil
  | VBool (b : bool)
  | VInt (i : Z)
  | VUint (i : Z)
  | VFloat32 (bits : Z)
  | VFloat64 (bits : Z)
  | VStr (s : bytes)
  | VBin (b : bytes)
  | VArr (l : list value)
  | VMap (es : list (value * value))
  | VOrdered (es : list (value * value))
  | VExt (ty : Z) (data : bytes)
  | VBinaryKey (s : bytes)
  | VCollectionKey (enc : bytes)
  | VExtKey (ty : Z) (data : bytes)
  | VUnsupported (kind : Z).

Inductive mp_err :=
  | EOF
  | UnexpectedEOF
  | ReservedCode
  | UnknownType (b : Z)
  | StrictMapKey (typeName : Z)
  | UnhashableKey
  | UnsupportedType (kind : Z)
  | IncompleteInput
  | ExtraData
  | OutOfFuel.

#[global] Instance mp_err_eq_dec : EqDecision mp_err.
Proof. solve_decision. Defined.

(** ** Format constants *)

Definition posFixIntMax : Z := 0x7f.
Definition fixMapMin : Z := 0x80.
Definition fixMapMax : Z := 0x8f.
Definition fixArrayMin : Z := 0x90.
Definition fixArrayMax : Z := 0x9f.
Definition fixStrMin : Z := 0xa0.
Definition fixStrMax : Z := 0xbf.
Definition nilVal : Z := 0xc0.
Definition falseVal : Z := 0xc2.
Definition trueVal : Z := 0xc3.
Definition bin8 : Z := 0xc4.
Definition bin16 : Z := 0xc5.
Definition bin32 : Z := 0xc6.
Definition ext8 : Z := 0xc7.
Definition ext16 : Z := 0xc8.
Definition ext32 : Z := 0xc9.
Definition float32Val : Z := 0xca.
Definition float64Val : Z := 0xcb.
Definition uint8Val : Z := 0xcc.
Definition uint16Val : Z := 0xcd.
Definition uint32Val : Z := 0xce.
Definition uint64Val : Z := 0xcf.
Definition int8Val : Z := 0xd0.
Definition int16Val : Z := 0xd1.
Definition int32Val : Z := 0xd2.
Definition int64Val : Z := 0xd3.
Definition fixExt1 : Z := 0xd4.
Definition fixExt2 : Z := 0xd5.
Definition fixExt4 : Z := 0xd6.
Definition fixExt8 : Z := 0xd7.
Definition fixExt16 : Z := 0xd8.
Definition str8 : Z := 0xd9.
Definition str16 : Z := 0xda.
Definition str32 : Z := 0xdb.
Definition array16 : Z := 0xdc.
Definition array32 : Z := 0xdd.
Definition map16 : Z := 0xde.
Definition map32 : Z := 0xdf.
Definition negFixIntMin : Z := 0xe0.

(** ** Encoding *)

(** The bytes written, and the error if the writer stopped. *)
Definition wr : Type := bytes * option mp_err.

Definition wok (b : bytes) : wr := (b, None).

Definition wseq (a b : wr) : wr :=
  match a with
  | (x, None) => (x ++ b.1, b.2)
  | (x, Some e) => (x, Some e)
  end.

Definition wconcat (l : list wr) : wr := foldr wseq (wok []) l.

Definition packInt (i : Z) : bytes :=
  if (-32 <=? i) && (i <=? 127) then [u8 i]
  else if (-2 ^ 7 <=? i) && (i <=? 2 ^ 7 - 1) then [int8Val; u8 i]
  else if (-2 ^ 15 <=? i) && (i <=? 2 ^ 15 - 1) then int16Val :: be_enc 2 i
  else if (-2 ^ 31 <=? i) && (i <=? 2 ^ 31 - 1) then int32Val :: be_enc 4 i
  else int64Val :: be_enc 8 i.

Definition packUint (i : Z) : bytes :=
  if i <=? 127 then [u8 i]
  else if i <=? 2 ^ 8 - 1 then [uint8Val; u8 i]
  else if i <=? 2 ^ 16 - 1 then uint16Val :: be_enc 2 i
  else if i <=? 2 ^ 32 - 1 then uint32Val :: be_enc 4 i
  else uint64Val :: be_enc 8 i.

Definition packStr (s : bytes) : bytes :=
  let l := zlen s in
  (if l <? 32 then [Z.lor fixStrMin (u8 l)]
   else if l <? 256 then [str8; u8 l]
   else if l <? 65536 then str16 :: be_enc 2 l
   else str32 :: be_enc 4 l) ++ s.

Definition packBin (b : bytes) : bytes :=
  let l := zlen b in
  (if l <? 256 then [bin8; u8 l]
   else if l <? 65536 then bin16 :: be_enc 2 l
   else bin32 :: be_enc 4 l) ++ b.

Definition array_header (l : Z) : bytes :=
  if l <? 16 then [Z.lor fixArrayMin (u8 l)]
  else if l <? 65536 then array16 :: be_enc 2 l
  else array32 :: be_enc 4 l.

Definition map_header (l : Z) : bytes :=
  if l <? 16 then [Z.lor fixMapMin (u8 l)]
  else if l <? 65536 then map16 :: be_enc 2 l
  else map32 :: be_enc 4 l.

Definition packExt (ty : Z) (data : bytes) : bytes :=
  let n := zlen data in
  (if n =? 1 then [fixExt1]
   else if n =? 2 then [fixExt2]
   else if n =? 4 then [fixExt4]
   else if n =? 8 then [fixExt8]
   else if n =? 16 then [fixExt16]
   else if n <? 2 ^ 8 then [ext8; u8 n]
   else if n <? 2 ^ 16 then ext16 :: be_enc 2 n
   else ext32 :: be_enc 4 n) ++ u8 ty :: data.

(** Go's [==] on the values that can be map keys. *)
Definition is_nan32 (b : Z) : bool :=
  (Z.land b 0x7f800000 =? 0x7f800000) && negb (Z.land b 0x007fffff =? 0).
Definition is_nan64 (b : Z) : bool :=
  (Z.land b 0x7ff0000000000000 =? 0x7ff0000000000000) && negb (Z.land b 0x000fffffffffffff =? 0).
Definition feq32 (a b : Z) : bool :=
  negb (is_nan32 a) && negb (is_nan32 b) &&
  ((a =? b) || ((Z.land a 0x7fffffff =? 0) && (Z.land b 0x7fffffff =? 0))).
Definition feq64 (a b : Z) : bool :=
  negb (is_nan64 a) && negb (is_nan64 b) &&
  ((a =? b) || ((Z.land a 0x7fffffffffffffff =? 0) && (Z.land b 0x7fffffffffffffff =? 0))).

Definition go_eq (a b : value) : bool :=
  match a, b with
  | VNil, VNil => true
  | VBool x, VBool y => Bool.eqb x y
  | VInt x, VInt y | VUint x, VUint y => x =? y
  | VFloat32 x, VFloat32 y => feq32 x y
  | VFloat64 x, VFloat64 y => feq64 x y
  | VStr x, VStr y | VBinaryKey x, VBinaryKey y | VCollectionKey x, VCollectionKey y => bytes_eqb x y
  | VExtKey t x, VExtKey u y => (t =? u) && bytes_eqb x y
  | _, _ => false
  end.

(** [bytes.Compare(a, b) <= 0]. *)
Fixpoint bytes_leb (a b : bytes) : bool :=
  match a, b with
  | [], _ => true
  | _ :: _, [] => false
  | x :: a', y :: b' => (x <? y) || ((x =? y) && bytes_leb a' b')
  end.

(** [sort.SliceStable] by the encoded key: insertion after the entries that
    are not greater. *)
Section Sorting.
Context {A : Type} (key : A -> bytes).
Fixpoint sorted_insert (x : A) (l : list A) : list A :=
  match l with
  | [] => [x]
  | y :: l' => if bytes_leb (key x) (key y) then x :: l else y :: sorted_insert x l'
  end.
Definition stable_sort (l : list A) : list A := foldr sorted_insert [] l.
End Sorting.

(** [v.MapIndex(k)] over the packed values of a map's entries; the zero
    [reflect.Value] of a missing key (a NaN) packs as nil. *)
Fixpoint map_index (k : value) (vals : list (value * wr)) : wr :=
  match vals with
  | [] => wok [nilVal]
  | (k', w) :: vals' => if go_eq k k' then w else map_index k vals'
  end.

(** [pack]: the value's encoding.  For a map, the keys in iteration order, or
    sorted by their encodings; each key followed by its value.  An ordered map
    is its own marshaler: entries in slice order, packed unsorted. *)
Fixpoint pack (sorted : bool) (v : value) : wr :=
  match v with
  | VNil => wok [nilVal]
  | VBool b => wok [if b then trueVal else falseVal]
  | VInt i => wok (packInt i)
  | VUint i => wok (packUint i)
  | VFloat32 bits => wok (float32Val :: be_enc 4 bits)
  | VFloat64 bits => wok (float64Val :: be_enc 8 bits)
  | VStr s | VBinaryKey s => wok (packStr s)
  | VBin b => wok (packBin b)
  | VArr l => wseq (wok (array_header (zlen l))) (wconcat (map (pack sorted) l))
  | VMap es =>
      let vals := map (fun e => (e.1, pack sorted e.2)) es in
      let keys := map (fun e => (e.1, (pack true e.1).1, pack sorted e.1)) es in
      let keys := if sorted then stable_sort (fun k => k.1.2) keys else keys in
      wseq (wok (map_header (zlen es)))
        (wconcat (map (fun k => wseq k.2 (map_index k.1.1 vals)) keys))
  | VOrdered es =>
      wseq (wok (map_header (zlen es)))
        (wconcat (map (fun e => wseq (pack false e.1) (pack false e.2)) es))
  | VExt ty data | VExtKey ty data => wok (packExt ty data)
  | VCollectionKey enc => wok enc
  | VUnsupported k => ([], Some (UnsupportedType k))
  end.

Definition Pack (v : value) : wr := pack false v.
Definition PackSorted (v : value) : wr := pack true v.

(** ** Decoding *)

Record unpackOptions := mkOptions {
  strictMapKeys : bool;
  preserveBinMapKey : bool;
  orderedMap : bool;
}.

(** [binary.Read] of [n] bytes: nothing left is [io.EOF], too little is
    [io.ErrUnexpectedEOF]. *)
Definition read_be (n : nat) (r : bytes) : res mp_err (Z * bytes) :=
  match r with
  | [] => Err EOF
  | _ => if (length r <? n)%nat then Err UnexpectedEOF else Ok (be_dec (take n r), drop n r)
  end.

Definition read_byte (r : bytes) : res mp_err (Z * bytes) :=
  match r with [] => Err EOF | b :: r' => Ok (b, r') end.

(** The body shared by [unpackStr] and [unpackBin]. *)
Definition unpack_blob (r : bytes) (l : Z) : res mp_err (bytes * bytes) :=
  if l =? 0 then Ok ([], r)
  else if zlen r <? l then Err UnexpectedEOF
  else Ok (take (Z.to_nat l) r, drop (Z.to_nat l) r).

Definition unpackStr (r : bytes) (l : Z) : res mp_err (value * bytes) :=
  '(s, r) ← unpack_blob r l; Ok (VStr s, r).

Definition unpackBin (r : bytes) (l : Z) : res mp_err (value * bytes) :=
  '(b, r) ← unpack_blob r l; Ok (VBin b, r).

Definition unpackExt (r : bytes) (l : Z) : res mp_err (value * bytes) :=
  '(ty, r) ← read_byte r;
  '(data, r) ← unpack_blob r l;
  Ok (VExt (i8 ty) data, r).

(** A number naming the Python type in the strict-key error. *)
Definition pythonTypeName (v : value) : Z :=
  match v with
  | VNil => 0
  | VBool _ => 1
  | VFloat32 _ | VFloat64 _ => 2
  | VInt _ | VUint _ => 3
  | VStr _ => 4
  | VBin _ => 5
  | VArr _ => 6
  | VMap _ | VOrdered _ => 7
  | VExt _ _ => 8
  | _ => 9
  end.

Definition makeMapKeyHashable (k : value) : res mp_err value :=
  match k with
  | VArr l =>
      match PackSorted k with
      | (enc, None) => Ok (VCollectionKey enc)
      | (_, Some e) => Err e
      end
  | VExt ty data => Ok (VExtKey ty data)
  | VMap _ | VOrdered _ => Err UnhashableKey
  | _ => Ok k
  end.

(** The key of a map entry, after the option-dependent checks and
    conversions. *)
Definition map_key (opts : unpackOptions) (k : value) : res mp_err value :=
  if strictMapKeys opts &&
     negb (match k with VStr _ | VBin _ => true | _ => false end)
  then Err (StrictMapKey (pythonTypeName k))
  else
    makeMapKeyHashable
      (match k with
       | VBin b => if preserveBinMapKey opts then VBinaryKey b else VStr b
       | _ => k
       end).

(** [m[k] = v] on a Go map. *)
Fixpoint map_assign (m : list (value * value)) (k v : value) : list (value * value) :=
  match m with
  | [] => [(k, v)]
  | (k', v') :: m' => if go_eq k' k then (k, v) :: m' else (k', v') :: map_assign m' k v
  end.

Section Loops.
Context (un : bytes -> res mp_err (value * bytes)) (opts : unpackOptions).

Fixpoint unpack_elems (n : nat) (r : bytes) : res mp_err (list value * bytes) :=
  match n with
  | O => Ok ([], r)
  | S n' => '(v, r) ← un r; '(l, r) ← unpack_elems n' r; Ok (v :: l, r)
  end.

Fixpoint unpack_entries (n : nat) (r : bytes) : res mp_err (list (value * value) * bytes) :=
  match n with
  | O => Ok ([], r)
  | S n' =>
      '(k, r) ← un r;
      k ← map_key opts k;
      '(v, r) ← un r;
      '(es, r) ← unpack_entries n' r;
      Ok ((k, v) :: es, r)
  end.

Definition unpackArrayWithOptions (r : bytes) (l : Z) : res mp_err (value * bytes) :=
  if zlen r <? l then Err UnexpectedEOF
  else '(a, r) ← unpack_elems (Z.to_nat l) r; Ok (VArr a, r).

Definition unpackMapWithOptions (r : bytes) (l : Z) : res mp_err (value * bytes) :=
  if zlen r / 2 <? l then Err UnexpectedEOF
  else
    '(es, r) ← unpack_entries (Z.to_nat l) r;
    Ok (VMap (fold_left (fun m e => map_assign m e.1 e.2) es []), r).

Definition unpackOrderedMapWithOptions (r : bytes) (l : Z) : res mp_err (value * bytes) :=
  if zlen r / 2 <? l then Err UnexpectedEOF
  else '(es, r) ← unpack_entries (Z.to_nat l) r; Ok (VOrdered es, r).

Definition unpack_map (r : bytes) (l : Z) : res mp_err (value * bytes) :=
  if orderedMap opts then unpackOrderedMapWithOptions r l else unpackMapWithOptions r l.
End Loops.

Fixpoint unpackWithOptions (fuel : nat) (opts : unpackOptions) (r : bytes)
    : res mp_err (value * bytes) :=
  match fuel with
  | O => Err OutOfFuel
  | S fuel' =>
      let un := unpackWithOptions fuel' opts in
      '(b, r) ← read_byte r;
      if b <=? posFixIntMax then Ok (VInt b, r)
      else if (fixMapMin <=? b) && (b <=? fixMapMax) then unpack_map un opts r (Z.land b 0x0f)
      else if (fixArrayMin <=? b) && (b <=? fixArrayMax) then
        unpackArrayWithOptions un r (Z.land b 0x0f)
      else if (fixStrMin <=? b) && (b <=? fixStrMax) then unpackStr r (Z.land b 0x1f)
      else if b =? nilVal then Ok (VNil, r)
      else if b =? falseVal then Ok (VBool false, r)
      else if b =? trueVal then Ok (VBool true, r)
      else if b =? bin8 then '(l, r) ← read_byte r; unpackBin r l
      else if b =? bin16 then '(l, r) ← read_be 2 r; unpackBin r l
      else if b =? bin32 then '(l, r) ← read_be 4 r; unpackBin r l
      else if b =? ext8 then '(l, r) ← read_byte r; unpackExt r l
      else if b =? ext16 then '(l, r) ← read_be 2 r; unpackExt r l
      else if b =? ext32 then '(l, r) ← read_be 4 r; unpackExt r l
      else if b =? float32Val then '(f, r) ← read_be 4 r; Ok (VFloat32 f, r)
      else if b =? float64Val then '(f, r) ← read_be 8 r; Ok (VFloat64 f, r)
      else if b =? uint8Val then '(v, r) ← read_byte r; Ok (VUint v, r)
      else if b =? uint16Val then '(v, r) ← read_be 2 r; Ok (VUint v, r)
      else if b =? uint32Val then '(v, r) ← read_be 4 r; Ok (VUint v, r)
      else if b =? uint64Val then '(v, r) ← read_be 8 r; Ok (VUint v, r)
      else if b =? int8Val then '(v, r) ← read_byte r; Ok (VInt (i8 v), r)
      else if b =? int16Val then '(v, r) ← read_be 2 r; Ok (VInt (i16 v), r)
      else if b =? int32Val then '(v, r) ← read_be 4 r; Ok (VInt (i32 v), r)
      else if b =? int64Val then '(v, r) ← read_be 8 r; Ok (VInt (i64 v), r)
      else if b =? fixExt1 then unpackExt r 1
      else if b =? fixExt2 then unpackExt r 2
      else if b =? fixExt4 then unpackExt r 4
      else if b =? fixExt8 then unpackExt r 8
      else if b =? fixExt16 then unpackExt r 16
      else if b =? str8 then '(l, r) ← read_byte r; unpackStr r l
      else if b =? str16 then '(l, r) ← read_be 2 r; unpackStr r l
      else if b =? str32 then '(l, r) ← read_be 4 r; unpackStr r l
      else if b =? array16 then '(l, r) ← read_be 2 r; unpackArrayWithOptions un r l
      else if b =? array32 then '(l, r) ← read_be 4 r; unpackArrayWithOptions un r l
      else if b =? map16 then '(l, r) ← read_be 2 r; unpack_map un opts r l
      else if b =? map32 then '(l, r) ← read_be 4 r; unpack_map un opts r l
      else if negFixIntMin <=? b then Ok (VInt (i8 b), r)
      else if b =? 0xc1 then Err ReservedCode
      else Err (UnknownType b)
  end.

Definition run_unpack (opts : unpackOptions) (data : bytes) : res mp_err (value * bytes) :=
  unpackWithOptions (S (length data)) opts data.

Definition Unpack (data : bytes) : res mp_err value :=
  fst <$> run_unpack (mkOptions false false false) data.
Definition UnpackPreserveBinMapKeys (data : bytes) : res mp_err value :=
  fst <$> run_unpack (mkOptions false true false) data.
Definition UnpackPreserveBinMapKeyOrder (data : bytes) : res mp_err value :=
  fst <$> run_unpack (mkOptions false true true) data.

Definition normalizePythonUnpackError (e : mp_err) : mp_err :=
  match e with EOF | UnexpectedEOF => IncompleteInput | _ => e end.

Definition strict_result (r : res mp_err (value * bytes)) : res mp_err value :=
  match r with
  | Ok (v, []) => Ok v
  | Ok (_, _ :: _) => Err ExtraData
  | Err e => Err (normalizePythonUnpackError e)
  | Panic => Panic
  end.

Definition UnpackStrict (data : bytes) : res mp_err value :=
  strict_result (run_unpack (mkOptions true true false) data).
Definition UnpackStrictPreserveBinMapKeyOrder (data : bytes) : res mp_err value :=
  strict_result (run_unpack (mkOptions false true true) data).

(** ** Ordered maps

    [OrderedMap.Get] and [Set]; [deep_eq] is [reflect.DeepEqual] on keys. *)

Section OrderedMaps.
Context {K V : Type} (deep_eq : K -> K -> bool).

Fixpoint OrderedGet (m : list (K * V)) (k : K) : option V :=
  match m with
  | [] => None
  | (k', v) :: m' => if deep_eq k' k then Some v else OrderedGet m' k
  end.

Fixpoint OrderedSet (m : list (K * V)) (k : K) (v : V) : list (K * V) :=
  match m with
  | [] => [(k, v)]
  | (k', v') :: m' => if deep_eq k' k then (k', v) :: m' else (k', v') :: OrderedSet m' k v
  end.
End OrderedMaps.

(** ** Induction on values *)

Section ValueInd.
Context (P : value -> Prop).
Context (Hleaf : forall v, match v with VArr _ | VMap _ | VOrdered _ => True | _ => P v end).
Context (Harr : forall l, Forall P l -> P (VArr l)).
Context (Hmap : forall es, Forall (fun e => P e.1 /\ P e.2) es -> P (VMap es)).
Context (Hord : forall es, Forall (fun e => P e.1 /\ P e.2) es -> P (VOrdered es)).

Fixpoint value_rect' (v : value) : P v :=
  let fix go (l : list value) : Forall P l :=
    match l with
    | [] => @List.Forall_nil _ _
    | x :: l' => @List.Forall_cons _ _ x l' (value_rect' x) (go l')
    end in
  let fix goe (es : list (value * value)) : Forall (fun e => P e.1 /\ P e.2) es :=
    match es with
    | [] => @List.Forall_nil _ _
    | (k, x) :: es' =>
        @List.Forall_cons _ _ (k, x) es' (conj (value_rect' k) (value_rect' x)) (goe es')
    end in
  match v with
  | VArr l => Harr l (go l)
  | VMap es => Hmap es (goe es)
  | VOrdered es => Hord es (goe es)
  | v => Hleaf v
  end.
End ValueInd.

(** ** Size, consumption and termination *)

(** The number of values and payload bytes a decoded value is made of. *)
Fixpoint vsize (v : value) : nat :=
  match v with
  | VStr s | VBin s | VBinaryKey s | VExt _ s | VExtKey _ s => S (length s)
  | VArr l => S (sum_list (map vsize l))
  | VMap es | VOrdered es => S (sum_list (map (fun e => vsize e.1 + vsize e.2)%nat es))
  | _ => 1%nat
  end.

Definition esize (es : list (value * value)) : nat :=
  sum_list (map (fun e => vsize e.1 + vsize e.2)%nat es).

Abbreviation decodes := (decodes_by OutOfFuel).

Lemma decodes_read_be n r : decodes (fun _ => 0%nat) 0 r (read_be n r).
Proof.
  unfold read_be. destruct r as [|b r]; [done|]. destruct (_ <? _)%nat; [done|].
  exists (take n (b :: r)). rewrite take_drop. split; [done|lia].
Qed.

Lemma decodes_read_byte r : decodes (fun _ => 0%nat) 0 r (read_byte r).
Proof. destruct r as [|b r]; [done|]. exists [b]. cbn. split; [done|lia]. Qed.

Lemma decodes_blob r l : decodes length 0 r (unpack_blob r l).
Proof.
  unfold unpack_blob. destruct (l =? 0); [by apply decodes_ret|].
  destruct (_ <? _); [done|]. exists (take (Z.to_nat l) r). rewrite take_drop. split; [done|lia].
Qed.

Lemma decodes_unpackStr r l : decodes vsize 1 r (unpackStr r l).
Proof.
  apply (decodes_bind _ length vsize 0 1); [apply decodes_blob|]. intros s r' _.
  apply decodes_ret. cbn. lia.
Qed.

Lemma decodes_unpackBin r l : decodes vsize 1 r (unpackBin r l).
Proof.
  apply (decodes_bind _ length vsize 0 1); [apply decodes_blob|]. intros s r' _.
  apply decodes_ret. cbn. lia.
Qed.

Lemma decodes_unpackExt r l : decodes vsize 1 r (unpackExt r l).
Proof.
  apply (decodes_bind _ (fun _ => 0%nat) vsize 0 1); [apply decodes_read_byte|]. intros ty r1 _.
  apply (decodes_bind _ length vsize 0 1); [apply decodes_blob|]. intros s r' _.
  apply decodes_ret. cbn. lia.
Qed.

Lemma vsize_pos v : (1 <= vsize v)%nat.
Proof. destruct v; cbn; lia. Qed.

Lemma map_key_size opts k k' : map_key opts k = Ok k' -> (vsize k' <= vsize k)%nat.
Proof.
  unfold map_key. destruct (_ && _); [done|].
  destruct k; cbn -[PackSorted]; try (intros [= <-]; cbn; lia); try done.
  - destruct (preserveBinMapKey opts); intros [= <-]; cbn; lia.
  - destruct (PackSorted (VArr l)) as [enc [e|]]; [done|].
    intros [= <-]. cbn. lia.
Qed.

(** The encoder's only errors are unsupported types. *)
Definition write_err (w : wr) : Prop := forall e, w.2 = Some e -> exists k, e = UnsupportedType k.

Lemma write_err_seq a b : write_err a -> write_err b -> write_err (wseq a b).
Proof. destruct a as [x [e|]]; cbn; intros Ha Hb e'; [apply Ha|apply Hb]. Qed.

Lemma write_err_concat l : Forall write_err l -> write_err (wconcat l).
Proof. induction 1 as [|w l Hw Hl IH]; [by intros e|]. cbn. by apply write_err_seq. Qed.

Lemma sorted_insert_perm {A} (key : A -> bytes) x l : sorted_insert key x l ≡ₚ x :: l.
Proof.
  induction l as [|y l IH]; cbn; [done|]. destruct (bytes_leb _ _); [done|].
  rewrite IH. apply Permutation_swap.
Qed.

Lemma stable_sort_perm {A} (key : A -> bytes) l : stable_sort key l ≡ₚ l.
Proof. induction l as [|x l IH]; cbn; [done|]. by rewrite sorted_insert_perm, IH. Qed.

Lemma map_index_err k vals : Forall (fun x => write_err x.2) vals -> write_err (map_index k vals).
Proof.
  induction 1 as [|[k' w] vals Hw Hv IH]; cbn; [by intros e|]. by destruct (go_eq k k').
Qed.

Lemma pack_err v : forall sorted, write_err (pack sorted v).
Proof.
  pattern v; apply value_rect'; clear v; [intros v|intros l IH|intros es IH|intros es IH].
  - destruct v; try done; intros sorted e; cbn; try done. intros [= <-]. by eexists.
  - intros sorted. cbn [pack]. apply write_err_seq; [by intros e|]. apply write_err_concat, Forall_fmap.
    eapply Forall_impl; [exact IH|]. intros x Hx. apply Hx.
  - intros sorted. cbn [pack]. apply write_err_seq; [by intros e|]. apply write_err_concat, Forall_fmap.
    set (keys := map (fun e => (e.1, (pack true e.1).1, pack sorted e.1)) es).
    assert (Forall (fun k => write_err k.2) keys) as Hk.
    { unfold keys. apply Forall_fmap. eapply Forall_impl; [exact IH|]. intros [k x] [H1 H2]. apply H1. }
    assert (Forall (fun k => write_err k.2) (if sorted then stable_sort (fun k => k.1.2) keys else keys))
      as Hk' by (destruct sorted; [by rewrite stable_sort_perm|done]).
    eapply Forall_impl; [exact Hk'|]. intros k Hw. apply write_err_seq; [done|].
    apply map_index_err, Forall_fmap. eapply Forall_impl; [exact IH|]. intros e [_ H2]. apply H2.
  - intros sorted. cbn [pack]. apply write_err_seq; [by intros e|]. apply write_err_concat, Forall_fmap.
    eapply Forall_impl; [exact IH|]. intros [k x] [H1 H2]. apply write_err_seq; [apply H1|apply H2].
Qed.

Lemma map_key_outcome opts k :
  match map_key opts k with
  | Ok k' => (vsize k' <= vsize k)%nat
  | Err e => e <> OutOfFuel
  | Panic => False
  end.
Proof.
  destruct (map_key opts k) as [k'|e|] eqn:E; [by eapply map_key_size| |].
  - revert E. unfold map_key. destruct (_ && _); [by intros [= <-]|].
    destruct k; cbn -[PackSorted]; try done; try (intros [= <-]; done).
    + by destruct (preserveBinMapKey opts).
    + destruct (PackSorted (VArr l)) as [enc [e'|]] eqn:Ep; [|done].
      intros [= <-]. pose proof (pack_err (VArr l) true e') as [n ->]; [|done].
      unfold PackSorted in Ep. by rewrite Ep.
  - revert E. unfold map_key. destruct (_ && _); [done|].
    destruct k; cbn -[PackSorted]; try done.
    + by destruct (preserveBinMapKey opts).
    + by destruct (PackSorted (VArr l)) as [enc [e'|]].
Qed.

Lemma map_assign_size m k v : (esize (map_assign m k v) <= esize m + vsize k + vsize v)%nat.
Proof.
  unfold esize. induction m as [|[k' v'] m IH]; cbn; [lia|].
  destruct (go_eq k' k); cbn; lia.
Qed.

Lemma map_build_size es m :
  (esize (fold_left (fun m e => map_assign m e.1 e.2) es m) <= esize m + esize es)%nat.
Proof.
  induction es as [|[k v] es IH] in m |- *; cbn [fold_left]; [lia|]. etrans; [apply IH|].
  pose proof (map_assign_size m k v). unfold esize in *. cbn in *. lia.
Qed.

Section LoopSizes.
Context (un : bytes -> res mp_err (value * bytes)) (opts : unpackOptions) (n0 : nat).
Context (Hun : forall r, (length r <= n0)%nat -> decodes vsize 0 r (un r)).

Lemma decodes_elems n r :
  (length r <= n0)%nat ->
  decodes (fun l => sum_list (map vsize l)) 0 r (unpack_elems un n r).
Proof.
  induction n as [|n IH] in r |- *; intros Hr; [by apply decodes_ret|]. cbn [unpack_elems].
  eapply (decodes_bind _ vsize _ 0 0); [by apply Hun|]. intros v r1 H1.
  eapply decodes_mono; [|eapply (decodes_bind _ _ _ 0 (vsize v)); [apply IH; lia|]]; [lia|].
  intros l r2 H2. apply decodes_ret. cbn. lia.
Qed.

Lemma decodes_entries n r :
  (length r <= n0)%nat -> decodes esize 0 r (unpack_entries un opts n r).
Proof.
  induction n as [|n IH] in r |- *; intros Hr; [by apply decodes_ret|]. cbn [unpack_entries].
  eapply (decodes_bind _ vsize _ 0 0); [by apply Hun|]. intros k r1 H1.
  pose proof (map_key_outcome opts k) as Hk. unfold mbind at 1, res_bind at 1.
  destruct (map_key opts k) as [k'| |]; [|done..].
  eapply decodes_mono; [|eapply (decodes_bind _ vsize _ 0 (vsize k)); [apply Hun; lia|]]; [lia|].
  intros v r2 H2.
  eapply decodes_mono; [|eapply (decodes_bind _ esize _ 0 (vsize k + vsize v)); [apply IH; lia|]];
    [lia|].
  intros es r3 H3. apply decodes_ret. unfold esize in *. cbn. lia.
Qed.

Lemma decodes_array r l : (length r <= n0)%nat -> decodes vsize 1 r (unpackArrayWithOptions un r l).
Proof.
  intros Hr. unfold unpackArrayWithOptions. destruct (_ <? _); [done|].
  eapply (decodes_bind _ _ _ 0 1); [by apply decodes_elems|]. intros a r' _.
  apply decodes_ret. cbn. lia.
Qed.

Lemma decodes_map r l : (length r <= n0)%nat -> decodes vsize 1 r (unpack_map un opts r l).
Proof.
  intros Hr. unfold unpack_map, unpackOrderedMapWithOptions, unpackMapWithOptions.
  destruct (orderedMap opts); (destruct (_ <? _); [done|]);
    (eapply (decodes_bind _ _ _ 0 1); [by apply decodes_entries|]); intros es r' _; apply decodes_ret.
  - unfold esize. cbn. lia.
  - pose proof (map_build_size es []). unfold esize in *. cbn in *. lia.
Qed.
End LoopSizes.

Ltac decode_leaf :=
  first
    [ done
    | apply decodes_ret; cbn; lia
    | apply decodes_unpackStr | apply decodes_unpackBin | apply decodes_unpackExt
    | eapply decodes_array; [eassumption|lia]
    | eapply decodes_map; [eassumption|lia]
    | eapply (decodes_bind _ (fun _ => 0%nat) vsize 0 1);
      [first [apply decodes_read_byte | apply decodes_read_be]|];
      intros ? ? ?; rewrite ?Nat.add_0_r; decode_leaf ].

Lemma unpack_decodes fuel opts r :
  (length r < fuel)%nat -> decodes vsize 0 r (unpackWithOptions fuel opts r).
Proof.
  induction fuel as [|fuel IH] in r |- *; intros Hr; [lia|]. cbn [unpackWithOptions].
  destruct r as [|b r]; [done|]. cbn [read_byte mbind res_bind]. cbn in Hr.
  assert (Hun : forall r', (length r' <= length r)%nat ->
    decodes vsize 0 r' (unpackWithOptions fuel opts r')) by (intros r' Hr'; apply IH; lia).
  assert (forall x, decodes vsize 1 r x -> decodes vsize 0 (b :: r) x) as Hcons.
  { intros [[v r']| |]; cbn; [|done..]. intros (c & -> & Hs). exists (b :: c). split; [done|cbn; lia]. }
  apply Hcons. clear Hcons IH Hr.
  set (un := unpackWithOptions fuel opts) in *. clearbody un.
  repeat match goal with
  | |- decodes _ _ _ (if ?c then _ else _) => destruct c; [by decode_leaf|]
  end. decode_leaf.
Qed.

(** Decoding terminates on every input, with a value or an error of the
    format: the fuel is never exhausted.  And it never builds more than it
    read: the values and payload bytes of the result are bounded by the bytes
    consumed, so that no declared length, however large, makes the decoder
    allocate beyond its input. *)
Theorem unpack_total_bounded opts data :
  match run_unpack opts data with
  | Ok (v, rest) => exists c, data = c ++ rest /\ (vsize v <= length c)%nat
  | Err e => e <> OutOfFuel
  | Panic => False
  end.
Proof. apply (unpack_decodes (S (length data)) opts data). lia. Qed.

(** ** Headers *)

Section Headers.
Context (fuel : nat) (opts : unpackOptions).
Let un := unpackWithOptions fuel opts.

(** Reading back a header written with its length in [n] bytes. *)
Lemma read_be_enc n l r : (0 < n)%nat -> (0 <= l < 256 ^ Z.of_nat n)%Z ->
  read_be n (be_enc n l ++ r) = Ok (l, r).
Proof.
  intros Hn Hl. unfold read_be.
  assert (length (be_enc n l) = n) as Hlen by apply be_enc_length.
  destruct (be_enc n l ++ r) as [|b r'] eqn:E.
  { apply app_eq_nil in E as [E _]. rewrite E in Hlen. cbn in Hlen. lia. }
  rewrite <- E, length_app, Hlen, (proj2 (Nat.ltb_ge _ _)) by lia.
  rewrite take_app_length', drop_app_length' by done. by rewrite be_dec_enc_small.
Qed.

Lemma unpack_array_header l r :
  (0 <= l < 2 ^ 32)%Z ->
  unpackWithOptions (S fuel) opts (array_header l ++ r) = unpackArrayWithOptions un r l.
Proof.
  intros Hl. unfold array_header.
  destruct (Z.ltb_spec l 16); [assert (0 <= l < 16)%Z as Hs by lia; clear Hl; enumerate Hs; done|].
  destruct (Z.ltb_spec l 65536); cbn -[read_be be_enc];
    rewrite read_be_enc by (lia || (change (256 ^ Z.of_nat 2)%Z with 65536%Z; lia)); done.
Qed.

Lemma unpack_map_header l r :
  (0 <= l < 2 ^ 32)%Z ->
  unpackWithOptions (S fuel) opts (map_header l ++ r) = unpack_map un opts r l.
Proof.
  intros Hl. unfold map_header.
  destruct (Z.ltb_spec l 16); [assert (0 <= l < 16)%Z as Hs by lia; clear Hl; enumerate Hs; done|].
  destruct (Z.ltb_spec l 65536); cbn -[read_be be_enc];
    rewrite read_be_enc by (lia || (change (256 ^ Z.of_nat 2)%Z with 65536%Z; lia)); done.
Qed.

Lemma unpack_blob_app b r : unpack_blob (b ++ r) (zlen b) = Ok (b, r).
Proof.
  unfold unpack_blob. destruct (Z.eqb_spec (zlen b) 0) as [E|E].
  - destruct b; [done|]. rewrite zlen_cons in E. pose proof (zlen_nonneg b). lia.
  - rewrite (proj2 (Z.ltb_ge _ _)) by (rewrite zlen_app; pose proof (zlen_nonneg r); lia).
    unfold zlen. by rewrite Nat2Z.id, take_app_length, drop_app_length.
Qed.

Lemma unpack_str s r :
  (zlen s < 2 ^ 32)%Z -> unpackWithOptions (S fuel) opts (packStr s ++ r) = Ok (VStr s, r).
Proof.
  intros Hl. unfold packStr. rewrite <- app_assoc. pose proof (zlen_nonneg s) as Hz.
  assert (unpackStr (s ++ r) (zlen s) = Ok (VStr s, r)) as Hs
    by (unfold unpackStr; by rewrite unpack_blob_app).
  remember (zlen s) as l eqn:El.
  destruct (Z.ltb_spec l 32) as [H32|].
  { assert (0 <= l < 32)%Z as Hr by lia. clear Hl Hz H32 El. enumerate Hr; exact Hs. }
  destruct (Z.ltb_spec l 256); cbn -[read_be be_enc unpackStr].
  { unfold u8. rewrite Z.mod_small by lia. exact Hs. }
  destruct (Z.ltb_spec l 65536); cbn -[read_be be_enc unpackStr];
    rewrite read_be_enc by (lia || (change (256 ^ Z.of_nat 2)%Z with 65536%Z; lia)); exact Hs.
Qed.

Lemma unpack_bin s r :
  (zlen s < 2 ^ 32)%Z -> unpackWithOptions (S fuel) opts (packBin s ++ r) = Ok (VBin s, r).
Proof.
  intros Hl. unfold packBin. rewrite <- app_assoc. pose proof (zlen_nonneg s) as Hz.
  assert (unpackBin (s ++ r) (zlen s) = Ok (VBin s, r)) as Hs
    by (unfold unpackBin; by rewrite unpack_blob_app).
  destruct (Z.ltb_spec (zlen s) 256); cbn -[read_be be_enc unpackBin].
  { unfold u8. rewrite Z.mod_small by lia. exact Hs. }
  destruct (Z.ltb_spec (zlen s) 65536); cbn -[read_be be_enc unpackBin];
    rewrite read_be_enc by (lia || (change (256 ^ Z.of_nat 2)%Z with 65536%Z; lia)); exact Hs.
Qed.

Lemma unpack_ext ty s r :
  (-128 <= ty < 128)%Z -> (zlen s < 2 ^ 32)%Z ->
  unpackWithOptions (S fuel) opts (packExt ty s ++ r) = Ok (VExt ty s, r).
Proof.
  intros Ht Hl. unfold packExt. rewrite <- app_assoc. pose proof (zlen_nonneg s) as Hz.
  assert (unpackExt ((u8 ty :: s) ++ r) (zlen s) = Ok (VExt ty s, r)) as Hs.
  { unfold unpackExt. cbn [app read_byte mbind res_bind]. rewrite unpack_blob_app. cbn.
    do 3 f_equal. unfold i8, u8, signed. rewrite Zmod_mod.
    destruct (Z.lt_ge_cases ty 0).
    - rewrite <- (Z_mod_plus_full ty 1), Z.mod_small by lia. zcase.
    - rewrite Z.mod_small by lia. zcase. }
  repeat match goal with |- context [zlen s =? ?k] =>
    destruct (Z.eqb_spec (zlen s) k) as [E|_]; [rewrite E in Hs; exact Hs|] end.
  destruct (Z.ltb_spec (zlen s) (2 ^ 8)); cbn -[read_be be_enc unpackExt app].
  { unfold u8 at 1. rewrite Z.mod_small by lia. exact Hs. }
  destruct (Z.ltb_spec (zlen s) (2 ^ 16)); cbn -[read_be be_enc unpackExt];
    rewrite read_be_enc by (lia || (change (256 ^ Z.of_nat 2)%Z with 65536%Z; lia)); exact Hs.
Qed.
End Headers.

Lemma signed_mod w z :
  (0 < w)%Z -> (- 2 ^ (w - 1) <= z < 2 ^ (w - 1))%Z -> signed w (z mod 2 ^ w) = z.
Proof.
  intros Hw Hz. assert (2 ^ w = 2 * 2 ^ (w - 1))%Z as Hp.
  { replace w with (Z.succ (w - 1)) at 1 by lia. apply Z.pow_succ_r. lia. }
  unfold signed. destruct (Z.lt_ge_cases z 0).
  - rewrite <- (Z_mod_plus_full z 1), Z.mod_small by lia. zcase.
  - rewrite Z.mod_small by lia. zcase.
Qed.

Section Integers.
Context (fuel : nat) (opts : unpackOptions).

Lemma read_be_mod n z r : (0 < n)%nat -> read_be n (be_enc n z ++ r) = Ok ((z mod 256 ^ Z.of_nat n)%Z, r).
Proof.
  intros Hn. rewrite <- be_enc_mod. apply read_be_enc; [done|].
  apply Z.mod_pos_bound. apply Z.pow_pos_nonneg; lia.
Qed.

Lemma unpack_int i r :
  (- 2 ^ 63 <= i < 2 ^ 63)%Z ->
  unpackWithOptions (S fuel) opts (packInt i ++ r) = Ok (VInt i, r).
Proof.
  intros Hi. unfold packInt.
  destruct ((-32 <=? i) && (i <=? 127)) eqn:E0.
  { apply andb_prop in E0 as [H1%Z.leb_le H2%Z.leb_le]. destruct (Z.lt_ge_cases i 0).
    - assert (-32 <= i < 0)%Z as Hs by lia. clear Hi H1 H2. enumerate Hs; done.
    - cbn [app]. unfold u8. rewrite Z.mod_small by lia.
      cbn [unpackWithOptions read_byte mbind res_bind].
      unfold posFixIntMax. by rewrite (proj2 (Z.leb_le i 0x7f)) by lia. }
  destruct ((- 2 ^ 7 <=? i) && (i <=? 2 ^ 7 - 1)) eqn:E1.
  { apply andb_prop in E1 as [H1%Z.leb_le H2%Z.leb_le]. cbn -[i8 u8].
    unfold i8, u8. by rewrite Zmod_mod, signed_mod by lia. }
  destruct ((- 2 ^ 15 <=? i) && (i <=? 2 ^ 15 - 1)) eqn:E2.
  { apply andb_prop in E2 as [H1%Z.leb_le H2%Z.leb_le]. cbn -[i16 read_be be_enc].
    rewrite read_be_mod by lia. cbn -[i16]. change (256 ^ Z.of_nat 2)%Z with (2 ^ 16)%Z.
    unfold i16, u16. by rewrite Zmod_mod, signed_mod by lia. }
  destruct ((- 2 ^ 31 <=? i) && (i <=? 2 ^ 31 - 1)) eqn:E3.
  { apply andb_prop in E3 as [H1%Z.leb_le H2%Z.leb_le]. cbn -[i32 read_be be_enc].
    rewrite read_be_mod by lia. cbn -[i32]. change (256 ^ Z.of_nat 4)%Z with (2 ^ 32)%Z.
    unfold i32, u32. by rewrite Zmod_mod, signed_mod by lia. }
  cbn -[i64 read_be be_enc]. rewrite read_be_mod by lia. cbn -[i64].
  change (256 ^ Z.of_nat 8)%Z with (2 ^ 64)%Z. unfold i64, u64.
  by rewrite Zmod_mod, signed_mod by lia.
Qed.

Lemma unpack_uint i r :
  (0 <= i < 2 ^ 64)%Z ->
  unpackWithOptions (S fuel) opts (packUint i ++ r) =
    Ok (if (i <=? 127)%Z then VInt i else VUint i, r).
Proof.
  intros Hi. unfold packUint. destruct (Z.leb_spec i 127).
  { cbn [app]. unfold u8. rewrite Z.mod_small by lia.
    cbn [unpackWithOptions read_byte mbind res_bind].
    unfold posFixIntMax. by rewrite (proj2 (Z.leb_le i 0x7f)) by lia. }
  destruct (Z.leb_spec i (2 ^ 8 - 1)).
  { cbn -[u8]. unfold u8. by rewrite Z.mod_small by lia. }
  destruct (Z.leb_spec i (2 ^ 16 - 1)); [|destruct (Z.leb_spec i (2 ^ 32 - 1))];
    cbn -[read_be be_enc]; by rewrite read_be_enc by (cbn; lia).
Qed.
End Integers.

(** ** Round trip *)

Definition hashable (k : value) : Prop :=
  match k with VMap _ | VOrdered _ => False | _ => True end.

(** The keys of a Go map: each equal to itself (no NaN) and to no other. *)
Definition keys_distinct (ks : list value) : Prop :=
  forall i j ki kj, ks !! i = Some ki -> ks !! j = Some kj -> go_eq ki kj = bool_decide (i = j).

(** Values in range for the format. *)
Inductive packable : value -> Prop :=
  | pk_nil : packable VNil
  | pk_bool b : packable (VBool b)
  | pk_int i : (- 2 ^ 63 <= i < 2 ^ 63)%Z -> packable (VInt i)
  | pk_uint i : (0 <= i < 2 ^ 64)%Z -> packable (VUint i)
  | pk_float32 b : (0 <= b < 2 ^ 32)%Z -> packable (VFloat32 b)
  | pk_float64 b : (0 <= b < 2 ^ 64)%Z -> packable (VFloat64 b)
  | pk_str s : (zlen s < 2 ^ 32)%Z -> packable (VStr s)
  | pk_bin s : (zlen s < 2 ^ 32)%Z -> packable (VBin s)
  | pk_ext ty s : (-128 <= ty < 128)%Z -> (zlen s < 2 ^ 32)%Z -> packable (VExt ty s)
  | pk_binkey s : (zlen s < 2 ^ 32)%Z -> packable (VBinaryKey s)
  | pk_extkey ty s : (-128 <= ty < 128)%Z -> (zlen s < 2 ^ 32)%Z -> packable (VExtKey ty s)
  | pk_arr l : (zlen l < 2 ^ 32)%Z -> Forall packable l -> packable (VArr l)
  | pk_map es :
      (zlen es < 2 ^ 32)%Z ->
      Forall (fun e => packable e.1 /\ hashable e.1 /\ packable e.2) es ->
      keys_distinct (map fst es) -> packable (VMap es)
  | pk_ordered es :
      (zlen es < 2 ^ 32)%Z ->
      Forall (fun e => packable e.1 /\ hashable e.1 /\ packable e.2) es -> packable (VOrdered es).

(** What a packed value decodes to: small unsigned integers as [int64], map
    keys converted, maps in the representation the options ask for. *)
Definition key_of (opts : unpackOptions) (k : value) : value :=
  match map_key opts k with Ok k' => k' | _ => k end.

Fixpoint decoded (opts : unpackOptions) (v : value) : value :=
  match v with
  | VUint i => if i <=? 127 then VInt i else VUint i
  | VBinaryKey s => VStr s
  | VExtKey ty s => VExt ty s
  | VArr l => VArr (map (decoded opts) l)
  | VMap es | VOrdered es =>
      let es' := map (fun e => (key_of opts (decoded opts e.1), decoded opts e.2)) es in
      if orderedMap opts then VOrdered es'
      else VMap (fold_left (fun m e => map_assign m e.1 e.2) es' [])
  | _ => v
  end.

(** Values the encoder writes without error. *)
Definition clean (v : value) : Prop := forall sorted, (pack sorted v).2 = None.

Lemma wconcat_clean l : Forall (fun w => w.2 = None) l -> wconcat l = (concat (map fst l), None).
Proof.
  induction 1 as [|[b e] l Hw Hl IH]; [done|]. cbn in *. subst e. unfold wconcat in *. cbn.
  by rewrite IH.
Qed.

Lemma clean_arr l : Forall clean l -> clean (VArr l).
Proof.
  intros Hl sorted. cbn [pack]. rewrite wconcat_clean; [done|].
  apply Forall_fmap. eapply Forall_impl; [exact Hl|]. intros v Hv. apply Hv.
Qed.

Lemma map_index_clean k vals : Forall (fun x => x.2.2 = None) vals -> (map_index k vals).2 = None.
Proof. induction 1 as [|[k' w] vals Hw Hv IH]; cbn; [done|]. by destruct (go_eq k k'). Qed.

Lemma wseq_clean a b : a.2 = None -> b.2 = None -> (wseq a b).2 = None.
Proof. destruct a as [x e]. cbn. intros -> Hb. done. Qed.

Lemma clean_map es : Forall (fun e => clean e.1 /\ clean e.2) es -> clean (VMap es).
Proof.
  intros Hes sorted. cbn [pack].
  set (keys := map (fun e => (e.1, (pack true e.1).1, pack sorted e.1)) es).
  assert (Forall (fun k => k.2.2 = None) keys) as Hk.
  { unfold keys. apply Forall_fmap. eapply Forall_impl; [exact Hes|]. intros e [H1 _]. apply H1. }
  assert (Forall (fun k => k.2.2 = None) (if sorted then stable_sort (fun k => k.1.2) keys else keys))
    as Hk' by (destruct sorted; [by rewrite stable_sort_perm|done]).
  rewrite wconcat_clean; [done|]. apply Forall_fmap. eapply Forall_impl; [exact Hk'|].
  intros k Hw. apply wseq_clean; [done|]. apply map_index_clean, Forall_fmap.
  eapply Forall_impl; [exact Hes|]. intros e [_ H2]. apply H2.
Qed.

Lemma clean_ordered es : Forall (fun e => clean e.1 /\ clean e.2) es -> clean (VOrdered es).
Proof.
  intros Hes sorted. cbn [pack]. rewrite wconcat_clean; [done|]. apply Forall_fmap.
  eapply Forall_impl; [exact Hes|]. intros e [H1 H2]. apply wseq_clean; [apply H1|apply H2].
Qed.

Lemma map_assign_Forall (P : value * value -> Prop) m k v :
  Forall P m -> P (k, v) -> Forall P (map_assign m k v).
Proof.
  intros Hm Hp. induction Hm as [|[k' v'] m Hx Hm IH]; cbn; [by repeat constructor|].
  destruct (go_eq k' k); by constructor.
Qed.

Lemma map_build_Forall (P : value * value -> Prop) es m :
  Forall P m -> Forall P es -> Forall P (fold_left (fun m e => map_assign m e.1 e.2) es m).
Proof.
  intros Hm Hes. revert m Hm. induction Hes as [|[k v] es Hx Hes IH]; intros m Hm; [done|].
  cbn. apply IH. by apply map_assign_Forall.
Qed.

Lemma key_of_clean opts k : clean k -> clean (key_of opts k).
Proof.
  intros Hk. unfold key_of, map_key. destruct (_ && _); [done|].
  destruct k; try done.
  - by destruct (preserveBinMapKey opts).
  - unfold makeMapKeyHashable. by destruct (PackSorted (VArr l)) as [enc [e|]].
Qed.

Lemma entries_mp (P Q R : value -> Prop) es :
  Forall (fun e => (P e.1 -> Q e.1) /\ (P e.2 -> Q e.2)) es ->
  Forall (fun e => P e.1 /\ R e.1 /\ P e.2) es -> Forall (fun e => Q e.1 /\ R e.1 /\ Q e.2) es.
Proof.
  intros H1 H2. eapply Forall_mp; [|exact H2]. eapply Forall_impl; [exact H1|]. cbn. tauto.
Qed.

Lemma packable_clean opts v : packable v -> clean v /\ clean (decoded opts v).
Proof.
  pattern v; apply value_rect'; clear v; [intros v|intros l IH|intros es IH|intros es IH].
  - destruct v; try done; intros Hp; inversion Hp; subst; try done. cbn. by destruct (_ <=? _).
  - intros Hp. inversion Hp as [| | | | | | | | | | |l' Hl Hf| |]; subst.
    pose proof (Forall_mp _ _ _ IH Hf) as Hc.
    split; apply clean_arr; [|cbn; apply Forall_fmap];
      (eapply Forall_impl; [exact Hc|]); intros x [H1 H2]; done.
  - intros Hp. inversion Hp as [| | | | | | | | | | | |es' Hl Hf _|]; subst.
    pose proof (entries_mp packable (fun v => clean v /\ clean (decoded opts v)) hashable es IH Hf) as Hc.
    assert (Forall (fun e => clean e.1 /\ clean e.2)
      (map (fun e => (key_of opts (decoded opts e.1), decoded opts e.2)) es)) as Hd.
    { apply Forall_fmap. eapply Forall_impl; [exact Hc|]. intros e ([_ H1] & _ & _ & H2).
      split; [by apply key_of_clean|done]. }
    split; [apply clean_map; eapply Forall_impl; [exact Hc|]; cbn; tauto|].
    cbn [decoded]. destruct (orderedMap opts); [by apply clean_ordered|].
    apply clean_map. apply map_build_Forall; [constructor|done].
  - intros Hp. inversion Hp as [| | | | | | | | | | | | |es' Hl Hf]; subst.
    pose proof (entries_mp packable (fun v => clean v /\ clean (decoded opts v)) hashable es IH Hf) as Hc.
    assert (Forall (fun e => clean e.1 /\ clean e.2)
      (map (fun e => (key_of opts (decoded opts e.1), decoded opts e.2)) es)) as Hd.
    { apply Forall_fmap. eapply Forall_impl; [exact Hc|]. intros e ([_ H1] & _ & _ & H2).
      split; [by apply key_of_clean|done]. }
    split; [apply clean_ordered; eapply Forall_impl; [exact Hc|]; cbn; tauto|].
    cbn [decoded]. destruct (orderedMap opts); [by apply clean_ordered|].
    apply clean_map. apply map_build_Forall; [constructor|done].
Qed.

(** The bytes of a packed collection, item by item. *)
Lemma pack_arr_bytes l :
  Forall clean l ->
  (pack false (VArr l)).1 = array_header (zlen l) ++ concat (map (fun v => (pack false v).1) l).
Proof.
  intros Hl. cbn [pack]. rewrite wconcat_clean.
  - cbn. by rewrite map_map.
  - apply Forall_fmap. eapply Forall_impl; [exact Hl|]. intros v Hv. apply Hv.
Qed.

Definition entry_bytes (e : value * value) : bytes := (pack false e.1).1 ++ (pack false e.2).1.

Lemma wseq_clean_fst a b : a.2 = None -> (wseq a b).1 = a.1 ++ b.1.
Proof. destruct a as [x e]. cbn. by intros ->. Qed.

Lemma pack_ordered_bytes es :
  Forall (fun e => clean e.1 /\ clean e.2) es ->
  (pack false (VOrdered es)).1 = map_header (zlen es) ++ concat (map entry_bytes es).
Proof.
  intros Hes. cbn [pack]. rewrite wconcat_clean.
  - cbn. rewrite map_map. do 2 f_equal. apply map_ext_in. intros e He.
    apply wseq_clean_fst. rewrite List.Forall_forall in Hes. by apply Hes.
  - apply Forall_fmap. eapply Forall_impl; [exact Hes|]. intros e [H1 H2].
    apply wseq_clean; [apply H1|apply H2].
Qed.

Lemma keys_distinct_cons k ks :
  keys_distinct (k :: ks) ->
  keys_distinct ks /\ go_eq k k = true /\ (forall k', k' ∈ ks -> go_eq k k' = false /\ go_eq k' k = false).
Proof.
  intros H. split_and!.
  - intros i j ki kj Hi Hj. rewrite (H (S i) (S j) ki kj Hi Hj). apply bool_decide_ext. lia.
  - by rewrite (H O O k k eq_refl eq_refl).
  - intros k' (i & Hi)%list_elem_of_lookup. split.
    + by rewrite (H O (S i) k k' eq_refl Hi).
    + by rewrite (H (S i) O k' k Hi eq_refl).
Qed.

(** In a Go map each key finds its own value. *)
Lemma map_index_own {B} (f : B -> wr) (es : list (value * B)) k x :
  keys_distinct (map fst es) -> (k, x) ∈ es ->
  map_index k (map (fun e => (e.1, f e.2)) es) = f x.
Proof.
  induction es as [|[k' x'] es IH]; intros Hd Hin; [by apply elem_of_nil in Hin|].
  cbn [map fst] in Hd.
  apply keys_distinct_cons in Hd as (Hd & Hr & Hne). cbn.
  apply elem_of_cons in Hin as [[= -> ->]|Hin]; [by rewrite Hr|].
  destruct (Hne k) as [_ ->]; [|by apply IH].
  apply list_elem_of_fmap. by exists (k, x).
Qed.

Lemma pack_map_bytes es :
  Forall (fun e => clean e.1 /\ clean e.2) es -> keys_distinct (map fst es) ->
  (pack false (VMap es)).1 = map_header (zlen es) ++ concat (map entry_bytes es).
Proof.
  intros Hes Hd. cbn [pack]. rewrite List.Forall_forall in Hes. rewrite !map_map. cbn [fst snd].
  rewrite wconcat_clean.
  - cbn [wseq wok fst snd]. rewrite map_map. do 2 f_equal. apply map_ext_in. intros [k x] He. cbn [fst snd].
    destruct (Hes _ He) as [H1 H2]. rewrite wseq_clean_fst by apply H1.
    rewrite (map_index_own (pack false) es k x Hd); [done|]. by apply list_elem_of_In.
  - apply Forall_fmap, List.Forall_forall. intros [k x] He. cbn [fst snd].
    destruct (Hes _ He) as [H1 H2]. apply wseq_clean; [apply H1|]. cbn [fst].
    rewrite (map_index_own (pack false) es k x Hd); [apply H2|]. by apply list_elem_of_In.
Qed.

(** Reading back the items of a collection. *)
Lemma unpack_elems_app un encs vs rest :
  Forall2 (fun e v => forall r, un (e ++ r) = Ok (v, r)) encs vs ->
  unpack_elems un (length encs) (concat encs ++ rest) = Ok (vs, rest).
Proof.
  induction 1 as [|e v encs vs He Hf IH]; [done|]. cbn [unpack_elems length concat].
  rewrite <- app_assoc, He. cbn [mbind res_bind]. by rewrite IH.
Qed.

Lemma unpack_entries_app un opts (encs : list (bytes * bytes)) (es : list (value * value)) rest :
  Forall2 (fun x e => (forall r, un (x.1 ++ r) = Ok (e.1, r)) /\ is_ok (map_key opts e.1) = true /\
                      forall r, un (x.2 ++ r) = Ok (e.2, r)) encs es ->
  unpack_entries un opts (length encs) (concat (map (fun x => x.1 ++ x.2) encs) ++ rest) =
    Ok (map (fun e => (key_of opts e.1, e.2)) es, rest).
Proof.
  induction 1 as [|x e encs es (H1 & H2 & H3) Hf IH]; [done|].
  cbn [unpack_entries length concat map]. rewrite <- !app_assoc, H1. cbn [mbind res_bind].
  unfold key_of at 1. destruct (map_key opts e.1) as [k| |]; [|done..].
  cbn [mbind res_bind]. rewrite H3. cbn [mbind res_bind]. by rewrite IH.
Qed.

Lemma hashable_decoded opts k :
  strictMapKeys opts = false -> packable k -> hashable k ->
  is_ok (map_key opts (decoded opts k)) = true.
Proof.
  intros Hs Hp Hh. unfold map_key. rewrite Hs. cbn [andb].
  destruct (packable_clean opts k Hp) as [_ Hc].
  destruct k; try done; cbn [decoded].
  - by destruct (_ <=? _).
  - by destruct (preserveBinMapKey opts).
  - unfold makeMapKeyHashable, PackSorted. specialize (Hc true). cbn [decoded] in Hc.
    destruct (pack true _) as [enc e]. cbn in Hc. by subst e.
Qed.

Lemma packable_nonempty v : packable v -> (1 <= length (pack false v).1)%nat.
Proof.
  intros Hp. destruct Hp; cbn [pack wok fst]; try (cbn; lia).
  - unfold packInt. repeat case_match; cbn; lia.
  - unfold packUint. repeat case_match; cbn; lia.
  - unfold packStr. repeat case_match; cbn; lia.
  - unfold packBin. repeat case_match; cbn; lia.
  - unfold packExt. rewrite length_app. cbn. lia.
  - unfold packStr. repeat case_match; cbn; lia.
  - unfold packExt. rewrite length_app. cbn. lia.
  - unfold array_header. repeat case_match; cbn; lia.
  - unfold map_header. repeat case_match; cbn; lia.
  - unfold map_header. repeat case_match; cbn; lia.
Qed.

(** The statement of the round trip for one value. *)
Definition roundtrips (opts : unpackOptions) (v : value) : Prop :=
  forall rest fuel, (length (pack false v).1 <= fuel)%nat ->
    unpackWithOptions fuel opts ((pack false v).1 ++ rest) = Ok (decoded opts v, rest).

Lemma array_roundtrips opts l :
  (zlen l < 2 ^ 32)%Z -> Forall packable l -> Forall (roundtrips opts) l -> roundtrips opts (VArr l).
Proof.
  intros Hl Hp Hr rest fuel. rewrite pack_arr_bytes
    by (eapply Forall_impl; [exact Hp|]; intros v Hv; by apply (packable_clean opts)).
  set (enc := fun v => (pack false v).1). intros Hf.
  assert (1 <= length (array_header (zlen l)))%nat as Hh
    by (unfold array_header; repeat case_match; cbn; lia).
  rewrite length_app in Hf. destruct fuel as [|fuel]; [lia|].
  rewrite <- app_assoc, unpack_array_header by (pose proof (zlen_nonneg l); lia).
  unfold unpackArrayWithOptions.
  assert (1 * length l <= length (concat (map enc l)))%nat as Hc.
  { apply concat_length_ge. eapply Forall_impl; [exact Hp|]. apply packable_nonempty. }
  rewrite (proj2 (Z.ltb_ge _ _)) by (unfold zlen; rewrite length_app; lia).
  unfold zlen. rewrite Nat2Z.id, <- (length_map enc l).
  rewrite (unpack_elems_app _ _ (map (decoded opts) l)); [done|].
  apply Forall2_fmap_l, Forall2_fmap_r, Forall_Forall2_diag, List.Forall_forall.
  intros v Hv r. rewrite List.Forall_forall in Hr. apply Hr; [done|].
  pose proof (in_concat_length enc v l Hv). unfold enc in *. lia.
Qed.

Lemma entries_roundtrip opts es rest fuel :
  strictMapKeys opts = false ->
  Forall (fun e => packable e.1 /\ hashable e.1 /\ packable e.2) es ->
  Forall (fun e => roundtrips opts e.1 /\ roundtrips opts e.2) es ->
  (length (concat (map entry_bytes es)) <= fuel)%nat ->
  unpack_entries (unpackWithOptions fuel opts) opts (length es) (concat (map entry_bytes es) ++ rest) =
    Ok (map (fun e => (key_of opts (decoded opts e.1), decoded opts e.2)) es, rest).
Proof.
  intros Hs Hp Hr Hf. rewrite List.Forall_forall in Hp, Hr.
  pose proof (unpack_entries_app (unpackWithOptions fuel opts) opts
    (map (fun e => ((pack false e.1).1, (pack false e.2).1)) es)
    (map (fun e => (decoded opts e.1, decoded opts e.2)) es) rest) as H.
  rewrite length_map, !map_map in H. cbn [fst snd] in H. apply H.
  apply Forall2_fmap_l, Forall2_fmap_r, Forall_Forall2_diag, List.Forall_forall. cbn [fst snd].
  intros e He. destruct (Hp e He) as (P1 & Hh & P2), (Hr e He) as [R1 R2].
  pose proof (in_concat_length entry_bytes e es He) as Hlen.
  unfold entry_bytes in Hlen at 1. rewrite length_app in Hlen.
  split_and!; [intros r; apply R1; lia|by apply hashable_decoded|intros r; apply R2; lia].
Qed.

Lemma map_bytes_roundtrip opts es rest fuel :
  strictMapKeys opts = false -> (zlen es < 2 ^ 32)%Z ->
  Forall (fun e => packable e.1 /\ hashable e.1 /\ packable e.2) es ->
  Forall (fun e => roundtrips opts e.1 /\ roundtrips opts e.2) es ->
  (length (map_header (zlen es) ++ concat (map entry_bytes es)) <= fuel)%nat ->
  unpackWithOptions fuel opts ((map_header (zlen es) ++ concat (map entry_bytes es)) ++ rest) =
    Ok (decoded opts (VMap es), rest).
Proof.
  intros Hs Hl Hp Hr Hf. rewrite length_app in Hf.
  assert (1 <= length (map_header (zlen es)))%nat as Hh
    by (unfold map_header; repeat case_match; cbn; lia).
  destruct fuel as [|fuel]; [lia|].
  rewrite <- app_assoc, unpack_map_header by (pose proof (zlen_nonneg es); lia).
  assert (2 * length es <= length (concat (map entry_bytes es)))%nat as Hc.
  { apply concat_length_ge. eapply Forall_impl; [exact Hp|]. intros e (P1 & _ & P2).
    apply packable_nonempty in P1, P2. unfold entry_bytes. rewrite length_app. lia. }
  assert (zlen (concat (map entry_bytes es) ++ rest) / 2 <? zlen es = false)%Z as Hg.
  { apply Z.ltb_ge. apply Z.div_le_lower_bound; [lia|]. unfold zlen. rewrite length_app. lia. }
  unfold unpack_map, unpackOrderedMapWithOptions, unpackMapWithOptions. rewrite Hg.
  unfold zlen. rewrite Nat2Z.id, (entries_roundtrip opts) by (done || lia).
  cbn [decoded mbind res_bind]. by destruct (orderedMap opts).
Qed.

Lemma packable_roundtrips opts v : strictMapKeys opts = false -> packable v -> roundtrips opts v.
Proof.
  intros Hs. pattern v; apply value_rect'; clear v;
    [intros v|intros l IH|intros es IH|intros es IH].
  - destruct v; try done; intros Hp rest fuel Hf;
      (destruct fuel as [|fuel]; [apply packable_nonempty in Hp; lia|]); inversion Hp; subst;
      cbn [pack wok fst decoded].
    + done.
    + by destruct b.
    + by apply unpack_int.
    + by apply unpack_uint.
    + cbn -[read_be be_enc]. by rewrite read_be_enc by (cbn; lia).
    + cbn -[read_be be_enc]. by rewrite read_be_enc by (cbn; lia).
    + by apply unpack_str.
    + by apply unpack_bin.
    + by apply unpack_ext.
    + by apply unpack_str.
    + by apply unpack_ext.
  - intros Hp. inversion Hp as [| | | | | | | | | | |l' Hl Hf| |]; subst.
    apply array_roundtrips; [done..|]. by eapply Forall_mp.
  - intros Hp rest fuel. inversion Hp as [| | | | | | | | | | | |es' Hl Hf Hd|]; subst.
    pose proof (entries_mp packable (roundtrips opts) hashable es IH Hf) as Hr.
    rewrite pack_map_bytes; [|eapply Forall_impl; [exact Hf|];
      intros e (P1 & _ & P2); split; by apply (packable_clean opts)|done].
    intros Hlen. apply map_bytes_roundtrip; try done.
    eapply Forall_impl; [exact Hr|]. cbn. tauto.
  - intros Hp rest fuel. inversion Hp as [| | | | | | | | | | | | |es' Hl Hf]; subst.
    pose proof (entries_mp packable (roundtrips opts) hashable es IH Hf) as Hr.
    rewrite pack_ordered_bytes; [|eapply Forall_impl; [exact Hf|];
      intros e (P1 & _ & P2); split; by apply (packable_clean opts)].
    intros Hlen. apply map_bytes_roundtrip; try done.
    eapply Forall_impl; [exact Hr|]. cbn. tauto.
Qed.

(** Everything the encoder can write, the decoder reads back, whatever
    follows it in the input: scalars unchanged (small unsigned integers as
    signed ones), collections item by item, maps in the representation the
    options ask for. *)
Theorem Pack_Unpack_value opts v rest :
  strictMapKeys opts = false -> packable v ->
  (Pack v).2 = None /\ run_unpack opts ((Pack v).1 ++ rest) = Ok (decoded opts v, rest).
Proof.
  intros Hs Hp. split; [by apply (packable_clean opts)|].
  apply packable_roundtrips; [done..|]. unfold Pack. rewrite length_app. lia.
Qed.

(** ** Maps with string keys *)

Lemma Unpack_Pack v :
  packable v -> (Pack v).2 = None /\ Unpack (Pack v).1 = Ok (decoded (mkOptions false false false) v).
Proof.
  intros Hp. split; [by apply (packable_clean (mkOptions false false false))|].
  assert (roundtrips (mkOptions false false false) v) as Hr by (by apply packable_roundtrips).
  unfold Unpack, run_unpack. rewrite <- (app_nil_r (Pack v).1) at 2. unfold Pack. rewrite Hr; [done|lia].
Qed.

Lemma map_assign_fresh m k v :
  Forall (fun e => go_eq e.1 k = false) m -> map_assign m k v = m ++ [(k, v)].
Proof. induction 1 as [|[k' v'] m Hk Hm IH]; cbn in *; [done|]. by rewrite Hk, IH. Qed.

(** Building a Go map from distinct keys keeps the entries as they come. *)
Lemma map_build_distinct es m :
  keys_distinct (map fst (m ++ es)) -> fold_left (fun m e => map_assign m e.1 e.2) es m = m ++ es.
Proof.
  induction es as [|[k v] es IH] in m |- *; intros Hd; cbn; [by rewrite app_nil_r|].
  rewrite map_assign_fresh.
  - rewrite IH; rewrite <- (assoc_L (++)); done.
  - apply Forall_forall. intros [k' v'] [i Hi]%list_elem_of_lookup. cbn.
    rewrite (Hd i (length m) k' k).
    + apply bool_decide_eq_false. apply lookup_lt_Some in Hi. lia.
    + rewrite map_app. rewrite lookup_app_l by (rewrite length_map; by eapply lookup_lt_Some).
      by rewrite list_lookup_fmap, Hi.
    + rewrite map_app, lookup_app_r by (rewrite length_map; lia). by rewrite length_map, Nat.sub_diag.
Qed.

Lemma str_keys_distinct {A} (es : list (bytes * A)) :
  NoDup (map fst es) -> keys_distinct (map (fun e => VStr e.1) es).
Proof.
  intros Hn i j ki kj Hi Hj. rewrite list_lookup_fmap in Hi, Hj.
  destruct (es !! i) as [[a x]|] eqn:Ei, (es !! j) as [[b y]|] eqn:Ej; try done. injection Hi as <-. injection Hj as <-.
  cbn. unfold bytes_eqb. apply bool_decide_ext. split; [|intros ->; congruence].
  intros ->. apply (NoDup_lookup (map fst es) i j b Hn); rewrite list_lookup_fmap; [by rewrite Ei|by rewrite Ej].
Qed.

(** A packed map with string keys decodes to the same map. *)
Lemma decoded_str_map (es : list (bytes * value)) :
  NoDup (map fst es) ->
  decoded (mkOptions false false false) (VMap (map (fun e => (VStr e.1, e.2)) es)) =
    VMap (map (fun e => (VStr e.1, decoded (mkOptions false false false) e.2)) es).
Proof.
  intros Hn. cbn [decoded orderedMap]. rewrite map_map. cbn [fst snd decoded].
  rewrite (map_build_distinct _ []); [done|]. cbn [app]. rewrite map_map. cbn [fst].
  apply (str_keys_distinct es Hn).
Qed.

Lemma packable_str_map (es : list (bytes * value)) :
  (zlen es < 2 ^ 32)%Z -> NoDup (map fst es) ->
  Forall (fun e => (zlen e.1 < 2 ^ 32)%Z /\ packable e.2) es ->
  packable (VMap (map (fun e => (VStr e.1, e.2)) es)).
Proof.
  intros Hl Hn Hf. apply pk_map.
  - unfold zlen in *. by rewrite length_map.
  - apply Forall_fmap. eapply Forall_impl; [exact Hf|]. intros [k v] [Hk Hv]. cbn. split_and!; [by constructor|done|done].
  - rewrite map_map. by apply str_keys_distinct.
Qed.

(** ** Canonical encodings *)

Lemma bytes_leb_refl a : bytes_leb a a = true.
Proof. induction a as [|x a IH]; cbn; [done|]. by rewrite Z.eqb_refl, IH, orb_true_r. Qed.

Lemma bytes_leb_total a b : bytes_leb a b = true \/ bytes_leb b a = true.
Proof.
  induction a as [|x a IH] in b |- *; destruct b as [|y b]; cbn; auto.
  destruct (Z.lt_total x y) as [H|[->|H]].
  - left. by rewrite (proj2 (Z.ltb_lt _ _) H).
  - rewrite Z.eqb_refl, Z.ltb_irrefl. cbn. apply IH.
  - right. by rewrite (proj2 (Z.ltb_lt _ _) H).
Qed.

Lemma bytes_leb_trans a b c : bytes_leb a b = true -> bytes_leb b c = true -> bytes_leb a c = true.
Proof.
  induction a as [|x a IH] in b, c |- *; [done|]. destruct b as [|y b]; [done|].
  destruct c as [|z c]; [done|]. cbn.
  rewrite !orb_true_iff, !andb_true_iff, !Z.ltb_lt, !Z.eqb_eq.
  intros [H1|[-> H1]] [H2|[-> H2]]; [left; lia|left; lia|left; lia|right].
  split; [done|by eapply IH].
Qed.

Lemma bytes_leb_antisym a b : bytes_leb a b = true -> bytes_leb b a = true -> a = b.
Proof.
  induction a as [|x a IH] in b |- *; destruct b as [|y b]; cbn; try done.
  rewrite !orb_true_iff, !andb_true_iff, !Z.ltb_lt, !Z.eqb_eq.
  intros [H1|[E1 H1]] [H2|[E2 H2]]; try lia. f_equal; [done|by apply IH].
Qed.

Section SortFacts.
Context {A : Type} (key : A -> bytes).
Let R (x y : A) : Prop := bytes_leb (key x) (key y) = true.

Lemma stable_sort_sorted l : StronglySorted R (stable_sort key l).
Proof.
  induction l as [|x l IH]; [constructor|].
  change (stable_sort key (x :: l)) with (sorted_insert key x (stable_sort key l)).
  induction IH as [|y l' Hs IHs Hy]; cbn; [by repeat constructor|].
  destruct (bytes_leb (key x) (key y)) eqn:E.
  - constructor; [by constructor|]. constructor; [done|].
    eapply Forall_impl; [exact Hy|]. intros z Hz. by eapply bytes_leb_trans.
  - constructor; [done|]. rewrite sorted_insert_perm. constructor; [|done].
    destruct (bytes_leb_total (key x) (key y)); [congruence|done].
Qed.

(** With distinct keys the sorted list does not depend on the order of the
    input. *)
Lemma stable_sort_canonical l l' :
  NoDup (map key l) -> l ≡ₚ l' -> stable_sort key l = stable_sort key l'.
Proof.
  intros Hn Hp. apply (StronglySorted_unique_strong R); try apply stable_sort_sorted.
  - intros x y Hx Hy H1 H2. rewrite stable_sort_perm in Hx, Hy. rewrite <- Hp in Hy.
    pose proof (bytes_leb_antisym _ _ H1 H2) as E. clear -Hn Hx Hy E.
    apply list_elem_of_lookup in Hx as [i Hi], Hy as [j Hj].
    assert (i = j) as ->; [|congruence].
    apply (proj1 (NoDup_alt (map key l)) Hn i j (key x)).
    + change (map key l) with (key <$> l). by rewrite list_lookup_fmap, Hi.
    + change (map key l) with (key <$> l). by rewrite list_lookup_fmap, Hj, E.
  - by rewrite !stable_sort_perm.
Qed.
End SortFacts.

Lemma keys_distinct_alt ks :
  keys_distinct ks <->
  NoDup ks /\ forall k k', k ∈ ks -> k' ∈ ks -> (go_eq k k' = true <-> k = k').
Proof.
  split.
  - intros H. assert (NoDup ks) as Hn.
    { apply NoDup_alt. intros i j x Hi Hj. pose proof (H i i x x Hi Hi) as H1.
      pose proof (H i j x x Hi Hj) as H2. rewrite bool_decide_true in H1 by done.
      rewrite H1 in H2. symmetry in H2. by apply bool_decide_eq_true in H2. }
    split; [done|]. intros k k' [i Hi]%list_elem_of_lookup [j Hj]%list_elem_of_lookup.
    rewrite (H i j k k' Hi Hj), bool_decide_eq_true. split; [intros ->; congruence|].
    intros ->. by eapply NoDup_lookup.
  - intros [Hn H] i j ki kj Hi Hj.
    pose proof (H ki kj (list_elem_of_lookup_2 _ _ _ Hi) (list_elem_of_lookup_2 _ _ _ Hj)) as E.
    case_bool_decide as Hd.
    + subst j. apply E. congruence.
    + destruct (go_eq ki kj); [|done]. destruct Hd. assert (ki = kj) as -> by by apply E.
      by eapply NoDup_lookup.
Qed.

(** The same value up to the iteration order of its Go maps. *)
Inductive veq : value -> value -> Prop :=
  | veq_refl v : veq v v
  | veq_arr l l' : Forall2 veq l l' -> veq (VArr l) (VArr l')
  | veq_map es es' es'' :
      Forall2 (fun e e' => e.1 = e'.1 /\ veq e.2 e'.2) es es' -> es' ≡ₚ es'' ->
      veq (VMap es) (VMap es'').

(** Every Go map reached through slices and Go maps has distinct keys with
    distinct encodings. *)
Inductive sortable : value -> Prop :=
  | so_leaf v : match v with VArr _ | VMap _ => False | _ => True end -> sortable v
  | so_arr l : Forall sortable l -> sortable (VArr l)
  | so_map es :
      keys_distinct (map fst es) -> NoDup (map (fun e => (pack true e.1).1) es) ->
      Forall (fun e => sortable e.2) es -> sortable (VMap es).

(** The encoding of a sorted map, from its keys and packed values. *)
Definition sorted_map_bytes (es : list (value * wr)) : wr :=
  wseq (wok (map_header (zlen es)))
    (wconcat (map (fun k => wseq k.2 (map_index k.1.1 es))
       (stable_sort (fun k => k.1.2)
          (map (fun e => (e.1, (pack true e.1).1, pack true e.1)) es)))).

Lemma pack_map_sorted es :
  pack true (VMap es) = sorted_map_bytes (map (fun e => (e.1, pack true e.2)) es).
Proof. unfold sorted_map_bytes. cbn [pack]. rewrite map_map. unfold zlen. by rewrite length_map. Qed.

Lemma map_index_perm (es es' : list (value * wr)) k :
  keys_distinct (map fst es) -> es ≡ₚ es' -> k ∈ map fst es -> map_index k es = map_index k es'.
Proof.
  intros Hd Hp Hk. assert (keys_distinct (map fst es')) as Hd'.
  { apply keys_distinct_alt. apply keys_distinct_alt in Hd as [Hn He]. split.
    - by rewrite <- (fmap_Permutation fst _ _ Hp).
    - intros x y Hx Hy. apply He; by rewrite (fmap_Permutation fst _ _ Hp). }
  apply list_elem_of_fmap in Hk as ([k' w] & -> & Hin). cbn [fst].
  assert (forall l : list (value * wr), map (fun e => (e.1, id e.2)) l = l) as Hid.
  { intros l. rewrite <- map_id. apply map_ext. by intros []. }
  rewrite <- (Hid es), <- (Hid es').
  rewrite (map_index_own id es k' w), (map_index_own id es' k' w); try done.
  by rewrite <- Hp.
Qed.

Lemma sorted_map_bytes_perm (es es' : list (value * wr)) :
  keys_distinct (map fst es) -> NoDup (map (fun e => (pack true e.1).1) es) -> es ≡ₚ es' ->
  sorted_map_bytes es = sorted_map_bytes es'.
Proof.
  intros Hd Hn Hp. unfold sorted_map_bytes.
  set (f := fun e : value * wr => (e.1, (pack true e.1).1, pack true e.1)).
  rewrite (stable_sort_canonical (fun k => k.1.2) (map f es) (map f es')).
  - assert (zlen es = zlen es') as -> by (unfold zlen; by rewrite Hp).
    f_equal. f_equal. apply map_ext_in. intros k Hk.
    apply list_elem_of_In in Hk. rewrite stable_sort_perm in Hk. f_equal.
    apply map_index_perm; [done..|]. apply list_elem_of_fmap in Hk as (e & -> & He).
    rewrite <- Hp in He. apply list_elem_of_fmap. by exists e.
  - by rewrite map_map.
  - by apply (fmap_Permutation f).
Qed.

(** C40: the sorted encoding of a value does not depend on the iteration order
    of its Go maps, at any depth of slices and Go maps, as long as the keys of
    each map have distinct encodings. *)
Theorem PackSorted_canonical v v' : sortable v -> veq v v' -> PackSorted v = PackSorted v'.
Proof.
  unfold PackSorted. revert v'.
  pattern v; apply value_rect'; clear v; [intros v|intros l IH|intros es IH|intros es IH].
  - destruct v; try done; intros v' _ Hv; by inversion Hv.
  - intros v' Hs Hv. inversion Hv as [|? l' Hf|]; subst; [done|].
    inversion Hs as [? Hx|? Hl|]; subst; [by cbn in Hx|]. cbn [pack].
    assert (map (pack true) l = map (pack true) l') as ->;
      [|unfold zlen; by rewrite (Forall2_length _ _ _ Hf)].
    clear -IH Hl Hf. induction Hf as [|x y l l' Hxy Hf IHf]; [done|].
    inversion IH as [|? ? Hx IH']; inversion Hl; subst. cbn. rewrite (Hx y) by done.
    by rewrite IHf.
  - intros v' Hs Hv. inversion Hv as [| |? es' es'' Hf Hp]; subst; [done|].
    inversion Hs as [? Hx| |? Hd Hn Hl]; subst; [by cbn in Hx|]. rewrite !pack_map_sorted.
    set (f := fun e : value * value => (e.1, pack true e.2)).
    assert (map f es = map f es') as E.
    { clear -IH Hl Hf. induction Hf as [|x y l l' [Hk Hxy] Hf IHf]; [done|].
      inversion IH as [|? ? [_ Hx] IH']; inversion Hl; subst. cbn. unfold f at 1 3.
      rewrite Hk, (Hx y.2) by done. by rewrite IHf. }
    apply sorted_map_bytes_perm.
    + rewrite map_map. exact Hd.
    + rewrite map_map. exact Hn.
    + rewrite E. by apply (fmap_Permutation f).
  - intros v' _ Hv. by inversion Hv.
Qed.

(** The sorted encoding is not canonical beyond that.  Two map keys of
    different integer types with the same encoding (which the decoder itself
    produces from one input) come out in iteration order, ties not being broken
    by anything; and a Go map inside an ordered map is written unsorted. *)
Theorem PackSorted_iteration_dependent :
  let tie := [(VInt 1, VNil); (VUint 1, VBool true)] in
  let m := [(VInt 1, VNil); (VInt 2, VNil)] in
  Unpack [0x82; 0x01; 0xc0; 0xcc; 0x01; 0xc3] = Ok (VMap tie) /\
  keys_distinct (map fst tie) /\ keys_distinct (map fst m) /\
  PackSorted (VMap tie) <> PackSorted (VMap (reverse tie)) /\
  PackSorted (VMap m) = PackSorted (VMap (reverse m)) /\
  PackSorted (VOrdered [(VInt 7, VMap m)]) <> PackSorted (VOrdered [(VInt 7, VMap (reverse m))]).
Proof.
  cbv zeta. split_and!; try done; try (intros E; vm_compute in E; congruence).
  - intros [|[|i]] [|[|j]] ki kj; cbn; intros [= <-] [= <-]; done.
  - intros [|[|i]] [|[|j]] ki kj; cbn; intros [= <-] [= <-]; done.
Qed.

(** ** Extending the input *)

Lemma extends_read_byte : extends read_byte read_byte.
Proof. intros [|b r] a r' s; [done|]. by intros [= <- <-]. Qed.

Lemma extends_read_be n : (0 < n)%nat -> extends (read_be n) (read_be n).
Proof.
  intros Hn [|b r] a r' s; [done|]. unfold read_be. cbn [app].
  destruct (Nat.ltb_spec (length (b :: r)) n) as [|Hl]; [done|]. intros [= <- <-].
  rewrite app_comm_cons, length_app, (proj2 (Nat.ltb_ge _ _)) by lia.
  by rewrite take_app_le, drop_app_le by done.
Qed.

Lemma extends_blob l : extends (fun r => unpack_blob r l) (fun r => unpack_blob r l).
Proof.
  intros r a r' s. unfold unpack_blob. destruct (l =? 0); [by intros [= <- <-]|].
  destruct (Z.ltb_spec (zlen r) l) as [|Hl]; [done|]. intros [= <- <-].
  rewrite (proj2 (Z.ltb_ge _ _)) by (rewrite zlen_app; pose proof (zlen_nonneg s); lia).
  by rewrite take_app_le, drop_app_le by (unfold zlen in *; lia).
Qed.

Section ExtendLoops.
Context (f g : bytes -> res mp_err (value * bytes)) (opts : unpackOptions) (Hfg : extends f g).

Lemma extends_elems n : extends (unpack_elems f n) (unpack_elems g n).
Proof.
  induction n as [|n IH]; cbn [unpack_elems]; [apply extends_ret|].
  apply extends_bind; [done|]. intros v. apply extends_bind; [done|]. intros l. apply extends_ret.
Qed.

Lemma extends_entries n : extends (unpack_entries f opts n) (unpack_entries g opts n).
Proof.
  induction n as [|n IH]; cbn [unpack_entries]; [apply extends_ret|].
  apply extends_bind; [done|]. intros k r a r' s. unfold mbind at 1 3, res_bind at 1 3.
  destruct (map_key opts k) as [k'| |]; [|done..]. revert r a r' s.
  apply extends_bind; [done|]. intros v. apply extends_bind; [done|]. intros es. apply extends_ret.
Qed.

Lemma extends_array l :
  extends (fun r => unpackArrayWithOptions f r l) (fun r => unpackArrayWithOptions g r l).
Proof.
  apply (extends_guard _ _ zlen UnexpectedEOF).
  - intros r s. rewrite zlen_app. pose proof (zlen_nonneg s). lia.
  - apply extends_bind; [apply extends_elems|]. intros a. apply extends_ret.
Qed.

Lemma extends_map l : extends (fun r => unpack_map f opts r l) (fun r => unpack_map g opts r l).
Proof.
  unfold unpack_map, unpackOrderedMapWithOptions, unpackMapWithOptions.
  assert (forall r s : bytes, zlen r / 2 <= zlen (r ++ s) / 2)%Z as Hz.
  { intros r s. apply Z.div_le_mono; [lia|]. rewrite zlen_app. pose proof (zlen_nonneg s). lia. }
  destruct (orderedMap opts); apply (extends_guard _ _ (fun r => zlen r / 2)%Z UnexpectedEOF); try done;
    (apply extends_bind; [apply extends_entries|]); intros es; apply extends_ret.
Qed.
End ExtendLoops.

Ltac extend_leaf :=
  first
    [ apply extends_ret
    | intros ? ? ? ?; done
    | eapply extends_array; eassumption
    | eapply extends_map; eassumption
    | apply extends_blob
    | apply extends_bind;
      [first [apply extends_read_byte | apply extends_read_be; lia | apply extends_blob]|];
      intros ?; extend_leaf ].

Lemma unpack_extends fuel fuel' opts :
  (fuel <= fuel')%nat -> extends (unpackWithOptions fuel opts) (unpackWithOptions fuel' opts).
Proof.
  induction fuel as [|fuel IH] in fuel' |- *; intros Hle; [by intros r|].
  destruct fuel' as [|fuel']; [lia|]. cbn [unpackWithOptions].
  assert (extends (unpackWithOptions fuel opts) (unpackWithOptions fuel' opts)) as Hu
    by (apply IH; lia).
  apply extends_bind; [apply extends_read_byte|]. intros b. clear IH Hle.
  set (f := unpackWithOptions fuel opts) in *. set (g := unpackWithOptions fuel' opts) in *.
  clearbody f g.
  repeat match goal with
  | |- extends (fun r => if ?c then _ else _) _ => destruct c; [by extend_leaf|]
  end. by extend_leaf.
Qed.

(** Encodings are self-delimiting: the strict decoder accepts exactly the
    whole encoding of a value, refuses it with anything after it as extra data,
    and refuses every proper prefix of it. *)
Theorem strict_unpack_exact v extra cut :
  packable v -> extra <> [] -> (cut < length (Pack v).1)%nat ->
  UnpackStrictPreserveBinMapKeyOrder (Pack v).1 = Ok (decoded (mkOptions false true true) v) /\
  UnpackStrictPreserveBinMapKeyOrder ((Pack v).1 ++ extra) = Err ExtraData /\
  exists e, UnpackStrictPreserveBinMapKeyOrder (take cut (Pack v).1) = Err e /\ e <> OutOfFuel.
Proof.
  intros Hp Hx Hc. set (opts := mkOptions false true true). unfold UnpackStrictPreserveBinMapKeyOrder.
  fold opts. assert (forall rest, run_unpack opts ((Pack v).1 ++ rest) = Ok (decoded opts v, rest)) as Hr.
  { intros rest. apply packable_roundtrips; [done..|]. unfold Pack. rewrite length_app. lia. }
  split_and!.
  - pose proof (Hr []) as E. rewrite app_nil_r in E. by rewrite E.
  - rewrite Hr. by destruct extra.
  - pose proof (unpack_decodes (S (length (take cut (Pack v).1))) opts (take cut (Pack v).1) ltac:(lia)) as Hd.
    unfold run_unpack. destruct (unpackWithOptions _ _ _) as [[v' rest]|e|] eqn:E.
    + exfalso. eapply (unpack_extends _ (S (length (Pack v).1)) opts) in E;
        [|rewrite length_take; lia].
      rewrite (take_drop cut) in E. pose proof (Hr []) as E'. unfold run_unpack in E'.
      rewrite app_nil_r in E'. rewrite E' in E. injection E as _ E. symmetry in E.
      apply app_eq_nil in E as [_ E]. apply (f_equal length) in E. rewrite length_drop in E. cbn in E. lia.
    + cbn in Hd. exists (normalizePythonUnpackError e). split; [done|]. by destruct e.
    + done.
Qed.

(** ** Witnesses *)

Section MsgpackWitnesses.
Definition w_entries : list (value * value) :=
  [(VStr [104; 105], VArr [VInt (-5); VUint 300; VBin [1; 2]]);
   (VInt 3, VOrdered [(VBin [9], VFloat64 0)])].
Definition w_value : value := VMap w_entries.
Definition w_value' : value := VMap (reverse w_entries).

Lemma w_keys_distinct : keys_distinct (map fst w_entries).
Proof. intros [|[|i]] [|[|j]] ki kj; cbn; intros [= <-] [= <-]; done. Qed.

Lemma w_packable : packable w_value.
Proof.
  apply pk_map; [done| |apply w_keys_distinct].
  constructor; [|constructor; [|constructor]]; cbn [fst snd]; (split; [|split; [done|]]).
  - by constructor.
  - apply pk_arr; [done|]. repeat (constructor; [by constructor|]). constructor.
  - by constructor.
  - apply pk_ordered; [done|]. constructor; [|constructor]. split_and!; by constructor.
Qed.

Lemma w_sortable : sortable w_value.
Proof.
  apply so_map; [apply w_keys_distinct|by apply (bool_decide_unpack _)|].
  constructor; [|constructor; [|constructor]].
  - apply so_arr. repeat (constructor; [by apply so_leaf|]). constructor.
  - by apply so_leaf.
Qed.

Lemma Pack_Unpack_value_witness :
  (Pack w_value).2 = None /\
  run_unpack (mkOptions false true true) ((Pack w_value).1 ++ [1; 2]) =
    Ok (VOrdered [(VStr [104; 105], VArr [VInt (-5); VUint 300; VBin [1; 2]]);
                  (VInt 3, VOrdered [(VBinaryKey [9], VFloat64 0)])], [1; 2]).
Proof. apply (Pack_Unpack_value (mkOptions false true true)); [reflexivity|apply w_packable]. Defined.

Lemma PackSorted_canonical_witness : PackSorted w_value = PackSorted w_value'.
Proof.
  apply PackSorted_canonical; [apply w_sortable|].
  apply (veq_map _ w_entries); [|by rewrite reverse_Permutation].
  repeat constructor.
Defined.

Lemma strict_unpack_exact_witness :
  UnpackStrictPreserveBinMapKeyOrder (Pack w_value).1 =
    Ok (decoded (mkOptions false true true) w_value) /\
  UnpackStrictPreserveBinMapKeyOrder ((Pack w_value).1 ++ [7]) = Err ExtraData /\
  exists e, UnpackStrictPreserveBinMapKeyOrder (take 5 (Pack w_value).1) = Err e /\ e <> OutOfFuel.
Proof.
  apply (strict_unpack_exact w_value [7] 5); [apply w_packable|discriminate|].
  vm_compute. lia.
Defined.
End MsgpackWitnesses.
