(* ===== verification/Cbor.v ===== *)
(** * CBOR

    Models [rrc/cbor]: the encoder, the decoder over a byte slice, the
    insertion-ordered map with Python key equality, and big integers.

    A decoded Go value is a [cv]; floats are their binary64 bit patterns.  The
    decoder's recursion is bounded by fuel (each nested call has consumed a
    byte) next to the depth limit of the code. *)

From stdpp Require Import base tactics option list sets.
From Stdlib Require Import ZArith Lia.
From S2P Require Import Prelude.
Local Open Scope Z_scope.
Local Open Scope go_scope.

(** ** Values *)

Inductive cv :=
  | CNil
  | CBool (b : bool)
  | CInt (i : Z)
  | CUint (i : Z)
  | CFloat (bits : Z)
  | CText (s : bytes)
  | CBytes (s : bytes)
  | CArr (l : list cv)
  | CMap (ps : list (cv * cv))
  | CBig (negative : bool) (magnitude : bytes)
  | CStringMap (ps : list (bytes * cv))
  | CAnyMap (ps : list (cv * cv))
  | CUnsupported.

Inductive cbor_err :=
  | Truncated
  | Indefinite
  | TooDeep
  | NegativeOverflow
  | IndefiniteTag
  | ReservedInfo (info : Z)
  | MismatchedChunk
  | BadText
  | UnassignedSimple (v : Z)
  | UnexpectedBreak
  | UnsupportedSimple (info : Z)
  | OutOfFuel.

#[global] Instance cbor_err_eq_dec : EqDecision cbor_err.
Proof. solve_decision. Defined.

(** ** Heads and scalars *)

Definition appendHead (major val : Z) : bytes :=
  let m := Z.shiftl major 5 in
  if val <=? 23 then [Z.lor m (u8 val)]
  else if val <=? 0xff then [Z.lor m 24; u8 val]
  else if val <=? 0xffff then Z.lor m 25 :: be_enc 2 val
  else if val <=? 0xffffffff then Z.lor m 26 :: be_enc 4 val
  else Z.lor m 27 :: be_enc 8 val.

Definition appendUint (v : Z) : bytes := appendHead 0 v.

Definition appendInt (v : Z) : bytes :=
  if 0 <=? v then appendHead 0 v else appendHead 1 (-1 - v).

Definition appendFloat (bits : Z) : bytes := 0xfb :: be_enc 8 bits.
Definition appendText (s : bytes) : bytes := appendHead 3 (zlen s) ++ s.
Definition appendByteString (s : bytes) : bytes := appendHead 2 (zlen s) ++ s.

(** ** Big integers *)

Fixpoint trimMagnitude (b : bytes) : bytes :=
  match b with
  | 0 :: ((_ :: _) as b') => trimMagnitude b'
  | _ => b
  end.

Definition AsUint64 (mag : bytes) : option Z :=
  if (8 <? length mag)%nat then None else Some (be_dec mag).

Definition BigIsZero (mag : bytes) : bool := forallb (Z.eqb 0) mag.

(** The integer [BigUint.String] renders. *)
Definition BigString (negative : bool) (mag : bytes) : Z :=
  let n := be_dec mag in if negative then - (n - 1) else n.

Definition encodeBigUint (negative : bool) (magnitude : bytes) : bytes :=
  let mag := trimMagnitude magnitude in
  let wide := appendHead 6 (if negative then 3 else 2) ++ appendByteString mag in
  if (length mag <=? 8)%nat then
    match AsUint64 mag with
    | Some n =>
        if negative then if n <=? 2 ^ 63 - 1 then appendInt (-1 - n) else wide
        else appendUint n
    | None => wide
    end
  else wide.

(** ** Encoding *)

Fixpoint cat (l : list (res cbor_err bytes)) : res cbor_err bytes :=
  match l with
  | [] => Ok []
  | x :: l' => a ← x; b ← cat l'; Ok (a ++ b)
  end.

Section Sort.
Context {A : Type} (le : A -> A -> bool).
Fixpoint insert_sorted (x : A) (l : list A) : list A :=
  match l with
  | [] => [x]
  | y :: l' => if le x y then x :: l else y :: insert_sorted x l'
  end.
Definition isort (l : list A) : list A := foldr insert_sorted [] l.
End Sort.

Fixpoint lex_le (a b : bytes) : bool :=
  match a, b with
  | [], _ => true
  | _ :: _, [] => false
  | x :: a', y :: b' => (x <? y) || ((x =? y) && lex_le a' b')
  end.

(** The order of [appendAnyMap]: shorter encodings first. *)
Definition key_le (a b : bytes) : bool :=
  if (length a =? length b)%nat then lex_le a b else (length a <? length b)%nat.

Fixpoint appendValue (v : cv) : res cbor_err bytes :=
  match v with
  | CNil => Ok [0xf6]
  | CBool b => Ok [if b then 0xf5 else 0xf4]
  | CInt i => Ok (appendInt i)
  | CUint i => Ok (appendUint i)
  | CFloat bits => Ok (appendFloat bits)
  | CText s => Ok (appendText s)
  | CBytes s => Ok (appendByteString s)
  | CArr l => b ← cat (map appendValue l); Ok (appendHead 4 (zlen l) ++ b)
  | CMap ps =>
      b ← cat (map (fun p => k ← appendValue p.1; x ← appendValue p.2; Ok (k ++ x)) ps);
      Ok (appendHead 5 (zlen ps) ++ b)
  | CBig negative mag => Ok (encodeBigUint negative mag)
  | CStringMap ps =>
      let es := map (fun p => (p.1, appendValue p.2)) ps in
      b ← cat (map (fun e => x ← e.2; Ok (appendText e.1 ++ x))
                 (isort (fun a b => lex_le a.1 b.1) es));
      Ok (appendHead 5 (zlen ps) ++ b)
  | CAnyMap ps =>
      let es := map (fun p => (match appendValue p.1 with Ok k => k | _ => [] end,
                               appendValue p.1, appendValue p.2)) ps in
      b ← cat (map (fun e => k ← e.1.2; x ← e.2; Ok (k ++ x))
                 (isort (fun a b => key_le a.1.1 b.1.1) es));
      Ok (appendHead 5 (zlen ps) ++ b)
  | CUnsupported => Panic
  end.

Definition Encode (v : cv) : res cbor_err bytes := appendValue v.

(** ** UTF-8 validity ([utf8.Valid]) *)

Definition cont (b : Z) : bool := (0x80 <=? b) && (b <=? 0xbf).
Definition within (lo hi b : Z) : bool := (lo <=? b) && (b <=? hi).

Fixpoint utf8_fuel (fuel : nat) (s : bytes) : bool :=
  match fuel with
  | O => false
  | S f =>
      match s with
      | [] => true
      | b0 :: s1 =>
          if b0 <? 0x80 then utf8_fuel f s1
          else if within 0xc2 0xdf b0 then
            match s1 with b1 :: s2 => cont b1 && utf8_fuel f s2 | _ => false end
          else if within 0xe0 0xef b0 then
            match s1 with
            | b1 :: b2 :: s3 =>
                within (if b0 =? 0xe0 then 0xa0 else 0x80) (if b0 =? 0xed then 0x9f else 0xbf) b1 &&
                cont b2 && utf8_fuel f s3
            | _ => false
            end
          else if within 0xf0 0xf4 b0 then
            match s1 with
            | b1 :: b2 :: b3 :: s4 =>
                within (if b0 =? 0xf0 then 0x90 else 0x80) (if b0 =? 0xf4 then 0x8f else 0xbf) b1 &&
                cont b2 && cont b3 && utf8_fuel f s4
            | _ => false
            end
          else false
      end
  end.

Definition utf8_valid (s : bytes) : bool := utf8_fuel (S (length s)) s.

(** ** Floats *)

(** [halfFloat]: the binary64 bits the decoder makes of a binary16 value. *)
Definition halfFloat (bits : Z) : Z :=
  let sign := Z.shiftl (Z.land bits 0x8000) 48 in
  let exp := Z.land (Z.shiftr bits 10) 0x1f in
  let frac := Z.land bits 0x03ff in
  if exp =? 0 then
    if frac =? 0 then sign
    else
      let n := Z.log2 frac + 1 in
      Z.lor (Z.lor sign (Z.shiftl (998 + n) 52)) (Z.shiftl (frac - 2 ^ (n - 1)) (11 - n))
  else if exp =? 0x1f then Z.lor (Z.lor sign (Z.shiftl 0x7ff 52)) (Z.shiftl frac 42)
  else Z.lor (Z.lor sign (Z.shiftl (exp - 15 + 1023) 52)) (Z.shiftl frac 42).

(** [float64(math.Float32frombits(bits))]: exact widening; a NaN is made
    quiet. *)
Definition widen32 (bits : Z) : Z :=
  let sign := Z.shiftl (Z.land bits 0x80000000) 32 in
  let exp := Z.land (Z.shiftr bits 23) 0xff in
  let frac := Z.land bits 0x7fffff in
  if exp =? 0 then
    if frac =? 0 then sign
    else
      let n := Z.log2 frac + 1 in
      sign + Z.shiftl (873 + n) 52 + Z.shiftl (frac - 2 ^ (n - 1)) (53 - n)
  else if exp =? 0xff then
    sign + Z.shiftl 0x7ff 52 + (if frac =? 0 then 0 else Z.lor (Z.shiftl frac 29) (2 ^ 51))
  else sign + Z.shiftl (exp - 127 + 1023) 52 + Z.shiftl frac 29.

(** ** Key equality *)

(** The real number a float64 stands for: [m * 2 ^ e]. *)
Inductive num := NaN | Inf (negative : bool) | Fin (m e : Z).

Definition num_of_bits (bits : Z) : num :=
  let s := if Z.testbit bits 63 then -1 else 1 in
  let exp := Z.land (Z.shiftr bits 52) 0x7ff in
  let frac := Z.land bits (2 ^ 52 - 1) in
  if exp =? 0x7ff then if frac =? 0 then Inf (Z.testbit bits 63) else NaN
  else if exp =? 0 then Fin (s * frac) (-1074)
  else Fin (s * (2 ^ 52 + frac)) (exp - 1075).

(** [float64(z)] for an integer: round to 53 bits, ties to even. *)
Definition round53 (z : Z) : Z :=
  let a := Z.abs z in
  if a <? 2 ^ 53 then z
  else
    let k := Z.log2 a - 52 in
    let q := a / 2 ^ k in
    let r := a mod 2 ^ k in
    let q := if (2 ^ (k - 1) <? r) || ((r =? 2 ^ (k - 1)) && Z.odd q) then q + 1 else q in
    Z.sgn z * q * 2 ^ k.

Definition num_eqb (a b : num) : bool :=
  match a, b with
  | Inf x, Inf y => Bool.eqb x y
  | Fin m e, Fin n f =>
      let d := Z.min e f in m * 2 ^ (e - d) =? n * 2 ^ (f - d)
  | _, _ => false
  end.

Definition numericValue (v : cv) : option num :=
  match v with
  | CBool b => Some (Fin (if b then 1 else 0) 0)
  | CInt i | CUint i => Some (Fin (round53 i) 0)
  | CFloat bits => Some (num_of_bits bits)
  | _ => None
  end.

(** [keyEqual]; two [*Map] keys are equal only when they are the same pointer,
    which two decoded keys never are. *)
Definition keyEqual (a b : cv) : bool :=
  match numericValue a, numericValue b with
  | Some x, Some y => num_eqb x y
  | Some _, None | None, Some _ => false
  | None, None =>
      match a, b with
      | CText s, CText t | CBytes s, CBytes t => bytes_eqb s t
      | CArr [], CArr [] => true
      | CNil, CNil => true
      | _, _ => false
      end
  end.

(** ** Ordered maps *)

Fixpoint Get (ps : list (cv * cv)) (key : cv) : option cv :=
  match ps with
  | [] => None
  | (k, v) :: ps' => if keyEqual k key then Some v else Get ps' key
  end.

Fixpoint Set_ (ps : list (cv * cv)) (key val : cv) : list (cv * cv) :=
  match ps with
  | [] => [(key, val)]
  | (k, v) :: ps' => if keyEqual k key then (k, val) :: ps' else (k, v) :: Set_ ps' key val
  end.

Fixpoint Pop (ps : list (cv * cv)) (key : cv) : list (cv * cv) * option cv :=
  match ps with
  | [] => ([], None)
  | (k, v) :: ps' =>
      if keyEqual k key then (ps', Some v)
      else let '(r, x) := Pop ps' key in ((k, v) :: r, x)
  end.

Definition Delete (ps : list (cv * cv)) (key : cv) : list (cv * cv) * bool :=
  let '(r, x) := Pop ps key in (r, match x with Some _ => true | None => false end).

Definition Has (ps : list (cv * cv)) (key : cv) : bool :=
  match Get ps key with Some _ => true | None => false end.

Definition GetInt (ps : list (cv * cv)) (key : Z) : option Z :=
  match Get ps (CInt key) with
  | Some (CBool b) => Some (if b then 1 else 0)
  | Some (CInt n) => Some n
  | Some (CUint n) => if n <=? 2 ^ 63 - 1 then Some n else None
  | _ => None
  end.

Definition GetString (ps : list (cv * cv)) (key : Z) : option bytes :=
  match Get ps (CInt key) with Some (CText s) => Some s | _ => None end.
Definition GetBytes (ps : list (cv * cv)) (key : Z) : option bytes :=
  match Get ps (CInt key) with Some (CBytes s) => Some s | _ => None end.
Definition GetMap (ps : list (cv * cv)) (key : Z) : option (list (cv * cv)) :=
  match Get ps (CInt key) with Some (CMap m) => Some m | _ => None end.
Definition GetBool (ps : list (cv * cv)) (key : Z) : option bool :=
  match Get ps (CInt key) with Some (CBool b) => Some b | _ => None end.

(** ** Decoding *)

Definition maxDecodeDepth : Z := 64.

Definition take_n (r : bytes) (n : Z) : res cbor_err (bytes * bytes) :=
  if (n <? 0) || (zlen r <? n) then Err Truncated
  else Ok (take (Z.to_nat n) r, drop (Z.to_nat n) r).

Definition byte_at (r : bytes) : res cbor_err (Z * bytes) :=
  match r with [] => Err Truncated | b :: r' => Ok (b, r') end.

Definition argOfDirect (info : Z) (r : bytes) : res cbor_err (Z * bytes) :=
  if info <=? 23 then Ok (info, r)
  else if info =? 24 then '(v, r) ← take_n r 1; Ok (be_dec v, r)
  else if info =? 25 then '(v, r) ← take_n r 2; Ok (be_dec v, r)
  else if info =? 26 then '(v, r) ← take_n r 4; Ok (be_dec v, r)
  else if info =? 27 then '(v, r) ← take_n r 8; Ok (be_dec v, r)
  else if info =? 31 then Err Indefinite
  else Err (ReservedInfo info).

Definition uintValue (v : Z) : cv := if v <=? 2 ^ 63 - 1 then CInt v else CUint v.

Definition simpleOf (info : Z) (r : bytes) : res cbor_err (cv * bytes) :=
  if info =? 20 then Ok (CBool false, r)
  else if info =? 21 then Ok (CBool true, r)
  else if info =? 22 then Ok (CNil, r)
  else if info <=? 23 then Err (UnassignedSimple info)
  else if info =? 24 then '(v, r) ← take_n r 1; Err (UnassignedSimple (be_dec v))
  else if info =? 25 then '(v, r) ← take_n r 2; Ok (CFloat (halfFloat (be_dec v)), r)
  else if info =? 26 then '(v, r) ← take_n r 4; Ok (CFloat (widen32 (be_dec v)), r)
  else if info =? 27 then '(v, r) ← take_n r 8; Ok (CFloat (be_dec v), r)
  else if info =? 31 then Err UnexpectedBreak
  else Err (UnsupportedSimple info).

(** The chunks of an indefinite-length string.  [int(n)] of a length above the
    range of [int] is negative, which [take] refuses. *)
Fixpoint chunks_loop (fuel : nat) (major : Z) (acc : bytes) (r : bytes)
    : res cbor_err (bytes * bytes) :=
  match fuel with
  | O => Err OutOfFuel
  | S f =>
      '(b, r) ← byte_at r;
      if b =? 0xff then Ok (acc, r)
      else if negb (Z.shiftr b 5 =? major) then Err MismatchedChunk
      else
        '(n, r) ← argOfDirect (Z.land b 0x1f) r;
        '(c, r) ← take_n r (i64 n);
        chunks_loop f major (acc ++ c) r
  end.

Definition string_value (major : Z) (s : bytes) : cv := if major =? 2 then CBytes s else CText s.

Definition stringOf (major info : Z) (r : bytes) : res cbor_err (cv * bytes) :=
  if info =? 31 then
    '(s, r) ← chunks_loop (S (length r)) major [] r; Ok (string_value major s, r)
  else
    '(n, r) ← argOfDirect info r;
    '(c, r) ← take_n r (i64 n);
    if major =? 2 then Ok (CBytes c, r)
    else if negb (utf8_valid c) then Err BadText
    else Ok (CText c, r).

Section Containers.
Context (value : bytes -> res cbor_err (cv * bytes)).

Fixpoint items_until_break (fuel : nat) (r : bytes) : res cbor_err (list cv * bytes) :=
  match fuel with
  | O => Err OutOfFuel
  | S f =>
      match r with
      | [] => Err Truncated
      | b :: r' =>
          if b =? 0xff then Ok ([], r')
          else '(v, r) ← value r; '(l, r) ← items_until_break f r; Ok (v :: l, r)
      end
  end.

Fixpoint pairs_until_break (fuel : nat) (r : bytes) : res cbor_err (list (cv * cv) * bytes) :=
  match fuel with
  | O => Err OutOfFuel
  | S f =>
      match r with
      | [] => Err Truncated
      | b :: r' =>
          if b =? 0xff then Ok ([], r')
          else
            '(k, r) ← value r; '(v, r) ← value r;
            '(l, r) ← pairs_until_break f r; Ok ((k, v) :: l, r)
      end
  end.

Fixpoint items (n : nat) (r : bytes) : res cbor_err (list cv * bytes) :=
  match n with
  | O => Ok ([], r)
  | S n' => '(v, r) ← value r; '(l, r) ← items n' r; Ok (v :: l, r)
  end.

Fixpoint pairs (n : nat) (r : bytes) : res cbor_err (list (cv * cv) * bytes) :=
  match n with
  | O => Ok ([], r)
  | S n' =>
      '(k, r) ← value r; '(v, r) ← value r; '(l, r) ← pairs n' r; Ok ((k, v) :: l, r)
  end.

(** [m.Set] for each pair, in order. *)
Definition build (ps : list (cv * cv)) : list (cv * cv) :=
  fold_left (fun m p => Set_ m p.1 p.2) ps [].

Definition arrayOf (info : Z) (r : bytes) : res cbor_err (cv * bytes) :=
  if info =? 31 then '(l, r) ← items_until_break (S (length r)) r; Ok (CArr l, r)
  else
    '(n, r) ← argOfDirect info r;
    if zlen r <? n then Err Truncated
    else if 2 ^ 28 <? n then Err Truncated
    else '(l, r) ← items (Z.to_nat n) r; Ok (CArr l, r).

Definition mapOf (info : Z) (r : bytes) : res cbor_err (cv * bytes) :=
  if info =? 31 then '(ps, r) ← pairs_until_break (S (length r)) r; Ok (CMap (build ps), r)
  else
    '(n, r) ← argOfDirect info r;
    if zlen r <? n then Err Truncated
    else if 2 ^ 28 <? n then Err Truncated
    else '(ps, r) ← pairs (Z.to_nat n) r; Ok (CMap (build ps), r).
End Containers.

(** The value under a tag: tags 2 and 3 on a byte string make a big integer,
    every other tag is dropped. *)
Definition tagged (tagNum : Z) (inner : cv) : cv :=
  match inner with
  | CBytes payload => if (tagNum =? 2) || (tagNum =? 3) then CBig (tagNum =? 3) payload else inner
  | _ => inner
  end.

Fixpoint value (fuel : nat) (depth : Z) (r : bytes) : res cbor_err (cv * bytes) :=
  match fuel with
  | O => Err OutOfFuel
  | S fuel' =>
      if maxDecodeDepth <? depth then Err TooDeep
      else
        '(b, r) ← byte_at r;
        let major := Z.shiftr b 5 in
        let info := Z.land b 0x1f in
        if major =? 0 then '(arg, r) ← argOfDirect info r; Ok (uintValue arg, r)
        else if major =? 1 then
          '(arg, r) ← argOfDirect info r;
          if 2 ^ 63 <=? arg then Err NegativeOverflow else Ok (CInt (-1 - arg), r)
        else if (major =? 2) || (major =? 3) then stringOf major info r
        else if major =? 4 then arrayOf (value fuel' (depth + 1)) info r
        else if major =? 5 then mapOf (value fuel' (depth + 1)) info r
        else if major =? 6 then
          if info =? 31 then Err IndefiniteTag
          else
            '(tagNum, r) ← argOfDirect info r;
            '(inner, r) ← value fuel' depth r;
            Ok (tagged tagNum inner, r)
        else simpleOf info r
  end.

Definition Decode (data : bytes) : res cbor_err cv :=
  match data with
  | [] => Err Truncated
  | _ => fst <$> value (S (length data)) 0 data
  end.

(** ** Induction on values *)

Section ValueInd.
Context (P : cv -> Prop).
Context (Hleaf : forall v, match v with CArr _ | CMap _ | CStringMap _ | CAnyMap _ => True | _ => P v end).
Context (Harr : forall l, Forall P l -> P (CArr l)).
Context (Hmap : forall ps, Forall (fun p => P p.1 /\ P p.2) ps -> P (CMap ps)).
Context (Hstr : forall ps, Forall (fun p => P p.2) ps -> P (CStringMap ps)).
Context (Hany : forall ps, Forall (fun p => P p.1 /\ P p.2) ps -> P (CAnyMap ps)).

Fixpoint cv_rect' (v : cv) : P v :=
  let fix go (l : list cv) : Forall P l :=
    match l with
    | [] => @List.Forall_nil _ _
    | x :: l' => @List.Forall_cons _ _ x l' (cv_rect' x) (go l')
    end in
  let fix gop (ps : list (cv * cv)) : Forall (fun p => P p.1 /\ P p.2) ps :=
    match ps with
    | [] => @List.Forall_nil _ _
    | (k, x) :: ps' => @List.Forall_cons _ _ (k, x) ps' (conj (cv_rect' k) (cv_rect' x)) (gop ps')
    end in
  let fix gos (ps : list (bytes * cv)) : Forall (fun p => P p.2) ps :=
    match ps with
    | [] => @List.Forall_nil _ _
    | (k, x) :: ps' => @List.Forall_cons _ _ (k, x) ps' (cv_rect' x) (gos ps')
    end in
  match v with
  | CArr l => Harr l (go l)
  | CMap ps => Hmap ps (gop ps)
  | CStringMap ps => Hstr ps (gos ps)
  | CAnyMap ps => Hany ps (gop ps)
  | v => Hleaf v
  end.
End ValueInd.

(** ** Termination and size of decoding *)

(** The values and payload bytes a decoded value is made of. *)
Fixpoint csize (v : cv) : nat :=
  match v with
  | CText s | CBytes s | CBig _ s => S (length s)
  | CArr l => S (sum_list (map csize l))
  | CMap ps => S (sum_list (map (fun p => csize p.1 + csize p.2)%nat ps))
  | _ => 1%nat
  end.

Definition psize (ps : list (cv * cv)) : nat :=
  sum_list (map (fun p => csize p.1 + csize p.2)%nat ps).

Abbreviation decodes := (decodes_by OutOfFuel).
Abbreviation nothing := (fun _ => 0%nat).

Lemma csize_pos v : (1 <= csize v)%nat.
Proof. destruct v; cbn; lia. Qed.

Lemma decodes_take r n : decodes length 0 r (take_n r n).
Proof.
  unfold take_n. destruct (_ || _); [done|]. exists (take (Z.to_nat n) r).
  rewrite take_drop. split; [done|lia].
Qed.

Lemma decodes_byte r : decodes (fun _ : Z => 1%nat) 0 r (byte_at r).
Proof. destruct r as [|b r]; [done|]. exists [b]. cbn. split; [done|lia]. Qed.

Lemma decodes_arg info r : decodes nothing 0 r (argOfDirect info r).
Proof.
  unfold argOfDirect. destruct (_ <=? _); [by apply decodes_ret|].
  repeat (destruct (_ =? _);
    [first [done | eapply decodes_mono; [|eapply (decodes_bind _ length nothing 0 0);
       [apply decodes_take|]]; [lia|]; intros v r' _; apply decodes_ret; cbn; lia]|]).
  done.
Qed.

Lemma decodes_simple info r : decodes csize 1 r (simpleOf info r).
Proof.
  unfold simpleOf.
  repeat match goal with |- context [if ?c then _ else _] => destruct c end;
    try done; try (apply decodes_ret; cbn; lia);
    (eapply (decodes_bind _ length csize 0 1); [apply decodes_take|]);
    intros v r' _; first [done | apply decodes_ret; cbn; lia].
Qed.

Lemma decodes_chunks fuel major acc r :
  (length r < fuel)%nat -> decodes length (length acc) r (chunks_loop fuel major acc r).
Proof.
  induction fuel as [|fuel IH] in acc, r |- *; intros Hf; [lia|]. cbn [chunks_loop].
  eapply (decodes_bind_lt _ (fun _ => 1%nat) _ 0 (length acc)); [apply decodes_byte|]. intros b r1 H1 Hl1.
  destruct (b =? 0xff); [apply decodes_ret; lia|]. destruct (negb _); [done|].
  eapply decodes_mono; [|eapply (decodes_bind _ nothing length 0 (length acc)); [apply decodes_arg|]];
    [lia|].
  intros n r2 H2.
  eapply decodes_mono; [|eapply (decodes_bind _ length length 0 (length acc)); [apply decodes_take|]];
    [lia|].
  intros c r3 H3. rewrite <- length_app. apply IH. lia.
Qed.

Lemma decodes_string major info r : decodes csize 1 r (stringOf major info r).
Proof.
  unfold stringOf. destruct (info =? 31).
  - eapply (decodes_bind _ length csize 0 1); [apply (decodes_chunks _ _ []); lia|].
    intros s r' _. apply decodes_ret. unfold string_value. destruct (major =? 2); cbn; lia.
  - eapply (decodes_bind _ nothing csize 0 1); [apply decodes_arg|]. intros n r1 _.
    eapply (decodes_bind _ length csize 0 1); [apply decodes_take|]. intros c r2 _.
    destruct (major =? 2); [apply decodes_ret; cbn; lia|].
    destruct (negb _); [done|]. apply decodes_ret. cbn. lia.
Qed.

Section ContainerSizes.
Context (val : bytes -> res cbor_err (cv * bytes)) (n0 : nat).
Context (Hval : forall r, (length r <= n0)%nat -> decodes csize 0 r (val r)).

Lemma decodes_items n r :
  (length r <= n0)%nat -> decodes (fun l => sum_list (map csize l)) 0 r (items val n r).
Proof.
  induction n as [|n IH] in r |- *; intros Hr; [by apply decodes_ret|]. cbn [items].
  eapply (decodes_bind _ csize _ 0 0); [by apply Hval|]. intros v r1 H1.
  eapply decodes_mono; [|eapply (decodes_bind _ _ _ 0 (csize v)); [apply IH; lia|]]; [lia|].
  intros l r2 H2. apply decodes_ret. cbn. lia.
Qed.

Lemma decodes_items_break fuel r :
  (length r <= n0)%nat -> (length r < fuel)%nat ->
  decodes (fun l => sum_list (map csize l)) 0 r (items_until_break val fuel r).
Proof.
  induction fuel as [|fuel IH] in r |- *; intros Hr Hf; [lia|]. cbn [items_until_break].
  destruct r as [|b r]; [done|]. destruct (b =? 0xff).
  { exists [b]. cbn. split; [done|lia]. }
  eapply (decodes_bind_lt _ csize _ 0 0); [by apply Hval|]. intros v r1 H1 Hl.
  pose proof (csize_pos v).
  eapply decodes_mono; [|eapply (decodes_bind _ _ _ 0 (csize v)); [apply IH; lia|]]; [lia|].
  intros l r2 H2. apply decodes_ret. cbn. lia.
Qed.

Lemma decodes_pairs n r : (length r <= n0)%nat -> decodes psize 0 r (pairs val n r).
Proof.
  induction n as [|n IH] in r |- *; intros Hr; [by apply decodes_ret|]. cbn [pairs].
  eapply (decodes_bind _ csize _ 0 0); [by apply Hval|]. intros k r1 H1.
  eapply decodes_mono; [|eapply (decodes_bind _ csize _ 0 (csize k)); [apply Hval; lia|]]; [lia|].
  intros v r2 H2.
  eapply decodes_mono; [|eapply (decodes_bind _ psize _ 0 (csize k + csize v)); [apply IH; lia|]]; [lia|].
  intros l r3 H3. apply decodes_ret. unfold psize. cbn. lia.
Qed.

Lemma decodes_pairs_break fuel r :
  (length r <= n0)%nat -> (length r < fuel)%nat -> decodes psize 0 r (pairs_until_break val fuel r).
Proof.
  induction fuel as [|fuel IH] in r |- *; intros Hr Hf; [lia|]. cbn [pairs_until_break].
  destruct r as [|b r]; [done|]. destruct (b =? 0xff).
  { exists [b]. cbn. split; [done|lia]. }
  eapply (decodes_bind_lt _ csize _ 0 0); [by apply Hval|]. intros k r1 H1 Hl.
  pose proof (csize_pos k).
  eapply decodes_mono; [|eapply (decodes_bind _ csize _ 0 (csize k)); [apply Hval; lia|]]; [lia|].
  intros v r2 H2.
  eapply decodes_mono; [|eapply (decodes_bind _ psize _ 0 (csize k + csize v)); [apply IH; lia|]]; [lia|].
  intros l r3 H3. apply decodes_ret. unfold psize. cbn. lia.
Qed.

Lemma Set_size ps k v : (psize (Set_ ps k v) <= psize ps + csize k + csize v)%nat.
Proof.
  unfold psize. induction ps as [|[k' v'] ps IH]; cbn; [lia|]. destruct (keyEqual k' k); cbn; lia.
Qed.

Lemma build_size ps m : (psize (fold_left (fun m p => Set_ m p.1 p.2) ps m) <= psize m + psize ps)%nat.
Proof.
  induction ps as [|[k v] ps IH] in m |- *; cbn [fold_left]; [lia|]. etrans; [apply IH|].
  pose proof (Set_size m k v). unfold psize in *. cbn in *. lia.
Qed.

Lemma decodes_arrayOf info r : (length r <= n0)%nat -> decodes csize 1 r (arrayOf val info r).
Proof.
  intros Hr. unfold arrayOf. destruct (info =? 31).
  - eapply (decodes_bind _ _ _ 0 1); [apply decodes_items_break; lia|]. intros l r' _.
    apply decodes_ret. cbn. lia.
  - eapply (decodes_bind _ nothing _ 0 1); [apply decodes_arg|]. intros n r1 H1.
    destruct (_ <? _); [done|]. destruct (_ <? _); [done|].
    eapply (decodes_bind _ _ _ 0 1); [apply decodes_items; lia|]. intros l r' _.
    apply decodes_ret. cbn. lia.
Qed.

Lemma decodes_mapOf info r : (length r <= n0)%nat -> decodes csize 1 r (mapOf val info r).
Proof.
  intros Hr. unfold mapOf.
  assert (forall ps, csize (CMap (build ps)) <= 1 + psize ps)%nat as Hb.
  { intros ps. pose proof (build_size ps []). unfold build, psize in *. cbn in *. lia. }
  destruct (info =? 31).
  - eapply (decodes_bind _ _ _ 0 1); [apply decodes_pairs_break; lia|]. intros l r' _.
    apply decodes_ret. apply Hb.
  - eapply (decodes_bind _ nothing _ 0 1); [apply decodes_arg|]. intros n r1 H1.
    destruct (_ <? _); [done|]. destruct (_ <? _); [done|].
    eapply (decodes_bind _ _ _ 0 1); [apply decodes_pairs; lia|]. intros l r' _.
    apply decodes_ret. apply Hb.
Qed.
End ContainerSizes.

Lemma tagged_size t v : csize (tagged t v) = csize v.
Proof. destruct v; cbn; try done. by destruct (_ || _). Qed.

Lemma value_decodes fuel depth r :
  (length r < fuel)%nat -> decodes csize 0 r (value fuel depth r).
Proof.
  induction fuel as [|fuel IH] in depth, r |- *; intros Hf; [lia|]. cbn [value].
  destruct (_ <? _); [done|]. destruct r as [|b r]; [done|]. cbn [byte_at mbind res_bind]. cbn in Hf.
  assert (Hv : forall d r', (length r' <= length r)%nat -> decodes csize 0 r' (value fuel d r'))
    by (intros d r' Hr'; apply IH; lia).
  assert (forall x, decodes csize 1 r x -> decodes csize 0 (b :: r) x) as Hcons.
  { intros [[v r']| |]; cbn; [|done..]. intros (c & -> & Hs). exists (b :: c). split; [done|cbn; lia]. }
  apply Hcons. clear Hcons. cbv zeta.
  destruct (_ =? 0).
  { eapply (decodes_bind _ nothing csize 0 1); [apply decodes_arg|]. intros n r1 _.
    apply decodes_ret. unfold uintValue. destruct (_ <=? _); cbn; lia. }
  destruct (_ =? 1).
  { eapply (decodes_bind _ nothing csize 0 1); [apply decodes_arg|]. intros n r1 _.
    destruct (_ <=? _); [done|]. apply decodes_ret. cbn. lia. }
  destruct (_ || _); [apply decodes_string|].
  destruct (_ =? 4); [eapply decodes_arrayOf; [apply Hv|lia]|].
  destruct (_ =? 5); [eapply decodes_mapOf; [apply Hv|lia]|].
  destruct (_ =? 6); [|apply decodes_simple].
  destruct (_ =? 31); [done|].
  eapply (decodes_bind _ nothing csize 0 1); [apply decodes_arg|]. intros t r1 H1.
  eapply decodes_mono; [|eapply (decodes_bind _ csize csize 0 0); [apply Hv; lia|]]; [lia|].
  intros v r2 _. apply decodes_ret. rewrite tagged_size. lia.
Qed.

(** Decoding terminates on every input, with a value or an error, and the
    values and payload bytes of the result are bounded by the input's length,
    whatever lengths it declares. *)
Theorem Decode_total_bounded data :
  match Decode data with
  | Ok v => (csize v <= length data)%nat
  | Err e => e <> OutOfFuel
  | Panic => False
  end.
Proof.
  unfold Decode. destruct data as [|b data]; [done|].
  pose proof (value_decodes (S (length (b :: data))) 0 (b :: data) ltac:(lia)) as Hd.
  destruct (value _ _ _) as [[v r]|e|]; cbn in *; [|done..].
  destruct Hd as (c & E & Hs). apply (f_equal length) in E. rewrite length_app in E. cbn in E. lia.
Qed.

(** ** Round trip *)

Lemma head_byte m i :
  (0 <= m < 8)%Z -> (0 <= i < 32)%Z ->
  Z.shiftr (Z.lor (Z.shiftl m 5) i) 5 = m /\ Z.land (Z.lor (Z.shiftl m 5) i) 0x1f = i.
Proof. intros Hm Hi. enumerate Hm; enumerate Hi; done. Qed.

Lemma take_n_app c r : take_n (c ++ r) (zlen c) = Ok (c, r).
Proof.
  unfold take_n. pose proof (zlen_nonneg c). pose proof (zlen_nonneg r).
  rewrite (proj2 (Z.ltb_ge _ _)), (proj2 (Z.ltb_ge _ _)) by (rewrite ?zlen_app; lia).
  unfold zlen. by rewrite Nat2Z.id, take_app_length, drop_app_length.
Qed.

Lemma arg_be n k info v r :
  (info, Z.of_nat n) = k -> k ∈ [(24, 1); (25, 2); (26, 4); (27, 8)] ->
  (0 <= v < 256 ^ Z.of_nat n)%Z -> argOfDirect info (be_enc n v ++ r) = Ok (v, r).
Proof.
  intros <- Hk Hv.
  assert (take_n (be_enc n v ++ r) (Z.of_nat n) = Ok (be_enc n v, r)) as Ht.
  { rewrite <- (be_enc_length n v) at 2. apply take_n_app. }
  rewrite !elem_of_cons in Hk.
  destruct Hk as [[= -> E]|[[= -> E]|[[= -> E]|[[= -> E]|[]%elem_of_nil]]]];
    rewrite E in Ht; cbn [argOfDirect Z.leb Z.eqb Z.compare Pos.compare Pos.compare_cont Pos.eqb];
    unfold argOfDirect; cbn -[take_n be_enc]; rewrite Ht; cbn; by rewrite be_dec_enc_small.
Qed.

(** Reading back a head: its first byte carries the major type and an info
    from which the argument is read. *)
Lemma read_head major val r :
  (0 <= major < 8)%Z -> (0 <= val < 2 ^ 64)%Z ->
  exists b info tail, appendHead major val ++ r = b :: tail /\ Z.shiftr b 5 = major /\
    Z.land b 0x1f = info /\ (info < 31)%Z /\ argOfDirect info tail = Ok (val, r).
Proof.
  intros Hm Hv. unfold appendHead.
  assert (forall i, 0 <= i < 31 -> forall t,
    argOfDirect i t = Ok (val, r) ->
    exists b info tail, Z.lor (Z.shiftl major 5) i :: t = b :: tail /\ Z.shiftr b 5 = major /\
      Z.land b 0x1f = info /\ (info < 31)%Z /\ argOfDirect info tail = Ok (val, r))%Z as Hgo.
  { intros i Hi t Ht. destruct (head_byte major i Hm ltac:(lia)) as [E1 E2].
    eexists _, i, t. split_and!; [done|done|done|lia|done]. }
  destruct (Z.leb_spec val 23).
  { cbn [app]. unfold u8. rewrite Z.mod_small by lia. apply Hgo; [lia|].
    unfold argOfDirect. by rewrite (proj2 (Z.leb_le _ _)). }
  destruct (Z.leb_spec val 0xff).
  { cbn [app]. apply Hgo; [lia|]. change (u8 val :: r) with ([u8 val] ++ r).
    assert (be_enc 1 val = [u8 val]) as <- by (cbn; by rewrite Z.shiftr_0_r).
    eapply (arg_be 1); [done|set_solver|cbn; lia]. }
  destruct (Z.leb_spec val 0xffff).
  { cbn [app]. apply Hgo; [lia|]. eapply (arg_be 2); [done|set_solver|cbn; lia]. }
  destruct (Z.leb_spec val 0xffffffff).
  { cbn [app]. apply Hgo; [lia|]. eapply (arg_be 4); [done|set_solver|cbn; lia]. }
  cbn [app]. apply Hgo; [lia|]. eapply (arg_be 8); [done|set_solver|cbn; lia].
Qed.

Section Heads.
Context (fuel : nat) (depth : Z) (Hd : (depth <= maxDecodeDepth)%Z).

(** One unfolding of [value] on a head of each major type. *)
Lemma value_head major val r :
  (0 <= major < 7)%Z -> (0 <= val < 2 ^ 64)%Z ->
  value (S fuel) depth (appendHead major val ++ r) =
    if major =? 0 then Ok (uintValue val, r)
    else if major =? 1 then if 2 ^ 63 <=? val then Err NegativeOverflow else Ok (CInt (-1 - val), r)
    else if (major =? 2) || (major =? 3) then
      '(c, r) ← take_n r (i64 val);
      if major =? 2 then Ok (CBytes c, r)
      else if negb (utf8_valid c) then Err BadText else Ok (CText c, r)
    else if major =? 4 then
      if zlen r <? val then Err Truncated else if 2 ^ 28 <? val then Err Truncated
      else '(l, r) ← items (value fuel (depth + 1)) (Z.to_nat val) r; Ok (CArr l, r)
    else if major =? 5 then
      if zlen r <? val then Err Truncated else if 2 ^ 28 <? val then Err Truncated
      else '(ps, r) ← pairs (value fuel (depth + 1)) (Z.to_nat val) r; Ok (CMap (build ps), r)
    else '(inner, r) ← value fuel depth r; Ok (tagged val inner, r).
Proof.
  intros Hm Hv. destruct (read_head major val r ltac:(lia) Hv) as (b & info & tail & -> & E1 & E2 & Hi & Ha).
  cbn [value]. rewrite (proj2 (Z.ltb_ge _ _) Hd). cbn [byte_at mbind res_bind]. cbv zeta.
  rewrite E1, E2. unfold stringOf, arrayOf, mapOf.
  rewrite (proj2 (Z.eqb_neq info 31)) by lia. rewrite Ha. cbn [mbind res_bind].
  assert (major = 0 \/ major = 1 \/ major = 2 \/ major = 3 \/ major = 4 \/ major = 5 \/ major = 6)%Z
    as [->|[->|[->|[->|[->|[->| ->]]]]]] by lia; done.
Qed.
End Heads.

(** Values the encoder writes and the decoder accepts with [d] more levels of
    nesting. *)
Inductive encodable : nat -> cv -> Prop :=
  | en_nil d : encodable d CNil
  | en_bool d b : encodable d (CBool b)
  | en_int d i : (- 2 ^ 63 <= i < 2 ^ 63)%Z -> encodable d (CInt i)
  | en_uint d i : (0 <= i < 2 ^ 64)%Z -> encodable d (CUint i)
  | en_float d bits : (0 <= bits < 2 ^ 64)%Z -> encodable d (CFloat bits)
  | en_text d s : utf8_valid s = true -> (zlen s < 2 ^ 63)%Z -> encodable d (CText s)
  | en_bytes d s : (zlen s < 2 ^ 63)%Z -> encodable d (CBytes s)
  | en_big d neg mag : bytes_ok mag -> (zlen mag < 2 ^ 63)%Z -> encodable d (CBig neg mag)
  | en_arr d l : (zlen l <= 2 ^ 28)%Z -> Forall (encodable d) l -> encodable (S d) (CArr l)
  | en_map d ps :
      (zlen ps <= 2 ^ 28)%Z -> Forall (fun p => encodable d p.1 /\ encodable d p.2) ps ->
      encodable (S d) (CMap ps).

(** What an encoded value decodes to: integers in their smallest Go type, maps
    with Python key equality applied. *)
Definition decoded_big (negative : bool) (mag : bytes) : cv :=
  let m := trimMagnitude mag in
  let n := be_dec m in
  if (length m <=? 8)%nat then
    if negative then if n <=? 2 ^ 63 - 1 then CInt (-1 - n) else CBig negative m else uintValue n
  else CBig negative m.

Fixpoint decoded (v : cv) : cv :=
  match v with
  | CUint i => uintValue i
  | CBig negative mag => decoded_big negative mag
  | CArr l => CArr (map decoded l)
  | CMap ps => CMap (build (map (fun p => (decoded p.1, decoded p.2)) ps))
  | _ => v
  end.

Definition roundtrips (d : nat) (v : cv) : Prop :=
  exists b, Encode v = Ok b /\ b <> [] /\
    forall rest fuel depth, (length b <= fuel)%nat -> (depth + Z.of_nat d <= maxDecodeDepth)%Z ->
      value fuel depth (b ++ rest) = Ok (decoded v, rest).

Lemma appendHead_nonempty major val : appendHead major val <> [].
Proof. unfold appendHead. cbv zeta. repeat case_match; done. Qed.

Lemma i64_small n : (0 <= n < 2 ^ 63)%Z -> i64 n = n.
Proof. intros Hn. unfold i64, u64, signed. rewrite Z.mod_small by lia. zcase. Qed.

Lemma value_uint n rest fuel depth :
  (0 <= n < 2 ^ 64)%Z -> (1 <= fuel)%nat -> (depth <= maxDecodeDepth)%Z ->
  value fuel depth (appendUint n ++ rest) = Ok (uintValue n, rest).
Proof.
  intros Hn Hf Hd. destruct fuel as [|fuel]; [lia|]. unfold appendUint. by rewrite value_head by (done || lia).
Qed.

Lemma value_int i rest fuel depth :
  (- 2 ^ 63 <= i < 2 ^ 63)%Z -> (1 <= fuel)%nat -> (depth <= maxDecodeDepth)%Z ->
  value fuel depth (appendInt i ++ rest) = Ok (CInt i, rest).
Proof.
  intros Hi Hf Hd. destruct fuel as [|fuel]; [lia|]. unfold appendInt.
  destruct (Z.leb_spec 0 i); rewrite value_head by (done || lia); cbn [Z.eqb].
  - unfold uintValue. by rewrite (proj2 (Z.leb_le _ _)) by lia.
  - change (1 =? 0)%Z with false. change (1 =? 1)%Z with true. cbn iota.
    rewrite (proj2 (Z.leb_gt _ _)) by lia. do 3 f_equal. lia.
Qed.

Lemma value_bytes s rest fuel depth :
  (zlen s < 2 ^ 63)%Z -> (1 <= fuel)%nat -> (depth <= maxDecodeDepth)%Z ->
  value fuel depth (appendByteString s ++ rest) = Ok (CBytes s, rest).
Proof.
  intros Hs Hf Hd. destruct fuel as [|fuel]; [lia|]. unfold appendByteString. rewrite <- app_assoc.
  pose proof (zlen_nonneg s). rewrite value_head by (done || lia). cbn -[take_n i64].
  rewrite i64_small by lia. by rewrite take_n_app.
Qed.

Lemma trim_suffix b : exists p, b = p ++ trimMagnitude b.
Proof.
  induction b as [|x b IH]; [by exists []|]. cbn [trimMagnitude].
  destruct x, b; try (by exists []). destruct IH as [p E]. exists (0 :: p). cbn [app]. by rewrite <- E.
Qed.

Lemma big_roundtrips d neg mag :
  bytes_ok mag -> (zlen mag < 2 ^ 63)%Z -> roundtrips d (CBig neg mag).
Proof.
  intros Hb Hl. unfold roundtrips, Encode. cbn [appendValue decoded]. eexists. split; [done|].
  destruct (trim_suffix mag) as [p Ep]. set (m := trimMagnitude mag) in *.
  assert (bytes_ok m) as Hm by (rewrite Ep in Hb; by apply bytes_ok_app_inv in Hb as [_ ?]).
  assert (zlen m <= zlen mag)%Z as Hlm by (rewrite Ep, zlen_app; pose proof (zlen_nonneg p); lia).
  unfold encodeBigUint, decoded_big. cbv zeta. fold m.
  set (wide := appendHead 6 (if neg then 3 else 2) ++ appendByteString m).
  assert (wide <> [] /\ forall rest fuel depth, (length wide <= fuel)%nat ->
    (depth + Z.of_nat d <= maxDecodeDepth)%Z ->
    value fuel depth (wide ++ rest) = Ok (CBig neg m, rest)) as [Hw0 Hw].
  { split; [by destruct neg|]. intros rest fuel depth Hf Hd. unfold wide in *. rewrite <- app_assoc.
    assert (2 <= fuel)%nat.
    { rewrite length_app in Hf. unfold appendByteString in Hf. rewrite length_app in Hf.
      assert (length (appendHead 6 (if neg then 3 else 2)) = 1%nat) by (by destruct neg).
      destruct (appendHead 2 (zlen m)) eqn:E; [by apply appendHead_nonempty in E|]. cbn in Hf. lia. }
    destruct fuel as [|fuel]; [lia|]. rewrite value_head by (destruct neg; lia).
    cbn -[value appendByteString]. rewrite value_bytes by lia. by destruct neg. }
  destruct (Nat.leb_spec (length m) 8) as [H8|H8]; [|done].
  unfold AsUint64. rewrite (proj2 (Nat.ltb_ge _ _)) by lia.
  assert (0 <= be_dec m < 2 ^ 64)%Z as Hn.
  { pose proof (be_dec_bound m Hm) as B. assert (256 ^ zlen m <= 256 ^ 8)%Z; [|lia].
    apply Z.pow_le_mono_r; [lia|]. unfold zlen. lia. }
  assert (forall x : bytes, x <> [] -> forall fuel, (length x <= fuel)%nat -> (1 <= fuel)%nat) as Hfu.
  { intros [|? ?] Hx fuel Hf; [done|]. cbn in Hf. lia. }
  destruct neg; [destruct (Z.leb_spec (be_dec m) (2 ^ 63 - 1)); [|done]|].
  - assert (appendInt (-1 - be_dec m) <> []) as Hne
      by (unfold appendInt; case_match; apply appendHead_nonempty).
    split; [done|]. intros rest fuel depth Hf Hd. apply value_int; [lia|by eapply Hfu|lia].
  - split; [apply appendHead_nonempty|]. intros rest fuel depth Hf Hd.
    apply value_uint; [lia| |lia]. eapply Hfu; [apply appendHead_nonempty|exact Hf].
Qed.

(** The encodings of a list of values that round trip. *)
Lemma cat_items d l :
  Forall (roundtrips d) l ->
  exists bs, cat (map appendValue l) = Ok (concat bs) /\ length bs = length l /\
    Forall (fun b => b <> []) bs /\
    forall rest fuel depth, (length (concat bs) <= fuel)%nat ->
      (depth + Z.of_nat d <= maxDecodeDepth)%Z ->
      items (value fuel depth) (length l) (concat bs ++ rest) = Ok (map decoded l, rest).
Proof.
  induction 1 as [|v l (b & Hb & Hne & Hr) Hl (bs & Hc & Hlen & Hf & Hi)].
  { exists []. split_and!; [done|done|constructor|done]. }
  exists (b :: bs). cbn [map cat]. unfold Encode in Hb. rewrite Hb. cbn [mbind res_bind]. rewrite Hc.
  split_and!; [done|cbn; lia|by constructor|].
  intros rest fuel depth Hfu Hd. cbn [concat length items] in *. rewrite length_app in Hfu.
  rewrite <- app_assoc, Hr by lia. cbn [mbind res_bind]. by rewrite Hi by lia.
Qed.

Lemma cat_pairs d ps :
  Forall (fun p => roundtrips d p.1 /\ roundtrips d p.2) ps ->
  exists bs, cat (map (fun p => k ← appendValue p.1; x ← appendValue p.2; Ok (k ++ x)) ps) =
      Ok (concat bs) /\ length bs = length ps /\ Forall (fun b => b <> []) bs /\
    forall rest fuel depth, (length (concat bs) <= fuel)%nat ->
      (depth + Z.of_nat d <= maxDecodeDepth)%Z ->
      pairs (value fuel depth) (length ps) (concat bs ++ rest) =
        Ok (map (fun p => (decoded p.1, decoded p.2)) ps, rest).
Proof.
  induction 1 as [|[k v] ps [(bk & Hk & Hnk & Rk) (bv & Hv & _ & Rv)] Hl (bs & Hc & Hlen & Hf & Hi)].
  { exists []. split_and!; [done|done|constructor|done]. }
  cbn [fst snd] in *. unfold Encode in Hk, Hv. exists ((bk ++ bv) :: bs). cbn [map cat fst snd].
  rewrite Hk, Hv. cbn [mbind res_bind]. rewrite Hc. split_and!; [done|cbn; lia| |].
  { constructor; [by destruct bk|done]. }
  intros rest fuel depth Hfu Hd. cbn [concat length pairs] in *. rewrite !length_app in Hfu.
  rewrite <- !app_assoc, Rk by lia. cbn [mbind res_bind]. rewrite Rv by lia. cbn [mbind res_bind].
  by rewrite Hi by lia.
Qed.

Lemma concat_nonempty_length (bs : list bytes) :
  Forall (fun b => b <> []) bs -> (length bs <= length (concat bs))%nat.
Proof.
  induction 1 as [|b bs Hb Hbs IH]; cbn; [lia|]. rewrite length_app. destruct b; [done|]. cbn. lia.
Qed.

Lemma container_guards (bs : list bytes) {A} (l : list A) rest :
  length bs = length l -> Forall (fun b => b <> []) bs -> (zlen l <= 2 ^ 28)%Z ->
  (zlen (concat bs ++ rest) <? zlen l = false)%Z /\ (2 ^ 28 <? zlen l = false)%Z.
Proof.
  intros Hl Hf Hz. apply concat_nonempty_length in Hf. split; apply Z.ltb_ge; [|done].
  rewrite zlen_app. pose proof (zlen_nonneg rest). unfold zlen in *. lia.
Qed.

Lemma encodable_roundtrips v : forall d, encodable d v -> roundtrips d v.
Proof.
  pattern v; apply cv_rect'; clear v;
    [intros v|intros l IH|intros ps IH|intros ps IH|intros ps IH].
  - assert (forall (x : bytes) v' d, v' = v -> Encode v' = Ok x -> x <> [] ->
      (forall rest fuel depth, (1 <= fuel)%nat -> (depth <= maxDecodeDepth)%Z ->
         value fuel depth (x ++ rest) = Ok (decoded v', rest)) -> roundtrips d v) as Hgo.
    { intros x v' d -> He Hx Hr. exists x. split_and!; [done..|]. intros rest fuel depth Hf Hd.
      apply Hr; [|lia]. destruct x; [done|]. cbn in Hf. lia. }
    destruct v; try done; intros d He; inversion He; subst.
    + eapply Hgo; [done|done|done|]. intros rest [|fuel] depth Hf Hd; [lia|].
      cbn. by rewrite (proj2 (Z.ltb_ge _ _) Hd).
    + eapply Hgo; [done|done|done|]. intros rest [|fuel] depth Hf Hd; [lia|].
      destruct b; cbn; by rewrite (proj2 (Z.ltb_ge _ _) Hd).
    + eapply Hgo; [done|done| |].
      { unfold appendInt. case_match; apply appendHead_nonempty. }
      intros rest fuel depth Hf Hd. by apply value_int.
    + eapply Hgo; [done|done|apply appendHead_nonempty|].
      intros rest fuel depth Hf Hd. by apply value_uint.
    + eapply Hgo; [done|done|done|]. intros rest [|fuel] depth Hf Hd; [lia|].
      pose proof (take_n_app (be_enc 8 bits) rest) as Ht. unfold zlen in Ht.
      rewrite be_enc_length in Ht. change (Z.of_nat 8) with 8%Z in Ht.
      cbn -[take_n be_enc maxDecodeDepth]. rewrite (proj2 (Z.ltb_ge _ _) Hd).
      change (Z.shiftr 251 5) with 7%Z. change (Z.land 251 31) with 27%Z.
      cbn -[take_n be_enc]. rewrite Ht. cbn [mbind res_bind fst].
      by rewrite be_dec_enc_small by (cbn; lia).
    + eapply Hgo; [done|done| |].
      { unfold appendText. destruct (appendHead 3 (zlen s)) eqn:E; [by apply appendHead_nonempty in E|done]. }
      intros rest [|fuel] depth Hf Hd; [lia|]. unfold appendText. rewrite <- app_assoc.
      pose proof (zlen_nonneg s). rewrite value_head by (done || lia). cbn -[take_n i64 utf8_valid].
      rewrite i64_small by lia. rewrite take_n_app. cbn [mbind res_bind].
      match goal with E : utf8_valid s = true |- _ => by rewrite E end.
    + eapply Hgo; [done|done| |].
      { unfold appendByteString. destruct (appendHead 2 (zlen s)) eqn:E; [by apply appendHead_nonempty in E|done]. }
      intros rest fuel depth Hf Hd. by apply value_bytes.
    + by apply big_roundtrips.
  - intros d He. inversion He as [| | | | | | | |d' l' Hl Hf|]; subst.
    destruct (cat_items d' l) as (bs & Hc & Hlen & Hne & Hi).
    { eapply Forall_mp; [|exact Hf]. eapply Forall_impl; [exact IH|]. cbn. auto. }
    exists (appendHead 4 (zlen l) ++ concat bs). unfold Encode. cbn [appendValue]. rewrite Hc.
    split; [done|]. pose proof (appendHead_nonempty 4 (zlen l)) as Hh.
    split; [by destruct (appendHead 4 (zlen l))|].
    intros rest fuel depth Hfu Hd. rewrite length_app in Hfu.
    destruct (appendHead 4 (zlen l)) eqn:Eh; [done|]. cbn in Hfu. destruct fuel as [|fuel]; [lia|].
    rewrite <- Eh, <- app_assoc. pose proof (zlen_nonneg l).
    destruct (container_guards bs l rest Hlen Hne Hl) as [G1 G2].
    rewrite value_head by lia. cbn -[items value zlen]. rewrite G1, G2.
    unfold zlen. rewrite Nat2Z.id, Hi by lia. done.
  - intros d He. inversion He as [| | | | | | | | |d' ps' Hl Hf]; subst.
    destruct (cat_pairs d' ps) as (bs & Hc & Hlen & Hne & Hi).
    { eapply Forall_mp; [|exact Hf]. eapply Forall_impl; [exact IH|]. cbn. intuition. }
    exists (appendHead 5 (zlen ps) ++ concat bs). unfold Encode. cbn [appendValue]. rewrite Hc.
    split; [done|]. pose proof (appendHead_nonempty 5 (zlen ps)) as Hh.
    split; [by destruct (appendHead 5 (zlen ps))|].
    intros rest fuel depth Hfu Hd. rewrite length_app in Hfu.
    destruct (appendHead 5 (zlen ps)) eqn:Eh; [done|]. cbn in Hfu. destruct fuel as [|fuel]; [lia|].
    rewrite <- Eh, <- app_assoc. pose proof (zlen_nonneg ps).
    destruct (container_guards bs ps rest Hlen Hne Hl) as [G1 G2].
    rewrite value_head by lia. cbn -[pairs value zlen build]. rewrite G1, G2.
    unfold zlen. rewrite Nat2Z.id, Hi by lia. done.
  - intros d He. inversion He.
  - intros d He. inversion He.
Qed.

(** What the encoder writes, the decoder reads back, up to the nesting
    limit: integers of every width in their canonical type, strings, floats
    bit for bit, big integers in their shortest form, arrays and maps in
    order. *)
Theorem Encode_Decode v rest :
  encodable (Z.to_nat maxDecodeDepth) v ->
  exists b, Encode v = Ok b /\ Decode (b ++ rest) = Ok (decoded v).
Proof.
  intros (b & Hb & Hne & Hr)%encodable_roundtrips. exists b. split; [done|].
  unfold Decode. destruct (b ++ rest) as [|x data] eqn:E; [by destruct b|].
  rewrite <- E. rewrite Hr; [done| |done]. rewrite E, <- E, length_app. lia.
Qed.

(** ** Key equality is an equivalence *)

Lemma num_eqb_fin m e n f K :
  (0 <= e + K)%Z -> (0 <= f + K)%Z ->
  num_eqb (Fin m e) (Fin n f) = true <-> (m * 2 ^ (e + K) = n * 2 ^ (f + K))%Z.
Proof.
  intros He Hf. cbn [num_eqb]. set (d := Z.min e f). rewrite Z.eqb_eq.
  replace (e + K)%Z with ((e - d) + (d + K))%Z by lia.
  replace (f + K)%Z with ((f - d) + (d + K))%Z by lia.
  rewrite (Z.pow_add_r 2 (e - d)), (Z.pow_add_r 2 (f - d)), !Z.mul_assoc by lia.
  assert (0 < 2 ^ (d + K))%Z by (apply Z.pow_pos_nonneg; lia). split; [intros E; by rewrite E|].
  apply Z.mul_reg_r. lia.
Qed.

Lemma num_eqb_sym a b : num_eqb a b = num_eqb b a.
Proof.
  destruct a as [|x|m e], b as [|y|n f]; try done; cbn.
  - by destruct x, y.
  - rewrite (Z.min_comm f e). apply Z.eqb_sym.
Qed.

Lemma num_eqb_trans a b c : num_eqb a b = true -> num_eqb b c = true -> num_eqb a c = true.
Proof.
  destruct a as [|x|m e], b as [|y|n f], c as [|z|p g]; try done.
  - by destruct x, y, z.
  - set (K := (Z.abs e + Z.abs f + Z.abs g)%Z).
    rewrite (num_eqb_fin m e n f K), (num_eqb_fin n f p g K), (num_eqb_fin m e p g K) by lia.
    congruence.
Qed.

Lemma bytes_eqb_sym s t : bytes_eqb s t = bytes_eqb t s.
Proof. unfold bytes_eqb. apply bool_decide_ext. split; congruence. Qed.

Lemma keyEqual_sym a b : keyEqual a b = keyEqual b a.
Proof.
  unfold keyEqual. destruct (numericValue a), (numericValue b); try done; [apply num_eqb_sym|].
  destruct a as [| | | | | | |[] | | | | |], b as [| | | | | | |[] | | | | |]; try done; apply bytes_eqb_sym.
Qed.

Lemma keyEqual_trans a b c : keyEqual a b = true -> keyEqual b c = true -> keyEqual a c = true.
Proof.
  unfold keyEqual.
  destruct (numericValue a), (numericValue b), (numericValue c); try done; [apply num_eqb_trans|].
  destruct a as [| | | | | | |[] | | | | |], b as [| | | | | | |[] | | | | |]; try done;
    destruct c as [| | | | | | |[] | | | | |]; try done; rewrite !bytes_eqb_eq; congruence.
Qed.

(** Keys that differ from [k] do not see what happens to [k]. *)
Lemma keyEqual_false k k' k0 :
  keyEqual k k' = false -> keyEqual k0 k = true -> keyEqual k0 k' = false.
Proof.
  intros H1 H2. destruct (keyEqual k0 k') eqn:E; [|done].
  rewrite keyEqual_sym in H2. by rewrite (keyEqual_trans k k0 k' H2 E) in H1.
Qed.

(** A map without two equal keys. *)
Fixpoint distinct (ps : list (cv * cv)) : Prop :=
  match ps with
  | [] => True
  | (k, _) :: ps' => Get ps' k = None /\ distinct ps'
  end.

Lemma Get_congr ps k k' : keyEqual k k' = true -> Get ps k = Get ps k'.
Proof.
  intros H. induction ps as [|[k0 v] ps IH]; cbn; [done|]. rewrite IH.
  destruct (keyEqual k0 k) eqn:E1, (keyEqual k0 k') eqn:E2; try done; exfalso.
  - by rewrite (keyEqual_trans _ _ _ E1 H) in E2.
  - rewrite keyEqual_sym in H. by rewrite (keyEqual_trans _ _ _ E2 H) in E1.
Qed.

Lemma Get_Set ps k v k' :
  keyEqual k k = true ->
  Get (Set_ ps k v) k' = if keyEqual k k' then Some v else Get ps k'.
Proof.
  intros Hr. induction ps as [|[k0 v0] ps IH]; cbn; [done|].
  destruct (keyEqual k0 k) eqn:E; cbn.
  - destruct (keyEqual k k') eqn:Ek.
    + by rewrite (keyEqual_trans _ _ _ E Ek).
    + by rewrite (keyEqual_false k k' k0 Ek E).
  - rewrite IH. destruct (keyEqual k k') eqn:Ek; [|done].
    destruct (keyEqual k0 k') eqn:E0; [|done]. rewrite keyEqual_sym in Ek.
    by rewrite (keyEqual_trans _ _ _ E0 Ek) in E.
Qed.

Lemma distinct_Set ps k v : keyEqual k k = true -> distinct ps -> distinct (Set_ ps k v).
Proof.
  intros Hr. induction ps as [|[k0 v0] ps IH]; cbn; [done|]. intros [H0 Hd].
  destruct (keyEqual k0 k) eqn:E; cbn; [done|]. split; [|by apply IH].
  rewrite Get_Set by done. by rewrite keyEqual_sym, E.
Qed.

Lemma Pop_spec ps k :
  distinct ps ->
  (Pop ps k).2 = Get ps k /\ distinct (Pop ps k).1 /\
  forall k', Get (Pop ps k).1 k' = if keyEqual k k' then None else Get ps k'.
Proof.
  induction ps as [|[k0 v0] ps IH]; cbn; [intros _; split_and!; try done; intros k'; by destruct (keyEqual k k')|].
  intros [H0 Hd]. destruct (keyEqual k0 k) eqn:E; cbn.
  - split_and!; [done|done|]. intros k'. destruct (keyEqual k k') eqn:Ek.
    + rewrite <- (Get_congr ps k k' Ek), <- (Get_congr ps k0 k E). done.
    + by rewrite (keyEqual_false k k' k0 Ek E).
  - destruct (IH Hd) as (H1 & H2 & H3). destruct (Pop ps k) as [r x]. cbn in *.
    split_and!; [done| |done|].
    + rewrite H3. rewrite keyEqual_sym, E. done.
    + intros k'. rewrite H3. destruct (keyEqual k k') eqn:Ek; [|done].
      destruct (keyEqual k0 k') eqn:E0; [|done]. rewrite keyEqual_sym in Ek.
      by rewrite (keyEqual_trans _ _ _ E0 Ek) in E.
Qed.

(** The ordered map is a dictionary under Python key equality (where
    [true], 1 and 1.0 are one key): a set is seen by every equal key and by no
    other, keeps the position and spelling of an existing key, and keeps the
    keys distinct; removal takes exactly the entry of the key. *)
Theorem Map_dictionary ps k v k' :
  distinct ps -> keyEqual k k = true ->
  Get (Set_ ps k v) k' = (if keyEqual k k' then Some v else Get ps k') /\
  map fst (Set_ ps k v) = (if Has ps k then map fst ps else map fst ps ++ [k]) /\
  distinct (Set_ ps k v) /\
  (Pop ps k).2 = Get ps k /\ distinct (Pop ps k).1 /\
  Get (Pop ps k).1 k' = (if keyEqual k k' then None else Get ps k').
Proof.
  intros Hd Hr. destruct (Pop_spec ps k Hd) as (H1 & H2 & H3).
  split_and!; [by apply Get_Set| |by apply distinct_Set|done|done|apply H3].
  clear. unfold Has. induction ps as [|[k0 v0] ps IH]; cbn; [done|].
  destruct (keyEqual k0 k); [done|]. cbn. rewrite IH. by destruct (Get ps k).
Qed.

(** ** Half-precision floats *)

(** The number a binary16 pattern stands for. *)
Definition half_num (bits : Z) : num :=
  let s := if Z.testbit bits 15 then -1 else 1 in
  let exp := Z.land (Z.shiftr bits 10) 0x1f in
  let frac := Z.land bits 0x3ff in
  if exp =? 0x1f then if frac =? 0 then Inf (Z.testbit bits 15) else NaN
  else if exp =? 0 then Fin (s * frac) (-24)
  else Fin (s * (1024 + frac)) (exp - 25).

(** A subnormal binary16 whose fraction has more than one bit set. *)
Definition half_mangled (bits : Z) : bool :=
  let frac := Z.land bits 0x3ff in
  (Z.land (Z.shiftr bits 10) 0x1f =? 0) && negb (frac =? 0) && negb (frac =? 2 ^ Z.log2 frac).

(** Reading the three fields of a binary64 back. *)
Definition of_fields (s e m : Z) : Z := s * 2 ^ 63 + e * 2 ^ 52 + m.

Lemma num_of_fields s e m :
  (0 <= s < 2)%Z -> (0 <= e < 2 ^ 11)%Z -> (0 <= m < 2 ^ 52)%Z ->
  num_of_bits (of_fields s e m) =
    if e =? 0x7ff then if m =? 0 then Inf (s =? 1) else NaN
    else if e =? 0 then Fin ((if s =? 1 then -1 else 1) * m) (-1074)
    else Fin ((if s =? 1 then -1 else 1) * (2 ^ 52 + m)) (e - 1075).
Proof.
  intros Hs He Hm. unfold num_of_bits, of_fields.
  assert (Z.testbit (s * 2 ^ 63 + e * 2 ^ 52 + m) 63 = (s =? 1)) as ->.
  { apply eq_true_iff_eq. rewrite Z.testbit_true, Z.eqb_eq by lia.
    replace ((s * 2 ^ 63 + e * 2 ^ 52 + m) / 2 ^ 63) with s by (apply Z.div_unique_pos with (e * 2 ^ 52 + m); lia).
    by rewrite Z.mod_small. }
  assert (Z.land (Z.shiftr (s * 2 ^ 63 + e * 2 ^ 52 + m) 52) 0x7ff = e) as ->.
  { rewrite Z.shiftr_div_pow2 by done. rewrite (Z.land_ones _ 11) by done.
    symmetry. apply Z.mod_unique_pos with s; [lia|].
    symmetry. apply Z.div_unique_pos with m; lia. }
  rewrite (Z.land_ones _ 52) by done.
  replace ((s * 2 ^ 63 + e * 2 ^ 52 + m) mod 2 ^ 52) with m
    by (apply Z.mod_unique_pos with (s * 2 ^ 11 + e); lia). done.
Qed.

Lemma lor_fields s e m :
  (0 <= s < 2)%Z -> (0 <= e < 2 ^ 11)%Z -> (0 <= m < 2 ^ 52)%Z ->
  Z.lor (Z.lor (s * 2 ^ 63) (Z.shiftl e 52)) m = of_fields s e m.
Proof.
  intros Hs He Hm. rewrite <- Z.shiftl_mul_pow2 by done. rewrite <- Z.lor_assoc.
  rewrite (shift_or e m 52), shift_or by lia. unfold of_fields. lia.
Qed.

(** The significand of a normalised subnormal, where the fraction is given its
    place as the code does. *)
Lemma subnormal_fraction frac :
  (0 < frac < 2 ^ 10)%Z ->
  let n := Z.log2 frac + 1 in
  let m := Z.shiftl (frac - 2 ^ (n - 1)) (11 - n) in
  (1 <= n <= 10)%Z /\ (0 <= m < 2 ^ 52)%Z /\
  ((2 ^ 52 + m) * 2 ^ (n - 1) = frac * 2 ^ 52 <-> frac = 2 ^ Z.log2 frac)%Z.
Proof.
  intros Hf n m.
  destruct (Z.log2_spec frac ltac:(lia)) as [L1 L2].
  assert (Z.log2 frac < 10)%Z by (apply Z.log2_lt_pow2; lia). pose proof (Z.log2_nonneg frac).
  assert (m = (frac - 2 ^ Z.log2 frac) * 2 ^ (10 - Z.log2 frac))%Z as ->.
  { unfold m, n. rewrite Z.shiftl_mul_pow2 by lia. f_equal; [|f_equal; lia].
    f_equal. f_equal. lia. }
  unfold n. replace (Z.log2 frac + 1 - 1)%Z with (Z.log2 frac) by lia.
  set (k := Z.log2 frac) in *. assert (2 ^ k * 2 ^ (10 - k) = 1024)%Z as E.
  { rewrite <- Z.pow_add_r by lia. by replace (k + (10 - k))%Z with 10%Z by lia. }
  replace (k + 1)%Z with (Z.succ k) in * by lia. rewrite Z.pow_succ_r in L2 by lia.
  assert (0 < 2 ^ (10 - k))%Z by (apply Z.pow_pos_nonneg; lia).
  split_and!; [lia|lia|nia|nia|]. split; intros; nia.
Qed.

Lemma half_sign bits :
  (0 <= bits < 2 ^ 16)%Z ->
  exists s, (0 <= s < 2)%Z /\ Z.testbit bits 15 = (s =? 1) /\ Z.shiftl (Z.land bits 0x8000) 48 = (s * 2 ^ 63)%Z.
Proof.
  intros Hb. exists (bits / 2 ^ 15)%Z.
  assert (0 <= bits / 2 ^ 15 < 2)%Z as Hs by (split; [apply Z.div_pos|apply Z.div_lt_upper_bound]; lia).
  split; [done|]. split.
  - apply eq_true_iff_eq. rewrite Z.testbit_true, Z.eqb_eq, Z.mod_small by lia. done.
  - rewrite Z.shiftl_mul_pow2 by done. change (2 ^ 63)%Z with (2 ^ 15 * 2 ^ 48)%Z. rewrite Z.mul_assoc. f_equal.
    rewrite <- Z.shiftr_div_pow2, <- Z.shiftl_mul_pow2 by done.
    apply Z.bits_inj'. intros i Hi. rewrite Z.land_spec, Z.shiftl_spec by done.
    rewrite (Z.pow2_bits_eqb 15) by done. destruct (Z.eqb_spec 15 i) as [<-|Hne].
    + rewrite Z.shiftr_spec, andb_true_r by done. done.
    + rewrite andb_false_r. destruct (Z.lt_ge_cases i 15); [by rewrite Z.testbit_neg_r by lia|].
      rewrite Z.shiftr_spec by lia. symmetry. destruct (Z.eq_dec bits 0) as [->|]; [apply Z.bits_0|].
      apply Z.bits_above_log2; [lia|]. assert (Z.log2 bits < 16)%Z by (apply Z.log2_lt_pow2; lia). lia.
Qed.

(** A half-precision float is widened exactly, infinities and NaNs
    included, except for the subnormals whose fraction has more than one bit
    set: for those the fraction is shifted as if the result had ten fraction
    bits, and the decoded number is wrong. *)
Theorem halfFloat_exact_iff bits :
  (0 <= bits < 2 ^ 16)%Z ->
  match half_num bits with
  | NaN => num_of_bits (halfFloat bits) = NaN
  | n => num_eqb (num_of_bits (halfFloat bits)) n = negb (half_mangled bits)
  end.
Proof.
  intros Hb. unfold half_num, half_mangled, halfFloat.
  set (exp := Z.land (Z.shiftr bits 10) 0x1f). set (frac := Z.land bits 0x3ff).
  assert (0 <= exp < 32)%Z as He.
  { unfold exp. change 0x1f with (Z.ones 5). rewrite Z.land_ones by done. apply Z.mod_pos_bound. done. }
  assert (0 <= frac < 2 ^ 10)%Z as Hf.
  { unfold frac. change 0x3ff with (Z.ones 10). rewrite Z.land_ones by done. apply Z.mod_pos_bound. done. }
  destruct (half_sign bits Hb) as (s & Hs & -> & ->). clearbody exp frac. clear Hb bits.
  assert (0 <= Z.shiftl frac 42 < 2 ^ 52)%Z as Hm by (rewrite Z.shiftl_mul_pow2 by done; lia).
  destruct (Z.eqb_spec exp 31) as [->|H31]; [|destruct (Z.eqb_spec exp 0) as [->|H0]]; cbn [Z.eqb Pos.eqb].
  - rewrite lor_fields, num_of_fields by lia. rewrite Z.shiftl_mul_pow2 by done.
    destruct (Z.eqb_spec frac 0) as [->|]; cbn -[Z.pow]; [by destruct (s =? 1)|].
    rewrite (proj2 (Z.eqb_neq _ 0)) by lia. done.
  - destruct (Z.eqb_spec frac 0) as [->|Hz].
    { assert (s = 0 \/ s = 1)%Z as [-> | ->] by lia; vm_compute; reflexivity. }
    destruct (subnormal_fraction frac ltac:(lia)) as (Hn & Hmm & Hiff). cbv zeta in Hn, Hmm, Hiff.
    rewrite lor_fields, num_of_fields by lia.
    rewrite !(proj2 (Z.eqb_neq (998 + _) _)) by lia. cbn [andb negb].
    apply eq_true_iff_eq. rewrite (num_eqb_fin _ _ _ _ 76) by lia.
    rewrite negb_true_iff, negb_false_iff, Z.eqb_eq, <- Hiff.
    replace (998 + (Z.log2 frac + 1) - 1075 + 76)%Z with (Z.log2 frac + 1 - 1)%Z by lia.
    change (-24 + 76)%Z with 52%Z. destruct (s =? 1); nia.
  - rewrite lor_fields, num_of_fields by lia. rewrite Z.shiftl_mul_pow2 by done.
    rewrite !(proj2 (Z.eqb_neq (exp - 15 + 1023) _)) by lia. cbn [andb negb].
    apply (num_eqb_fin _ _ _ _ 67); [lia|lia|].
    replace (exp - 25 + 67)%Z with (42 + exp)%Z by lia.
    replace (exp - 15 + 1023 - 1075 + 67)%Z with exp by lia.
    rewrite Z.pow_add_r by lia. destruct (s =? 1); lia.
Qed.

(** ** Nesting and text *)

Lemma value_nested k fuel depth x r :
  (k < fuel)%nat -> (maxDecodeDepth < depth + Z.of_nat k)%Z ->
  value fuel depth (replicate k 0x81 ++ x :: r) = Err TooDeep.
Proof.
  induction k as [|k IH] in fuel, depth |- *; intros Hf Hd; (destruct fuel as [|fuel]; [lia|]); cbn [value].
  { rewrite (proj2 (Z.ltb_lt _ _)) by lia. done. }
  destruct (Z.ltb_spec maxDecodeDepth depth); [done|]. cbn [replicate app byte_at mbind res_bind].
  change (Z.shiftr 0x81 5) with 4%Z. change (Z.land 0x81 0x1f) with 1%Z. cbv zeta.
  unfold arrayOf. cbn -[value items zlen Z.ltb replicate app].
  rewrite (proj2 (Z.ltb_ge _ _)) by (rewrite zlen_app, zlen_cons; pose proof (zlen_nonneg r);
    pose proof (zlen_nonneg (replicate k 0x81)); lia).
  change (2 ^ 28 <? 1)%Z with false. change (Z.to_nat 1) with 1%nat. cbv iota. cbn [items].
  rewrite IH by lia. done.
Qed.

Lemma value_tags n fuel depth :
  (n < fuel)%nat -> (depth <= maxDecodeDepth)%Z ->
  value fuel depth (replicate n 0xc0 ++ [0]) = Ok (CInt 0, []).
Proof.
  induction n as [|n IH] in fuel |- *; intros Hf Hd; (destruct fuel as [|fuel]; [lia|]); cbn [value];
    rewrite (proj2 (Z.ltb_ge _ _)) by done; [done|]. cbn [replicate app byte_at mbind res_bind].
  change (Z.shiftr 0xc0 5) with 6%Z. change (Z.land 0xc0 0x1f) with 0%Z. cbv zeta.
  cbn -[value replicate app]. rewrite IH by (done || lia). done.
Qed.

(** The nesting limit holds for arrays (and maps) but not for tags: input
    nested deeper than 64 arrays is refused, while any number of nested tags is
    followed, one level of recursion for each. *)
Theorem nesting_limit_misses_tags k x r :
  Decode (replicate (65 + k) 0x81 ++ x :: r) = Err TooDeep /\
  Decode (replicate k 0xc0 ++ [0]) = Ok (CInt 0).
Proof.
  split.
  - unfold Decode. change (replicate (65 + k) 0x81 ++ x :: r) with
      (0x81 :: replicate (64 + k) 0x81 ++ x :: r) at 1. cbv iota.
    rewrite value_nested; [done| |unfold maxDecodeDepth; lia].
    rewrite length_app, length_replicate. lia.
  - unfold Decode. destruct (replicate k 0xc0 ++ [0]) eqn:E; [by destruct k|].
    rewrite <- E, value_tags; [done| |done]. rewrite length_app, length_replicate. lia.
Qed.

(** Text is checked to be UTF-8 only in its definite-length form: the
    same bytes as one chunk of an indefinite-length text string are accepted
    whatever they are. *)
Theorem indefinite_text_unchecked s :
  (zlen s < 2 ^ 63)%Z ->
  Decode (appendText s) = (if utf8_valid s then Ok (CText s) else Err BadText) /\
  Decode (0x7f :: appendText s ++ [0xff]) = Ok (CText s).
Proof.
  intros Hs. pose proof (zlen_nonneg s) as Hz. split.
  - unfold Decode, appendText. pose proof (appendHead_nonempty 3 (zlen s)) as Hne.
    destruct (appendHead 3 (zlen s) ++ s) as [|b data] eqn:E; [by destruct (appendHead 3 (zlen s))|].
    rewrite <- E. rewrite value_head by (unfold maxDecodeDepth; lia). cbn -[take_n i64 utf8_valid].
    rewrite i64_small by lia. pose proof (take_n_app s []) as Ht. rewrite app_nil_r in Ht.
    rewrite Ht. cbn [mbind res_bind]. by destruct (utf8_valid s).
  - unfold Decode. cbn [value]. change (maxDecodeDepth <? 0)%Z with false.
    cbn [byte_at mbind res_bind]. change (Z.shiftr 0x7f 5) with 3%Z. change (Z.land 0x7f 0x1f) with 31%Z.
    cbv zeta. cbn -[chunks_loop]. unfold appendText.
    destruct (read_head 3 (zlen s) (s ++ [0xff])) as (b & info & tail & E1 & E2 & E3 & Hi & Ha); [lia|lia|].
    rewrite <- app_assoc, E1. cbn [length]. cbn [chunks_loop]. cbn [byte_at mbind res_bind].
    assert ((b =? 0xff)%Z = false) as ->.
    { apply Z.eqb_neq. intros ->. done. }
    rewrite E2, E3. cbn [negb Z.eqb Pos.eqb]. rewrite Ha. cbn [mbind res_bind].
    rewrite i64_small, take_n_app by lia. done.
Qed.

(** The number a negative big integer stands for is [-1 - n]; its rendering is
    off by two. *)
Lemma BigString_negative mag : BigString true mag = (-1 - be_dec mag + 2)%Z.
Proof. unfold BigString. lia. Qed.

(** ** Instances *)

(** A message of the kind the chat protocol sends: an ordered map with integer
    keys, a negative number, text, bytes and a nested array. *)
Definition sample_message : cv :=
  CMap [(CInt 0, CInt 1); (CInt 1, CInt (-300)); (CInt 2, CText [104; 105]);
        (CInt 3, CArr [CBytes [1; 2]; CBool true; CNil; CUint (2 ^ 63)])].

Lemma Encode_Decode_witness :
  exists b, Encode sample_message = Ok b /\ Decode (b ++ [7]) = Ok (decoded sample_message).
Proof.
  apply Encode_Decode. unfold sample_message. change (Z.to_nat maxDecodeDepth) with 64%nat.
  repeat first [progress cbn [fst snd] | lia | (vm_compute; discriminate) | (vm_compute; reflexivity) | constructor].
Defined.

Lemma Map_dictionary_witness :
  Get (Set_ [(CInt 1, CText [97]); (CText [98], CNil)] (CBool true) (CInt 9)) (CFloat 0x3ff0000000000000)
    = Some (CInt 9) /\
  map fst (Set_ [(CInt 1, CText [97]); (CText [98], CNil)] (CBool true) (CInt 9)) = [CInt 1; CText [98]].
Proof.
  destruct (Map_dictionary [(CInt 1, CText [97]); (CText [98], CNil)] (CBool true) (CInt 9)
    (CFloat 0x3ff0000000000000)) as (H1 & H2 & _).
  - vm_compute. repeat split; reflexivity.
  - vm_compute. reflexivity.
  - split; [rewrite H1|rewrite H2]; vm_compute; reflexivity.
Defined.

Lemma halfFloat_exact_iff_witness :
  num_eqb (num_of_bits (halfFloat 3)) (half_num 3) = false /\
  num_eqb (num_of_bits (halfFloat 0x3c00)) (half_num 0x3c00) = true.
Proof.
  split; [apply (halfFloat_exact_iff 3)|apply (halfFloat_exact_iff 0x3c00)]; lia.
Defined.

Lemma indefinite_text_unchecked_witness :
  Decode (appendText [0xff; 0xfe]) = Err BadText /\
  Decode (0x7f :: appendText [0xff; 0xfe] ++ [0xff]) = Ok (CText [0xff; 0xfe]).
Proof. apply (indefinite_text_unchecked [0xff; 0xfe]). vm_compute. reflexivity. Defined.
