(* ===== verification/Clock.v ===== *)
(** * Time

    What the links and resources use of Go's [time] package.  A [time.Time] is
    a [Z] of nanoseconds since the zero time (year 1), so that [IsZero] is a
    comparison with 0; a [time.Duration] is a [Z] in the int64 range;
    differences of instants saturate as [Time.Sub] does.  Also the float
    conversions of [math] and the language. *)

From stdpp Require Import base tactics.
From Stdlib Require Import ZArith Lia PrimFloat FloatOps FloatAxioms SpecFloat Uint63.
From S2P Require Import Prelude.
Local Open Scope Z_scope.

Definition Second : Z := 10 ^ 9.
Definition Millisecond : Z := 10 ^ 6.
Definition maxDuration : Z := 2 ^ 63 - 1.
Definition minDuration : Z := - 2 ^ 63.

Definition IsZero (t : Z) : bool := t =? 0.
Definition Before (t u : Z) : bool := t <? u.
Definition After (t u : Z) : bool := u <? t.
Definition Add (t d : Z) : Z := t + d.
Definition Sub (t u : Z) : Z := Z.max minDuration (Z.min maxDuration (t - u)).

(** [float64(z)] for an int64. *)
Definition float_of_Z (z : Z) : float :=
  if z <? 0 then PrimFloat.opp (PrimFloat.of_uint63 (Uint63.of_Z (- z)))
  else PrimFloat.of_uint63 (Uint63.of_Z z).

(** [time.Duration(f)]: truncation towards zero.  Values outside the int64
    range, infinities and NaN give the smallest int64, as the conversion
    instruction of amd64 does. *)
Definition Duration_of_float (f : float) : Z :=
  match Prim2SF f with
  | S754_zero _ => 0
  | S754_finite s m e =>
      let a := Z.shiftl (Z.pos m) e in
      let v := if s then - a else a in
      if (minDuration <=? v) && (v <=? maxDuration) then v else minDuration
  | _ => minDuration
  end.

(** [Duration.Seconds]. *)
Definition Seconds (d : Z) : float :=
  let sec := Z.quot d Second in
  let nsec := Z.rem d Second in
  (float_of_Z sec + float_of_Z nsec / 1e9)%float.

(** [time.Duration(x * float64(time.Second))]. *)
Definition seconds_to_Duration (x : float) : Z := Duration_of_float (x * 1e9)%float.

Lemma Sub_range t u : minDuration <= Sub t u <= maxDuration.
Proof. unfold Sub, minDuration, maxDuration. lia. Qed.

(** A saturated difference has the sign of the difference. *)
Lemma Sub_pos t u : (0 <? Sub t u) = Before u t.
Proof. unfold Sub, Before, minDuration, maxDuration. zcase. Qed.

Lemma Duration_of_float_range f : minDuration <= Duration_of_float f <= maxDuration.
Proof.
  unfold Duration_of_float, minDuration, maxDuration. destruct (Prim2SF f); try lia.
  case_match eqn:E; [|lia]. apply andb_true_iff in E as [E1%Z.leb_le E2%Z.leb_le]. lia.
Qed.

(** ** Floats *)

(** [math.Float64bits], with the canonical NaN. *)
Definition float_bits (f : float) : Z :=
  let sign (s : bool) := if s then 2 ^ 63 else 0 in
  u64 match Prim2SF f with
      | S754_zero s => sign s
      | S754_infinity s => sign s + 0x7FF * 2 ^ 52
      | S754_nan => 0x7FF * 2 ^ 52 + 2 ^ 51 + 1
      | S754_finite s m e =>
          if Z.pos m <? 2 ^ 52 then sign s + Z.pos m
          else sign s + (e + 1075) * 2 ^ 52 + (Z.pos m - 2 ^ 52)
      end.

(** The float with a sign bit, [ew] exponent bits and [mw] fraction bits. *)
Definition float_of_fields (ew mw bits : Z) : float :=
  let s := Z.testbit bits (ew + mw) in
  let e := Z.land (Z.shiftr bits mw) (2 ^ ew - 1) in
  let m := Z.land bits (2 ^ mw - 1) in
  let bias := 2 ^ (ew - 1) - 1 in
  SF2Prim
    (if e =? 2 ^ ew - 1 then if m =? 0 then S754_infinity s else S754_nan
     else if e =? 0 then
       match m with Z.pos p => S754_finite s p (1 - bias - mw) | _ => S754_zero s end
     else match m + 2 ^ mw with Z.pos p => S754_finite s p (e - bias - mw) | _ => S754_zero s end).

(** [math.Float64frombits], and the widened [math.Float32frombits]: a
    float32 is scaled by multiplication with a power of two, which is exact. *)
Definition float_of_bits64 (bits : Z) : float := float_of_fields 11 52 bits.
Definition float_of_bits32 (bits : Z) : float :=
  let s := if Z.testbit bits 31 then (-1)%float else 1%float in
  let e := Z.land (Z.shiftr bits 23) 0xFF in
  let m := Z.land bits (2 ^ 23 - 1) in
  if e =? 0xFF then if m =? 0 then (s * infinity)%float else nan
  else
    let m := if e =? 0 then m else m + 2 ^ 23 in
    (s * Z.ldexp (float_of_Z m) (Z.max e 1 - 150))%float.

(** [float64(n)] for a uint64: rounding with a sticky bit above 2^63. *)
Definition float_of_uint64 (n : Z) : float :=
  if n <? 2 ^ 63 then float_of_Z n else (2 * float_of_Z (Z.lor (n / 2) (n mod 2)))%float.

(** [math.Max]. *)
Definition MathMax (x y : float) : float :=
  if PrimFloat.eqb x infinity || PrimFloat.eqb y infinity then infinity
  else if PrimFloat.is_nan x || PrimFloat.is_nan y then nan
  else if PrimFloat.is_zero x && PrimFloat.is_zero y then if PrimFloat.get_sign x then y else x
  else if PrimFloat.ltb y x then x else y.

Lemma float_bits_range f : 0 <= float_bits f < 2 ^ 64.
Proof. unfold float_bits, u64. apply Z.mod_pos_bound. done. Qed.

Lemma digits2_bounds m : 2 ^ (Z.pos (digits2_pos m) - 1) <= Z.pos m < 2 ^ Z.pos (digits2_pos m).
Proof.
  assert (digits2_pos m = Pos.size m) as -> by (induction m as [m IH|m IH|]; cbn; [by rewrite IH..|done]).
  pose proof (Pos.size_gt m). pose proof (Pos.size_le m).
  assert (2 ^ Z.pos (Pos.size m) <= 2 * Z.pos m) as H1 by (rewrite <- Pos2Z.inj_pow; lia).
  assert (Z.pos m < 2 ^ Z.pos (Pos.size m)) as H2 by (rewrite <- Pos2Z.inj_pow; lia).
  replace (Z.pos (Pos.size m)) with (1 + (Z.pos (Pos.size m) - 1)) in H1 by lia.
  rewrite Z.pow_add_r in H1 by lia. lia.
Qed.

(** The mantissas and exponents of finite floats. *)
Lemma finite_bounds f s m e :
  Prim2SF f = S754_finite s m e ->
  (Z.pos m < 2 ^ 52 /\ e = -1074) \/ (2 ^ 52 <= Z.pos m < 2 ^ 53 /\ -1074 <= e <= 971).
Proof.
  intros E. pose proof (Prim2SF_valid f) as Hv. rewrite E in Hv.
  cbn [SpecFloat.valid_binary] in Hv. unfold bounded in Hv.
  apply andb_true_iff in Hv as [H1 H2%Z.leb_le].
  unfold canonical_mantissa in H1. apply Z.eqb_eq in H1.
  unfold fexp, SpecFloat.emin, prec, emax in *.
  pose proof (digits2_bounds m) as Hd. set (d := Z.pos (digits2_pos m)) in *.
  destruct (Z.le_gt_cases d 52) as [Hs|Hs].
  - left. assert (2 ^ d <= 2 ^ 52) by (apply Z.pow_le_mono_r; lia). lia.
  - right. assert (d = 53) as E53 by lia. rewrite E53 in Hd. change (53 - 1) with 52 in Hd. lia.
Qed.

Lemma fields_split s e m :
  0 <= e < 2 ^ 11 -> 0 <= m < 2 ^ 52 ->
  let bits := (if s : bool then 2 ^ 63 else 0) + e * 2 ^ 52 + m in
  u64 bits = bits /\ Z.testbit bits 63 = s /\ Z.land (Z.shiftr bits 52) (2 ^ 11 - 1) = e /\
  Z.land bits (2 ^ 52 - 1) = m.
Proof.
  intros He Hm bits.
  assert (0 <= bits < 2 ^ 64) as Hb by (subst bits; destruct s; lia).
  split_and!.
  - unfold u64. by apply Z.mod_small.
  - rewrite Z.testbit_eqb by lia.
    assert (bits / 2 ^ 63 = if s then 1 else 0) as ->.
    { symmetry. apply (Z.div_unique_pos _ _ _ (e * 2 ^ 52 + m)); subst bits; destruct s; lia. }
    by destruct s.
  - change (2 ^ 11 - 1) with (Z.ones 11). rewrite Z.land_ones, Z.shiftr_div_pow2 by lia.
    assert (bits / 2 ^ 52 = (if s then 2 ^ 11 else 0) + e) as ->.
    { symmetry. apply (Z.div_unique_pos _ _ _ m); subst bits; destruct s; lia. }
    symmetry. apply (Z.mod_unique_pos _ _ (if s then 1 else 0)); destruct s; lia.
  - change (2 ^ 52 - 1) with (Z.ones 52). rewrite Z.land_ones by lia.
    symmetry. apply (Z.mod_unique_pos _ _ ((if s then 2 ^ 11 else 0) + e)); subst bits; destruct s; lia.
Qed.

(** [math.Float64frombits(math.Float64bits(f))] is [f]. *)
Lemma float_bits_roundtrip f : float_of_bits64 (float_bits f) = f.
Proof.
  transitivity (SF2Prim (Prim2SF f)); [|apply SF2Prim_Prim2SF].
  unfold float_bits, float_of_bits64, float_of_fields. f_equal. cbv zeta.
  change (11 + 52) with 63.
  destruct (Prim2SF f) as [s|s| |s m e] eqn:E.
  - by destruct s.
  - by destruct s.
  - done.
  - apply finite_bounds in E as [[Hm ->]|[Hm He]].
    + rewrite (proj2 (Z.ltb_lt _ _)) by lia.
      destruct (fields_split s 0 (Z.pos m)) as (H1 & H2 & H3 & H4); [lia..|].
      rewrite Z.mul_0_l, Z.add_0_r in *. rewrite H1, H2, H3, H4. done.
    + rewrite (proj2 (Z.ltb_ge _ _)) by lia.
      destruct (fields_split s (e + 1075) (Z.pos m - 2 ^ 52)) as (H1 & H2 & H3 & H4); [lia..|].
      rewrite H1, H2, H3, H4. rewrite (proj2 (Z.eqb_neq _ _)), (proj2 (Z.eqb_neq _ _)) by lia.
      replace (Z.pos m - 2 ^ 52 + 2 ^ 52) with (Z.pos m) by lia. f_equal. lia.
Qed.

Lemma SFcompare_Lt_Gt x y : SFcompare x y = Some Lt -> SFcompare y x = Some Gt.
Proof.
  destruct x as [[]|[]| |[] mx ex], y as [[]|[]| |[] my ey]; cbn [SFcompare]; try done;
    rewrite (Z.compare_antisym ex ey), <- (Pos.compare_cont_antisym mx my Eq : _ = Pos.compare_cont Eq my mx);
    destruct (ex ?= ey), (Pos.compare_cont Eq mx my); done.
Qed.

(** An instant before another is not after it. *)
Lemma float_ltb_leb x y : PrimFloat.ltb x y = true -> PrimFloat.leb y x = false.
Proof.
  rewrite FloatAxioms.ltb_spec, FloatAxioms.leb_spec. unfold SFltb, SFleb.
  destruct (SFcompare (Prim2SF x) (Prim2SF y)) as [[]|] eqn:E; try done. by rewrite (SFcompare_Lt_Gt _ _ E).
Qed.

Lemma float_ltb_asym x y : PrimFloat.ltb x y = true -> PrimFloat.ltb y x = false.
Proof.
  rewrite !FloatAxioms.ltb_spec. unfold SFltb.
  destruct (SFcompare (Prim2SF x) (Prim2SF y)) as [[]|] eqn:E; try done. by rewrite (SFcompare_Lt_Gt _ _ E).
Qed.
