(* ===== verification/Resource.v ===== *)
(** * Resources

    Models [rns/resource.go]: advertisements, the sending side (segmentation,
    part requests, hashmap updates, proof validation), the receiving side
    (acceptance, part requests, part reception, assembly) and the watchdog.

    A resource is the record of its fields.  The link it belongs to is a
    [LinkView] (what resources read of a [*Link]); the packets an operation
    sends, the goroutines it spawns and the callbacks it runs are its events,
    in order.  [send] says which packets the link accepts during one call, and
    [now] is the clock during it.  [nextSegment] is never assigned in the
    repository, so it is left out. *)

From stdpp Require Import base tactics option list.
From Stdlib Require Import ZArith Lia PrimFloat.
From S2P Require Import Prelude Clock Crypto Packet Channel Buffer Msgpack.
Local Open Scope Z_scope.
Local Open Scope go_scope.

(** ** Constants *)

Definition ResourceMapHashLen : Z := 4.
Definition ResourceRandomHashSize : Z := 4.
Definition ResourceAutoCompressMaxSize : Z := 64 * 1024 * 1024.
Definition ResourceMaxParts : Z := 10000000.

Definition ResourceStatusNone : Z := 0x00.
Definition ResourceStatusQueued : Z := 0x01.
Definition ResourceStatusAdvertised : Z := 0x02.
Definition ResourceStatusTransferring : Z := 0x03.
Definition ResourceStatusAwaitingProof : Z := 0x04.
Definition ResourceStatusAssembling : Z := 0x05.
Definition ResourceStatusComplete : Z := 0x06.
Definition ResourceStatusFailed : Z := 0x07.
Definition ResourceStatusCorrupt : Z := 0x08.
Definition ResourceStatusRejected : Z := 0x09.

Definition ResourceProcessingGrace : float := 1.0%float.
Definition ResourceRetryGraceTime : float := 0.25%float.
Definition ResourcePerRetryDelay : float := 0.5%float.
Definition ResourceWatchdogMaxSleep : float := 1.0%float.
Definition ResourceProofTimeoutFactor : float := 3.0%float.
Definition ResourcePartTimeoutFactor : float := 4.0%float.
Definition ResourceSenderGraceTime : float := 10.0%float.
Definition ResourceHmuWaitFactor : float := 3.5%float.
Definition ResourceMaxRetries : Z := 16.
Definition ResourceMaxAdvRetries : Z := 4.
Definition ResourceWindowFlexibility : Z := 4.

Definition HashLength : Z := 256.
Definition MTU : Z := 500.
Definition IFACMinSize : Z := 1.
Definition HeaderMinSize : Z := 2 + 1 + 16.
Definition HeaderMaxSize : Z := 2 + 1 + 16 * 2.
Definition AES128BlockSize : Z := 16.
Definition MDU : Z :=
  (MTU - IFACMinSize - HeaderMinSize - TokenOverhead) / AES128BlockSize * AES128BlockSize - 1.

Definition resourceAdvertisementOverhead : Z := 134.
Definition linkMDUConstant : Z :=
  (MTU - IFACMinSize - HeaderMinSize - TokenOverhead) / AES128BlockSize * AES128BlockSize - 1.
Definition hashmapMaxLen : Z := (linkMDUConstant - resourceAdvertisementOverhead) / ResourceMapHashLen.
Definition resourceWindowMax : Z := 75.
Definition collisionGuardSize : Z := 2 * resourceWindowMax + hashmapMaxLen.

Definition ContextResourceAdv : Z := 0x02.
Definition ContextResourceReq : Z := 0x03.
Definition ContextResourceHmu : Z := 0x04.
Definition ContextResourceIcl : Z := 0x06.
Definition ContextResourceRcl : Z := 0x07.

Inductive rs_err :=
  | ErrLinkInactive
  | ErrCompress (e : ch_err)
  | ErrPackMetadata (e : mp_err)
  | ErrMetadataSize
  | ErrRandomHash
  | ErrEncryptStream
  | ErrUnpackAdv (e : mp_err)
  | ErrAdvFormat
  | ErrAdvField (key : Z)
  | ErrPartCount (n : Z)
  | ErrPartCountSize (n size : Z)
  | ErrTransferFailed
  | ErrNoMapHash
  | ErrSend
  | ErrHmuShort
  | ErrHmuUnpack (e : mp_err)
  | ErrHmuMalformed
  | ErrHmuSegment
  | ErrHmuHashmap
  | ErrHmuEmpty
  | ErrEmptySegment
  | ErrPackHmu (e : mp_err)
  | ErrPackAdv (e : mp_err)
  | ErrInvalidRequest
  | ErrRequestShort
  | ErrHashMismatch
  | ErrSequencing.

(** ** Advertisements *)

Record ResourceAdvertisement := mkAdv {
  T : Z; D : Z; N : Z;
  AH : bytes; AR : bytes; AO : bytes;
  AI : Z; AL : Z;
  AQ : bytes;
  AF : Z;
  AM : bytes;
  AEncrypted : bool; ACompressed : bool; ASplit : bool;
  AIsRequest : bool; AIsResponse : bool; AHasMetadata : bool;
}.
#[global] Instance eta_Adv : Eta ResourceAdvertisement := fun a =>
  mkAdv (T a) (D a) (N a) (AH a) (AR a) (AO a) (AI a) (AL a) (AQ a) (AF a) (AM a)
    (AEncrypted a) (ACompressed a) (ASplit a) (AIsRequest a) (AIsResponse a) (AHasMetadata a).

(** The flag byte [Pack] computes. *)
Definition adv_flags (a : ResourceAdvertisement) : Z :=
  let f := 0 in
  let f := if AEncrypted a then Z.lor f 0x01 else f in
  let f := if ACompressed a then Z.lor f 0x02 else f in
  let f := if ASplit a then Z.lor f 0x04 else f in
  let f := if AIsRequest a then Z.lor f 0x08 else f in
  let f := if AIsResponse a then Z.lor f 0x10 else f in
  if AHasMetadata a then Z.lor f 0x20 else f.

(** The one-letter field names. *)
Definition adv_key (c : Z) : value := VStr [c].
Definition kt := 116.
Definition kd := 100.
Definition kn := 110.
Definition kh := 104.
Definition kr := 114.
Definition ko := 111.
Definition ki := 105.
Definition kl := 108.
Definition kq := 113.
Definition kf := 102.
Definition km := 109.

(** The entries of the map, in the order of the literal. *)
Definition adv_entries (a : ResourceAdvertisement) : list (value * value) :=
  [(adv_key kt, VInt (T a)); (adv_key kd, VInt (D a)); (adv_key kn, VInt (N a));
   (adv_key kh, VBin (AH a)); (adv_key kr, VBin (AR a)); (adv_key ko, VBin (AO a));
   (adv_key ki, VInt (AI a)); (adv_key kl, VInt (AL a)); (adv_key kq, VBin (AQ a));
   (adv_key kf, VUint (AF a)); (adv_key km, VBin (AM a))].

(** [Pack] iterates over a Go map: [order] permutes its entries. *)
Definition AdvPack (order : list (value * value) -> list (value * value))
    (a : ResourceAdvertisement) : ResourceAdvertisement * res rs_err bytes :=
  let a := a <| AF := adv_flags a |> in
  (a, match Pack (VMap (order (adv_entries a))) with
      | (b, None) => Ok b
      | (_, Some e) => Err (ErrPackAdv e)
      end).

Definition toInt64 (v : value) : option Z :=
  match v with VInt i => Some i | VUint i => Some (i64 i) | _ => None end.

(** [m[key]]: [VNil] when absent. *)
Fixpoint getVal (m : list (value * value)) (key : Z) : value :=
  match m with
  | [] => VNil
  | (k, v) :: m' => if go_eq k (adv_key key) then v else getVal m' key
  end.

Definition getBytes (m : list (value * value)) (key : Z) : res rs_err bytes :=
  match getVal m key with
  | VNil => Ok []
  | VBin b => Ok b
  | _ => Err (ErrAdvField key)
  end.

Definition getInt (m : list (value * value)) (key : Z) : Z := default 0 (toInt64 (getVal m key)).

Definition UnpackResourceAdvertisement (data : bytes) : res rs_err ResourceAdvertisement :=
  unpacked ← map_err ErrUnpackAdv (Unpack data);
  match unpacked with
  | VMap m =>
      h ← getBytes m kh;
      r ← getBytes m kr;
      o ← getBytes m ko;
      q ← getBytes m kq;
      mm ← getBytes m km;
      let f := u8 (getInt m kf) in
      let n := getInt m kn in
      let t := getInt m kt in
      let bit k := negb (Z.land f k =? 0) in
      let adv := mkAdv t (getInt m kd) n h r o (getInt m ki) (getInt m kl) q f mm
        (bit 0x01) (bit 0x02) (bit 0x04) (bit 0x08) (bit 0x10) (bit 0x20) in
      if (n <? 0) || (ResourceMaxParts <? n) then Err (ErrPartCount n)
      else if (0 <? t) && (t <? n) then Err (ErrPartCountSize n t)
      else Ok adv
  | _ => Err ErrAdvFormat
  end.

(** ** Resources *)

Record ResourcePart := mkPart {
  PData : bytes;
  ReceivedData : option bytes;
  PMapHash : bytes;
  PIndex : Z;
  PSent : bool;
}.
#[global] Instance eta_Part : Eta ResourcePart := fun p =>
  mkPart (PData p) (ReceivedData p) (PMapHash p) (PIndex p) (PSent p).

(** What a resource reads of its link. *)
Record LinkView := mkLinkView {
  LActive : bool;
  Lrtt : float;
  Lmtu : Z;
  Lmdu : Z;
  LtrafficTimeoutFactor : float;
  LestablishmentCost : float;
  Ltoken : option Token;
}.

Record Resource := mkResource {
  initiator : bool;
  status : Z;
  size : Z; totalSize : Z; uncompressedSize : Z;
  data : bytes;
  hash : bytes; expectedProof : bytes; randomHash : bytes; originalHash : bytes;
  parts : list ResourcePart;
  hashmap : list bytes;
  totalParts : Z; receivedCount : Z; hashmapHeight : Z;
  consecutiveCompletedHeight : Z;
  window : Z; windowMax : Z; windowMin : Z; windowFlexibility : Z;
  receiverMinConsecutiveHeight : Z;
  lastActivity : Z; startedTransferring : Z; advSent : Z; lastPartSent : Z;
  maxRetries : Z; maxAdvRetries : Z; retriesLeft : Z;
  timeoutFactor : float; timeout : float; partTimeoutFactor : float; senderGraceTime : float;
  sdu : Z; outstandingParts : Z; waitingForHmu : bool;
  reqRespRttRate : float; reqDataRttRate : float;
  rtt : option float; eifr : option float; previousEifr : option float;
  callback : bool; progressCallback : bool;
  advertisementPacket : option bytes;
  requestID : option bytes; isResponse : bool;
  encrypted : bool; compressed : bool;
  sentParts : Z;
  metadata : list (bytes * bytes); hasMetadata : bool;
  maxDecompressedSize : Z;
  assemblyLock : bool;
}.
#[global] Instance eta_Resource : Eta Resource := fun r =>
  mkResource (initiator r) (status r) (size r) (totalSize r) (uncompressedSize r) (data r)
    (hash r) (expectedProof r) (randomHash r) (originalHash r) (parts r) (hashmap r)
    (totalParts r) (receivedCount r) (hashmapHeight r) (consecutiveCompletedHeight r)
    (window r) (windowMax r) (windowMin r) (windowFlexibility r)
    (receiverMinConsecutiveHeight r) (lastActivity r) (startedTransferring r) (advSent r)
    (lastPartSent r) (maxRetries r) (maxAdvRetries r) (retriesLeft r) (timeoutFactor r)
    (timeout r) (partTimeoutFactor r) (senderGraceTime r) (sdu r) (outstandingParts r)
    (waitingForHmu r) (reqRespRttRate r) (reqDataRttRate r) (rtt r) (eifr r)
    (previousEifr r) (callback r) (progressCallback r) (advertisementPacket r)
    (requestID r) (isResponse r) (encrypted r) (compressed r) (sentParts r) (metadata r)
    (hasMetadata r) (maxDecompressedSize r) (assemblyLock r).

(** The zero value of the struct. *)
Definition zeroResource : Resource :=
  mkResource false 0 0 0 0 [] [] [] [] [] [] [] 0 0 0 0 0 0 0 0 0 0 0 0 0 0 0 0
    0 0 0 0 0 0 false 0 0 None None None false false None None false false false 0 [] false 0 false.

(** Packets sent, goroutines started and callbacks run. *)
Inductive event :=
  | EvPacket (context packetType : Z) (payload : bytes)
  | SpawnAssemble
  | SpawnRequestNext
  | Concluded
  | Progress
  | Started
  | RemoveIncoming
  | RemoveOutgoing
  | TeardownLink
  | CacheRequest (proofPayload : bytes)
  | ExpectedRate (rate : float).

(** The result of an operation: the resource, its events, and the error. *)
Definition outcome : Type := Resource * list event * res rs_err unit.

Section WithCrypto.
Context `{Sha256, BlockCipher, Bzip2}.

Definition getMapHash (randomHash data : bytes) : bytes :=
  take (Z.to_nat ResourceMapHashLen) (FullHash (data ++ randomHash)).

Definition link_Encrypt (rnd : random_source) (l : LinkView) (plaintext : bytes) : res rs_err bytes :=
  match Ltoken l with
  | None => Err ErrEncryptStream
  | Some t => match Encrypt rnd t plaintext with
              | Ok c => Ok c | Err _ => Err ErrEncryptStream | Panic => Panic end
  end.

(** ** Sending: construction *)

Record ResourceOptions := mkOpts {
  AutoCompress : bool;
  AutoCompressLimit : Z;
  OMetadata : list (bytes * bytes);
}.

(** [normalized], without the compression level, which only the codec reads. *)
Definition normalized (o : ResourceOptions) : ResourceOptions :=
  if AutoCompressLimit o <=? 0
  then mkOpts (AutoCompress o) ResourceAutoCompressMaxSize (OMetadata o) else o.

(** The payload to send and whether it is compressed. *)
Definition choose_payload (o : ResourceOptions) (data : bytes) : res rs_err (bytes * bool) :=
  if AutoCompress o && (zlen data <=? AutoCompressLimit o) then
    c ← map_err ErrCompress (CompressBzip2 data);
    if zlen c <? zlen data then Ok (c, true) else Ok (data, false)
  else Ok (data, false).

Definition metadata_value (md : list (bytes * bytes)) : value :=
  VMap (map (fun kv => (VStr kv.1, VBin kv.2)) md).

(** The metadata prefix: a 3-byte length and the packed map; empty without
    metadata. *)
Definition metadata_prefix (md : list (bytes * bytes)) : res rs_err bytes :=
  if (length md =? 0)%nat then Ok []
  else match Pack (metadata_value md) with
       | (_, Some e) => Err (ErrPackMetadata e)
       | (packed, None) =>
           let n := zlen packed in
           if 0xFFFFFF <? n then Err ErrMetadataSize
           else Ok ([u8 (Z.land (Z.shiftr n 16) 0xFF); u8 (Z.land (Z.shiftr n 8) 0xFF);
                     u8 (Z.land n 0xFF)] ++ packed)
       end.

(** The part size: from the link MTU if it is set, else the link MDU. *)
Definition sender_sdu (l : LinkView) : Z :=
  let s := if negb (Lmtu l =? 0) then Lmtu l - HeaderMaxSize - IFACMinSize else Lmdu l in
  if s <=? 0 then MDU else s.

(** [int(math.Ceil(float64(size) / float64(sdu)))], which is the integer
    ceiling for the sizes below 2^53 a slice can have. *)
Definition part_count (size sdu : Z) : Z := (size + (sdu - 1)) / sdu.

Definition part_slice (data : bytes) (size sdu : Z) (i : nat) : bytes :=
  slice (Z.to_nat (Z.of_nat i * sdu)) (Z.to_nat (Z.min ((Z.of_nat i + 1) * sdu) size)) data.

Definition make_part (randomHash data : bytes) (size sdu : Z) (i : nat) : ResourcePart :=
  let partData := part_slice data size sdu i in
  mkPart partData None (getMapHash randomHash partData) (Z.of_nat i) false.

Definition newResourceWithOptions (rnd : random_source) (input : bytes) (l : LinkView)
    (opts : ResourceOptions) : res rs_err Resource :=
  if negb (LActive l) then Err ErrLinkInactive else
  '(payload, small) ← choose_payload (normalized opts) input;
  prefix ← metadata_prefix (OMetadata opts);
  random ← match rnd (Z.to_nat ResourceRandomHashSize) with
               | Ok b => Ok b | Err _ => Err ErrRandomHash | Panic => Panic end;
  let full := prefix ++ input in
  let h := FullHash (full ++ random) in
  stream ← link_Encrypt rnd l (random ++ prefix ++ payload);
  let n := part_count (zlen stream) (sender_sdu l) in
  let ps := map (make_part random stream (zlen stream) (sender_sdu l)) (seq 0 (Z.to_nat n)) in
  Ok (zeroResource
      <| initiator := true |> <| status := ResourceStatusQueued |>
      <| window := 4 |> <| windowMax := 10 |> <| windowMin := 2 |>
      <| windowFlexibility := ResourceWindowFlexibility |>
      <| metadata := OMetadata opts |>
      <| maxRetries := ResourceMaxRetries |> <| maxAdvRetries := ResourceMaxAdvRetries |>
      <| retriesLeft := ResourceMaxRetries |>
      <| timeoutFactor := LtrafficTimeoutFactor l |>
      <| timeout := (Lrtt l * LtrafficTimeoutFactor l)%float |>
      <| partTimeoutFactor := ResourcePartTimeoutFactor |>
      <| senderGraceTime := ResourceSenderGraceTime |>
      <| uncompressedSize := zlen input |>
      <| totalSize := (if (length prefix =? 0)%nat then zlen input else zlen prefix + zlen payload) |>
      <| compressed := small |> <| randomHash := random |>
      <| hash := h |> <| expectedProof := FullHash (full ++ h) |>
      <| originalHash := h |> <| data := stream |> <| encrypted := true |>
      <| size := zlen stream |> <| sdu := sender_sdu l |> <| totalParts := n |>
      <| parts := ps |> <| hashmap := map PMapHash ps |>).

(** ** Sending: advertisement *)

Definition hashmapSegment (hashmap : list bytes) (segment : Z) : list bytes :=
  if segment <? 0 then []
  else
    let start := segment * hashmapMaxLen in
    if zlen hashmap <=? start then []
    else slice (Z.to_nat start) (Z.to_nat (Z.min ((segment + 1) * hashmapMaxLen) (zlen hashmap))) hashmap.

Definition advertisement (r : Resource) : ResourceAdvertisement :=
  {| T := size r; D := uncompressedSize r; N := totalParts r; AH := hash r; AR := randomHash r;
     AO := originalHash r; AI := 1; AL := 1; AQ := default [] (requestID r); AF := 0;
     AM := concat (hashmapSegment (hashmap r) 0);
     AEncrypted := encrypted r; ACompressed := compressed r; ASplit := false;
     AIsRequest := bool_decide (is_Some (requestID r)) && negb (isResponse r);
     AIsResponse := bool_decide (is_Some (requestID r)) && isResponse r;
     AHasMetadata := negb (length (metadata r) =? 0)%nat |}.

Context (order : list (value * value) -> list (value * value)).

Definition buildAdvertisementPacket (r : Resource) : res rs_err bytes :=
  (AdvPack order (advertisement r)).2.

Definition Advertise (send : Z -> bytes -> bool) (now : Z) (r : Resource) : outcome :=
  match buildAdvertisementPacket r with
  | Err e => (r, [], Err e)
  | Panic => (r, [], Panic)
  | Ok p =>
      let r := r <| lastActivity := now |> <| startedTransferring := now |> <| advSent := now |>
                 <| status := ResourceStatusAdvertised |> <| retriesLeft := maxAdvRetries r |>
                 <| advertisementPacket := Some p |> in
      if send ContextResourceAdv p
      then (r, [EvPacket ContextResourceAdv PacketData p], Ok tt) else (r, [], Err ErrSend)
  end.

(** ** Sending: requests *)

Definition cancelLocked (r : Resource) : Resource :=
  if status r <? ResourceStatusComplete then r <| status := ResourceStatusFailed |> else r.

(** The scan of [hmuSegmentForMapHash]: the part index after the loop. *)
Fixpoint hmu_scan (n i : nat) (ps : list ResourcePart) (lastMapHash : bytes) : nat :=
  match n with
  | O => i
  | S n' =>
      match ps !! i with
      | Some p => if bytes_eqb (PMapHash p) lastMapHash then S i else hmu_scan n' (S i) ps lastMapHash
      | None => hmu_scan n' (S i) ps lastMapHash
      end
  end.

Definition hmuSegmentForMapHash (ps : list ResourcePart) (lastMapHash : bytes) (startHeight : Z)
    : Z * option Z :=
  let startHeight := Z.max 0 startHeight in
  let end_ := Z.min (startHeight + collisionGuardSize) (zlen ps) in
  let partIndex := Z.of_nat (hmu_scan (Z.to_nat (end_ - startHeight)) (Z.to_nat startHeight) ps lastMapHash) in
  let newHeight := Z.max (partIndex - 1 - resourceWindowMax) 0 in
  if negb (Z.rem partIndex hashmapMaxLen =? 0) then (newHeight, None)
  else (newHeight, Some (Z.quot partIndex hashmapMaxLen)).

Definition hmuPacketData (r : Resource) (segment : Z) : res rs_err bytes :=
  let hashes := hashmapSegment (hashmap r) segment in
  if (length hashes =? 0)%nat then Err ErrEmptySegment
  else match Pack (VArr [VInt segment; VBin (concat hashes)]) with
       | (packed, None) => Ok (hash r ++ packed)
       | (_, Some e) => Err (ErrPackHmu e)
       end.

(** The part a request hash selects: the first with that map hash. *)
Fixpoint find_part (h : bytes) (ps : list ResourcePart) (i : nat) : option (nat * ResourcePart) :=
  match ps with
  | [] => None
  | p :: ps' => if bytes_eqb (PMapHash p) h then Some (i, p) else find_part h ps' (S i)
  end.

Definition mark_sent (i : nat) (p : ResourcePart) (now : Z) (r : Resource) : Resource :=
  (if PSent p then r
   else r <| parts ::= <[i := p <| PSent := true |>]> |> <| sentParts ::= Z.add 1 |>)
  <| lastPartSent := now |>.

(** One pass of the request loop per 4-byte hash. *)
Fixpoint answer_hashes (fuel : nat) (send : Z -> bytes -> bool) (now : Z) (requested : bytes)
    (r : Resource) (ev : list event) : outcome :=
  match fuel with
  | O => (r, ev, Ok tt)
  | S fuel' =>
      if (length requested <? 4)%nat then (r, ev, Ok tt)
      else
        let rest := drop 4 requested in
        match find_part (take 4 requested) (parts r) 0 with
        | None => answer_hashes fuel' send now rest r ev
        | Some (i, p) =>
            if send ContextResource (PData p)
            then answer_hashes fuel' send now rest (mark_sent i p now r)
                   (ev ++ [EvPacket ContextResource PacketData (PData p)])
            else (r, ev, Err ErrSend)
        end
  end.

(** The reply to a request that quotes the last known map hash. *)
Definition answer_hmu (send : Z -> bytes -> bool) (now : Z) (lastMapHash : bytes) (r : Resource)
    (ev : list event) : outcome :=
  let '(newHeight, segment) :=
    hmuSegmentForMapHash (parts r) lastMapHash (receiverMinConsecutiveHeight r) in
  let r := r <| receiverMinConsecutiveHeight := newHeight |> in
  match segment with
  | None => (cancelLocked r, ev, Err ErrSequencing)
  | Some segment =>
      match hmuPacketData r segment with
      | Err e => (cancelLocked r, ev, Err e)
      | Panic => (r, ev, Panic)
      | Ok d =>
          if send ContextResourceHmu d
          then (r <| lastActivity := now |>, ev ++ [EvPacket ContextResourceHmu PacketData d], Ok tt)
          else (r, ev, Err ErrSend)
      end
  end.

Definition Request (send : Z -> bytes -> bool) (now : Z) (requestData : bytes) (r : Resource) : outcome :=
  if status r =? ResourceStatusFailed then (r, [], Err ErrTransferFailed)
  else match requestData with
  | [] => (r, [], Err ErrInvalidRequest)
  | marker :: _ =>
      let r := r <| status := ResourceStatusTransferring |> <| retriesLeft := maxRetries r |> in
      let wantsMoreHashmap := marker =? 0xFF in
      let offset := (if wantsMoreHashmap then 1 + 4 else 1)%nat in
      if (length requestData <? offset + length (hash r))%nat then (r, [], Err ErrRequestShort)
      else if negb (bytes_eqb (slice offset (offset + length (hash r)) requestData) (hash r))
      then (r, [], Err ErrHashMismatch)
      else
        let requested := drop (offset + length (hash r)) requestData in
        match answer_hashes (length requested) send now requested r [] with
        | (r, ev, Ok tt) =>
            match (if wantsMoreHashmap then answer_hmu send now (slice 1 5 requestData) r ev
                   else (r, ev, Ok tt)) with
            | (r, ev, Ok tt) =>
                (if totalParts r <=? sentParts r
                 then r <| status := ResourceStatusAwaitingProof |> else r, ev, Ok tt)
            | x => x
            end
        | x => x
        end
  end.

Definition recordExpectedRate (now : Z) (r : Resource) : list event :=
  if (size r <=? 0) || IsZero (startedTransferring r) then []
  else
    let elapsed := Seconds (Sub now (startedTransferring r)) in
    let elapsed := if PrimFloat.ltb elapsed 0.0001 then 0.0001%float else elapsed in
    [ExpectedRate (float_of_Z (size r * 8) / elapsed)%float].

Definition notify_callback (r : Resource) : list event := if callback r then [Concluded] else [].

Definition ValidateProof (now : Z) (proofData : bytes) (r : Resource) : Resource * list event :=
  if (status r =? ResourceStatusFailed) || (status r =? ResourceStatusComplete) then (r, [])
  else
    let hashLen := length (hash r) in
    if (hashLen =? 0)%nat || negb (length proofData =? hashLen * 2)%nat
       || negb (bytes_eqb (take hashLen proofData) (hash r))
       || negb (bytes_eqb (drop hashLen proofData) (expectedProof r))
    then (r <| status := ResourceStatusFailed |>, notify_callback r)
    else (r <| status := ResourceStatusComplete |>, recordExpectedRate now r ++ notify_callback r).

(** ** Receiving: requests *)

(** The scan of one window: the hashes to request, how many, and whether an
    unknown map hash ended it. *)
Fixpoint scan_window (n i : nat) (ps : list ResourcePart) (hm : list bytes) (w : Z)
    (hashes : bytes) (requested : Z) : bytes * Z * bool :=
  match n with
  | O => (hashes, requested, false)
  | S n' =>
      let missing := match ps !! i with
                     | Some p => match ReceivedData p with None => true | Some _ => false end
                     | None => true end in
      let known := match hm !! i with Some h => (length h =? 4)%nat | None => false end in
      if missing && negb known then (hashes, requested, true)
      else
        let hashes := if missing then hashes ++ default [] (hm !! i) else hashes in
        let requested := if missing then requested + 1 else requested in
        if w <=? requested then (hashes, requested, false)
        else scan_window n' (S i) ps hm w hashes requested
  end.

Definition requestNextLockedAt (send : Z -> bytes -> bool) (now : Z) (r : Resource) : outcome :=
  if status r =? ResourceStatusFailed then (r, [], Err ErrTransferFailed)
  else if initiator r then (r, [], Ok tt)
  else if totalParts r <=? receivedCount r then (r, [], Ok tt)
  else if waitingForHmu r then (r, [], Ok tt)
  else if window r <? 0 then (r <| outstandingParts := 0 |>, [], Panic)
  else
    let start := Z.max (consecutiveCompletedHeight r + 1) 0 in
    let end_ := Z.min (start + window r) (zlen (parts r)) in
    let '(hashes, requested, exhausted) :=
      scan_window (Z.to_nat (end_ - start)) (Z.to_nat start) (parts r) (hashmap r) (window r) [] 0 in
    let r := r <| outstandingParts := requested |> in
    if (length hashes =? 0)%nat && negb exhausted then (r, [], Ok tt)
    else
      let h := hashmapHeight r in
      let last := default [] (hashmap r !! Z.to_nat (h - 1)) in
      if exhausted && ((h <? 1) || (zlen (hashmap r) <? h) || negb (length last =? 4)%nat)
      then (r, [], Err ErrNoMapHash)
      else
        let lastMapHash := if exhausted then last else [] in
        let requestData := [if exhausted then 0xFF else 0x00] ++ lastMapHash ++ hash r ++ hashes in
        if send ContextResourceReq requestData
        then (r <| waitingForHmu := exhausted |> <| lastActivity := now |>,
              [EvPacket ContextResourceReq PacketData requestData], Ok tt)
        else (r <| waitingForHmu := false |>, [], Err ErrSend).

(** ** Receiving: acceptance *)

Definition receiver_sdu (l : LinkView) : Z :=
  if negb (Lmtu l =? 0) then Lmtu l - HeaderMaxSize - IFACMinSize
  else if 0 <? Lmdu l then Lmdu l else MDU.

(** The map hashes an advertisement carries, one slot each, for the first [n]
    slots. *)
Fixpoint split_hashes (n : nat) (m : bytes) : list bytes :=
  match n with
  | O => []
  | S n' => if (length m <? 4)%nat then replicate n [] else take 4 m :: split_hashes n' (drop 4 m)
  end.

Definition accepted_resource (now : Z) (l : LinkView) (cb progress : bool) (packet : bytes)
    (adv : ResourceAdvertisement) : Resource :=
  let n := Z.to_nat (N adv) in
  let hm := split_hashes n (AM adv) in
  zeroResource
    <| initiator := false |> <| status := ResourceStatusTransferring |>
    <| size := T adv |> <| uncompressedSize := D adv |> <| totalSize := D adv |>
    <| hash := AH adv |> <| randomHash := AR adv |> <| originalHash := AO adv |>
    <| totalParts := N adv |> <| callback := cb |> <| progressCallback := progress |>
    <| requestID := (if (length (AQ adv) =? 0)%nat then None else Some (AQ adv)) |>
    <| isResponse := AIsResponse adv |> <| encrypted := AEncrypted adv |>
    <| compressed := ACompressed adv |> <| lastActivity := now |>
    <| window := 4 |> <| windowMax := 10 |> <| windowMin := 2 |>
    <| windowFlexibility := ResourceWindowFlexibility |> <| hasMetadata := AHasMetadata adv |>
    <| consecutiveCompletedHeight := -1 |>
    <| maxRetries := ResourceMaxRetries |> <| maxAdvRetries := ResourceMaxAdvRetries |>
    <| retriesLeft := ResourceMaxRetries |> <| timeoutFactor := LtrafficTimeoutFactor l |>
    <| timeout := (Lrtt l * LtrafficTimeoutFactor l)%float |>
    <| partTimeoutFactor := ResourcePartTimeoutFactor |>
    <| senderGraceTime := ResourceSenderGraceTime |> <| outstandingParts := 0 |>
    <| waitingForHmu := false |> <| advertisementPacket := Some packet |>
    <| startedTransferring := now |> <| sdu := receiver_sdu l |>
    <| parts := imap (fun i h => mkPart [] None h (Z.of_nat i) false) hm |>
    <| hashmap := hm |> <| hashmapHeight := Z.of_nat (length (filter (fun h => h <> []) hm)) |>.

(** [Accept]: the resource already being received, or a new one whose first
    parts are requested; [incoming] is the link's list. *)
Definition Accept (send : Z -> bytes -> bool) (now : Z) (l : LinkView) (cb started progress : bool)
    (packet : bytes) (incoming : list Resource)
    : list Resource * list event * res rs_err nat :=
  match UnpackResourceAdvertisement packet with
  | Err e => (incoming, [], Err e)
  | Panic => (incoming, [], Panic)
  | Ok adv =>
      match list_find (fun r => bytes_eqb (hash r) (AH adv) = true) incoming with
      | Some (i, _) => (incoming, [], Ok i)
      | None =>
          let r := accepted_resource now l cb progress packet adv in
          let ev := if started then [Started] else [] in
          match requestNextLockedAt send now r with
          | (r, ev', Panic) => (incoming ++ [r], ev ++ ev', Panic)
          | (r, ev', _) => (incoming ++ [r], ev ++ ev', Ok (length incoming))
          end
      end
  end.

Definition Reject (send : Z -> bytes -> bool) (packet : bytes) : list event * res rs_err unit :=
  match UnpackResourceAdvertisement packet with
  | Err e => ([], Err e)
  | Panic => ([], Panic)
  | Ok adv => if send ContextResourceRcl (AH adv)
              then ([EvPacket ContextResourceRcl PacketData (AH adv)], Ok tt) else ([], Err ErrSend)
  end.

(** ** Receiving: hashmap updates *)

(** One slot of an update: a previously unknown one raises the height. *)
Definition put_hash (idx : nat) (h : bytes) (r : Resource) : Resource :=
  let r := match hashmap r !! idx with
           | Some [] => r <| hashmapHeight ::= Z.add 1 |>
           | _ => r end in
  r <| hashmap ::= <[idx := h]> |>.

(** The loop over an update's [n] hashes; the slot index is computed in
    [int] arithmetic and the loop ends at the first one out of range. *)
Fixpoint put_hashes (n : nat) (i segment : Z) (hm : bytes) (r : Resource) : Resource :=
  match n with
  | O => r
  | S n' =>
      let idx := i64 (i + i64 (segment * hashmapMaxLen)) in
      if (idx <? 0) || (zlen (hashmap r) <=? idx) then r
      else put_hashes n' (i + 1) segment (drop 4 hm) (put_hash (Z.to_nat idx) (take 4 hm) r)
  end.

Definition hmu_segment (v : value) : option Z :=
  match v with VInt i => Some i | VUint i => Some (i64 i) | _ => None end.

Definition hashmapUpdateLocked (send : Z -> bytes -> bool) (now : Z) (plaintext : bytes) (r : Resource)
    : outcome :=
  if (status r =? ResourceStatusFailed) || negb (waitingForHmu r) then (r, [], Ok tt)
  else
    let hashLen := Z.to_nat (HashLength / 8) in
    if (length plaintext <? hashLen + 1)%nat then (r, [], Err ErrHmuShort)
    else
      let r := r <| lastActivity := now |> <| retriesLeft := maxRetries r |> in
      match Unpack (drop hashLen plaintext) with
      | Err e => (r, [], Err (ErrHmuUnpack e))
      | Panic => (r, [], Panic)
      | Ok (VArr (sv :: hv :: _)) =>
          match hmu_segment sv with
          | None => (r, [], Err ErrHmuSegment)
          | Some segment =>
              match hv with
              | VBin hm =>
                  let r := r <| status := ResourceStatusTransferring |> in
                  let hashes := (length hm / 4)%nat in
                  let r := put_hashes hashes 0 segment hm r in
                  if (hashes <? 1)%nat then (cancelLocked r, [], Err ErrHmuEmpty)
                  else requestNextLockedAt send now (r <| waitingForHmu := false |>)
              | _ => (r, [], Err ErrHmuHashmap)
              end
          end
      | Ok _ => (r, [], Err ErrHmuMalformed)
      end.

(** ** Receiving: parts *)

Fixpoint find_hash (n i : nat) (hm : list bytes) (h : bytes) : option nat :=
  match n with
  | O => None
  | S n' => if bytes_eqb (default [] (hm !! i)) h then Some i else find_hash n' (S i) hm h
  end.

(** How many parts at the front of a list have arrived. *)
Fixpoint received_run (ps : list ResourcePart) : nat :=
  match ps with
  | p :: ps' => match ReceivedData p with Some _ => S (received_run ps') | None => O end
  | [] => O
  end.

(** A missing part arrives in slot [i]. *)
Definition fill_part (i : nat) (p : ResourcePart) (partData : bytes) (r : Resource) : Resource :=
  let r := r <| parts ::= <[i := p <| ReceivedData := Some partData |>]> |>
             <| receivedCount ::= Z.add 1 |> in
  let c := if Z.of_nat i =? consecutiveCompletedHeight r + 1 then Z.of_nat i
           else consecutiveCompletedHeight r in
  let c := c + Z.of_nat (received_run (drop (Z.to_nat (c + 1)) (parts r))) in
  r <| consecutiveCompletedHeight := c |>
    <| outstandingParts ::= fun o => if 0 <? o then o - 1 else o |>.

(** The window grows by one, and its minimum follows. *)
Definition grow_resource_window (r : Resource) : Resource :=
  if window r <? windowMax r then
    let r := r <| window ::= Z.add 1 |> in
    if windowFlexibility r - 1 <? window r - windowMin r then r <| windowMin ::= Z.add 1 |> else r
  else r.

Definition ReceivePart (now : Z) (partData : bytes) (r : Resource) : outcome :=
  if status r =? ResourceStatusFailed then (r, [], Err ErrTransferFailed)
  else
    let r := if negb (status r =? ResourceStatusComplete) && negb (status r =? ResourceStatusCorrupt)
                && negb (status r =? ResourceStatusAssembling)
             then r <| status := ResourceStatusTransferring |> else r in
    let r := r <| lastActivity := now |> in
    let partHash := getMapHash (randomHash r) partData in
    let searchStart := Z.max (consecutiveCompletedHeight r) 0 in
    let end_ := Z.min (searchStart + window r) (zlen (hashmap r)) in
    let slot := find_hash (Z.to_nat (end_ - searchStart)) (Z.to_nat searchStart) (hashmap r) partHash in
    match (match slot with
           | None => Some (r, false)
           | Some i =>
               match parts r !! i with
               | None => None
               | Some p => match ReceivedData p with
                           | None => Some (fill_part i p partData r, true)
                           | Some _ => Some (r, false) end
               end
           end) with
    | None => (r, [], Panic)
    | Some (r, newlyFilled) =>
        let shouldAssemble := (receivedCount r =? totalParts r) && negb (assemblyLock r) in
        let r := if shouldAssemble then r <| assemblyLock := true |> else r in
        let shouldRequest := negb shouldAssemble && newlyFilled && (outstandingParts r <=? 0) in
        let r := if shouldRequest then grow_resource_window r else r in
        (r, (if newlyFilled && progressCallback r then [Progress] else []) ++
            (if shouldAssemble then [SpawnAssemble]
             else if shouldRequest then [SpawnRequestNext] else []), Ok tt)
    end.

(** ** Receiving: assembly *)

Definition prove (send : Z -> bytes -> bool) (r : Resource) : list event :=
  if (length (hash r) =? 0)%nat then []
  else
    let proofData := hash r ++ FullHash (data r ++ hash r) in
    if send ContextResourcePrf proofData then [EvPacket ContextResourcePrf PacketProof proofData] else [].

Definition cancelCorruptLocked (send : Z -> bytes -> bool) (r : Resource) : list event :=
  [RemoveIncoming] ++
  match advertisementPacket r with Some p => (Reject send p).1 | None => [] end ++
  [TeardownLink].

(** The received data in order, if no part is missing. *)
Fixpoint collect (ps : list ResourcePart) : option bytes :=
  match ps with
  | [] => Some []
  | p :: ps' => d ← ReceivedData p; rest ← collect ps'; Some (d ++ rest)
  end.

(** The string-to-bytes entries of an unpacked metadata map. *)
Definition metadata_entries (m : list (value * value)) : list (bytes * bytes) :=
  omap (fun e => match e with (VStr k, VBin b) => Some (k, b) | _ => None end) m.

(** The application payload and the metadata of verified data. *)
Definition split_metadata (has : bool) (md : list (bytes * bytes)) (full : bytes)
    : bytes * list (bytes * bytes) :=
  match full with
  | b0 :: b1 :: b2 :: _ =>
      let n := Z.lor (Z.lor (Z.shiftl b0 16) (Z.shiftl b1 8)) b2 in
      if has && (3 + n <=? zlen full) then
        let packed := slice 3 (Z.to_nat (3 + n)) full in
        (drop (Z.to_nat (3 + n)) full,
         match Unpack packed with Ok (VMap m) => metadata_entries m | _ => md end)
      else (full, md)
  | _ => (full, md)
  end.

Definition Assemble (send : Z -> bytes -> bool) (now : Z) (l : LinkView) (r : Resource)
    : res rs_err (Resource * list event) :=
  let r := r <| status := ResourceStatusAssembling |> in
  let failed := Ok (r <| status := ResourceStatusFailed |>, []) in
  let corrupt := r <| status := ResourceStatusCorrupt |> in
  match collect (parts r) with
  | None => failed
  | Some assembled =>
      match (if encrypted r then
               match Ltoken l with Some t => Decrypt t assembled | None => Err ErrTokenHMAC end
             else Ok assembled) with
      | Panic => Panic
      | Err _ => failed
      | Ok assembled =>
          if zlen assembled <? ResourceRandomHashSize then Ok (corrupt, [])
          else
            let full := drop (Z.to_nat ResourceRandomHashSize) assembled in
            let maxLen := if maxDecompressedSize r <=? 0 then ResourceAutoCompressMaxSize
                          else maxDecompressedSize r in
            match (if compressed r then DecompressBzip2WithLimit full maxLen else Ok full) with
            | Panic => Panic
            | Err e => if bool_decide (e = ErrDecompressedTooLarge)
                       then Ok (corrupt, cancelCorruptLocked send corrupt) else failed
            | Ok full =>
                if negb (bytes_eqb (FullHash (full ++ randomHash r)) (hash r)) then Ok (corrupt, [])
                else
                  let '(payload, md) := split_metadata (hasMetadata r) (metadata r) full in
                  let r := r <| metadata := md |> <| data := full |>
                             <| status := ResourceStatusComplete |> in
                  Ok (r <| data := payload |>,
                      recordExpectedRate now r ++ prove send r ++ notify_callback r)
            end
      end
  end.

(** ** Cancelling *)

Definition Cancel (send : Z -> bytes -> bool) (now : Z) (l : LinkView) (r : Resource)
    : Resource * list event :=
  if status r =? ResourceStatusCorrupt then (r, cancelCorruptLocked send r)
  else if ResourceStatusComplete <=? status r then (r, [])
  else
    let r := r <| status := ResourceStatusFailed |> in
    let ctx := if initiator r then ContextResourceIcl else ContextResourceRcl in
    (r, (if LActive l && send ctx (hash r) then [EvPacket ctx PacketData (hash r)] else []) ++
        [if initiator r then RemoveOutgoing else RemoveIncoming] ++
        (if callback r then recordExpectedRate now r ++ [Concluded] else [])).

(** ** The watchdog *)

Definition currentRtt (l : LinkView) (r : Resource) : float := default (Lrtt l) (rtt r).

Definition updateEifr (l : LinkView) (r : Resource) : Resource * list event :=
  let e :=
    if negb (PrimFloat.eqb (reqDataRttRate r) 0) then (reqDataRttRate r * 8)%float
    else match previousEifr r with
         | Some e => e
         | None => (LestablishmentCost l * 8 / currentRtt l r)%float
         end in
  (r <| eifr := Some e |>, [ExpectedRate e]).

(** Seconds until the instant [base + delay]; negative when it has passed. *)
Definition sleep_until (base : Z) (delay : float) (now : Z) : float :=
  Seconds (Sub (Add base (seconds_to_Duration delay)) now).

Definition fired (sleepTime : float) : bool := PrimFloat.ltb sleepTime 0.

(** The window shrinks, and its maximum follows. *)
Definition shrink_resource_window (r : Resource) : Resource :=
  if windowMin r <? window r then
    let r := r <| window ::= Z.pred |> in
    if windowMin r <? windowMax r then
      let r := r <| windowMax ::= Z.pred |> in
      if windowFlexibility r - 1 <? windowMax r - window r then r <| windowMax ::= Z.pred |> else r
    else r
  else r.

Definition receiver_sleep (now : Z) (r : Resource) : float :=
  let retriesUsed := maxRetries r - retriesLeft r in
  let extraWait := (float_of_Z retriesUsed * ResourcePerRetryDelay)%float in
  let e := default 0%float (eifr r) in
  let zero := PrimFloat.eqb e 0 in
  let hmuWait := if negb zero && (waitingForHmu r || (outstandingParts r =? 0))
                 then (float_of_Z (sdu r) * 8 * ResourceHmuWaitFactor / e)%float else 0%float in
  let tof := if negb zero then (float_of_Z (outstandingParts r) * float_of_Z (sdu r) * 8 / e)%float
             else 0%float in
  if negb (PrimFloat.eqb (reqRespRttRate r) 0) then
    sleep_until (lastActivity r)
      (partTimeoutFactor r * tof + hmuWait + ResourceRetryGraceTime + extraWait)%float now
  else
    let term := if negb zero then (partTimeoutFactor r * (3 * float_of_Z (sdu r) / e))%float else 0%float in
    sleep_until (lastActivity r) (term + ResourceRetryGraceTime + extraWait)%float now.

(** [maxExtraWait]: the sum of the per-retry delays. *)
Fixpoint extra_wait (n : nat) (i : Z) (acc : float) : float :=
  match n with
  | O => acc
  | S n' => extra_wait n' (i + 1) (acc + float_of_Z (i + 1) * ResourcePerRetryDelay)%float
  end.

(** The status cases of [watchdogStep]: the resource, the events and the sleep
    time, or nothing for a status without a case. *)
Definition watchdog_case (send : Z -> bytes -> bool) (now : Z) (l : LinkView) (r : Resource)
    : Resource * list event * option float :=
  let gave_up (r : Resource) (ev : list event) := (cancelLocked r, ev, Some 0.001%float) in
  if status r =? ResourceStatusAdvertised then
    let s := sleep_until (advSent r) (timeout r + ResourceProcessingGrace)%float now in
    if negb (fired s) then (r, [], Some s)
    else if retriesLeft r <=? 0 then gave_up r []
    else
      let r := r <| retriesLeft ::= Z.pred |> in
      match buildAdvertisementPacket r with
      | Ok p =>
          let r := r <| advertisementPacket := Some p |> in
          if send ContextResourceAdv p
          then (r <| lastActivity := now |> <| advSent := now |>,
                [EvPacket ContextResourceAdv PacketData p], Some 0.001%float)
          else gave_up r []
      | _ => gave_up r []
      end
  else if status r =? ResourceStatusTransferring then
    if negb (initiator r) then
      let '(r, ev) := updateEifr l r in
      let s := receiver_sleep now r in
      if negb (fired s) then (r, ev, Some s)
      else if 0 <? retriesLeft r then
        let r := shrink_resource_window r in
        let r := r <| retriesLeft ::= Z.pred |> <| waitingForHmu := false |> in
        let '(r, ev', _) := requestNextLockedAt send now r in
        (r, ev ++ ev', Some 0.001%float)
      else gave_up r ev
    else
      let maxWait := (currentRtt l r * timeoutFactor r * float_of_Z (maxRetries r)
                      + senderGraceTime r + extra_wait (Z.to_nat (maxRetries r)) 0 0)%float in
      let s := sleep_until (lastActivity r) maxWait now in
      if negb (fired s) then (r, [], Some s) else gave_up r []
  else if status r =? ResourceStatusAwaitingProof then
    let r := r <| timeoutFactor := ResourceProofTimeoutFactor |> in
    let s := sleep_until (lastPartSent r) (currentRtt l r * timeoutFactor r + senderGraceTime r)%float now in
    if negb (fired s) then (r, [], Some s)
    else if retriesLeft r <=? 0 then gave_up r []
    else (r <| retriesLeft ::= Z.pred |> <| lastPartSent := now |>,
          [CacheRequest (hash r ++ expectedProof r)], Some 0.001%float)
  else (r, [], None).

Definition watchdogStep (send : Z -> bytes -> bool) (now : Z) (l : LinkView) (r : Resource)
    : Resource * list event * (float * bool) :=
  if ResourceStatusAssembling <=? status r then (r, [], (0%float, false))
  else
    let '(r, ev, s) := watchdog_case send now l r in
    match s with
    | None => (cancelLocked r, ev, (0%float, false))
    | Some s =>
        if PrimFloat.ltb s 0 then (cancelLocked r, ev, (0.001%float, false))
        else
          let s := if PrimFloat.ltb ResourceWatchdogMaxSleep s then ResourceWatchdogMaxSleep else s in
          (r, ev, (s, status r <? ResourceStatusAssembling))
    end.

(** ** Accessors and setters *)

Definition GetProgress (r : Resource) : float :=
  if totalParts r =? 0 then 0%float
  else if initiator r then (float_of_Z (sentParts r) / float_of_Z (totalParts r))%float
  else (float_of_Z (receivedCount r) / float_of_Z (totalParts r))%float.

Definition GetMetadataSize (r : Resource) : Z :=
  fold_left (fun total kv => total + zlen kv.2) (metadata r) 0.
Definition GetTransferSize (r : Resource) : Z := zlen (data r) + GetMetadataSize r + 16.
Definition IsRequest (r : Resource) : bool := bool_decide (is_Some (requestID r)) && negb (isResponse r).
Definition IsResponse (r : Resource) : bool := bool_decide (is_Some (requestID r)) && isResponse r.

Definition ConcludeSnapshot (r : Resource) : Z * bytes * list (bytes * bytes) := (status r, data r, metadata r).

(** [copyBytes] gives nil for an empty slice. *)
Definition SetRequestID (id : bytes) (r : Resource) : Resource :=
  r <| requestID := if (length id =? 0)%nat then None else Some id |>.
Definition SetResponse (b : bool) (r : Resource) : Resource := r <| isResponse := b |>.
Definition SetCallback (cb : bool) (r : Resource) : Resource := r <| callback := cb |>.
Definition SetProgressCallback (cb : bool) (r : Resource) : Resource := r <| progressCallback := cb |>.

(** The iterations of [watchdogLoop], which run at the instants [nows]; the
    flag says whether the loop is still running after the last. *)
Fixpoint watchdogLoop (send : Z -> bytes -> bool) (l : LinkView) (nows : list Z) (r : Resource)
    : Resource * list event * bool :=
  match nows with
  | [] => (r, [], true)
  | now :: nows' =>
      let '(r, ev, (_, cont)) := watchdogStep send now l r in
      if negb cont then (r, ev, false)
      else let '(r, ev', running) := watchdogLoop send l nows' r in (r, ev ++ ev', running)
  end.
End WithCrypto.
