(* ===== verification/ResourceTransfer.v ===== *)
(** * Resource transfers

    Theorems about [Resource]: what the sender builds, what an advertisement
    carries, how requests, parts and hashmap updates move a transfer forward,
    and how it ends. *)

From stdpp Require Import base tactics option list.
From Stdlib Require Import ZArith Lia PrimFloat.
From S2P Require Import Prelude Clock Crypto Packet Channel Buffer Msgpack Resource.
Local Open Scope Z_scope.
Local Open Scope go_scope.

(** ** Segmentation *)

Lemma slice_step {A} (a b : nat) (l : list A) :
  (a <= b)%nat -> slice a b l ++ drop b l = drop a l.
Proof.
  intros Hab. unfold slice. replace (drop b l) with (drop (b - a) (drop a l)).
  - apply take_drop.
  - rewrite drop_drop. f_equal. lia.
Qed.

(** The parts of a stream, from part [i] on, are the rest of the stream. *)
Lemma parts_concat (stream : bytes) sdu (k i : nat) :
  (0 < sdu)%Z -> (zlen stream <= (Z.of_nat i + Z.of_nat k) * sdu)%Z ->
  concat (map (part_slice stream (zlen stream) sdu) (seq i k)) = drop (Z.to_nat (Z.of_nat i * sdu)) stream.
Proof.
  intros Hs. induction k as [|k IH] in i |- *; intros Hk; cbn [seq map concat].
  - rewrite drop_ge; [done|]. unfold zlen in Hk. nia.
  - rewrite IH by lia. unfold part_slice.
    destruct (Z.le_gt_cases ((Z.of_nat i + 1) * sdu) (zlen stream)).
    + rewrite Z.min_l by done. replace (Z.of_nat (S i)) with (Z.of_nat i + 1)%Z by lia.
      apply slice_step. nia.
    + rewrite Z.min_r by lia. rewrite (drop_ge _ (Z.to_nat (Z.of_nat (S i) * sdu))) by (unfold zlen in *; nia).
      rewrite app_nil_r. unfold slice. rewrite take_ge; [done|]. rewrite length_drop. unfold zlen. lia.
Qed.

Lemma part_count_spec n sdu : (0 < sdu)%Z -> (0 <= n)%Z -> (0 <= part_count n sdu)%Z /\ (n <= part_count n sdu * sdu)%Z.
Proof.
  intros Hs Hn. unfold part_count. pose proof (Z.div_mod (n + (sdu - 1)) sdu ltac:(lia)).
  pose proof (Z.mod_pos_bound (n + (sdu - 1)) sdu Hs).
  split; [apply Z.div_pos; lia|nia].
Qed.

Lemma sender_sdu_pos l : (0 < sender_sdu l)%Z.
Proof. unfold sender_sdu. cbv zeta. case_match eqn:E; [done|]. apply Z.leb_gt in E. done. Qed.

(** ** Advertisements *)

Lemma getVal_str (f : value -> value) (es : list (bytes * value)) key v :
  NoDup (map fst es) -> ([key], v) ∈ es ->
  getVal (map (fun e => (VStr e.1, f e.2)) es) key = f v.
Proof.
  induction es as [|[k x] es IH]; intros Hn Hin; [by apply elem_of_nil in Hin|].
  cbn [map fst] in Hn. apply NoDup_cons in Hn as [Hk Hn]. cbn [map getVal fst snd].
  unfold adv_key. cbn [go_eq]. apply elem_of_cons in Hin as [[= -> ->]|Hin].
  - by rewrite bytes_eqb_refl.
  - replace (bytes_eqb k [key]) with false; [by apply IH|].
    symmetry. apply bool_decide_eq_false. intros ->. apply Hk, list_elem_of_fmap. by exists ([key], v).
Qed.

(** The entries of an advertisement by key. *)
Definition adv_fields (a : ResourceAdvertisement) : list (bytes * value) :=
  [([kt], VInt (T a)); ([kd], VInt (D a)); ([kn], VInt (N a));
   ([kh], VBin (AH a)); ([kr], VBin (AR a)); ([ko], VBin (AO a));
   ([ki], VInt (AI a)); ([kl], VInt (AL a)); ([kq], VBin (AQ a));
   ([kf], VUint (AF a)); ([km], VBin (AM a))].

Definition int64_ok (z : Z) : Prop := (- 2 ^ 63 <= z < 2 ^ 63)%Z.
Definition short (b : bytes) : Prop := (zlen b < 2 ^ 32)%Z.

(** An advertisement whose fields fit their types, and whose part count a
    receiver accepts. *)
Record adv_ok (a : ResourceAdvertisement) : Prop := {
  adv_ints : Forall int64_ok [T a; D a; N a; AI a; AL a];
  adv_blobs : Forall short [AH a; AR a; AO a; AQ a; AM a];
  adv_count : (0 <= N a <= ResourceMaxParts)%Z;
  adv_count_size : (0 < T a -> N a <= T a)%Z;
}.

Lemma adv_flags_bits a :
  (0 <= adv_flags a < 64)%Z /\
  negb (Z.land (adv_flags a) 0x01 =? 0) = AEncrypted a /\
  negb (Z.land (adv_flags a) 0x02 =? 0) = ACompressed a /\
  negb (Z.land (adv_flags a) 0x04 =? 0) = ASplit a /\
  negb (Z.land (adv_flags a) 0x08 =? 0) = AIsRequest a /\
  negb (Z.land (adv_flags a) 0x10 =? 0) = AIsResponse a /\
  negb (Z.land (adv_flags a) 0x20 =? 0) = AHasMetadata a.
Proof.
  unfold adv_flags. destruct (AEncrypted a), (ACompressed a), (ASplit a), (AIsRequest a),
    (AIsResponse a), (AHasMetadata a); vm_compute; repeat split; discriminate.
Qed.

Lemma Adv_roundtrip order a :
  (forall es, order es ≡ₚ es) -> adv_ok a ->
  exists b, (AdvPack order a).2 = Ok b /\
    UnpackResourceAdvertisement b = Ok (a <| AF := adv_flags a |>).
Proof.
  intros Hord [Hi Hb Hc Hcs]. set (a' := a <| AF := adv_flags a |>).
  assert (exists es, order (adv_entries a') = map (fun e => (VStr e.1, e.2)) es /\ adv_fields a' ≡ₚ es)
    as (es & Ees & Hperm).
  { apply (Permutation_map_inv (fun e : bytes * value => (VStr e.1, e.2)) (adv_fields a')).
    change (map _ (adv_fields a')) with (adv_entries a'). apply Hord. }
  assert (NoDup (map fst es)) as Hnd.
  { rewrite <- Hperm. cbn [map fst adv_fields]. apply (bool_decide_unpack _). vm_compute. exact I. }
  destruct (adv_flags_bits a) as (Hf & F1 & F2 & F3 & F4 & F5 & F6).
  assert (packable (VMap (map (fun e => (VStr e.1, e.2)) es))) as Hp.
  { apply packable_str_map; [|done|].
    - unfold zlen. rewrite <- Hperm. done.
    - rewrite <- Hperm. unfold int64_ok, short in *. repeat setoid_rewrite Forall_cons in Hi. repeat setoid_rewrite Forall_cons in Hb. destruct_and!.
      repeat (apply Forall_cons; split; [split; [done|constructor; cbn in *; lia]|]). constructor. }
  destruct (Unpack_Pack _ Hp) as [He Hu].
  exists (Pack (VMap (map (fun e => (VStr e.1, e.2)) es))).1.
  split; [unfold AdvPack; cbn [snd]; fold a'; rewrite Ees; by destruct (Pack _) as [b [e|]]|].
  unfold UnpackResourceAdvertisement. rewrite Hu, decoded_str_map by done. cbn [map_err mbind res_bind].
  set (f := decoded (mkOptions false false false)).
  assert (forall key v, ([key], v) ∈ adv_fields a' ->
    getVal (map (fun e => (VStr e.1, f e.2)) es) key = f v) as Hget.
  { intros key v Hin. apply getVal_str; [done|]. by rewrite <- Hperm. }
  unfold getBytes, getInt.
  rewrite (Hget kh (VBin (AH a))), (Hget kr (VBin (AR a))), (Hget ko (VBin (AO a))),
    (Hget kq (VBin (AQ a))), (Hget km (VBin (AM a))), (Hget kf (VUint (adv_flags a))),
    (Hget kn (VInt (N a))), (Hget kt (VInt (T a))), (Hget kd (VInt (D a))), (Hget ki (VInt (AI a))),
    (Hget kl (VInt (AL a))) by (unfold adv_fields; rewrite !elem_of_cons; repeat first [left; reflexivity | right]).
  unfold f. cbn [decoded mbind res_bind]. rewrite (proj2 (Z.leb_le _ 127)) by lia.
  cbn [toInt64 from_option]. unfold id, u8. rewrite (Z.mod_small (adv_flags a)) by lia. rewrite F1, F2, F3, F4, F5, F6.
  rewrite (proj2 (Z.ltb_ge (N a) 0)), (proj2 (Z.ltb_ge ResourceMaxParts (N a))) by lia. cbn [orb].
  destruct (Z.ltb_spec 0 (T a)); [rewrite (proj2 (Z.ltb_ge _ _)) by auto|]; done.
Qed.

(** ** Invariants of a transfer *)

Section Transfer.
Context `{Sh : Sha256} {ShL : Sha256Laws} `{Ci : BlockCipher} {CiL : BlockCipherLaws}.
Context `{Bz : Bzip2} {BzL : Bzip2Laws}.

Lemma getMapHash_length rh d : length (getMapHash rh d) = 4%nat.
Proof.
  unfold getMapHash, FullHash, ResourceMapHashLen. rewrite length_take, sha256_length. done.
Qed.

(** The map hashes of the parts [D]. *)
Definition map_hashes (rh : bytes) (D : list bytes) : list bytes := map (getMapHash rh) D.

Lemma map_hashes_lookup rh D i d : D !! i = Some d -> map_hashes rh D !! i = Some (getMapHash rh d).
Proof. intros Hd. unfold map_hashes. by rewrite list_lookup_fmap, Hd. Qed.

Lemma map_hashes_inj rh D i j d e :
  NoDup (map_hashes rh D) -> D !! i = Some d -> D !! j = Some e -> getMapHash rh d = getMapHash rh e -> i = j.
Proof.
  intros Hn Hi Hj E. apply (NoDup_lookup _ i j (getMapHash rh d) Hn); [by apply map_hashes_lookup|].
  rewrite E. by apply map_hashes_lookup.
Qed.

(** The fields a transfer does not change. *)
Definition statics (r : Resource) :=
  (initiator r, hash r, randomHash r, expectedProof r, encrypted r, compressed r, hasMetadata r,
   maxDecompressedSize r, totalParts r, metadata r).

(** A sender offering the parts [D]. *)
Record tx_ok (D : list bytes) (s : Resource) : Prop := {
  tx_length : length (parts s) = length D;
  tx_part i p : parts s !! i = Some p ->
    D !! i = Some (PData p) /\ PMapHash p = getMapHash (randomHash s) (PData p);
  tx_hashmap : hashmap s = map_hashes (randomHash s) D;
}.

(** A receiver that holds the first [m] parts and knows the first [h] map
    hashes. *)
Record rx_prefix (D : list bytes) (m h : nat) (r : Resource) : Prop := {
  rx_length : length (parts r) = length D;
  rx_part i p : parts r !! i = Some p -> ReceivedData p = if decide (i < m)%nat then D !! i else None;
  rx_hashmap : hashmap r = take h (map_hashes (randomHash r) D) ++ replicate (length D - h) [];
  rx_total : totalParts r = zlen D;
  rx_count : receivedCount r = Z.of_nat m;
  rx_height : hashmapHeight r = Z.of_nat h;
  rx_run : consecutiveCompletedHeight r = Z.of_nat m - 1;
  rx_bounds : (m <= h <= length D)%nat;
  rx_window : (2 <= window r)%Z;
  rx_lock : assemblyLock r = bool_decide (m = length D);
  rx_role : initiator r = false;
  rx_status : status r = ResourceStatusTransferring;
}.

Lemma rx_known D m h r i d :
  rx_prefix D m h r -> (i < h)%nat -> D !! i = Some d -> hashmap r !! i = Some (getMapHash (randomHash r) d).
Proof.
  intros R Hi Hd. rewrite (rx_hashmap _ _ _ _ R). rewrite lookup_app_l.
  - rewrite lookup_take_lt by done. by apply map_hashes_lookup.
  - rewrite length_take. unfold map_hashes. rewrite length_map. apply lookup_lt_Some in Hd. lia.
Qed.

Lemma rx_unknown D m h r i :
  rx_prefix D m h r -> (h <= i < length D)%nat -> hashmap r !! i = Some [].
Proof.
  intros R Hi. pose proof (rx_bounds _ _ _ _ R). rewrite (rx_hashmap _ _ _ _ R).
  assert (length (take h (map_hashes (randomHash r) D)) = h) as Hl.
  { rewrite length_take. unfold map_hashes. rewrite length_map. lia. }
  rewrite lookup_app_r, Hl by lia. apply lookup_replicate. split; [done|lia].
Qed.

Lemma rx_hashmap_length D m h r : rx_prefix D m h r -> length (hashmap r) = length D.
Proof.
  intros R. pose proof (rx_bounds _ _ _ _ R). rewrite (rx_hashmap _ _ _ _ R), length_app, length_take, length_replicate.
  unfold map_hashes. rewrite length_map. lia.
Qed.

Lemma rx_missing D m h r i p :
  rx_prefix D m h r -> (m <= i)%nat -> parts r !! i = Some p -> ReceivedData p = None.
Proof. intros R Hi Hp. rewrite (rx_part _ _ _ _ R i p Hp). by rewrite decide_False by lia. Qed.

(** ** Requests *)

(** The hashes of the parts [i .. i+k-1]. *)
Definition hashes_from (rh : bytes) (D : list bytes) (i k : nat) : bytes :=
  concat (map_hashes rh (slice i (i + k) D)).

Lemma slice_cons {A} (l : list A) i k x :
  l !! i = Some x -> slice i (i + S k) l = x :: slice (S i) (S i + k) l.
Proof.
  intros Hx. unfold slice. replace (i + S k - i)%nat with (S k) by lia.
  replace (S i + k - S i)%nat with k by lia. by rewrite (drop_S l x i Hx).
Qed.

Lemma slice_nil {A} (l : list A) i : slice i (i + 0) l = [].
Proof. unfold slice. by replace (i + 0 - i)%nat with 0%nat by lia. Qed.

Lemma scan_window_prefix D m h r n i acc req :
  rx_prefix D m h r -> (m <= i <= h)%nat -> (i + n <= length D)%nat -> (req + Z.of_nat n <= window r)%Z ->
  scan_window n i (parts r) (hashmap r) (window r) acc req =
    let k := Nat.min n (h - i) in
    (acc ++ hashes_from (randomHash r) D i k, req + Z.of_nat k, (k <? n)%nat).
Proof.
  intros R. induction n as [|n IH] in i, acc, req |- *; intros Hi Hn Hw; cbn [scan_window].
  { cbv zeta. rewrite Nat.min_0_l. unfold hashes_from. rewrite slice_nil, app_nil_r, Z.add_0_r. done. }
  destruct (lookup_lt_is_Some_2 (parts r) i) as [p Hp]; [rewrite (rx_length _ _ _ _ R); lia|].
  rewrite Hp, (rx_missing _ _ _ _ _ _ R (proj1 Hi) Hp). cbn [andb].
  destruct (lookup_lt_is_Some_2 D i) as [d Hd]; [lia|].
  destruct (decide (i < h)%nat) as [Hih|Hih].
  - rewrite (rx_known _ _ _ _ _ _ R Hih Hd), getMapHash_length. cbn [Nat.eqb negb]. cbn [from_option]. unfold id.
    cbv zeta. replace (Nat.min (S n) (h - i)) with (S (Nat.min n (h - S i))) by lia.
    assert (hashes_from (randomHash r) D i (S (Nat.min n (h - S i))) =
            getMapHash (randomHash r) d ++ hashes_from (randomHash r) D (S i) (Nat.min n (h - S i))) as ->.
    { unfold hashes_from. by rewrite (slice_cons _ _ _ _ Hd). }
    destruct (Z.leb_spec (window r) (req + 1)).
    + assert (n = 0)%nat as -> by lia. rewrite Nat.min_0_l. unfold hashes_from. rewrite slice_nil. cbn [map_hashes map concat].
      rewrite app_nil_r. done.
    + rewrite IH by lia. cbv zeta. rewrite <- (assoc_L (++)).
      replace (req + 1 + Z.of_nat (Nat.min n (h - S i)))%Z with (req + Z.of_nat (S (Nat.min n (h - S i))))%Z by lia. done.
  - assert (i = h) as -> by lia. rewrite (rx_unknown _ _ _ _ _ R) by lia. cbn [length Nat.eqb negb].
    cbv zeta. replace (h - h)%nat with 0%nat by lia. rewrite Nat.min_0_r. unfold hashes_from.
    rewrite slice_nil. cbn [map_hashes map concat]. rewrite app_nil_r, Z.add_0_r. done.
Qed.

(** How many parts the next request wants, and how many of them it can name. *)
Definition wanted (D : list bytes) (m : nat) (r : Resource) : nat :=
  Nat.min (Z.to_nat (window r)) (length D - m).
Definition batch (D : list bytes) (m h : nat) (r : Resource) : nat := Nat.min (wanted D m r) (h - m).
Definition short_of_hashes (D : list bytes) (m h : nat) (r : Resource) : bool :=
  (batch D m h r <? wanted D m r)%nat.

Definition request_bytes (rh hsh : bytes) (D : list bytes) (m k h : nat) (exhausted : bool) : bytes :=
  [if exhausted then 0xFF else 0x00] ++
  (if exhausted then default [] (map_hashes rh D !! (h - 1)%nat) else []) ++
  hsh ++ hashes_from rh D m k.

Definition reliable (context : Z) (payload : bytes) : bool := true.

Lemma requestNext_prefix D m h r now :
  rx_prefix D m h r -> (m < length D)%nat -> (1 <= h)%nat -> waitingForHmu r = false ->
  requestNextLockedAt reliable now r =
    (r <| outstandingParts := Z.of_nat (batch D m h r) |>
       <| waitingForHmu := short_of_hashes D m h r |> <| lastActivity := now |>,
     [EvPacket ContextResourceReq PacketData
        (request_bytes (randomHash r) (hash r) D m (batch D m h r) h (short_of_hashes D m h r))], Ok tt).
Proof.
  intros R Hm Hh Hw. pose proof (rx_bounds _ _ _ _ R) as Hb. pose proof (rx_window _ _ _ _ R) as Hwin.
  unfold requestNextLockedAt. rewrite (rx_status _ _ _ _ R), (rx_role _ _ _ _ R), Hw.
  cbn [Z.eqb Pos.eqb ResourceStatusTransferring ResourceStatusFailed].
  rewrite (rx_total _ _ _ _ R), (rx_count _ _ _ _ R), (rx_run _ _ _ _ R).
  rewrite (proj2 (Z.leb_gt _ _)) by (unfold zlen; lia). rewrite (proj2 (Z.ltb_ge _ _)) by lia.
  replace (Z.max (Z.of_nat m - 1 + 1) 0) with (Z.of_nat m) by lia. cbv zeta.
  rewrite Nat2Z.id.
  replace (Z.to_nat (Z.min (Z.of_nat m + window r) (zlen (parts r)) - Z.of_nat m)) with (wanted D m r)
    by (unfold wanted, zlen; rewrite (rx_length _ _ _ _ R); lia).
  rewrite (scan_window_prefix D m h r) by (first [done | unfold wanted; lia]). cbv zeta.
  fold (batch D m h r). fold (short_of_hashes D m h r). cbn [app]. rewrite Z.add_0_l.
  set (r1 := r <| outstandingParts := Z.of_nat (batch D m h r) |>).
  change (hashmap r1) with (hashmap r). change (hashmapHeight r1) with (hashmapHeight r).
  change (hash r1) with (hash r). rewrite (rx_height _ _ _ _ R).
  destruct (short_of_hashes D m h r) eqn:Ex.
  - rewrite andb_false_r. cbn [andb negb]. apply Nat.ltb_lt in Ex as Ex'. unfold batch, wanted in Ex'.
    destruct (lookup_lt_is_Some_2 D (h - 1)) as [d Hd]; [lia|].
    replace (Z.to_nat (Z.of_nat h - 1)) with (h - 1)%nat by lia.
    rewrite (rx_known _ _ _ _ _ d R) by (done || lia). cbn [from_option]. unfold id. rewrite getMapHash_length.
    rewrite (proj2 (Z.ltb_ge _ _)) by lia.
    rewrite (proj2 (Z.ltb_ge (zlen _) _)) by (unfold zlen; rewrite (rx_hashmap_length _ _ _ _ R); lia).
    cbn [orb negb Nat.eqb reliable]. unfold request_bytes. rewrite (map_hashes_lookup _ _ _ _ Hd). done.
  - apply Nat.ltb_ge in Ex as Ex'.
    assert (length (hashes_from (randomHash r) D m (batch D m h r)) =? 0 = false)%nat as ->.
    { apply Nat.eqb_neq. destruct (lookup_lt_is_Some_2 D m) as [d Hd]; [lia|].
      destruct (batch D m h r) as [|k] eqn:Ek; [unfold wanted in Ex'; lia|].
      unfold hashes_from. rewrite (slice_cons _ _ _ _ Hd). cbn [map_hashes map concat].
      rewrite length_app, getMapHash_length. lia. }
    done.
Qed.

(** ** Answering requests *)

Lemma find_part_lookup rh D ps i0 i d p :
  NoDup (map_hashes rh D) ->
  (forall j q, ps !! j = Some q -> D !! (i0 + j)%nat = Some (PData q) /\ PMapHash q = getMapHash rh (PData q)) ->
  ps !! i = Some p -> PData p = d -> find_part (getMapHash rh d) ps i0 = Some ((i0 + i)%nat, p).
Proof.
  intros Hn. induction ps as [|q ps IH] in i0, i |- *; intros Hps Hp Hd; [by rewrite lookup_nil in Hp|].
  cbn [find_part]. destruct (Hps 0%nat q eq_refl) as [Hq0 Hqh].
  destruct i as [|i].
  - injection Hp as ->. rewrite Hqh, Hd, bytes_eqb_refl. by rewrite Nat.add_0_r.
  - destruct (bytes_eqb (PMapHash q) (getMapHash rh d)) eqn:E.
    + apply bytes_eqb_eq in E. exfalso. destruct (Hps (S i) p Hp) as [Hp0 _].
      rewrite Hqh in E. rewrite <- Hd in E.
      pose proof (map_hashes_inj rh D _ _ _ _ Hn Hq0 Hp0 E). lia.
    + replace (i0 + S i)%nat with (S i0 + i)%nat by lia. apply IH; [|done|done].
      intros j q' Hj. replace (S i0 + j)%nat with (i0 + S j)%nat by lia. by apply Hps.
Qed.

Lemma mark_sent_ok D s i p now :
  tx_ok D s -> parts s !! i = Some p ->
  let s' := mark_sent i p now s in
  tx_ok D s' /\ statics s' = statics s /\ status s' = status s /\
  receiverMinConsecutiveHeight s' = receiverMinConsecutiveHeight s.
Proof.
  intros [Hl Hp Hh] Hi. unfold mark_sent. destruct (PSent p); cbv zeta; [done|]. split; [|done].
  split.
  - cbn. unfold modify. cbn. by rewrite length_insert.
  - intros j q. cbn. unfold modify. cbn. intros Hq.
    apply list_lookup_insert_Some in Hq as [(<- & <- & _)|[_ Hq]]; [by apply (Hp i p)|by apply Hp].
  - done.
Qed.

Lemma answer_hashes_ok D now L s ev fuel :
  NoDup (map_hashes (randomHash s) D) -> tx_ok D s -> Forall (fun d => d ∈ D) L -> (length L <= fuel)%nat ->
  exists s', answer_hashes fuel reliable now (concat (map_hashes (randomHash s) L)) s ev =
      (s', ev ++ map (EvPacket ContextResource PacketData) L, Ok tt) /\
    tx_ok D s' /\ statics s' = statics s /\ status s' = status s /\
    receiverMinConsecutiveHeight s' = receiverMinConsecutiveHeight s.
Proof.
  intros Hn. induction L as [|d L IH] in s, ev, fuel, Hn |- *; intros Hs HL Hf.
  { exists s. rewrite app_nil_r. by destruct fuel. }
  apply Forall_cons in HL as [Hd HL]. destruct fuel as [|fuel]; cbn in Hf; [lia|].
  cbn [map_hashes map concat answer_hashes]. fold (map_hashes (randomHash s) L).
  assert (length (getMapHash (randomHash s) d ++ concat (map_hashes (randomHash s) L)) <? 4 = false)%nat as ->.
  { apply Nat.ltb_ge. rewrite length_app, getMapHash_length. lia. }
  rewrite take_app_length', drop_app_length' by (symmetry; apply getMapHash_length).
  apply list_elem_of_lookup in Hd as [i Hi].
  destruct (lookup_lt_is_Some_2 (parts s) i) as [p Hp].
  { rewrite (tx_length _ _ Hs). by eapply lookup_lt_Some. }
  destruct (tx_part _ _ Hs i p Hp) as [Hpd _].
  rewrite (find_part_lookup (randomHash s) D (parts s) 0 i d p); [|done|apply (tx_part _ _ Hs)|done|congruence].
  cbn [reliable Nat.add]. assert (PData p = d) as -> by congruence.
  destruct (mark_sent_ok D s i p now Hs Hp) as (Hs1 & Hst & Hss & Hrm).
  assert (randomHash (mark_sent i p now s) = randomHash s) as Hrh by (unfold statics in Hst; congruence).
  destruct (IH (mark_sent i p now s) (ev ++ [EvPacket ContextResource PacketData d]) fuel) as (s' & E & Hs' & Hst' & Hss' & Hrm');
    [by rewrite Hrh|done|done|lia|].
  exists s'. rewrite Hrh in E. rewrite E. cbn [map]. rewrite <- (assoc_L (++)). split; [done|].
  split_and!; [done|congruence..].
Qed.

(** ** Hashmap updates: the sender *)

Lemma hmu_scan_found rh D ps i n k p :
  NoDup (map_hashes rh D) ->
  (forall j q, ps !! j = Some q -> D !! j = Some (PData q) /\ PMapHash q = getMapHash rh (PData q)) ->
  (i <= k < i + n)%nat -> ps !! k = Some p -> hmu_scan n i ps (PMapHash p) = S k.
Proof.
  intros Hn Hps. induction n as [|n IH] in i |- *; intros Hk Hp; [lia|]. cbn [hmu_scan].
  destruct (decide (i = k)) as [->|Hne]; [by rewrite Hp, bytes_eqb_refl|].
  destruct (ps !! i) as [q|] eqn:Hq; [|apply IH; [lia|done]].
  destruct (bytes_eqb (PMapHash q) (PMapHash p)) eqn:E; [|apply IH; [lia|done]].
  apply bytes_eqb_eq in E. destruct (Hps i q Hq) as [H1 H2], (Hps k p Hp) as [H3 H4].
  rewrite H2, H4 in E. by pose proof (map_hashes_inj rh D _ _ _ _ Hn H1 H3 E).
Qed.

(** The segment of map hashes that starts at [h]. *)
Definition segment_hashes (rh : bytes) (D : list bytes) (h : nat) : list bytes :=
  take (Z.to_nat hashmapMaxLen) (drop h (map_hashes rh D)).

Lemma hashmapMaxLen_eq : hashmapMaxLen = 74.
Proof. reflexivity. Qed.

Lemma hashmapSegment_at rh D g :
  (g * 74 < length D)%nat ->
  hashmapSegment (map_hashes rh D) (Z.of_nat g) = segment_hashes rh D (g * 74).
Proof.
  intros Hg. unfold hashmapSegment, segment_hashes. rewrite hashmapMaxLen_eq.
  assert (length (map_hashes rh D) = length D) as Hl by (unfold map_hashes; apply length_map).
  rewrite (proj2 (Z.ltb_ge _ _)) by lia. cbv zeta.
  rewrite (proj2 (Z.leb_gt _ _)) by (unfold zlen; rewrite Hl; lia). unfold slice.
  replace (Z.to_nat (Z.of_nat g * 74)) with (g * 74)%nat by lia.
  destruct (decide (g * 74 + 74 <= length D)%nat).
  - f_equal. unfold zlen. rewrite Hl. lia.
  - rewrite !take_ge; [done|rewrite length_drop, Hl; lia|rewrite length_drop; unfold zlen; rewrite Hl; lia].
Qed.

Definition hmu_bytes (rh hsh : bytes) (D : list bytes) (h : nat) : bytes :=
  hsh ++ (Pack (VArr [VInt (Z.of_nat (h / 74)); VBin (concat (segment_hashes rh D h))])).1.

Lemma concat_hashes_length rh L : zlen (concat (map_hashes rh L)) = (4 * zlen L)%Z.
Proof.
  induction L as [|d L IH]; [done|]. cbn [map_hashes map concat]. rewrite zlen_app, zlen_cons.
  fold (map_hashes rh L). rewrite IH. unfold zlen. rewrite getMapHash_length. lia.
Qed.

Lemma segment_hashes_eq rh D h : segment_hashes rh D h = map_hashes rh (take 74 (drop h D)).
Proof. unfold segment_hashes, map_hashes. by rewrite <- fmap_drop, <- fmap_take. Qed.

Lemma hmu_packable rh D h g :
  (zlen D <= ResourceMaxParts)%Z -> (g <= length D)%nat ->
  packable (VArr [VInt (Z.of_nat g); VBin (concat (segment_hashes rh D h))]).
Proof.
  intros HD Hg. unfold ResourceMaxParts, zlen in HD. apply pk_arr; [done|].
  apply Forall_cons. split; [constructor; lia|]. apply Forall_cons. split; [|constructor].
  constructor. rewrite segment_hashes_eq, concat_hashes_length. unfold zlen. rewrite length_take. lia.
Qed.

Lemma answer_hmu_ok D s h now ev :
  NoDup (map_hashes (randomHash s) D) -> tx_ok D s -> (zlen D <= ResourceMaxParts)%Z ->
  (1 <= h < length D)%nat -> (h mod 74 = 0)%nat ->
  receiverMinConsecutiveHeight s = Z.max (Z.of_nat h - 150) 0 ->
  answer_hmu reliable now (default [] (map_hashes (randomHash s) D !! (h - 1)%nat)) s ev =
    (s <| receiverMinConsecutiveHeight := Z.max (Z.of_nat h - 76) 0 |> <| lastActivity := now |>,
     ev ++ [EvPacket ContextResourceHmu PacketData (hmu_bytes (randomHash s) (hash s) D h)], Ok tt).
Proof.
  intros Hn Hs HD Hh Hmod Hr. unfold answer_hmu.
  destruct (lookup_lt_is_Some_2 (parts s) (h - 1)) as [p Hp]; [rewrite (tx_length _ _ Hs); lia|].
  destruct (tx_part _ _ Hs _ _ Hp) as [Hpd Hph]. rewrite (map_hashes_lookup _ _ _ _ Hpd). cbn [from_option].
  unfold id. rewrite <- Hph. unfold hmuSegmentForMapHash. rewrite Hr. cbv zeta.
  replace (Z.max 0 (Z.max (Z.of_nat h - 150) 0)) with (Z.max (Z.of_nat h - 150) 0) by lia.
  change collisionGuardSize with 224%Z.
  rewrite (hmu_scan_found (randomHash s) D (parts s) _ _ (h - 1) p Hn (tx_part _ _ Hs)); [| |done].
  2: { unfold zlen. rewrite (tx_length _ _ Hs). lia. }
  replace (S (h - 1)) with h by lia. rewrite hashmapMaxLen_eq. change resourceWindowMax with 75%Z.
  assert (h = 74 * (h / 74))%nat as Hdiv by (apply Nat.Div0.div_exact; done).
  assert (Z.rem (Z.of_nat h) 74 = 0)%Z as ->.
  { rewrite Z.rem_mod_nonneg by lia. rewrite Hdiv, Nat2Z.inj_mul, Z.mul_comm. apply Z.mod_mul. done. }
  cbn [Z.eqb negb].
  assert (Z.quot (Z.of_nat h) 74 = Z.of_nat (h / 74)) as ->.
  { rewrite Z.quot_div_nonneg by lia. rewrite Nat2Z.inj_div. done. }
  replace (Z.max (Z.of_nat h - 1 - 75) 0) with (Z.max (Z.of_nat h - 76) 0) by lia.
  unfold hmuPacketData. cbn [hashmap hash]. unfold modify. cbn [hashmap hash].
  rewrite (tx_hashmap _ _ Hs), hashmapSegment_at by lia.
  replace (h / 74 * 74)%nat with h by lia.
  assert (length (segment_hashes (randomHash s) D h) =? 0 = false)%nat as ->.
  { apply Nat.eqb_neq. rewrite segment_hashes_eq. unfold map_hashes. rewrite length_map, length_take, length_drop. lia. }
  pose proof (hmu_packable (randomHash s) D h (h / 74) HD ltac:(lia)) as Hpk.
  destruct (Unpack_Pack _ Hpk) as [He _]. unfold hmu_bytes.
  destruct (Pack (VArr _)) as [b e]. cbn in He. subst e. done.
Qed.

Lemma Request_ok D s m k h ex now :
  NoDup (map_hashes (randomHash s) D) -> tx_ok D s -> (zlen D <= ResourceMaxParts)%Z ->
  status s <> ResourceStatusFailed -> (m + k <= length D)%nat ->
  (ex = true -> (1 <= h < length D)%nat /\ (h mod 74 = 0)%nat /\
    receiverMinConsecutiveHeight s = Z.max (Z.of_nat h - 150) 0) ->
  exists s',
    Request reliable now (request_bytes (randomHash s) (hash s) D m k h ex) s =
      (s', map (EvPacket ContextResource PacketData) (slice m (m + k) D) ++
           (if ex then [EvPacket ContextResourceHmu PacketData (hmu_bytes (randomHash s) (hash s) D h)] else []),
       Ok tt) /\
    tx_ok D s' /\ statics s' = statics s /\
    (status s' = ResourceStatusTransferring \/ status s' = ResourceStatusAwaitingProof) /\
    receiverMinConsecutiveHeight s' =
      (if ex then Z.max (Z.of_nat h - 76) 0 else receiverMinConsecutiveHeight s).
Proof.
  intros Hn Hs HD Hst Hmk Hex. unfold Request. rewrite (proj2 (Z.eqb_neq _ _) Hst).
  unfold request_bytes at 1. cbn [app].
  set (s1 := s <| status := ResourceStatusTransferring |> <| retriesLeft := maxRetries s |>).
  assert (tx_ok D s1) as Hs1 by (by destruct Hs; split).
  assert (statics s1 = statics s) as Hst1 by done.
  assert (request_bytes (randomHash s) (hash s) D m k h ex =
    ([if ex then 0xFF else 0x00] ++ (if ex then default [] (map_hashes (randomHash s) D !! (h - 1)%nat) else [])) ++
    hash s ++ hashes_from (randomHash s) D m k) as -> by (unfold request_bytes; by rewrite <- (assoc_L (++))).
  assert (length (default [] (map_hashes (randomHash s) D !! (h - 1)%nat)) = if ex then 4 else
    length (default [] (map_hashes (randomHash s) D !! (h - 1)%nat)))%nat as Hlast.
  { destruct ex; [|done]. destruct (Hex eq_refl) as [Hh _].
    destruct (lookup_lt_is_Some_2 D (h - 1)) as [d Hd]; [lia|].
    rewrite (map_hashes_lookup _ _ _ _ Hd). apply getMapHash_length. }
  set (pre := [if ex then 0xFF else 0x00] ++ (if ex then _ else _)).
  assert (length pre = if ex then 1 + 4 else 1)%nat as Hpre.
  { unfold pre. destruct ex; cbn [length app]; [|done]. by rewrite Hlast. }
  assert ((if ex then 0xFF else 0x00) =? 0xFF = ex) as -> by (by destruct ex).
  change (hash s1) with (hash s).
  rewrite (proj2 (Nat.ltb_ge _ _)) by (rewrite !length_app, Hpre; destruct ex; lia).
  rewrite (slice_app_mid pre (hash s)) by (by rewrite ?Hpre; destruct ex).
  rewrite bytes_eqb_refl. cbn [negb].
  assert (drop ((if ex then 1 + 4 else 1) + length (hash s)) (pre ++ hash s ++ hashes_from (randomHash s) D m k) =
    hashes_from (randomHash s) D m k) as ->.
  { rewrite (assoc_L (++)), drop_app_length'; [done|]. rewrite length_app, Hpre. by destruct ex. }
  destruct (answer_hashes_ok D now (slice m (m + k) D) s1 [] (length (hashes_from (randomHash s) D m k)))
    as (s2 & E & Hs2 & Hst2 & Hss2 & Hr2); [done|done| | |].
  { apply Forall_take, Forall_drop, Forall_forall. done. }
  { unfold hashes_from. pose proof (concat_hashes_length (randomHash s) (slice m (m + k) D)). unfold zlen in *. lia. }
  change (randomHash s1) with (randomHash s) in E. unfold hashes_from in E |- *. rewrite E. cbn [app].
  assert (randomHash s2 = randomHash s /\ hash s2 = hash s) as [Hrh Hhh] by (unfold statics in *; split; congruence).
  assert (forall s3, tx_ok D s3 -> statics s3 = statics s2 -> status s3 = ResourceStatusTransferring ->
    let s4 := if totalParts s3 <=? sentParts s3 then s3 <| status := ResourceStatusAwaitingProof |> else s3 in
    tx_ok D s4 /\ statics s4 = statics s /\
    (status s4 = ResourceStatusTransferring \/ status s4 = ResourceStatusAwaitingProof) /\
    receiverMinConsecutiveHeight s4 = receiverMinConsecutiveHeight s3) as Hend.
  { intros s3 [H1 H2 H3] H4 H5. cbv zeta. assert (statics s3 = statics s) by congruence.
    destruct (totalParts s3 <=? sentParts s3); (split; [split; [exact H1|exact H2|exact H3]|]; split_and!; [done|auto|done]). }
  destruct ex.
  - destruct (Hex eq_refl) as (Hh & Hmod & Hr).
    assert (slice 1 5 (pre ++ hash s ++ concat (map_hashes (randomHash s) (slice m (m + k) D))) =
      default [] (map_hashes (randomHash s2) D !! (h - 1)%nat)) as ->.
    { unfold pre. rewrite <- (assoc_L (++)). rewrite Hrh. by apply slice_app_mid; [|rewrite Hlast]. }
    rewrite (answer_hmu_ok D s2 h) by (try done; by rewrite ?Hrh, ?Hr2).
    rewrite Hrh, Hhh. eexists. split; [done|].
    destruct (Hend (s2 <| receiverMinConsecutiveHeight := Z.max (Z.of_nat h - 76) 0 |> <| lastActivity := now |>))
      as (A1 & A2 & A3 & A4); [by destruct Hs2; split|done|exact Hss2|]. split_and!; done.
  - rewrite app_nil_r. eexists. split; [done|]. destruct (Hend s2) as (A1 & A2 & A3 & A4); [done|done|exact Hss2|].
    split_and!; [done..|]. by rewrite A4, Hr2.
Qed.

(** ** Receiving parts in order *)

Lemma find_hash_next D m h r d :
  NoDup (map_hashes (randomHash r) D) -> rx_prefix D m h r -> (m < h)%nat -> D !! m = Some d ->
  let start := Z.max (Z.of_nat m - 1) 0 in
  find_hash (Z.to_nat (Z.min (start + window r) (zlen (hashmap r)) - start)) (Z.to_nat start) (hashmap r)
    (getMapHash (randomHash r) d) = Some m.
Proof.
  intros Hn R Hm Hd. cbv zeta. pose proof (rx_window _ _ _ _ R). pose proof (rx_bounds _ _ _ _ R).
  pose proof (rx_hashmap_length _ _ _ _ R) as Hl. unfold zlen. rewrite Hl.
  destruct m as [|m].
  - replace (Z.max (Z.of_nat 0 - 1) 0) with 0%Z by lia.
    destruct (Z.to_nat (Z.min _ _ - _)) as [|k] eqn:Ek; [lia|]. cbn [find_hash]. change (Z.to_nat 0) with 0%nat.
    rewrite (rx_known _ _ _ _ _ _ R Hm Hd). cbn [from_option]. unfold id. by rewrite bytes_eqb_refl.
  - replace (Z.max (Z.of_nat (S m) - 1) 0) with (Z.of_nat m) by lia. rewrite Nat2Z.id.
    destruct (Z.to_nat (Z.min _ _ - _)) as [|[|k]] eqn:Ek; [lia|lia|]. cbn [find_hash].
    destruct (lookup_lt_is_Some_2 D m) as [e He]; [lia|].
    rewrite (rx_known _ _ _ _ m e R) by (done || lia). rewrite (rx_known _ _ _ _ (S m) d R) by done.
    cbn [from_option]. unfold id. rewrite bytes_eqb_refl.
    replace (bytes_eqb _ _) with false; [done|]. symmetry. apply bool_decide_eq_false. intros E.
    pose proof (map_hashes_inj _ _ _ _ _ _ Hn He Hd E). lia.
Qed.

Lemma received_run_missing ps : (forall p, ps !! 0%nat = Some p -> ReceivedData p = None) -> received_run ps = 0%nat.
Proof. destruct ps as [|p ps]; [done|]. intros Hp. cbn. by rewrite (Hp p eq_refl). Qed.

(** The events of a part that arrives in order. *)
Definition part_events (D : list bytes) (m : nat) (r : Resource) : list event :=
  (if progressCallback r then [Progress] else []) ++
  (if decide (S m = length D) then [SpawnAssemble]
   else if outstandingParts r <=? 1 then [SpawnRequestNext] else []).

Lemma fill_part_prefix D m h r p d :
  rx_prefix D m h r -> (m < h)%nat -> D !! m = Some d -> parts r !! m = Some p -> (0 < outstandingParts r)%Z ->
  let r' := fill_part m p d r in
  parts r' = <[m := p <| ReceivedData := Some d |>]> (parts r) /\
  consecutiveCompletedHeight r' = Z.of_nat m /\ receivedCount r' = Z.of_nat (S m) /\
  outstandingParts r' = (outstandingParts r - 1)%Z.
Proof.
  intros R Hm Hd Hp Ho. unfold fill_part. cbv zeta.
  set (r1 := r <| parts ::= _ |> <| receivedCount ::= _ |>).
  change (consecutiveCompletedHeight r1) with (consecutiveCompletedHeight r). rewrite (rx_run _ _ _ _ R).
  rewrite (proj2 (Z.eqb_eq _ _)) by lia.
  change (parts r1) with (<[m := p <| ReceivedData := Some d |>]> (parts r)).
  rewrite received_run_missing; cycle 1.
  { intros q Hq. rewrite lookup_drop in Hq. rewrite list_lookup_insert_ne in Hq by lia.
    apply (rx_missing _ _ _ _ _ _ R) in Hq; [done|lia]. }
  split_and!; [done| | |].
  - cbn. unfold modify. cbn. lia.
  - cbn. unfold modify. cbn. rewrite (rx_count _ _ _ _ R). lia.
  - cbn. unfold modify. cbn. by rewrite (proj2 (Z.ltb_lt _ _) Ho).
Qed.

Lemma grow_window_prefix D m h r :
  rx_prefix D m h r ->
  let r' := grow_resource_window r in
  rx_prefix D m h r' /\ statics r' = statics r /\
  (waitingForHmu r' = waitingForHmu r /\ outstandingParts r' = outstandingParts r) /\
  progressCallback r' = progressCallback r.
Proof.
  intros R. unfold grow_resource_window. cbv zeta. destruct (window r <? windowMax r); [|done].
  assert (2 <= window (r <| window ::= Z.add 1 |>))%Z.
  { pose proof (rx_window _ _ _ _ R). cbn. unfold modify. cbn. lia. }
  destruct (windowFlexibility _ - 1 <? _)%Z; (split; [by destruct R; split|done]).
Qed.

Lemma ReceivePart_prefix D m h r d now :
  NoDup (map_hashes (randomHash r) D) -> rx_prefix D m h r -> (m < h)%nat -> D !! m = Some d ->
  (0 < outstandingParts r)%Z ->
  exists r', ReceivePart now d r = (r', part_events D m r, Ok tt) /\
    rx_prefix D (S m) h r' /\ statics r' = statics r /\ waitingForHmu r' = waitingForHmu r /\
    outstandingParts r' = (outstandingParts r - 1)%Z.
Proof.
  intros Hn R Hm Hd Ho. pose proof (rx_bounds _ _ _ _ R) as Hb.
  destruct (lookup_lt_is_Some_2 (parts r) m) as [p Hp]; [rewrite (rx_length _ _ _ _ R); lia|].
  unfold ReceivePart. rewrite (rx_status _ _ _ _ R).
  cbn [Z.eqb Pos.eqb negb andb ResourceStatusTransferring ResourceStatusFailed ResourceStatusComplete
    ResourceStatusCorrupt ResourceStatusAssembling].
  set (r0 := r <| status := ResourceStatusTransferring |> <| lastActivity := now |>).
  assert (rx_prefix D m h r0) as R0 by (by destruct R; split).
  cbv zeta. rewrite (rx_run _ _ _ _ R0).
  rewrite (find_hash_next D m h r0 d) by done. change (parts r0) with (parts r).
  rewrite Hp, (rx_missing _ _ _ _ _ _ R (le_n m) Hp).
  destruct (fill_part_prefix D m h r0 p d R0 Hm Hd Hp Ho) as (Fp & Fc & Fr & Fo). cbv zeta in *.
  set (r1 := fill_part m p d r0) in *.
  assert (assemblyLock r1 = false) as Hlock.
  { change (assemblyLock r1) with (assemblyLock r). rewrite (rx_lock _ _ _ _ R). apply bool_decide_eq_false. lia. }
  assert (totalParts r1 = zlen D) as Htot by (change (totalParts r1) with (totalParts r); apply (rx_total _ _ _ _ R)).
  assert (forall w lock, (2 <= w)%Z -> lock = bool_decide (S m = length D) ->
    rx_prefix D (S m) h (r1 <| assemblyLock := lock |> <| window := w |>)) as Hgo.
  { intros w lock Hw Hlk. set (r2 := r1 <| assemblyLock := lock |> <| window := w |>).
    assert (parts r2 = parts r1) as Ep by done.
    assert (consecutiveCompletedHeight r2 = consecutiveCompletedHeight r1) as Ec by done.
    destruct R. split; try done.
    - rewrite Ep, Fp, length_insert. done.
    - intros i q. rewrite Ep, Fp. intros Hq.
      apply list_lookup_insert_Some in Hq as [(<- & <- & _)|[Hne Hq]].
      + rewrite decide_True by lia. done.
      + rewrite (rx_part0 i q Hq). repeat case_decide; done || lia.
    - rewrite Ec, Fc. lia.
    - lia. }
  rewrite Fr, Htot, Hlock. cbn [negb]. rewrite andb_true_r.
  unfold part_events. destruct (decide (S m = length D)) as [E|E].
  - rewrite (proj2 (Z.eqb_eq _ _)) by (unfold zlen; lia). cbn [negb andb].
    eexists. split; [done|]. split; [|done].
    apply (Hgo (window r1) true); [apply (rx_window _ _ _ _ R)|]. symmetry. by apply bool_decide_eq_true.
  - rewrite (proj2 (Z.eqb_neq _ _)) by (unfold zlen; lia). cbn [negb andb]. rewrite Fo.
    assert (bool_decide (S m = length D) = false) as Hd' by (by apply bool_decide_eq_false).
    assert (rx_prefix D (S m) h r1) as R1.
    { assert (r1 = r1 <| assemblyLock := false |> <| window := window r1 |>) as -> by (rewrite <- Hlock; done).
      apply Hgo; [apply (rx_window _ _ _ _ R)|done]. }
    destruct (Z.leb_spec (outstandingParts r0 - 1) 0) as [Hle|Hgt].
    + change (outstandingParts r0) with (outstandingParts r) in Hle.
      rewrite (proj2 (Z.leb_le (outstandingParts r) 1)) by lia.
      destruct (grow_window_prefix D (S m) h r1 R1) as (G1 & G2 & G3 & G4).
      eexists. split; [rewrite G4; done|]. split_and!; [done|by rewrite G2|exact (proj1 G3)|exact (eq_trans (proj2 G3) Fo)].
    + change (outstandingParts r0) with (outstandingParts r) in Hgt.
      rewrite (proj2 (Z.leb_gt (outstandingParts r) 1)) by lia.
      eexists. split; [done|]. done.
Qed.

(** ** Hashmap updates: the receiver *)

Lemma put_hash_prefix D m q r d :
  rx_prefix D m q r -> D !! q = Some d ->
  let r' := put_hash q (getMapHash (randomHash r) d) r in
  rx_prefix D m (S q) r' /\ statics r' = statics r /\ window r' = window r.
Proof.
  intros R Hd. apply lookup_lt_Some in Hd as Hq. unfold put_hash.
  rewrite (rx_unknown _ _ _ _ q R) by lia. cbv zeta. split; [|done].
  set (r' := r <| hashmapHeight ::= Z.add 1 |> <| hashmap ::= _ |>).
  assert (hashmap r' = <[q := getMapHash (randomHash r) d]> (hashmap r)) as Eh by done.
  destruct R. split; try done.
  - rewrite Eh, rx_hashmap0. change (randomHash r') with (randomHash r).
    assert (length (take q (map_hashes (randomHash r) D)) = q) as Hl.
    { rewrite length_take. unfold map_hashes. rewrite length_map. lia. }
    rewrite insert_app_r_alt by lia. rewrite Hl, Nat.sub_diag.
    replace (length D - q)%nat with (S (length D - S q)) by lia. cbn [replicate].
    rewrite (take_S_r _ q (getMapHash (randomHash r) d)) by (by apply map_hashes_lookup).
    rewrite <- (assoc_L (++)). done.
  - change (1 + hashmapHeight r = Z.of_nat (S q))%Z. lia.
  - lia.
Qed.

Lemma put_hashes_prefix D m h g i L r :
  rx_prefix D m (h + i)%nat r -> (zlen D <= ResourceMaxParts)%Z -> h = (g * 74)%nat ->
  slice (h + i) (h + i + length L) D = L ->
  let r' := put_hashes (length L) (Z.of_nat i) (Z.of_nat g) (concat (map_hashes (randomHash r) L)) r in
  rx_prefix D m (h + i + length L)%nat r' /\ statics r' = statics r /\ window r' = window r.
Proof.
  intros R HD Hg. induction L as [|d L IH] in i, r, R |- *; intros HL.
  { cbn [length] in *. rewrite Nat.add_0_r. done. }
  assert (D !! (h + i)%nat = Some d) as Hd.
  { apply (f_equal (fun l => l !! 0%nat)) in HL. unfold slice in HL. cbn [length] in HL.
    rewrite lookup_take_lt, lookup_drop, Nat.add_0_r in HL by lia. done. }
  apply lookup_lt_Some in Hd as Hlt. unfold zlen, ResourceMaxParts in HD.
  cbn [length put_hashes map_hashes map concat]. fold (map_hashes (randomHash r) L).
  rewrite hashmapMaxLen_eq.
  assert (i64 (Z.of_nat i + i64 (Z.of_nat g * 74)) = Z.of_nat (h + i))%Z as ->.
  { unfold i64, signed, u64. rewrite (Z.mod_small (Z.of_nat g * 74)) by lia.
    rewrite (proj2 (Z.ltb_lt (Z.of_nat g * 74) _)) by lia. rewrite Z.mod_small by lia.
    rewrite (proj2 (Z.ltb_lt _ _)) by lia. lia. }
  rewrite (proj2 (Z.ltb_ge _ _)) by lia.
  rewrite (proj2 (Z.leb_gt _ _)) by (unfold zlen; rewrite (rx_hashmap_length _ _ _ _ R); lia).
  cbn [orb]. rewrite Nat2Z.id.
  rewrite take_app_length', drop_app_length' by (symmetry; apply getMapHash_length).
  destruct (put_hash_prefix D m (h + i) r d R Hd) as (R1 & S1 & W1).
  set (r1 := put_hash (h + i) _ r) in *.
  assert (randomHash r1 = randomHash r) as Hrh by (unfold statics in S1; congruence).
  replace (Z.of_nat i + 1)%Z with (Z.of_nat (S i)) by lia. rewrite <- Hrh.
  destruct (IH (S i) r1) as (R2 & S2 & W2).
  - by replace (h + S i)%nat with (S (h + i)) by lia.
  - cbn [length] in HL. rewrite <- Nat.add_assoc in HL. cbn [Nat.add] in HL.
    replace (h + (i + S (length L)))%nat with (h + i + S (length L))%nat in HL by lia.
    rewrite (slice_cons _ _ _ _ Hd) in HL. injection HL as HL.
    replace (h + S i + length L)%nat with (S (h + i) + length L)%nat by lia.
    by replace (h + S i)%nat with (S (h + i)) by lia.
  - replace (h + i + S (length L))%nat with (h + S i + length L)%nat by lia.
    split_and!; [done|congruence|congruence].
Qed.

Lemma hashmapUpdate_prefix D m h r now :
  rx_prefix D m h r -> (zlen D <= ResourceMaxParts)%Z -> length (hash r) = 32%nat ->
  waitingForHmu r = true -> (h < length D)%nat -> (h mod 74 = 0)%nat ->
  exists r', hashmapUpdateLocked reliable now (hmu_bytes (randomHash r) (hash r) D h) r =
      requestNextLockedAt reliable now r' /\
    rx_prefix D m (Nat.min (h + 74) (length D)) r' /\ statics r' = statics r /\ waitingForHmu r' = false.
Proof.
  intros R HD Hh Hw Hlt Hmod. unfold hashmapUpdateLocked.
  rewrite (rx_status _ _ _ _ R), Hw. cbn [Z.eqb Pos.eqb negb orb ResourceStatusTransferring ResourceStatusFailed].
  change (Z.to_nat (HashLength / 8)) with 32%nat.
  assert (h = h / 74 * 74)%nat as Hdiv by (rewrite Nat.mul_comm; by apply Nat.Div0.div_exact).
  pose proof (hmu_packable (randomHash r) D h (h / 74) HD ltac:(lia)) as Hpk.
  destruct (Unpack_Pack _ Hpk) as [_ Hu]. unfold hmu_bytes.
  set (packed := (Pack _).1) in *.
  assert (packed <> []) as Hne by (intros E; rewrite E in Hu; done).
  rewrite (proj2 (Nat.ltb_ge _ _)) by (rewrite length_app; destruct packed; cbn; [done|lia]).
  rewrite drop_app_length' by done. rewrite Hu. cbn [decoded map hmu_segment].
  set (L := take 74 (drop h D)). rewrite segment_hashes_eq. fold L.
  assert (length L = Nat.min 74 (length D - h))%nat as HL by (unfold L; rewrite length_take, length_drop; lia).
  assert (length (concat (map_hashes (randomHash r) L)) / 4 = length L)%nat as ->.
  { pose proof (concat_hashes_length (randomHash r) L) as E. unfold zlen in E.
    replace (length (concat _)) with (length L * 4)%nat by lia. by apply Nat.div_mul. }
  set (r1 := r <| lastActivity := now |> <| retriesLeft := maxRetries r |> <| status := ResourceStatusTransferring |>).
  assert (rx_prefix D m h r1) as R1 by (by destruct R; split).
  change (randomHash r) with (randomHash r1). change 0 with (Z.of_nat 0).
  destruct (put_hashes_prefix D m h (h / 74) 0 L r1) as (R2 & S2 & W2); [by rewrite Nat.add_0_r|done|done| |].
  { rewrite Nat.add_0_r. unfold slice. replace (h + length L - h)%nat with (length L) by lia. unfold L.
    rewrite length_take. rewrite <- take_take. by rewrite !(take_ge (drop h D) (length (drop h D))) by done. }
  cbv zeta in *. set (r2 := put_hashes _ _ _ _ _) in *.
  rewrite (proj2 (Nat.ltb_ge _ _)) by lia. eexists. split; [done|].
  split_and!; [|exact S2|done].
  replace (Nat.min (h + 74) (length D)) with (h + 0 + length L)%nat by lia.
  destruct R2. split; done.
Qed.

(** ** Runs over a reliable network

    Packets are delivered in order; a goroutine runs as soon as it is
    spawned. *)

Definition is_packet (e : event) : bool := match e with EvPacket _ _ _ => true | _ => false end.

(** The goroutines an operation spawned; what they send. *)
Fixpoint run_spawned (now : Z) (l : LinkView) (ev : list event) (r : Resource) : Resource * list event :=
  match ev with
  | [] => (r, [])
  | SpawnRequestNext :: ev' =>
      let '(r, out, _) := requestNextLockedAt reliable now r in
      let '(r, out') := run_spawned now l ev' r in (r, out ++ out')
  | SpawnAssemble :: ev' =>
      let '(r, out) := match Assemble reliable now l r with Ok x => x | _ => (r, []) end in
      let '(r, out') := run_spawned now l ev' r in (r, out ++ out')
  | _ :: ev' => run_spawned now l ev' r
  end.

(** One packet arrives at the receiver; the packets it sends in return. *)
Definition rx_handle (now : Z) (l : LinkView) (e : event) (r : Resource) : Resource * list event :=
  match e with
  | EvPacket ctx _ d =>
      if ctx =? ContextResource then
        let '(r, ev, _) := ReceivePart now d r in
        let '(r, out) := run_spawned now l ev r in (r, filter is_packet out)
      else if ctx =? ContextResourceHmu then
        let '(r, ev, _) := hashmapUpdateLocked reliable now d r in (r, filter is_packet ev)
      else (r, [])
  | _ => (r, [])
  end.

Fixpoint rx_all (now : Z) (l : LinkView) (es : list event) (r : Resource) : Resource * list event :=
  match es with
  | [] => (r, [])
  | e :: es' =>
      let '(r, out) := rx_handle now l e r in
      let '(r, out') := rx_all now l es' r in (r, out ++ out')
  end.

(** One packet arrives at the sender. *)
Definition tx_handle (now : Z) (e : event) (s : Resource) : Resource * list event :=
  match e with
  | EvPacket ctx _ d =>
      if ctx =? ContextResourceReq then
        let '(s, ev, _) := Request reliable now d s in (s, filter is_packet ev)
      else if ctx =? ContextResourcePrf then
        let '(s, ev) := ValidateProof now d s in (s, filter is_packet ev)
      else (s, [])
  | _ => (s, [])
  end.

(** The exchange: the queue holds what travels to the sender. *)
Fixpoint transfer (fuel : nat) (now : Z) (l : LinkView) (queue : list event) (s r : Resource)
    : Resource * Resource * list event :=
  match fuel, queue with
  | S fuel', e :: q =>
      let '(s, out) := tx_handle now e s in
      let '(r, back) := rx_all now l out r in
      transfer fuel' now l (q ++ back) s r
  | _, _ => (s, r, queue)
  end.

Lemma rx_all_app now l a b r :
  rx_all now l (a ++ b) r =
    let '(r1, o1) := rx_all now l a r in let '(r2, o2) := rx_all now l b r1 in (r2, o1 ++ o2).
Proof.
  induction a as [|e a IH] in r |- *; cbn [app rx_all]; [by destruct (rx_all now l b r)|].
  destruct (rx_handle now l e r) as [r1 o1]. rewrite IH.
  destruct (rx_all now l a r1) as [r2 o2]. destruct (rx_all now l b r2). by rewrite (assoc_L (++)).
Qed.

(** A receiver whose request [q] is on its way. *)
Record pending (D : list bytes) (m h : nat) (r : Resource) (q : event) : Prop := {
  pd_prefix : rx_prefix D m h r;
  pd_missing : (m < length D)%nat;
  pd_known : (1 <= h)%nat;
  pd_boundary : h = length D \/ (h mod 74 = 0)%nat;
  pd_outstanding : outstandingParts r = Z.of_nat (batch D m h r);
  pd_waiting : waitingForHmu r = short_of_hashes D m h r;
  pd_request : q = EvPacket ContextResourceReq PacketData
    (request_bytes (randomHash r) (hash r) D m (batch D m h r) h (short_of_hashes D m h r));
}.

Lemma requestNext_pending D m h r now :
  rx_prefix D m h r -> (m < length D)%nat -> (1 <= h)%nat -> h = length D \/ (h mod 74 = 0)%nat ->
  waitingForHmu r = false ->
  exists r' q, requestNextLockedAt reliable now r = (r', [q], Ok tt) /\ pending D m h r' q /\ statics r' = statics r.
Proof.
  intros R Hm Hh Hb Hw. rewrite (requestNext_prefix D m h r now R Hm Hh Hw). eexists _, _. split; [done|].
  split; [|done]. split; try done. by destruct R; split.
Qed.

(** A sender that can answer a receiver who knows [h] hashes. *)
Record serving (D : list bytes) (h : nat) (s r : Resource) : Prop := {
  sv_tx : tx_ok D s;
  sv_random : randomHash s = randomHash r;
  sv_hash : hash s = hash r;
  sv_status : status s <> ResourceStatusFailed /\ status s <> ResourceStatusComplete;
  sv_height : (h < length D)%nat -> receiverMinConsecutiveHeight s = Z.max (Z.of_nat h - 150) 0;
}.

(** What the parts of a request lead to. *)
Definition parts_outcome (D : list bytes) (m' h : nat) (now : Z) (l : LinkView) (ex : bool) (r0 : Resource)
    (res : Resource * list event) : Prop :=
  exists r', statics r' = statics r0 /\
    if decide (m' = length D) then
      rx_prefix D m' h r' /\
      res = (let '(r, out) := match Assemble reliable now l r' with Ok x => x | _ => (r', []) end in
             (r, filter is_packet out))
    else if ex then rx_prefix D m' h r' /\ waitingForHmu r' = true /\ res = (r', [])
    else exists q, pending D m' h r' q /\ res = (r', [q]).

Lemma run_spawned_progress now l (b : bool) ev r :
  run_spawned now l ((if b then [Progress] else []) ++ ev) r = run_spawned now l ev r.
Proof. by destruct b. Qed.

Lemma deliver_parts D m k h r now l :
  NoDup (map_hashes (randomHash r) D) -> rx_prefix D m h r -> (1 <= k)%nat -> (m + k <= h)%nat ->
  h = length D \/ (h mod 74 = 0)%nat ->
  outstandingParts r = Z.of_nat k -> (waitingForHmu r = true -> (h < length D)%nat) ->
  parts_outcome D (m + k) h now l (waitingForHmu r) r
    (rx_all now l (map (EvPacket ContextResource PacketData) (slice m (m + k) D)) r).
Proof.
  intros Hn R Hk Hmk Hb Ho Hw. induction k as [|k IH] in m, r, Hn, R, Hk, Hmk, Ho, Hw |- *; [lia|].
  pose proof (rx_bounds _ _ _ _ R) as Hbd.
  destruct (lookup_lt_is_Some_2 D m) as [d Hd]; [lia|].
  rewrite (slice_cons _ _ _ _ Hd). cbn [map rx_all rx_handle]. change (ContextResource =? ContextResource) with true.
  cbv iota. destruct (ReceivePart_prefix D m h r d now Hn R) as (r1 & E & R1 & S1 & W1 & O1); [lia|done|lia|].
  rewrite E. unfold part_events. rewrite run_spawned_progress.
  assert (randomHash r1 = randomHash r) as Hrh by (unfold statics in S1; congruence).
  replace (m + S k)%nat with (S m + k)%nat by lia.
  destruct (decide (S m = length D)) as [Hend|Hend].
  - assert (k = 0)%nat as -> by lia. rewrite slice_nil. cbn [map rx_all run_spawned].
    exists r1. rewrite Nat.add_0_r, decide_True by done. split; [done|]. split; [done|].
    destruct (match Assemble reliable now l r1 with Ok x => x | _ => _ end) as [r2 o2].
    by rewrite !app_nil_r.
  - destruct (decide (k = 0)%nat) as [->|Hk0].
    + rewrite slice_nil, (proj2 (Z.leb_le _ _)) by lia. cbn [map rx_all run_spawned]. rewrite Nat.add_0_r.
      unfold parts_outcome. setoid_rewrite decide_False; [|done].
      destruct (waitingForHmu r) eqn:Ew.
      * exists r1. split; [done|]. split; [done|]. split; [done|].
        unfold requestNextLockedAt. rewrite (rx_status _ _ _ _ R1), (rx_role _ _ _ _ R1), W1. cbn [Z.eqb Pos.eqb].
        change (ResourceStatusTransferring =? ResourceStatusFailed) with false. cbv iota.
        rewrite (rx_total _ _ _ _ R1), (rx_count _ _ _ _ R1), (proj2 (Z.leb_gt _ _)) by (unfold zlen; lia). done.
      * destruct (requestNext_pending D (S m) h r1 now) as (r2 & q & Eq & P & S2); [done|lia|lia|done|done|].
        rewrite Eq. exists r2. split; [congruence|]. exists q. split; [done|].
        rewrite (pd_request _ _ _ _ _ P). done.
    + rewrite (proj2 (Z.leb_gt _ _)) by lia. cbn [run_spawned]. change (filter is_packet []) with (@nil event).
      specialize (IH (S m) r1). rewrite Hrh, W1, O1 in IH.
      destruct IH as (r' & Sr & Hr'); [done|done|lia|lia|lia|done|].
      destruct (rx_all now l _ r1) as [r2 o2]. cbn [app]. exists r'. split; [congruence|done].
Qed.

Lemma filter_packets es : Forall (fun e => is_packet e = true) es -> filter is_packet es = es.
Proof.
  induction 1 as [|e es He Hes IH]; [done|]. rewrite filter_cons_True by (by rewrite He). by rewrite IH.
Qed.

Definition todo (D : list bytes) (m h : nat) : nat :=
  (2 * (length D - m) + if decide (h = m) then 1 else 0)%nat.

Lemma hmu_handled D m h r now l :
  (zlen D <= ResourceMaxParts)%Z -> length (hash r) = 32%nat -> rx_prefix D m h r ->
  waitingForHmu r = true -> (1 <= h < length D)%nat -> (h mod 74 = 0)%nat -> (m <= h)%nat ->
  exists r' q, rx_handle now l (EvPacket ContextResourceHmu PacketData (hmu_bytes (randomHash r) (hash r) D h)) r
      = (r', [q]) /\
    pending D m (Nat.min (h + 74) (length D)) r' q /\ statics r' = statics r.
Proof.
  intros HD Hh R Hw Hlt Hmod Hm. cbn [rx_handle].
  change (ContextResourceHmu =? ContextResource) with false.
  change (ContextResourceHmu =? ContextResourceHmu) with true. cbv iota.
  destruct (hashmapUpdate_prefix D m h r now R HD Hh Hw) as (r1 & E & R1 & S1 & W1); [lia|done|].
  rewrite E. destruct (requestNext_pending D m (Nat.min (h + 74) (length D)) r1 now) as (r2 & q & Eq & P & S2);
    [done|lia|lia| |done|].
  { destruct (decide (h + 74 <= length D)%nat).
    - right. rewrite Nat.min_l by done. replace (h + 74)%nat with (h + 1 * 74)%nat by lia. by rewrite Nat.Div0.mod_add.
    - left. lia. }
  rewrite Eq. exists r2, q. split; [by rewrite (pd_request _ _ _ _ _ P)|]. split; [done|congruence].
Qed.

Lemma transfer_round D m h s r q now l :
  NoDup (map_hashes (randomHash r) D) -> (zlen D <= ResourceMaxParts)%Z -> length (hash r) = 32%nat ->
  pending D m h r q -> serving D h s r ->
  exists s' out, tx_handle now q s = (s', out) /\ statics s' = statics s /\
    (status s' <> ResourceStatusFailed /\ status s' <> ResourceStatusComplete) /\
    ((exists r', rx_prefix D (length D) h r' /\ statics r' = statics r /\
        rx_all now l out r =
          (let '(r, out) := match Assemble reliable now l r' with Ok x => x | _ => (r', []) end in
           (r, filter is_packet out))) \/
     (exists m' h' r' q', rx_all now l out r = (r', [q']) /\ pending D m' h' r' q' /\
        serving D h' s' r' /\ statics r' = statics r /\ (todo D m' h' < todo D m h)%nat)).
Proof.
  intros Hn HD Hh P Sv. destruct (P) as [R Hm Hk1 Hb Ho Hw ->]. destruct (Sv) as [Ht Hrh Hhh Hst Hrm].
  pose proof (rx_bounds _ _ _ _ R) as Hbd. pose proof (rx_window _ _ _ _ R) as Hwin.
  set (k := batch D m h r) in *. set (ex := short_of_hashes D m h r) in *.
  assert (m + k <= h)%nat as Hmk by (unfold k, batch; lia).
  assert (ex = true -> (1 <= h < length D)%nat) as Hex.
  { intros E. apply Nat.ltb_lt in E. unfold batch, wanted in E. lia. }
  assert (ex = true -> (h mod 74 = 0)%nat) as Hmod by (intros E; destruct Hb as [->|]; [specialize (Hex E); lia|done]).
  rewrite <- Hrh, <- Hhh.
  destruct (Request_ok D s m k h ex now) as (s' & E & T' & St' & Ss' & Rm'); [by rewrite Hrh|done|done|apply Hst|lia| |].
  { intros E. specialize (Hex E). auto with lia. }
  assert (randomHash s' = randomHash r /\ hash s' = hash r) as [Hrh' Hhh'] by (unfold statics in St'; split; congruence).
  cbn [tx_handle]. change (ContextResourceReq =? ContextResourceReq) with true. cbv iota. rewrite E.
  exists s', (map (EvPacket ContextResource PacketData) (slice m (m + k) D) ++
    (if ex then [EvPacket ContextResourceHmu PacketData (hmu_bytes (randomHash s) (hash s) D h)] else [])).
  split; [f_equal; apply filter_packets, Forall_app; split; [by apply Forall_fmap, Forall_true|destruct ex; by repeat constructor]|].
  split; [done|]. split; [destruct Ss' as [-> | ->]; done|].
  assert (forall r' h', statics r' = statics r -> ((h' < length D)%nat ->
      receiverMinConsecutiveHeight s' = Z.max (Z.of_nat h' - 150) 0) -> serving D h' s' r') as Hserve.
  { intros r' h' Sr Hr. unfold statics in Sr. split; [done|congruence|congruence|destruct Ss' as [-> | ->]; done|done]. }
  rewrite Hrh, Hhh. rewrite rx_all_app.
  destruct (decide (k = 0)%nat) as [Hk0|Hk0].
  - assert (h = m /\ ex = true) as [-> Eex].
    { unfold k, batch, wanted in Hk0. unfold ex, short_of_hashes. fold k. rewrite Nat.ltb_lt. unfold wanted. lia. }
    rewrite Hk0, slice_nil. cbn [map rx_all]. rewrite Eex in *. right.
    destruct (hmu_handled D m m r now l) as (r' & q & Eq & P' & S'); [done|done|done|done|auto|auto|lia|].
    cbn [rx_all]. rewrite Eq. cbn [app].
    exists m, (Nat.min (m + 74) (length D)), r', q. split; [done|]. split; [done|]. split_and!; [|done|].
    + apply Hserve; [done|]. intros Hlt. rewrite Rm'. lia.
    + unfold todo. repeat case_decide; lia.
  - pose proof (deliver_parts D m k h r now l Hn R ltac:(lia) Hmk Hb Ho) as Hdp. rewrite Hw in Hdp.
    destruct Hdp as (r1 & S1 & Hres); [intros E'; apply Hex in E'; lia|].
    destruct (decide (m + k = length D)%nat) as [Hend|Hend].
    + assert (ex = false) as Eex by (destruct ex; [specialize (Hex eq_refl); lia|done]).
      rewrite Eex. destruct Hres as [R1 Hres]. rewrite Hres. left. exists r1. rewrite Hend in R1.
      split; [done|]. split; [done|].
      destruct (match Assemble reliable now l r1 with Ok x => x | _ => _ end) as [r2 o2]. cbn [rx_all]. by rewrite app_nil_r.
    + destruct ex eqn:Eex.
      * destruct Hres as (R1 & W1 & ->). right. unfold statics in S1. injection S1 as S1a S1b S1c S1d S1e S1f S1g S1h S1i S1j.
        destruct (hmu_handled D (m + k) h r1 now l) as (r' & q & Eq & P' & S'); [done|congruence|done|done|auto|auto|lia|].
        cbn [rx_all]. rewrite <- S1b, <- S1c, Eq. cbn [app].
        assert (statics r' = statics r) as S2 by (rewrite S'; unfold statics; congruence).
        exists (m + k)%nat, (Nat.min (h + 74) (length D)), r', q. split_and!; [done|done| |done|].
        -- apply Hserve; [done|]. intros Hlt. rewrite Rm'. lia.
        -- unfold todo. repeat case_decide; lia.
      * destruct Hres as (q & P' & ->). right. cbn [rx_all]. rewrite app_nil_r.
        exists (m + k)%nat, h, r1, q. split_and!; [done|done| |done|].
        -- apply Hserve; [done|]. intros Hlt. rewrite Rm'. by apply Hrm.
        -- unfold todo. repeat case_decide; lia.
Qed.

Lemma ValidateProof_expected now s :
  status s <> ResourceStatusFailed -> status s <> ResourceStatusComplete ->
  length (hash s) = 32%nat -> length (expectedProof s) = 32%nat ->
  exists ev, ValidateProof now (hash s ++ expectedProof s) s =
    (s <| status := ResourceStatusComplete |>, ev) /\ filter is_packet ev = [].
Proof.
  intros H1 H2 Hh He. unfold ValidateProof. rewrite (proj2 (Z.eqb_neq _ _) H1), (proj2 (Z.eqb_neq _ _) H2).
  cbn [orb]. rewrite length_app, Hh, He. cbn [Nat.eqb orb negb Nat.add Nat.mul].
  rewrite take_app_length', drop_app_length' by done. rewrite !bytes_eqb_refl. cbn [negb orb].
  eexists. split; [done|]. unfold recordExpectedRate, notify_callback.
  destruct ((size s <=? 0) || IsZero (startedTransferring s)), (callback s); done.
Qed.

(** The rest of a transfer, given what assembly does with the parts. *)
Lemma transfer_completes (Good : Resource -> Prop) D m h s r q now l fuel :
  NoDup (map_hashes (randomHash r) D) -> (zlen D <= ResourceMaxParts)%Z -> length (hash r) = 32%nat ->
  length (expectedProof s) = 32%nat ->
  pending D m h r q -> serving D h s r ->
  (forall h' r', rx_prefix D (length D) h' r' -> statics r' = statics r ->
    exists r2 out, Assemble reliable now l r' = Ok (r2, out) /\ Good r2 /\
      filter is_packet out = [EvPacket ContextResourcePrf PacketProof (hash r ++ expectedProof s)]) ->
  (todo D m h + 2 <= fuel)%nat ->
  exists s' r', transfer fuel now l [q] s r = (s', r', []) /\ status s' = ResourceStatusComplete /\ Good r'.
Proof.
  intros Hn HD Hh He P Sv HA. induction fuel as [|fuel IH] in m, h, s, r, q, Hn, Hh, He, P, Sv, HA |- *; intros Hf; [lia|].
  cbn [transfer].
  destruct (transfer_round D m h s r q now l Hn HD Hh P Sv) as (s' & out & E & St & Hst & [Hdone|Hmore]).
  - destruct Hdone as (r' & R' & Sr & Eall). destruct (HA h r' R' Sr) as (r2 & o2 & EA & HG & Ho).
    rewrite E, Eall, EA, Ho. cbn [app]. destruct fuel as [|fuel]; [lia|]. cbn [transfer tx_handle].
    change (ContextResourcePrf =? ContextResourceReq) with false.
    change (ContextResourcePrf =? ContextResourcePrf) with true. cbv iota.
    unfold statics in St. assert (hash s' = hash r /\ expectedProof s' = expectedProof s) as [Eh Ee].
    { split; [|congruence]. rewrite <- (sv_hash _ _ _ _ Sv). congruence. }
    rewrite <- Eh, <- Ee.
    destruct (ValidateProof_expected now s') as (ev & EV & Hev); [apply Hst|apply Hst|congruence|congruence|].
    rewrite EV, Hev. cbn [rx_all app]. eexists _, r2. split; [by destruct fuel|]. done.
  - destruct Hmore as (m' & h' & r' & q' & Eall & P' & Sv' & Sr & Hlt).
    rewrite E, Eall. cbn [app]. unfold statics in St, Sr.
    apply (IH m' h' s' r' q'); try done.
    + congruence.
    + congruence.
    + congruence.
    + intros h'' r'' R'' S''. replace (hash r') with (hash r) by congruence.
      replace (expectedProof s') with (expectedProof s) by congruence. apply (HA h'' r'' R'').
      rewrite S''. unfold statics. congruence.
    + lia.
Qed.

(** ** Assembly *)

Lemma collect_prefix D ps :
  length ps = length D -> (forall i p, ps !! i = Some p -> ReceivedData p = D !! i) -> collect ps = Some (concat D).
Proof.
  induction ps as [|p ps IH] in D |- *; intros Hl Hp; destruct D as [|d D]; try done.
  cbn [collect concat]. rewrite (Hp 0%nat p eq_refl). cbn [lookup list_lookup mbind option_bind].
  rewrite (IH D); [done|by injection Hl|]. intros i q Hq. apply (Hp (S i) q Hq).
Qed.

Lemma collect_all D h r : rx_prefix D (length D) h r -> collect (parts r) = Some (concat D).
Proof.
  intros R. apply collect_prefix; [apply (rx_length _ _ _ _ R)|]. intros i p Hp.
  rewrite (rx_part _ _ _ _ R i p Hp), decide_True; [done|].
  rewrite <- (rx_length _ _ _ _ R). by eapply lookup_lt_Some.
Qed.

(** The three length bytes of a metadata prefix. *)
Lemma metadata_length n :
  (0 <= n <= 0xFFFFFF)%Z ->
  Z.lor (Z.lor (Z.shiftl (u8 (Z.land (Z.shiftr n 16) 0xFF)) 16)
               (Z.shiftl (u8 (Z.land (Z.shiftr n 8) 0xFF)) 8)) (u8 (Z.land n 0xFF)) = n.
Proof.
  intros Hn. change 0xFF with (Z.ones 8). rewrite !Z.land_ones by done.
  unfold u8. rewrite !Zmod_mod. rewrite !Z.shiftr_div_pow2 by done.
  rewrite (shift_or (n / 2 ^ 16 mod 2 ^ 8) (Z.shiftl (n / 2 ^ 8 mod 2 ^ 8) 8) 16); [|done|].
  2: { rewrite Z.shiftl_mul_pow2 by done. pose proof (Z.mod_pos_bound (n / 2 ^ 8) (2 ^ 8) ltac:(lia)). lia. }
  rewrite Z.shiftl_mul_pow2 by done.
  replace (n / 2 ^ 16 mod 2 ^ 8 * 2 ^ 16 + n / 2 ^ 8 mod 2 ^ 8 * 2 ^ 8)%Z
    with ((n / 2 ^ 16 mod 2 ^ 8 * 2 ^ 8 + n / 2 ^ 8 mod 2 ^ 8) * 2 ^ 8)%Z by lia.
  rewrite <- Z.shiftl_mul_pow2 by done. rewrite shift_or; [|done|apply Z.mod_pos_bound; lia].
  change (2 ^ 16)%Z with (2 ^ 8 * 2 ^ 8)%Z. rewrite <- Z.div_div by lia.
  set (q := (n / 2 ^ 8)%Z).
  assert (0 <= q / 2 ^ 8 < 2 ^ 8)%Z as Hq.
  { unfold q. rewrite Z.div_div by lia. split; [apply Z.div_pos; lia|apply Z.div_lt_upper_bound; lia]. }
  rewrite (Z.mod_small (q / 2 ^ 8)) by done.
  pose proof (Z.div_mod n (2 ^ 8) ltac:(lia)). pose proof (Z.div_mod q (2 ^ 8) ltac:(lia)). unfold q in *. lia.
Qed.

(** ** Metadata *)

Record metadata_ok (md : list (bytes * bytes)) : Prop := {
  md_keys : NoDup (map fst md);
  md_size : (zlen md < 2 ^ 32)%Z;
  md_entries : Forall (fun kv => short kv.1 /\ short kv.2 /\ bytes_ok kv.1 /\ bytes_ok kv.2) md;
}.

Lemma metadata_packable md : metadata_ok md -> packable (metadata_value md).
Proof.
  intros [Hk Hs He]. unfold metadata_value.
  assert (map (fun kv => (VStr kv.1, VBin kv.2)) md =
    map (fun e => (VStr e.1, e.2)) (map (fun kv => (kv.1, VBin kv.2)) md)) as -> by (by rewrite map_map).
  apply packable_str_map.
  - unfold zlen in *. by rewrite length_map.
  - rewrite map_map. done.
  - apply Forall_fmap. eapply Forall_impl; [exact He|]. intros [k v] (H1 & H2 & _). cbn in *.
    split; [done|by constructor].
Qed.

Lemma metadata_unpacked md :
  metadata_ok md -> (Pack (metadata_value md)).2 = None /\
  exists m, Unpack (Pack (metadata_value md)).1 = Ok (VMap m) /\ metadata_entries m = md.
Proof.
  intros Hm. destruct (Unpack_Pack _ (metadata_packable md Hm)) as [He Hu]. split; [done|].
  rewrite Hu. unfold metadata_value.
  assert (map (fun kv => (VStr kv.1, VBin kv.2)) md =
    map (fun e => (VStr e.1, e.2)) (map (fun kv => (kv.1, VBin kv.2)) md)) as -> by (by rewrite map_map).
  rewrite decoded_str_map by (rewrite map_map; apply (md_keys _ Hm)). eexists. split; [done|].
  rewrite map_map. cbn [fst snd decoded]. unfold metadata_entries. clear. induction md as [|[k v] md IH]; cbn; [done|].
  by rewrite IH.
Qed.

Lemma metadata_prefix_split md prefix input md0 :
  metadata_prefix md = Ok prefix -> metadata_ok md ->
  split_metadata (negb (length md =? 0)%nat) md0 (prefix ++ input) =
    (input, if (length md =? 0)%nat then md0 else md).
Proof.
  intros Hp Hm. unfold metadata_prefix in Hp. destruct (length md =? 0)%nat eqn:E0; cbn [negb].
  { injection Hp as <-. cbn [app]. unfold split_metadata. destruct input as [|? [|? [|? ?]]]; done. }
  destruct (metadata_unpacked md Hm) as (He & m & Hu & Hent).
  destruct (Pack (metadata_value md)) as [packed [e|]]; [done|]. cbn [fst] in Hu.
  destruct (Z.ltb_spec 0xFFFFFF (zlen packed)) as [|Hn]; [done|].
  injection Hp as <-. cbn [app split_metadata]. pose proof (zlen_nonneg packed) as Hz.
  rewrite metadata_length by lia. cbn [andb].
  rewrite (proj2 (Z.leb_le _ _)) by (autorewrite with zlen; pose proof (zlen_nonneg input); lia).
  unfold slice. replace (Z.to_nat (3 + zlen packed)) with (3 + length packed)%nat by (unfold zlen; lia).
  replace (3 + length packed - 3)%nat with (length packed) by lia. cbn [skipn Nat.add].
  rewrite drop_0, take_app_length, drop_app_length, Hu, Hent. done.
Qed.

(** The packed metadata consists of bytes. *)
Lemma packStr_bytes s : bytes_ok s -> bytes_ok (packStr s).
Proof.
  intros Hs. unfold packStr. cbv zeta. apply bytes_ok_app; [|done].
  destruct (Z.ltb_spec (zlen s) 32); [|repeat case_match; eauto with go; (apply bytes_ok_cons; [done|]; eauto with go)].
  apply bytes_ok_cons; [|constructor]. pose proof (zlen_nonneg s). unfold u8. rewrite Z.mod_small by lia.
  change fixStrMin with (Z.shiftl 5 5). rewrite (shift_or 5 (zlen s) 5 ltac:(lia) ltac:(lia)). unfold is_byte. lia.
Qed.

Lemma packBin_bytes s : bytes_ok s -> bytes_ok (packBin s).
Proof.
  intros Hs. unfold packBin. cbv zeta. apply bytes_ok_app; [|done].
  repeat case_match; (apply bytes_ok_cons; [done|]; eauto with go).
Qed.

Lemma map_header_bytes l : (0 <= l)%Z -> bytes_ok (map_header l).
Proof.
  intros Hl. unfold map_header. destruct (Z.ltb_spec l 16).
  - apply bytes_ok_cons; [|constructor]. unfold u8. rewrite Z.mod_small by lia.
    change fixMapMin with (Z.shiftl 8 4). rewrite (shift_or 8 l 4 ltac:(lia) ltac:(lia)). unfold is_byte. lia.
  - case_match; (apply bytes_ok_cons; [done|]; eauto with go).
Qed.

Lemma metadata_prefix_bytes md prefix : metadata_prefix md = Ok prefix -> metadata_ok md -> bytes_ok prefix.
Proof.
  intros Hp Hm. unfold metadata_prefix in Hp. destruct (length md =? 0)%nat; [injection Hp as <-; constructor|].
  destruct (metadata_unpacked md Hm) as [He _].
  assert (bytes_ok (Pack (metadata_value md)).1) as Hb.
  { pose proof (metadata_packable md Hm) as Hpk. unfold metadata_value in *. inversion Hpk as [| | | | | | | | | | | |es Hl Hf Hd|]; subst.
    unfold Pack. rewrite pack_map_bytes; [|eapply Forall_impl; [exact Hf|]; intros e (H1 & _ & H2);
      split; by apply (packable_clean (mkOptions false false false))|done].
    apply bytes_ok_app; [apply map_header_bytes, zlen_nonneg|]. apply Forall_concat. rewrite map_map.
    apply Forall_fmap. eapply Forall_impl; [apply (md_entries _ Hm)|]. intros [k v] (_ & _ & Hk & Hv). cbn in *.
    apply bytes_ok_app; [by apply packStr_bytes|by apply packBin_bytes]. }
  destruct (Pack (metadata_value md)) as [packed [e|]]; [done|]. destruct (0xFFFFFF <? zlen packed); [done|].
  injection Hp as <-. repeat (apply bytes_ok_cons; [apply u8_is_byte|]). done.
Qed.

(** ** What the two sides start from *)

(** A random source that gave the 4 bytes of a random hash and the 16 of an
    initialization vector. *)
Record good_random (rnd : random_source) : Prop := {
  gr_hash : exists b, rnd 4%nat = Ok b /\ length b = 4%nat /\ bytes_ok b;
  gr_iv : exists b, rnd 16%nat = Ok b /\ length b = 16%nat /\ bytes_ok b;
}.

Record resource_spec (rnd : random_source) (input : bytes) (l : LinkView) (opts : ResourceOptions)
    (payload prefix stream : bytes) (t : Token) (s : Resource) : Prop := {
  sp_token : Ltoken l = Some t;
  sp_payload : choose_payload (normalized opts) input = Ok (payload, compressed s);
  sp_prefix : metadata_prefix (OMetadata opts) = Ok prefix;
  sp_random : rnd 4%nat = Ok (randomHash s);
  sp_stream : Encrypt rnd t (randomHash s ++ prefix ++ payload) = Ok stream;
  sp_hash : hash s = FullHash ((prefix ++ input) ++ randomHash s);
  sp_proof : expectedProof s = FullHash ((prefix ++ input) ++ hash s);
  sp_sizes : size s = zlen stream /\ uncompressedSize s = zlen input;
  sp_parts : parts s = map (make_part (randomHash s) stream (zlen stream) (sender_sdu l))
    (seq 0 (Z.to_nat (part_count (zlen stream) (sender_sdu l))));
  sp_hashmap : hashmap s = map PMapHash (parts s);
  sp_total : totalParts s = part_count (zlen stream) (sender_sdu l);
  sp_metadata : metadata s = OMetadata opts;
  sp_fresh : encrypted s = true /\ requestID s = None /\ originalHash s = hash s /\
    receiverMinConsecutiveHeight s = 0%Z;
}.

Lemma newResource_spec rnd input l opts s :
  newResourceWithOptions rnd input l opts = Ok s ->
  exists payload prefix stream t, resource_spec rnd input l opts payload prefix stream t s.
Proof.
  unfold newResourceWithOptions. destruct (LActive l); cbn [negb]; [|done].
  destruct (choose_payload _ _) as [[payload small]| |] eqn:E1; cbn [mbind res_bind]; try done.
  destruct (metadata_prefix _) as [prefix| |] eqn:E2; cbn [mbind res_bind]; try done.
  change (Z.to_nat ResourceRandomHashSize) with 4%nat.
  destruct (rnd 4%nat) as [rh| |] eqn:E3; cbn [mbind res_bind]; try done.
  unfold link_Encrypt. destruct (Ltoken l) as [t|] eqn:E4; cbn [mbind res_bind]; [|done].
  destruct (Encrypt rnd t _) as [stream| |] eqn:E5; cbn [mbind res_bind]; try done.
  intros [= <-]. exists payload, prefix, stream, t. by split.
Qed.

(** The parts a resource offers. *)
Definition offered (s : Resource) : list bytes := map PData (parts s).

Lemma spec_tx rnd input l opts payload prefix stream t s :
  resource_spec rnd input l opts payload prefix stream t s ->
  tx_ok (offered s) s /\ concat (offered s) = stream /\ totalParts s = zlen (offered s) /\
  (zlen (offered s) <= zlen stream)%Z /\ (0 < zlen stream -> 0 < zlen (offered s))%Z.
Proof.
  intros Sp. pose proof (sender_sdu_pos l) as Hs. pose proof (zlen_nonneg stream) as Hz.
  destruct (part_count_spec (zlen stream) (sender_sdu l) Hs Hz) as [Hc1 Hc2].
  assert (offered s = map (part_slice stream (zlen stream) (sender_sdu l))
    (seq 0 (Z.to_nat (part_count (zlen stream) (sender_sdu l))))) as Eo.
  { unfold offered. rewrite (sp_parts _ _ _ _ _ _ _ _ _ Sp), map_map. done. }
  assert (length (offered s) = Z.to_nat (part_count (zlen stream) (sender_sdu l))) as El.
  { rewrite Eo, length_map, length_seq. done. }
  split_and!.
  - split.
    + unfold offered. by rewrite length_map.
    + intros i p Hp. unfold offered. rewrite list_lookup_fmap, Hp. split; [done|].
      rewrite (sp_parts _ _ _ _ _ _ _ _ _ Sp), list_lookup_fmap in Hp.
      apply fmap_Some in Hp as (j & _ & ->). done.
    + rewrite (sp_hashmap _ _ _ _ _ _ _ _ _ Sp). unfold map_hashes, offered. rewrite map_map.
      rewrite (sp_parts _ _ _ _ _ _ _ _ _ Sp), !map_map. done.
  - rewrite Eo, parts_concat by lia. done.
  - rewrite (sp_total _ _ _ _ _ _ _ _ _ Sp). unfold zlen at 2. rewrite El. lia.
  - unfold zlen at 1. rewrite El, Z2Nat.id by done. unfold part_count.
    destruct (Z.eq_dec (zlen stream) 0) as [->|]; [by rewrite Z.div_small by lia|].
    apply Z.div_le_upper_bound; [done|nia].
  - intros Hpos. unfold zlen at 1. rewrite El, Z2Nat.id by done. nia.
Qed.

Lemma split_hashes_segment rh L n :
  (length L <= n)%nat -> split_hashes n (concat (map_hashes rh L)) = map_hashes rh L ++ replicate (n - length L) [].
Proof.
  induction L as [|d L IH] in n |- *; intros Hl.
  - cbn [map_hashes map concat length app]. rewrite Nat.sub_0_r. by destruct n.
  - destruct n as [|n]; cbn in Hl; [lia|]. cbn [map_hashes map concat split_hashes length Nat.sub]. fold (map_hashes rh L).
    rewrite (proj2 (Nat.ltb_ge _ _)) by (rewrite length_app, getMapHash_length; lia).
    rewrite take_app_length', drop_app_length' by (symmetry; apply getMapHash_length). rewrite IH by lia. done.
Qed.

Lemma filter_known rh L k :
  length (filter (fun h => h <> []) (map_hashes rh L ++ replicate k [])) = length L.
Proof.
  rewrite filter_app, length_app.
  assert (filter (fun h : bytes => h <> []) (replicate k []) = []) as ->.
  { induction k as [|k IH]; [done|]. cbn [replicate]. rewrite filter_cons_False; [done|]. by intros []. }
  cbn [length]. rewrite Nat.add_0_r. induction L as [|d L IH]; [done|]. cbn [map_hashes map]. fold (map_hashes rh L).
  rewrite filter_cons_True; [cbn [length]; by rewrite IH|]. intros E.
  pose proof (getMapHash_length rh d) as Hl. by rewrite E in Hl.
Qed.

Lemma accepted_prefix D adv now l cb progress packet :
  N adv = zlen D -> AM adv = concat (map_hashes (AR adv) (take 74 D)) -> (0 < length D)%nat ->
  let r := accepted_resource now l cb progress packet adv in
  rx_prefix D 0 (Nat.min 74 (length D)) r /\ waitingForHmu r = false.
Proof.
  intros HN HM Hpos. cbv zeta. split; [|done]. set (r := accepted_resource _ _ _ _ _ _).
  assert (hashmap r = map_hashes (AR adv) (take 74 D) ++ replicate (length D - Nat.min 74 (length D)) []) as Eh.
  { change (hashmap r) with (split_hashes (Z.to_nat (N adv)) (AM adv)). rewrite HN, HM. unfold zlen. rewrite Nat2Z.id.
    rewrite split_hashes_segment by (rewrite length_take; lia). by rewrite length_take. }
  assert (length (hashmap r) = length D) as El.
  { rewrite Eh, length_app, length_replicate. unfold map_hashes. rewrite length_map, length_take. lia. }
  assert (parts r = imap (fun i h => mkPart [] None h (Z.of_nat i) false) (hashmap r)) as Ep by done.
  split; try done.
  - by rewrite Ep, length_imap.
  - intros i p. rewrite Ep, list_lookup_imap. intros Hp. rewrite decide_False by lia.
    by apply fmap_Some in Hp as (h & _ & ->).
  - rewrite Eh. f_equal. unfold map_hashes. rewrite <- fmap_take. symmetry.
    change (randomHash r) with (AR adv). destruct (decide (74 <= length D)%nat); [by rewrite Nat.min_l|].
    rewrite Nat.min_r by lia. rewrite !take_ge; [done|..]; rewrite ?length_map; lia.
  - change (hashmapHeight r) with (Z.of_nat (length (filter (fun h => h <> []) (hashmap r)))).
    rewrite Eh, filter_known, length_take. done.
  - lia.
  - change (assemblyLock r) with false. symmetry. apply bool_decide_eq_false. lia.
Qed.

(** A resource's way to its peer over a reliable network: advertised,
    accepted, transferred, assembled and proved. *)
Definition deliver_resource (fuel : nat) (now : Z) (order : list (value * value) -> list (value * value))
    (l : LinkView) (s : Resource) : Resource * option Resource :=
  match Advertise order reliable now s with
  | (s, [EvPacket _ _ packet], Ok tt) =>
      match Accept reliable now l true true true packet [] with
      | ([r], ev, Ok _) =>
          let '(s, r, _) := transfer fuel now l (filter is_packet ev) s r in (s, Some r)
      | _ => (s, None)
      end
  | (s, _, _) => (s, None)
  end.

Lemma choose_payload_stream opts input payload small :
  choose_payload (normalized opts) input = Ok (payload, small) -> bytes_ok input ->
  (AutoCompressLimit (normalized opts) <= ResourceAutoCompressMaxSize)%Z ->
  bytes_ok payload /\
  (if small then DecompressBzip2WithLimit payload ResourceAutoCompressMaxSize else Ok payload) = Ok input.
Proof.
  intros Hc Hb Hl. unfold choose_payload in Hc.
  destruct (AutoCompress (normalized opts) && _) eqn:E; [|by injection Hc as <- <-].
  apply andb_true_iff in E as [_ E%Z.leb_le].
  destruct (CompressBzip2 input) as [c| |] eqn:Ec; cbn [map_err mbind res_bind] in Hc; try done.
  destruct (zlen c <? zlen input); injection Hc as <- <-; [|done].
  split; [by apply (bz_bytes input)|]. unfold DecompressBzip2WithLimit.
  rewrite (bz_roundtrip input c Ec). rewrite (proj2 (Z.ltb_ge _ _)); [done|]. unfold ResourceAutoCompressMaxSize in *. lia.
Qed.

(** The stream of a resource opens to the random hash, the metadata prefix and
    the payload. *)
Lemma stream_opens rnd key input l opts payload prefix stream t s :
  resource_spec rnd input l opts payload prefix stream t s -> NewToken key = Ok t -> good_random rnd ->
  bytes_ok input -> metadata_ok (OMetadata opts) ->
  (AutoCompressLimit (normalized opts) <= ResourceAutoCompressMaxSize)%Z ->
  length (randomHash s) = 4%nat /\ (0 < zlen stream)%Z /\ 
  Decrypt t stream = Ok (randomHash s ++ prefix ++ payload).
Proof.
  intros Sp Ht [(rh & Erh & Hr4 & Hrb) (iv & Eiv & Hlen & Hivb)] Hin Hmd Hlim.
  destruct (choose_payload_stream _ _ _ _ (sp_payload _ _ _ _ _ _ _ _ _ Sp) Hin Hlim) as [Hpb _].
  assert (rh = randomHash s) as -> by (pose proof (sp_random _ _ _ _ _ _ _ _ _ Sp); congruence).
  pose proof (metadata_prefix_bytes _ _ (sp_prefix _ _ _ _ _ _ _ _ _ Sp) Hmd) as Hprb.
  destruct (Token_opens rnd key t iv (randomHash s ++ prefix ++ payload) Ht Eiv Hlen Hivb) as (tok & E1 & E2 & E3);
    [by repeat apply bytes_ok_app|].
  rewrite (sp_stream _ _ _ _ _ _ _ _ _ Sp) in E1. injection E1 as <-. split; [done|]. split; [|done].
  rewrite E3. unfold TokenOverhead.
  pose proof (Z.div_pos (zlen (randomHash s ++ prefix ++ payload)) 16 (zlen_nonneg _)). lia.
Qed.

(** Assembly up to the decompression. *)
Lemma Assemble_opened send now l r assembled t rh full :
  collect (parts r) = Some assembled -> encrypted r = true -> Ltoken l = Some t ->
  Decrypt t assembled = Ok (rh ++ full) -> length rh = 4%nat ->
  Assemble send now l r =
    let r := r <| status := ResourceStatusAssembling |> in
    let maxLen := if maxDecompressedSize r <=? 0 then ResourceAutoCompressMaxSize else maxDecompressedSize r in
    let corrupt := r <| status := ResourceStatusCorrupt |> in
    match (if compressed r then DecompressBzip2WithLimit full maxLen else Ok full) with
    | Panic => Panic
    | Err e => if bool_decide (e = ErrDecompressedTooLarge)
               then Ok (corrupt, cancelCorruptLocked send corrupt)
               else Ok (r <| status := ResourceStatusFailed |>, [])
    | Ok full =>
        if negb (bytes_eqb (FullHash (full ++ randomHash r)) (hash r)) then Ok (corrupt, [])
        else
          let '(payload, md) := split_metadata (hasMetadata r) (metadata r) full in
          let r := r <| metadata := md |> <| data := full |> <| status := ResourceStatusComplete |> in
          Ok (r <| data := payload |>, recordExpectedRate now r ++ prove send r ++ notify_callback r)
    end.
Proof.
  intros Hp He Hl Hd Hr. unfold Assemble. set (ra := r <| status := ResourceStatusAssembling |>).
  change (parts ra) with (parts r). rewrite Hp. change (encrypted ra) with (encrypted r). rewrite He, Hl, Hd.
  rewrite (proj2 (Z.ltb_ge _ _)) by (autorewrite with zlen; unfold zlen at 1; rewrite Hr;
    pose proof (zlen_nonneg full); unfold ResourceRandomHashSize; lia).
  change (Z.to_nat ResourceRandomHashSize) with 4%nat. by rewrite (drop_app_length' _ _ _ (eq_sym Hr)).
Qed.

Lemma Assemble_delivers rnd key input l l' opts payload prefix stream t s h r now :
  resource_spec rnd input l opts payload prefix stream t s -> NewToken key = Ok t -> Ltoken l' = Some t ->
  good_random rnd -> bytes_ok input -> metadata_ok (OMetadata opts) ->
  OMetadata opts = [] \/ compressed s = false ->
  (AutoCompressLimit (normalized opts) <= ResourceAutoCompressMaxSize)%Z ->
  rx_prefix (offered s) (length (offered s)) h r ->
  hash r = hash s -> randomHash r = randomHash s -> encrypted r = true -> compressed r = compressed s ->
  hasMetadata r = negb (length (OMetadata opts) =? 0)%nat -> maxDecompressedSize r = 0%Z -> metadata r = [] ->
  exists r2 out, Assemble reliable now l' r = Ok (r2, out) /\
    (status r2 = ResourceStatusComplete /\ data r2 = input /\ metadata r2 = OMetadata opts) /\
    filter is_packet out = [EvPacket ContextResourcePrf PacketProof (hash s ++ expectedProof s)].
Proof.
  intros Sp Ht Hl Hrnd Hin Hmd Hmc Hlim R Eh Er Ee Ec Ehm Emx Em.
  destruct (spec_tx _ _ _ _ _ _ _ _ _ Sp) as (_ & Hconcat & _).
  destruct (choose_payload_stream opts input payload (compressed s) (sp_payload _ _ _ _ _ _ _ _ _ Sp) Hin Hlim)
    as [Hpb Hdec].
  pose proof (sp_prefix _ _ _ _ _ _ _ _ _ Sp) as Hpre.
  destruct (stream_opens _ _ _ _ _ _ _ _ _ _ Sp Ht Hrnd Hin Hmd Hlim) as (Hr4 & _ & Hopen).
  assert ((if compressed s then DecompressBzip2WithLimit (prefix ++ payload) ResourceAutoCompressMaxSize
           else Ok (prefix ++ payload)) = Ok (prefix ++ input)) as Hfull.
  { destruct (compressed s); [|by injection Hdec as ->].
    destruct Hmc as [Hmc|]; [|done]. rewrite Hmc in Hpre. injection Hpre as <-. exact Hdec. }
  pose proof (collect_all _ _ _ R) as Hcol. rewrite Hconcat in Hcol.
  rewrite (Assemble_opened reliable now l' r _ t _ _ Hcol Ee Hl Hopen Hr4). cbv zeta.
  set (ra := r <| status := ResourceStatusAssembling |>).
  change (maxDecompressedSize ra) with (maxDecompressedSize r). rewrite Emx. cbn [Z.leb Z.compare].
  change (compressed ra) with (compressed r). rewrite Ec, Hfull.
  change (randomHash ra) with (randomHash r). change (hash ra) with (hash r).
  rewrite Er, Eh, (sp_hash _ _ _ _ _ _ _ _ _ Sp), bytes_eqb_refl. cbn [negb].
  change (hasMetadata ra) with (hasMetadata r). change (metadata ra) with (metadata r).
  rewrite Ehm, Em, (metadata_prefix_split _ _ _ _ Hpre Hmd).
  rewrite <- (sp_hash _ _ _ _ _ _ _ _ _ Sp).
  eexists _, _. split; [reflexivity|]. split.
  { split; [done|]. split; [done|]. cbn. destruct (OMetadata opts); done. }
  unfold prove, recordExpectedRate, notify_callback. cbn -[filter FullHash Nat.eqb].
  rewrite Eh. rewrite (proj2 (Nat.eqb_neq _ _)).
  2: { rewrite (sp_hash _ _ _ _ _ _ _ _ _ Sp). unfold FullHash. by rewrite sha256_length. }
  rewrite (sp_proof _ _ _ _ _ _ _ _ _ Sp).
  destruct ((size r <=? 0) || IsZero (startedTransferring r)), (callback r); done.
Qed.

(** What a sender advertises. *)
Lemma advertisement_ok rnd input l opts payload prefix stream t s :
  resource_spec rnd input l opts payload prefix stream t s -> length (randomHash s) = 4%nat ->
  (totalParts s <= ResourceMaxParts)%Z -> (size s < 2 ^ 63)%Z -> (zlen input < 2 ^ 63)%Z ->
  (0 < length (offered s))%nat ->
  adv_ok (advertisement s) /\
  AM (advertisement s) = concat (map_hashes (randomHash s) (take 74 (offered s))).
Proof.
  intros Sp Hr Hmax Hsz Hin Hpos. destruct (spec_tx _ _ _ _ _ _ _ _ _ Sp) as (Tx & _ & Htot & Hle & _).
  destruct (sp_sizes _ _ _ _ _ _ _ _ _ Sp) as [Es Eu].
  destruct (sp_fresh _ _ _ _ _ _ _ _ _ Sp) as (_ & Eq & Eo & _).
  assert (length (hash s) = 32%nat) as Hh.
  { rewrite (sp_hash _ _ _ _ _ _ _ _ _ Sp). apply sha256_length. }
  assert (AM (advertisement s) = concat (map_hashes (randomHash s) (take 74 (offered s)))) as EM.
  { change (AM (advertisement s)) with (concat (hashmapSegment (hashmap s) 0)).
    rewrite (tx_hashmap _ _ Tx), (hashmapSegment_at _ _ 0), segment_hashes_eq by lia. by rewrite drop_0. }
  split; [|done]. pose proof (zlen_nonneg (offered s)). pose proof (zlen_nonneg input). split.
  - change (Forall int64_ok [size s; uncompressedSize s; totalParts s; 1; 1]).
    unfold ResourceMaxParts in Hmax. rewrite Es in *. rewrite Eu. pose proof (zlen_nonneg stream).
    repeat (apply Forall_cons; split; [unfold int64_ok; lia|]). constructor.
  - rewrite Forall_forall. intros b Hb. unfold short.
    repeat (apply elem_of_cons in Hb as [->|Hb]); [..|by apply elem_of_nil in Hb].
    1-4: unfold zlen; cbn [advertisement AH AR AO AQ]; rewrite ?Eq, ?Eo, ?Hh, ?Hr; done.
    rewrite EM, concat_hashes_length. unfold zlen. rewrite length_take. lia.
  - change (0 <= totalParts s <= ResourceMaxParts)%Z. lia.
  - change (0 < size s -> totalParts s <= size s)%Z. lia.
Qed.

Lemma Advertise_sends order s now b :
  buildAdvertisementPacket order s = Ok b ->
  exists s', Advertise order reliable now s = (s', [EvPacket ContextResourceAdv PacketData b], Ok tt) /\
    statics s' = statics s /\ parts s' = parts s /\ hashmap s' = hashmap s /\
    receiverMinConsecutiveHeight s' = receiverMinConsecutiveHeight s /\ status s' = ResourceStatusAdvertised.
Proof. intros E. unfold Advertise. rewrite E. cbn [reliable]. eexists. by split. Qed.

Lemma Accept_requests adv b now l D h :
  UnpackResourceAdvertisement b = Ok adv -> N adv = zlen D ->
  AM adv = concat (map_hashes (AR adv) (take 74 D)) -> (0 < length D)%nat -> h = Nat.min 74 (length D) ->
  exists r q ev, Accept reliable now l true true true b [] = ([r], ev, Ok 0%nat) /\
    filter is_packet ev = [q] /\ pending D 0 h r q /\
    statics r = statics (accepted_resource now l true true b adv).
Proof.
  intros Eu HN HM Hpos ->. destruct (accepted_prefix D adv now l true true b HN HM Hpos) as [R W].
  destruct (requestNext_pending D 0 (Nat.min 74 (length D)) _ now R Hpos) as (r & q & E & P & S1); [lia| |done|].
  { destruct (decide (74 <= length D)%nat); [right; by rewrite Nat.min_l|left; lia]. }
  unfold Accept. rewrite Eu. cbn [list_find]. rewrite E. exists r, q, [Started; q].
  split; [done|]. split; [|done]. rewrite (pd_request _ _ _ _ _ P). done.
Qed.

(** C4: a resource sent over a link whose two ends share a session key, whose
    packets all arrive in order, is delivered: the exchange of advertisement,
    requests, parts, hashmap updates and proof ends within two rounds per
    part, both ends are then complete, and the receiver holds exactly the data
    and the metadata given to the sender.  It is required that the 4-byte map
    hashes of the parts differ, that there is no metadata or the stream is not
    compressed (the receiver fails to decompress one that starts with
    metadata), that the sender's limit for automatic compression is at most
    64 MiB, that there are at most [ResourceMaxParts] parts, and that sizes are
    below 2^63. *)
Theorem resource_transfer_completes rnd key t input l l' opts s order now fuel :
  NewToken key = Ok t -> Ltoken l = Some t -> Ltoken l' = Some t ->
  good_random rnd -> bytes_ok input -> metadata_ok (OMetadata opts) ->
  newResourceWithOptions rnd input l opts = Ok s ->
  OMetadata opts = [] \/ compressed s = false ->
  (AutoCompressLimit (normalized opts) <= ResourceAutoCompressMaxSize)%Z ->
  (totalParts s <= ResourceMaxParts)%Z -> (size s < 2 ^ 63)%Z -> (zlen input < 2 ^ 63)%Z ->
  NoDup (hashmap s) -> (forall es, order es ≡ₚ es) ->
  (2 * Z.to_nat (totalParts s) + 2 <= fuel)%nat ->
  exists s' r', deliver_resource fuel now order l' s = (s', Some r') /\
    status s' = ResourceStatusComplete /\ status r' = ResourceStatusComplete /\
    data r' = input /\ metadata r' = OMetadata opts.
Proof.
  intros Ht Hl Hl' Hrnd Hin Hmd Hnew Hmc Hlim Hmax Hsz Hinl Hnd Hord Hfuel.
  destruct (newResource_spec _ _ _ _ _ Hnew) as (payload & prefix & stream & t' & Sp).
  assert (t' = t) as -> by (pose proof (sp_token _ _ _ _ _ _ _ _ _ Sp); congruence).
  destruct (spec_tx _ _ _ _ _ _ _ _ _ Sp) as (Tx & Hcc & Htot & Hle & Hpos0).
  destruct (stream_opens _ _ _ _ _ _ _ _ _ _ Sp Ht Hrnd Hin Hmd Hlim) as (Hr4 & Hsp & _).
  assert (0 < length (offered s))%nat as Hpos by (unfold zlen in *; lia).
  destruct (advertisement_ok _ _ _ _ _ _ _ _ _ Sp Hr4 Hmax Hsz Hinl Hpos) as [Hadv HAM].
  destruct (Adv_roundtrip order (advertisement s) Hord Hadv) as (b & Eb & Eu).
  set (adv := (advertisement s) <| AF := adv_flags (advertisement s) |>) in Eu.
  destruct (Advertise_sends order s now b Eb) as (s1 & E1 & St1 & P1 & H1 & M1 & Q1).
  destruct (Accept_requests adv b now l' (offered s) _ Eu Htot HAM Hpos eq_refl) as (r & q & ev & E2 & Hev & Pd & Sr).
  unfold deliver_resource. rewrite E1, E2, Hev.
  destruct (sp_fresh _ _ _ _ _ _ _ _ _ Sp) as (Ee & Eq & Eo & Er).
  unfold statics in Sr, St1. cbn -[offered advertisement] in Sr.
  change (AH adv) with (hash s) in Sr. change (AR adv) with (randomHash s) in Sr.
  change (AEncrypted adv) with (encrypted s) in Sr. change (ACompressed adv) with (compressed s) in Sr.
  change (AHasMetadata adv) with (negb (length (metadata s) =? 0)%nat) in Sr.
  injection Sr as Ri Rh Rr Rp Re Rc Rm Rx Rt Rd. injection St1 as Si Sh1 Sr1 Sp1 Se Sc Sm Sx St Sd.
  destruct (transfer_completes (fun r2 => status r2 = ResourceStatusComplete /\ data r2 = input /\
    metadata r2 = OMetadata opts) (offered s) 0 (Nat.min 74 (length (offered s))) s1 r q now l' fuel)
    as (s2 & r2 & ET & Hs2 & Hr2).
  - rewrite Rr. rewrite <- (tx_hashmap _ _ Tx). done.
  - by rewrite <- Htot.
  - rewrite Rh, (sp_hash _ _ _ _ _ _ _ _ _ Sp). apply sha256_length.
  - rewrite Sp1, (sp_proof _ _ _ _ _ _ _ _ _ Sp). apply sha256_length.
  - done.
  - split; [|congruence|congruence|by rewrite Q1|].
    + destruct Tx as [T1 T2 T3]. split; rewrite ?P1, ?H1, ?Sr1; done.
    + intros _. rewrite M1, Er. lia.
  - intros h' r' R' S'. unfold statics in S'. injection S' as ? ? ? ? ? ? ? ? ? ?.
    destruct (Assemble_delivers rnd key input l l' opts payload prefix stream t s h' r' now Sp Ht Hl' Hrnd Hin Hmd
      Hmc Hlim R') as (r2 & out & EA & HG & Ho); try congruence.
    + rewrite <- (sp_metadata _ _ _ _ _ _ _ _ _ Sp). congruence.
    + exists r2, out. split; [done|]. split; [done|]. rewrite Ho. congruence.
  - unfold todo. rewrite decide_False by lia. rewrite Htot in Hfuel. unfold zlen in Hfuel. lia.
  - rewrite ET. exists s2, r2. destruct Hr2 as (? & ? & ?). done.
Qed.
End Transfer.

(** ** Witnesses *)

Module ToyResource.
Import ToyCrypto ToyBzip2.
Definition view : LinkView := mkLinkView true 0.5%float 100 431 6%float 0%float (Some tok).
Definition opts : ResourceOptions := mkOpts true 0 [([110; 97; 109; 101], [1; 2; 3])]%Z.
Definition input : bytes := seqZ 1 90.
Definition sent : Resource :=
  match newResourceWithOptions rnd input view opts with Ok s => s | _ => zeroResource end.
End ToyResource.

Section TransferWitnesses.
Import ToyCrypto ToyBzip2 ToyResource.

Lemma resource_transfer_completes_witness :
  totalParts sent = 3%Z /\
  exists s' r', deliver_resource 8 0 id view sent = (s', Some r') /\
    status s' = ResourceStatusComplete /\ status r' = ResourceStatusComplete /\
    data r' = input /\ metadata r' = OMetadata opts.
Proof.
  split; [vm_compute; reflexivity|].
  apply (resource_transfer_completes rnd key tok input view view opts sent id 0 8); try reflexivity.
  - split; [exists (replicate 4 9)%Z|exists (replicate 16 9)%Z]; by repeat split; apply (bool_decide_unpack _).
  - apply (bool_decide_unpack _). vm_compute. exact I.
  - split; [apply (bool_decide_unpack _); vm_compute; exact I|reflexivity|].
    constructor; [|constructor]. split; [reflexivity|]. split; [reflexivity|]. split; apply (bool_decide_unpack _); exact I.
  - right. vm_compute. reflexivity.
  - vm_compute. discriminate.
  - apply (bool_decide_unpack _). vm_compute. exact I.
Defined.
End TransferWitnesses.
