(* ===== verification/ResourceSafety.v ===== *)
(** * Resources under any traffic

    What [rns/resource.go] guarantees whatever a peer sends and however the
    goroutines interleave: the receiver's counters and windows
    ([resource_receiver_invariant]), the integrity of a completed resource
    ([resource_integrity]), the end of a silent transfer
    ([resource_watchdog_gives_up]), and two ways a transfer cannot succeed
    ([compressed_with_metadata_fails], [equal_map_hashes_stall]). *)

From stdpp Require Import base tactics option list relations.
From Stdlib Require Import ZArith Lia PrimFloat.
From S2P Require Import Prelude Clock Crypto Packet Channel Buffer Msgpack Resource ResourceTransfer.
Local Open Scope Z_scope.
Local Open Scope go_scope.

(** ** Received parts *)

Definition arrived (ps : list ResourcePart) (i : nat) : Prop :=
  exists p d, ps !! i = Some p /\ ReceivedData p = Some d.

Lemma received_run_ge ps k : (forall j, (j < k)%nat -> arrived ps j) -> (k <= received_run ps)%nat.
Proof.
  induction ps as [|p ps IH] in k |- *; intros Hk; destruct k as [|k]; [lia| |lia|].
  - destruct (Hk 0%nat) as (? & ? & ? & ?); [lia|done].
  - destruct (Hk 0%nat) as (q & d & Hq & Hd); [lia|]. injection Hq as <-. cbn. rewrite Hd.
    apply le_n_S, IH. intros j Hj. destruct (Hk (S j)) as (q & e & Hq & He); [lia|]. by exists q, e.
Qed.

Lemma received_run_arrived ps j : (j < received_run ps)%nat -> arrived ps j.
Proof.
  induction ps as [|p ps IH] in j |- *; cbn; [lia|]. destruct (ReceivedData p) as [d|] eqn:E; [|lia].
  destruct j as [|j]; [by exists p, d|]. intros Hj. destruct (IH j) as (q & e & Hq & He); [lia|]. by exists q, e.
Qed.

Lemma received_run_split ps k :
  (k <= received_run ps)%nat -> received_run ps = (k + received_run (drop k ps))%nat.
Proof.
  induction ps as [|p ps IH] in k |- *; destruct k as [|k]; try done; cbn; [lia|].
  destruct (ReceivedData p); [|lia]. intros Hk. by rewrite <- IH by lia.
Qed.

Lemma received_run_length ps : (received_run ps <= length ps)%nat.
Proof. induction ps as [|p ps IH]; cbn; [done|]. destruct (ReceivedData p); lia. Qed.

Fixpoint received_total (ps : list ResourcePart) : nat :=
  match ps with
  | [] => O
  | p :: ps' => (match ReceivedData p with Some _ => 1 | None => 0 end + received_total ps')%nat
  end.

Lemma received_total_insert ps i p q d :
  ps !! i = Some p -> ReceivedData p = None -> ReceivedData q = Some d ->
  received_total (<[i := q]> ps) = S (received_total ps).
Proof.
  intros Hi Hp Hq. induction ps as [|x ps IH] in i, Hi |- *; [done|]. destruct i as [|i].
  - injection Hi as ->. cbn. by rewrite Hp, Hq.
  - change (<[S i := q]> (x :: ps)) with (x :: <[i := q]> ps). cbn [received_total].
    rewrite (IH i Hi). lia.
Qed.

Lemma received_total_length ps : (received_total ps <= length ps)%nat.
Proof. induction ps as [|p ps IH]; cbn; [done|]. destruct (ReceivedData p); lia. Qed.

(** The number of known map hashes. *)
Fixpoint known_hashes (hm : list bytes) : nat :=
  match hm with
  | [] => O
  | h :: hm' => ((if (length h =? 0)%nat then 0 else 1) + known_hashes hm')%nat
  end.

Lemma known_hashes_insert hm i h x :
  hm !! i = Some x -> h <> [] ->
  known_hashes (<[i := h]> hm) = (known_hashes hm + match x with [] => 1 | _ => 0 end)%nat.
Proof.
  intros Hi Hh. induction hm as [|y hm IH] in i, Hi |- *; [done|]. destruct i as [|i].
  - injection Hi as ->. destruct h; [done|]. destruct x; cbn; lia.
  - change (<[S i := h]> (y :: hm)) with (y :: <[i := h]> hm). cbn [known_hashes]. rewrite (IH i Hi). lia.
Qed.

Lemma known_hashes_filter hm : length (filter (fun h : bytes => h <> []) hm) = known_hashes hm.
Proof.
  induction hm as [|h hm IH]; [done|]. destruct h as [|b h]; cbn [known_hashes length Nat.eqb].
  - rewrite filter_cons_False by (by intros []). done.
  - rewrite filter_cons_True by done. cbn [length]. by rewrite IH.
Qed.

Lemma find_hash_range n i hm h k : find_hash n i hm h = Some k -> (i <= k < i + n)%nat /\ default [] (hm !! k) = h.
Proof.
  induction n as [|n IH] in i |- *; cbn; [done|]. destruct (bytes_eqb _ _) eqn:E.
  - intros [= <-]. split; [lia|]. by apply bytes_eqb_eq.
  - intros Hf. destruct (IH (S i) Hf). split; [lia|done].
Qed.

Lemma scan_window_bound n i ps hm w hs req :
  (0 <= req < w)%Z -> (0 <= (scan_window n i ps hm w hs req).1.2 <= w)%Z.
Proof.
  induction n as [|n IH] in i, hs, req |- *; intros Hr; cbn [scan_window]; [cbn; lia|].
  set (missing := match ps !! i with Some p => _ | None => true end). clearbody missing.
  destruct (missing && _); [cbn; lia|].
  destruct (Z.leb_spec w (if missing then req + 1 else req)); [cbn; destruct missing; lia|].
  apply IH. destruct missing; lia.
Qed.

Section Safety.
Context `{Sh : Sha256} {ShL : Sha256Laws} `{Ci : BlockCipher} `{Bz : Bzip2}.

(** One thing that happens to a receiving resource: a part with any content
    arrives, a spawned request or assembly runs, it is cancelled, or its
    watchdog runs; at any time, over a link in any state, whatever the link
    accepts. *)
Inductive part_step : Resource -> Resource -> Prop :=
  | st_part now d r : part_step r (ReceivePart now d r).1.1
  | st_request send now r : part_step r (requestNextLockedAt send now r).1.1
  | st_assemble send now l r r' ev : Assemble send now l r = Ok (r', ev) -> part_step r r'
  | st_cancel send now l r : part_step r (Cancel send now l r).1
  | st_watchdog order send now l r : part_step r (watchdogStep order send now l r).1.1.

(** Or a hashmap update with any content arrives. *)
Inductive rx_step : Resource -> Resource -> Prop :=
  | st_other r r' : part_step r r' -> rx_step r r'
  | st_hmu send now d r : rx_step r (hashmapUpdateLocked send now d r).1.1.

(** What every operation of a receiver keeps: the resource's identity, and
    the data of a resource that is still complete afterwards. *)
Record kept (r r' : Resource) : Prop := {
  kept_hash : hash r' = hash r;
  kept_random : randomHash r' = randomHash r;
  kept_has : hasMetadata r' = hasMetadata r;
  kept_complete : status r' = ResourceStatusComplete ->
    status r = ResourceStatusComplete /\ data r' = data r;
}.

(** The receiver's counters and windows. *)
Record rx_inv (r : Resource) : Prop := {
  ri_role : initiator r = false;
  ri_window : (2 <= windowMin r /\ windowMin r <= window r /\ window r <= windowMax r /\ windowMax r <= 10)%Z;
  ri_flexibility : windowFlexibility r = ResourceWindowFlexibility;
  ri_hashmap : length (hashmap r) = length (parts r);
  ri_total : totalParts r = zlen (parts r);
  ri_count : receivedCount r = Z.of_nat (received_total (parts r));
  ri_run : consecutiveCompletedHeight r = Z.of_nat (received_run (parts r)) - 1;
  ri_height : hashmapHeight r = Z.of_nat (known_hashes (hashmap r));
  ri_outstanding : (0 <= outstandingParts r <= 10)%Z;
  ri_retries : (0 <= retriesLeft r <= ResourceMaxRetries)%Z /\ maxRetries r = ResourceMaxRetries;
}.

Lemma kept_refl r : kept r r.
Proof. by split. Qed.

Lemma kept_trans r1 r2 r3 : kept r1 r2 -> kept r2 r3 -> kept r1 r3.
Proof.
  intros [A1 A2 A3 A4] [B1 B2 B3 B4]. split; try congruence. intros Hs. destruct (B4 Hs) as [Hs2 ->]. auto.
Qed.

(** The two facts together. *)
Definition safe (r r' : Resource) : Prop := kept r r' /\ (rx_inv r -> rx_inv r').

Lemma safe_refl r : safe r r.
Proof. split; [apply kept_refl|done]. Qed.

Lemma safe_trans r1 r2 r3 : safe r1 r2 -> safe r2 r3 -> safe r1 r3.
Proof. intros [A1 A2] [B1 B2]. split; [by eapply kept_trans|auto]. Qed.

(** Updates of other fields. *)
Ltac keep := split; [by split|by intros []; split].

Lemma safe_status r s : s <> ResourceStatusComplete -> safe r (r <| status := s |>).
Proof. intros Hs. split; [by split|by intros []; split]. Qed.

Lemma safe_cancel r : safe r (cancelLocked r).
Proof. unfold cancelLocked. case_match; [by apply safe_status|apply safe_refl]. Qed.

Lemma safe_waiting r b : safe r (r <| waitingForHmu := b |>).
Proof. keep. Qed.

Lemma safe_activity r n : safe r (r <| lastActivity := n |>).
Proof. keep. Qed.

Lemma safe_outstanding r n : (0 <= n <= 10)%Z -> safe r (r <| outstandingParts := n |>).
Proof. intros Hn. split; [by split|by intros []; split]. Qed.

Lemma safe_eifr r e : safe r (r <| eifr := e |>).
Proof. keep. Qed.

Lemma safe_retry r : safe r (r <| retriesLeft := maxRetries r |>).
Proof.
  split; [by split|]. intros [? ? ? ? ? ? ? ? ? [? E]]. split; try done. cbn. rewrite E. done.
Qed.

Lemma safe_request send now r : rx_inv r ->
  safe r (requestNextLockedAt send now r).1.1 /\ (requestNextLockedAt send now r).2 <> Panic.
Proof.
  intros R. pose proof (ri_window _ R) as Hw. unfold requestNextLockedAt.
  destruct (status r =? ResourceStatusFailed); [by split; [apply safe_refl|]|].
  destruct (initiator r); [by split; [apply safe_refl|]|].
  destruct (totalParts r <=? receivedCount r); [by split; [apply safe_refl|]|].
  destruct (waitingForHmu r); [by split; [apply safe_refl|]|].
  rewrite (proj2 (Z.ltb_ge (window r) 0)) by lia. cbv zeta.
  pose proof (scan_window_bound
    (Z.to_nat (Z.min (Z.max (consecutiveCompletedHeight r + 1) 0 + window r) (zlen (parts r)) -
               Z.max (consecutiveCompletedHeight r + 1) 0))
    (Z.to_nat (Z.max (consecutiveCompletedHeight r + 1) 0)) (parts r) (hashmap r) (window r) [] 0 ltac:(lia)) as Hb.
  destruct (scan_window _ _ _ _ _ _ _) as [[hs req] ex]. cbn [fst snd] in Hb.
  pose proof (safe_outstanding r req ltac:(lia)) as Ho.
  destruct (_ && negb ex); [by split|]. destruct (ex && _); [by split|].
  destruct (send _ _); (split; [|done]); (eapply safe_trans; [exact Ho|]); [|apply safe_waiting].
  eapply safe_trans; [apply (safe_waiting _ ex)|apply safe_activity].
Qed.

Lemma safe_put_hash idx h r : (idx < length (hashmap r))%nat -> h <> [] -> safe r (put_hash idx h r).
Proof.
  intros Hi Hh. apply lookup_lt_is_Some in Hi as [x Hx]. unfold put_hash. rewrite Hx.
  split; [by destruct x; split|].
  intros [? ? ? Hl ? ? ? Hk ? ?].
  assert (known_hashes (<[idx := h]> (hashmap r)) =
    (known_hashes (hashmap r) + match x with [] => 1 | _ => 0 end)%nat) as E by (by apply known_hashes_insert).
  destruct x; (split; try done); cbn; rewrite ?length_insert, ?E; cbn; lia.
Qed.

Lemma put_hash_hashmap idx h r : length (hashmap (put_hash idx h r)) = length (hashmap r).
Proof. unfold put_hash. destruct (hashmap r !! idx) as [[|]|]; cbn; apply length_insert. Qed.

Lemma safe_put_hashes n i segment hm r : (4 * n <= length hm)%nat -> safe r (put_hashes n i segment hm r).
Proof.
  induction n as [|n IH] in i, hm, r |- *; intros Hl; cbn [put_hashes]; [apply safe_refl|]. cbv zeta.
  destruct (_ || _) eqn:E; [apply safe_refl|]. apply orb_false_iff in E as [E1%Z.ltb_ge E2%Z.leb_gt].
  unfold zlen in E2. eapply safe_trans; [apply safe_put_hash|apply IH].
  - lia.
  - destruct hm; [cbn in Hl; lia|done].
  - rewrite length_drop. lia.
Qed.

Lemma safe_hmu send now d r : rx_inv r -> safe r (hashmapUpdateLocked send now d r).1.1.
Proof.
  intros R. unfold hashmapUpdateLocked. destruct (_ || _); [apply safe_refl|].
  destruct (_ <? _)%nat; [apply safe_refl|].
  set (r1 := (r <| lastActivity := now |>) <| retriesLeft := maxRetries r |>).
  assert (safe r r1) as S1 by (eapply safe_trans; [apply (safe_activity r now)|apply safe_retry]).
  destruct (Unpack _) as [v| |]; [|exact S1..].
  destruct v as [ | | | | | | | |vs| | | | | | |]; try exact S1.
  destruct vs as [|sv [|hv vs]]; [exact S1..|]. destruct (hmu_segment sv) as [seg|]; [|exact S1].
  destruct hv as [ | | | | | | |hm| | | | | | | |]; try exact S1.
  set (r2 := put_hashes _ _ _ _ _).
  assert (safe r r2) as S2.
  { eapply safe_trans; [exact S1|]. eapply safe_trans; [by apply (safe_status _ ResourceStatusTransferring)|].
    apply safe_put_hashes. pose proof (Nat.Div0.mul_div_le (length hm) 4). lia. }
  destruct (_ <? 1)%nat; [eapply safe_trans; [exact S2|apply safe_cancel]|].
  pose proof (safe_trans _ _ _ S2 (safe_waiting r2 false)) as S3.
  eapply safe_trans; [exact S3|]. apply safe_request. by apply S3.
Qed.

(** A part arrives in a missing slot. *)
Lemma safe_fill i p d r :
  parts r !! i = Some p -> ReceivedData p = None -> safe r (fill_part i p d r).
Proof.
  intros Hi Hp. split; [by split|].
  intros [I1 I2 I3 I4 I5 I6 I7 I8 I9 I10]. pose proof (lookup_lt_Some _ _ _ Hi) as Hlt.
  set (q := p <| ReceivedData := Some d |>). set (ps := <[i := q]> (parts r)).
  assert (forall j, arrived (parts r) j -> arrived ps j) as Hmono.
  { intros j (pj & dj & Hj & Hd). exists pj, dj. split; [|done]. unfold ps.
    rewrite list_lookup_insert_ne; [done|]. intros ->. congruence. }
  split; try done.
  - change (length (hashmap r) = length ps). unfold ps. by rewrite length_insert.
  - change (totalParts r = zlen ps). unfold ps, zlen. rewrite length_insert. done.
  - change (1 + receivedCount r = Z.of_nat (received_total ps)).
    unfold ps. rewrite (received_total_insert _ _ p q d) by done. lia.
  - set (c := if Z.of_nat i =? consecutiveCompletedHeight r + 1 then Z.of_nat i else consecutiveCompletedHeight r).
    change (c + Z.of_nat (received_run (drop (Z.to_nat (c + 1)) ps)) = Z.of_nat (received_run ps) - 1).
    rewrite (received_run_split ps (Z.to_nat (c + 1))); [unfold c; case_match; lia|].
    apply received_run_ge. intros j Hj. unfold c in Hj. rewrite I7 in Hj.
    destruct (Z.eqb_spec (Z.of_nat i) (Z.of_nat (received_run (parts r)) - 1 + 1)) as [E|].
    + destruct (decide (j = i)) as [->|]; [|apply Hmono, received_run_arrived; lia].
      exists q, d. split; [|done]. unfold ps. by rewrite list_lookup_insert_eq.
    + apply Hmono, received_run_arrived. lia.
  - change (0 <= (if 0 <? outstandingParts r then outstandingParts r - 1 else outstandingParts r) <= 10).
    destruct (Z.ltb_spec 0 (outstandingParts r)); lia.
Qed.

Lemma safe_grow r : safe r (grow_resource_window r).
Proof.
  unfold grow_resource_window. destruct (Z.ltb_spec (window r) (windowMax r)); [|apply safe_refl].
  cbv zeta. destruct (Z.ltb_spec (windowFlexibility (r <| window ::= Z.add 1 |>) - 1)
    (window (r <| window ::= Z.add 1 |>) - windowMin (r <| window ::= Z.add 1 |>))) as [Hf|];
    (split; [by split|]); intros [I1 I2 I3 I4 I5 I6 I7 I8 I9 I10]; (split; try done); cbn in *; [|lia].
  unfold ResourceWindowFlexibility in *. lia.
Qed.

Lemma safe_part now d r : rx_inv r -> safe r (ReceivePart now d r).1.1 /\ (ReceivePart now d r).2 <> Panic.
Proof.
  intros R. unfold ReceivePart. destruct (status r =? ResourceStatusFailed); [by split; [apply safe_refl|]|].
  set (r0 := if (_ && _) then r <| status := ResourceStatusTransferring |> else r). cbv zeta.
  assert (safe r r0) as S0 by (unfold r0; case_match; [by apply safe_status|apply safe_refl]).
  pose proof (safe_trans _ _ _ S0 (safe_activity r0 now)) as S1. clearbody r0.
  set (r1 := r0 <| lastActivity := now |>) in *. clearbody r1. pose proof (proj2 S1 R) as R1. clear S0 R.
  match goal with |- context [match find_hash ?n ?i ?hm ?h with None => Some (r1, false) | _ => _ end] =>
    set (inner := match find_hash n i hm h with None => Some (r1, false) | _ => _ end);
    assert (exists r2 f, inner = Some (r2, f) /\ safe r1 r2) as (r2 & f & -> & S2);
    [unfold inner; destruct (find_hash n i hm h) as [k|] eqn:Ef|]
  end.
  - apply find_hash_range in Ef as [Hk _]. destruct (parts r1 !! k) as [p|] eqn:Ep.
    + destruct (ReceivedData p) eqn:Ed; eexists _, _; (split; [done|]); [apply safe_refl|by apply safe_fill].
    + apply lookup_ge_None in Ep. unfold zlen in Hk. rewrite (ri_hashmap _ R1) in Hk. lia.
  - eexists _, _. split; [done|apply safe_refl].
  - cbv beta iota. set (sa := (_ =? _) && _). split; [|done]. cbn [fst].
    eapply safe_trans; [exact S1|]. eapply safe_trans; [exact S2|]. clearbody sa.
    eapply (safe_trans _ (if sa then r2 <| assemblyLock := true |> else r2)); [destruct sa; keep|].
    destruct (_ && _ && _); [apply safe_grow|apply safe_refl].
Qed.

Lemma safe_shrink r : safe r (shrink_resource_window r).
Proof.
  unfold shrink_resource_window. destruct (Z.ltb_spec (windowMin r) (window r)); [|apply safe_refl]. cbv zeta.
  repeat case_match; (split; [by split|]); intros [I1 I2 I3 I4 I5 I6 I7 I8 I9 I10]; (split; try done);
    cbn in *; rewrite ?Z.ltb_lt, ?Z.ltb_ge in *; unfold ResourceWindowFlexibility in *; lia.
Qed.

Lemma shrink_retries r : retriesLeft (shrink_resource_window r) = retriesLeft r.
Proof. unfold shrink_resource_window. cbv zeta. by repeat case_match. Qed.

Lemma safe_consume r : (0 < retriesLeft r)%Z -> safe r (r <| retriesLeft ::= Z.pred |>).
Proof. intros Hr. split; [by split|]. intros [I1 I2 I3 I4 I5 I6 I7 I8 I9 I10]. split; try done. cbn. lia. Qed.

Lemma safe_watchdog order send now l r : rx_inv r -> safe r (watchdogStep order send now l r).1.1.
Proof.
  intros R. unfold watchdogStep. destruct (_ <=? _); [apply safe_refl|].
  enough (safe r (watchdog_case order send now l r).1.1) as Hc.
  { destruct (watchdog_case order send now l r) as [[r1 ev] [s|]]; cbn [fst] in Hc.
    - case_match; [|exact Hc]. eapply safe_trans; [exact Hc|apply safe_cancel].
    - eapply safe_trans; [exact Hc|apply safe_cancel]. }
  unfold watchdog_case. cbv zeta.
  destruct (status r =? ResourceStatusAdvertised).
  { destruct (negb _); [apply safe_refl|]. destruct (Z.leb_spec (retriesLeft r) 0) as [|Hr]; [apply safe_cancel|].
    pose proof (safe_consume r Hr) as S1.
    destruct (buildAdvertisementPacket _ _) as [p| |]; [|eapply safe_trans; [exact S1|apply safe_cancel]..].
    eapply safe_trans; [exact S1|]. set (r1 := r <| retriesLeft ::= Z.pred |>).
    destruct (send _ _); [keep|]. eapply (safe_trans _ (r1 <| advertisementPacket := Some p |>)); [keep|apply safe_cancel]. }
  destruct (status r =? ResourceStatusTransferring).
  { rewrite (ri_role _ R). cbn [negb]. unfold updateEifr.
    match goal with |- context [Some ?e] => set (r1 := r <| eifr := Some e |>);
      assert (safe r r1) as S1 by (apply safe_eifr) end. clearbody r1.
    destruct (negb _); [exact S1|]. destruct (Z.ltb_spec 0 (retriesLeft r1)) as [Hr|];
      [|eapply safe_trans; [exact S1|apply safe_cancel]].
    assert (safe r (((shrink_resource_window r1) <| retriesLeft ::= Z.pred |>) <| waitingForHmu := false |>)) as S2.
    { eapply safe_trans; [exact S1|]. eapply safe_trans; [apply safe_shrink|].
      eapply safe_trans; [apply safe_consume|apply safe_waiting]. by rewrite shrink_retries. }
    set (r2 := _ <| waitingForHmu := false |>) in *. clearbody r2.
    pose proof (proj1 (safe_request send now r2 (proj2 S2 R))) as S3.
    destruct (requestNextLockedAt send now r2) as [[r3 ev] e]. by eapply safe_trans. }
  destruct (status r =? ResourceStatusAwaitingProof); [|apply safe_refl].
  set (r1 := r <| timeoutFactor := _ |>). assert (safe r r1) as S1 by keep. clearbody r1.
  destruct (negb _); [exact S1|]. destruct (Z.leb_spec (retriesLeft r1) 0) as [|Hr].
  - eapply safe_trans; [exact S1|apply safe_cancel].
  - eapply safe_trans; [exact S1|]. eapply safe_trans; [by apply safe_consume|keep].
Qed.

(** A completed resource holds data with the advertised hash. *)
Record genuine (adv : ResourceAdvertisement) (r : Resource) : Prop := {
  gn_hash : hash r = AH adv;
  gn_random : randomHash r = AR adv;
  gn_has : hasMetadata r = AHasMetadata adv;
  gn_data : status r = ResourceStatusComplete ->
    exists full, FullHash (full ++ AR adv) = AH adv /\ data r = (split_metadata (AHasMetadata adv) [] full).1;
}.

Lemma genuine_kept adv r r' : kept r r' -> genuine adv r -> genuine adv r'.
Proof.
  intros [K1 K2 K3 K4] [G1 G2 G3 G4]. split; [congruence..|]. intros Hs. destruct (K4 Hs) as [Hs' ->]. auto.
Qed.

Lemma split_metadata_payload has md md' full : (split_metadata has md full).1 = (split_metadata has md' full).1.
Proof. unfold split_metadata. destruct full as [|? [|? [|? ?]]]; try done. by case_match. Qed.

(** What the parts of a resource make up, before its hash is compared: joined,
    decrypted, without the random prefix and decompressed. *)
Definition content (l : LinkView) (r : Resource) : option bytes :=
  assembled ← collect (parts r);
  opened ← match (if encrypted r then
                    match Ltoken l with Some t => Decrypt t assembled | None => Err ErrTokenHMAC end
                  else Ok assembled) with Ok b => Some b | _ => None end;
  let full := drop (Z.to_nat ResourceRandomHashSize) opened in
  if compressed r then
    match DecompressBzip2WithLimit full
            (if maxDecompressedSize r <=? 0 then ResourceAutoCompressMaxSize else maxDecompressedSize r)%Z with
    | Ok b => Some b | _ => None end
  else Some full.

(** The outcomes of assembly, as far as the receiver's state goes. *)
Lemma Assemble_outcome send now l r r' ev :
  Assemble send now l r = Ok (r', ev) ->
  (exists s, r' = (r <| status := ResourceStatusAssembling |>) <| status := s |> /\ s <> ResourceStatusComplete) \/
  (exists full md,
     content l r = Some full /\ FullHash (full ++ randomHash r) = hash r /\
     r' = ((((r <| status := ResourceStatusAssembling |>) <| metadata := md |>) <| data := full |>)
             <| status := ResourceStatusComplete |>)
             <| data := (split_metadata (hasMetadata r) (metadata r) full).1 |>).
Proof.
  unfold Assemble, content. cbv zeta. intros E. cbn -[Decrypt DecompressBzip2WithLimit split_metadata Z.ltb Z.leb drop] in E |- *.
  destruct (collect _) as [a|]; [|injection E as <- <-; left; by eexists]. cbn [mbind option_bind].
  destruct (if encrypted _ then _ else _) as [b| |]; [|injection E as <- <-; left; by eexists|done]. cbn [mbind option_bind].
  destruct (_ <? _); [injection E as <- <-; left; by eexists|].
  destruct (compressed r); [destruct (DecompressBzip2WithLimit _ _) as [full| |]; [|case_match; injection E as <- <-; left; by eexists|done]|].
  1: rename full into x. 2: set (x := drop _ b) in *.
  all: destruct (bytes_eqb _ _) eqn:Eh; cbn [negb] in E; [|injection E as <- <-; left; by eexists].
  all: apply bytes_eqb_eq in Eh; destruct (split_metadata _ _ _) as [p md] eqn:Em; injection E as <- <-.
  all: right; exists x, md; split; [done|]; split; [done|]; by rewrite Em.
Qed.

Lemma safe_steps adv r r' : rx_step r r' -> genuine adv r /\ rx_inv r -> genuine adv r' /\ rx_inv r'.
Proof.
  intros St [G R]. 
  assert (forall x, safe r x -> genuine adv x /\ rx_inv x) as K.
  { intros x [K1 K2]. split; [by eapply genuine_kept|auto]. }
  destruct St as [r r' St|send now d r]; [|by apply K, safe_hmu].
  destruct St as [now d r|send now r|send now l r r' ev E|send now l r|order send now l r].
  - apply K, safe_part, R.
  - apply K, safe_request, R.
  - destruct (Assemble_outcome _ _ _ _ _ _ E) as [(s & -> & Hs)|(full & md & _ & Hf & ->)].
    + apply K. eapply safe_trans; [|by apply safe_status]. by apply safe_status.
    + split; [|by destruct R; split]. destruct G as [G1 G2 G3 G4]. split; [done..|]. intros _. exists full.
      split; [congruence|]. cbn. rewrite G3. apply split_metadata_payload.
  - apply K. unfold Cancel. destruct (status r =? _); [apply safe_refl|].
    destruct (_ <=? _); [apply safe_refl|]. by apply safe_status.
  - by apply K, safe_watchdog.
Qed.

Lemma none_received ps :
  Forall (fun p => ReceivedData p = None) ps -> received_run ps = O /\ received_total ps = O.
Proof. induction 1 as [|p ps Hp _ [_ IH]]; [done|]. cbn. by rewrite Hp, IH. Qed.

Lemma unpacked_count packet adv :
  UnpackResourceAdvertisement packet = Ok adv -> (0 <= N adv)%Z.
Proof.
  unfold UnpackResourceAdvertisement. destruct (Unpack packet) as [v| |]; try done. cbn [map_err mbind res_bind].
  destruct v; try done. destruct (getBytes es kh); try done. cbn [mbind res_bind].
  repeat (destruct (getBytes es _); try done; cbn [mbind res_bind]).
  destruct (_ || _) eqn:E; [done|]. apply orb_false_iff in E as [E%Z.ltb_ge _].
  destruct (_ && _); [done|]. by intros [= <-].
Qed.

Lemma accepted_safe now l cb progress packet adv :
  (0 <= N adv)%Z ->
  genuine adv (accepted_resource now l cb progress packet adv) /\
  rx_inv (accepted_resource now l cb progress packet adv).
Proof.
  intros HN. set (r := accepted_resource _ _ _ _ _ _). split; [by split|].
  set (hm := split_hashes (Z.to_nat (N adv)) (AM adv)).
  assert (length hm = Z.to_nat (N adv)) as Hl.
  { unfold hm. generalize (AM adv). induction (Z.to_nat (N adv)) as [|n IH]; intros m; cbn [split_hashes]; [done|].
    case_match; [apply length_replicate|]. cbn [length]. by rewrite IH. }
  assert (parts r = imap (fun i h => mkPart [] None h (Z.of_nat i) false) hm) as Ep by done.
  destruct (none_received (parts r)) as [E1 E2].
  { rewrite Ep. apply Forall_lookup. intros i p. rewrite list_lookup_imap.
    intros (h & _ & ->)%fmap_Some. done. }
  split; try done.
  - rewrite Ep, length_imap. done.
  - unfold zlen. rewrite Ep, length_imap, Hl. change (N adv = Z.of_nat (Z.to_nat (N adv))). lia.
  - by rewrite E2.
  - by rewrite E1.
  - change (Z.of_nat (length (filter (fun h => h <> []) hm)) = Z.of_nat (known_hashes hm)).
    by rewrite known_hashes_filter.
Qed.

Lemma safe_run adv r r' : rtc rx_step r r' -> genuine adv r /\ rx_inv r -> genuine adv r' /\ rx_inv r'.
Proof. induction 1 as [|x y z Hxy _ IH]; intros H0; [done|]. apply IH. by eapply safe_steps. Qed.

Lemma reachable_safe now l cb progress packet adv r :
  (0 <= N adv)%Z -> rtc rx_step (accepted_resource now l cb progress packet adv) r ->
  genuine adv r /\ rx_inv r.
Proof.
  intros HN Hs. by eapply safe_run, accepted_safe.
Qed.

(** C35: in every state a receiver can get into, whatever arrives in whatever
    order: the part and hash lists have the advertised length, the received
    count is the number of parts held, the completed height is one less than
    the length of the longest complete prefix, the hashmap height is the number
    of known hashes, 2 <= windowMin <= window <= windowMax <= 10, at most ten
    parts are outstanding, and neither requesting the next parts nor receiving
    any part panics. *)
Theorem resource_receiver_invariant now l cb progress packet adv r :
  UnpackResourceAdvertisement packet = Ok adv ->
  rtc rx_step (accepted_resource now l cb progress packet adv) r ->
  rx_inv r /\
  (forall send now, (requestNextLockedAt send now r).2 <> Panic) /\
  (forall now d, (ReceivePart now d r).2 <> Panic).
Proof.
  intros Hu Hs.
  assert (0 <= N adv)%Z as HN by (by eapply unpacked_count).
  enough (genuine adv r /\ rx_inv r) as [_ R].
  { split; [done|]. split; intros; [by apply safe_request|by apply safe_part]. }
  by eapply reachable_safe.
Qed.

(** The assembly by which a run from [r0] to [r] completed the resource: [full]
    is what the parts of [r1] made up when it was assembled. *)
Definition completed_with (r0 r : Resource) (full : bytes) : Prop :=
  exists r1 r2 send now l ev,
    rtc rx_step r0 r1 /\ Assemble send now l r1 = Ok (r2, ev) /\ rtc rx_step r2 r /\
    content l r1 = Some full /\ status r2 = ResourceStatusComplete /\ data r = data r2.

Lemma completed_kept r0 r r' full :
  rx_step r r' -> data r' = data r -> completed_with r0 r full -> completed_with r0 r' full.
Proof.
  intros St Ed (r1 & r2 & send & now & l & ev & R1 & EA & R2 & Ec & Es & E).
  exists r1, r2, send, now, l, ev. split_and!; try done; [by eapply rtc_r|congruence].
Qed.

(** A completed resource was assembled from parts with the advertised hash. *)
Lemma run_completed adv r0 r :
  genuine adv r0 /\ rx_inv r0 -> status r0 <> ResourceStatusComplete -> rtc rx_step r0 r -> status r = ResourceStatusComplete ->
  exists full, completed_with r0 r full /\ FullHash (full ++ AR adv) = AH adv /\
    data r = (split_metadata (AHasMetadata adv) [] full).1.
Proof.
  intros H0 Hn Hs. revert r Hs.
  refine (rtc_ind_r _ _ (fun Hc => False_ind _ (Hn Hc)) _). intros r r' Hs St IH Hc.
  destruct (safe_run adv _ _ Hs H0) as [G R].
  assert (kept r r' -> exists full, completed_with r0 r' full /\ FullHash (full ++ AR adv) = AH adv /\
    data r' = (split_metadata (AHasMetadata adv) [] full).1) as K.
  { intros [_ _ _ K4]. destruct (K4 Hc) as [Hc' Ed]. destruct (IH Hc') as (full & H1 & H2 & H3). exists full.
    split; [by eapply completed_kept|]. split; [done|congruence]. }
  inversion St as [x x' St' E1 E2|send now d x E1 E2]; subst; [|by apply K, safe_hmu].
  inversion St' as [now d x E1 E2|send now x E1 E2|send now l x x' ev E E1 E2|send now l x E1 E2|order send now l x E1 E2]; subst.
  - apply K, safe_part, R.
  - apply K, safe_request, R.
  - destruct (Assemble_outcome _ _ _ _ _ _ E) as [(s & -> & Hs')|(full & md & Hf & Hh & ->)]; [done|].
    destruct G as [G1 G2 G3 G4]. exists full. split; [|split; [congruence|cbn; rewrite G3; apply split_metadata_payload]].
    eexists r, _, send, now, l, ev. split; [done|]. split; [exact E|]. split; [apply rtc_refl|]. by split_and!.
  - apply K. unfold Cancel. destruct (status r =? _); [apply safe_refl|].
    destruct (_ <=? _); [apply safe_refl|]. by apply safe_status.
  - by apply K, safe_watchdog.
Qed.

(** Two different byte strings with one SHA-256 hash. *)
Definition sha_collision (x y : bytes) : Prop := x <> y /\ SHA256 x = SHA256 y.

(** C10: a receiver never completes a resource with other data than was
    advertised: if the advertised hash is that of some metadata and data, then
    in every state the receiver can get into, whatever parts, hashmap updates,
    cancellations and timer runs it sees and whatever keys its link has, a
    complete resource was assembled in that run from parts whose content,
    with the random hash appended, has the SHA-256 hash of the advertised
    content; it carries exactly the advertised data unless those two byte
    strings, the one assembled and the one advertised, are a collision. *)
Theorem resource_integrity now l cb progress packet adv r md prefix input :
  UnpackResourceAdvertisement packet = Ok adv ->
  metadata_prefix md = Ok prefix -> metadata_ok md -> AHasMetadata adv = negb (length md =? 0)%nat ->
  AH adv = FullHash ((prefix ++ input) ++ AR adv) ->
  rtc rx_step (accepted_resource now l cb progress packet adv) r ->
  status r = ResourceStatusComplete ->
  exists full, completed_with (accepted_resource now l cb progress packet adv) r full /\
    (data r = input /\ full = prefix ++ input \/
     sha_collision (full ++ AR adv) ((prefix ++ input) ++ AR adv)).
Proof.
  intros Hu Hp Hm Hhas Hh Hs Hc.
  assert (0 <= N adv)%Z as HN by (by eapply unpacked_count).
  destruct (run_completed adv _ r (accepted_safe now l cb progress packet adv HN)) as (full & Hf & Hfh & Hd); [done..|].
  exists full. split; [done|]. rewrite Hhas in Hd.
  destruct (decide (full = prefix ++ input)) as [->|Hne].
  - left. split; [|done]. by rewrite Hd, (metadata_prefix_split md prefix input [] Hp Hm).
  - right. split; [by intros ?%app_inv_tail|].
    change (FullHash (full ++ AR adv) = FullHash ((prefix ++ input) ++ AR adv)). congruence.
Qed.

(** ** Termination of the watchdog *)

(** Seconds until the timer of the current status fires. *)
Definition time_left (now : Z) (l : LinkView) (r : Resource) : float :=
  if status r =? ResourceStatusAdvertised then
    sleep_until (advSent r) (timeout r + ResourceProcessingGrace)%float now
  else if status r =? ResourceStatusTransferring then
    if negb (initiator r) then receiver_sleep now (updateEifr l r).1
    else sleep_until (lastActivity r)
           (currentRtt l r * timeoutFactor r * float_of_Z (maxRetries r)
            + senderGraceTime r + extra_wait (Z.to_nat (maxRetries r)) 0 0)%float now
  else sleep_until (lastPartSent r) (currentRtt l r * ResourceProofTimeoutFactor + senderGraceTime r)%float now.

Definition watched (r : Resource) : Prop :=
  (ResourceStatusAdvertised <= status r <= ResourceStatusAwaitingProof)%Z.

(** One iteration: a timer that has not fired changes neither the status nor
    the retries; one that has fired uses a retry up or fails the transfer. *)
Definition watchdog_effect (now : Z) (l : LinkView) (r r' : Resource) (cont : bool) : Prop :=
  if fired (time_left now l r)
  then (status r' = ResourceStatusFailed /\ cont = false) \/
       (status r' = status r /\ retriesLeft r' = retriesLeft r - 1 /\ (0 < retriesLeft r)%Z /\ cont = true)
  else status r' = status r /\ retriesLeft r' = retriesLeft r /\ cont = true.

Lemma requestNext_frame send now r :
  status (requestNextLockedAt send now r).1.1 = status r /\
  retriesLeft (requestNextLockedAt send now r).1.1 = retriesLeft r.
Proof.
  unfold requestNextLockedAt. cbv zeta. destruct (scan_window _ _ _ _ _ _ _) as [[hs req] ex].
  repeat (match goal with |- context [if ?b then _ else _] => destruct b end); done.
Qed.

Lemma cancelLocked_watched r : watched r -> status (cancelLocked r) = ResourceStatusFailed.
Proof.
  unfold watched, cancelLocked. intros Hw. rewrite (proj2 (Z.ltb_lt _ _)); [done|].
  unfold ResourceStatusAdvertised, ResourceStatusAwaitingProof, ResourceStatusComplete in *. lia.
Qed.

Lemma shrink_status r : status (shrink_resource_window r) = status r.
Proof. unfold shrink_resource_window. cbv zeta. by repeat case_match. Qed.

Definition case_effect (now : Z) (l : LinkView) (r : Resource) (x : Resource * list event * option float) : Prop :=
  if fired (time_left now l r)
  then x.2 = Some 0.001%float /\
       (status x.1.1 = ResourceStatusFailed \/
        status x.1.1 = status r /\ retriesLeft x.1.1 = retriesLeft r - 1 /\ (0 < retriesLeft r)%Z)
  else x.2 = Some (time_left now l r) /\ status x.1.1 = status r /\ retriesLeft x.1.1 = retriesLeft r.

Lemma advertised_effect order send now l r :
  status r = ResourceStatusAdvertised -> case_effect now l r (watchdog_case order send now l r).
Proof.
  intros Es. assert (watched r) as Hw by (by unfold watched; rewrite Es).
  unfold case_effect, watchdog_case, time_left. rewrite Es. change (_ =? _) with true at 1 3. cbv zeta iota.
  destruct (fired _); cbn [negb]; [|done]. destruct (Z.leb_spec (retriesLeft r) 0).
  { split; [done|]. left. by apply cancelLocked_watched. }
  destruct (buildAdvertisementPacket _ _) as [p| |]; [destruct (send _ _)|..]; (split; [done|]);
    [right; done|left; by apply cancelLocked_watched..].
Qed.

Lemma transferring_effect order send now l r :
  status r = ResourceStatusTransferring -> case_effect now l r (watchdog_case order send now l r).
Proof.
  intros Es. assert (watched r) as Hw by (by unfold watched; rewrite Es).
  unfold case_effect, watchdog_case, time_left. rewrite Es.
  change (ResourceStatusTransferring =? ResourceStatusAdvertised) with false.
  change (ResourceStatusTransferring =? ResourceStatusTransferring) with true. cbv zeta iota.
  destruct (initiator r); cbn [negb].
  - destruct (fired _); cbn [negb]; [|done]. split; [done|]. left. by apply cancelLocked_watched.
  - assert (status (updateEifr l r).1 = status r /\ retriesLeft (updateEifr l r).1 = retriesLeft r) as [E1 E2] by done.
    destruct (updateEifr l r) as [r1 ev]. cbn [fst] in *.
    destruct (fired _); cbn [negb]; [|split; [done|split; cbn; congruence]].
    destruct (Z.ltb_spec 0 (retriesLeft r1)).
    + set (r2 := _ <| waitingForHmu := false |>). destruct (requestNext_frame send now r2) as [F1 F2].
      assert (status r2 = status r /\ retriesLeft r2 = retriesLeft r - 1) as [G1 G2].
      { unfold r2. cbn. rewrite shrink_status, shrink_retries. split; [done|lia]. }
      destruct (requestNextLockedAt send now r2) as [[r3 ev3] e3]. cbn [fst snd] in *. split; [done|]. right.
      split; [congruence|]. split; [congruence|lia].
    + split; [done|]. left. apply cancelLocked_watched. unfold watched. by rewrite E1, Es.
Qed.

Lemma awaiting_effect order send now l r :
  status r = ResourceStatusAwaitingProof -> case_effect now l r (watchdog_case order send now l r).
Proof.
  intros Es. assert (watched r) as Hw by (by unfold watched; rewrite Es).
  unfold case_effect, watchdog_case, time_left. rewrite Es.
  change (ResourceStatusAwaitingProof =? ResourceStatusAdvertised) with false.
  change (ResourceStatusAwaitingProof =? ResourceStatusTransferring) with false.
  change (ResourceStatusAwaitingProof =? ResourceStatusAwaitingProof) with true. cbv zeta iota.
  change (sleep_until (lastPartSent (r <| timeoutFactor := ResourceProofTimeoutFactor |>)) _ now)
    with (sleep_until (lastPartSent r) (currentRtt l r * ResourceProofTimeoutFactor + senderGraceTime r)%float now).
  destruct (fired _); cbn [negb]; [|done].
  destruct (Z.leb_spec (retriesLeft (r <| timeoutFactor := ResourceProofTimeoutFactor |>)) 0); (split; [done|]).
  - left. by apply cancelLocked_watched.
  - right. done.
Qed.

Lemma watchdogStep_effect order send now l r :
  watched r -> watchdog_effect now l r (watchdogStep order send now l r).1.1 (watchdogStep order send now l r).2.2.
Proof.
  intros Hw. unfold watchdogStep. pose proof Hw as Hw'. unfold watched in Hw'.
  unfold ResourceStatusAdvertised, ResourceStatusAwaitingProof in Hw'.
  rewrite (proj2 (Z.leb_gt ResourceStatusAssembling (status r))) by (unfold ResourceStatusAssembling; lia).
  assert (case_effect now l r (watchdog_case order send now l r)) as Hc.
  { assert (status r = 2 \/ status r = 3 \/ status r = 4) as [E|[E|E]] by lia;
      [by apply advertised_effect|by apply transferring_effect|by apply awaiting_effect]. }
  destruct (watchdog_case order send now l r) as [[r1 ev] os]. unfold case_effect, watchdog_effect in *. cbn [fst snd] in Hc.
  assert (status r <? ResourceStatusAssembling = true) as Hlt.
  { apply Z.ltb_lt. unfold ResourceStatusAssembling. lia. }
  destruct (fired (time_left now l r)) eqn:Ef.
  - destruct Hc as [-> Hc]. change (PrimFloat.ltb 0.001 0) with false. cbv iota. cbn [fst snd].
    destruct Hc as [E|(E1 & E2 & E3)]; [left; by rewrite E|right]. rewrite E1. done.
  - destruct Hc as (-> & E1 & E2). unfold fired in Ef. rewrite Ef. cbn [fst snd]. by rewrite E1.
Qed.

(** How often a timer fires during a run of the loop. *)
Fixpoint fires order send (l : LinkView) (nows : list Z) (r : Resource) : nat :=
  match nows with
  | [] => O
  | now :: nows' =>
      let '(r', _, (_, cont)) := watchdogStep order send now l r in
      ((if fired (time_left now l r) then 1 else 0) + if cont then fires order send l nows' r' else 0)%nat
  end.

(** While nothing arrives, the watchdog loop of an advertised,
    transferring or proof-awaiting resource gives up: a run of the loop over
    any instants, in which timers fire [n] times, has used up [n] of the
    retries and goes on in the same status, or has ended with the transfer
    failed after at most one more firing than there were retries. *)
Theorem resource_watchdog_gives_up order send l nows r :
  watched r -> (0 <= retriesLeft r)%Z ->
  let n := Z.of_nat (fires order send l nows r) in
  let '(r', _, running) := watchdogLoop order send l nows r in
  if running
  then status r' = status r /\ retriesLeft r' = retriesLeft r - n /\ (n <= retriesLeft r)%Z
  else status r' = ResourceStatusFailed /\ (1 <= n <= retriesLeft r + 1)%Z.
Proof.
  cbv zeta. induction nows as [|now nows IH] in r |- *; intros Hw Hr; cbn [watchdogLoop fires].
  { split; [done|]. cbn. lia. }
  pose proof (watchdogStep_effect order send now l r Hw) as He.
  destruct (watchdogStep order send now l r) as [[r1 ev] [s cont]]. unfold watchdog_effect in He. cbn [fst snd] in He.
  assert (forall r2 : Resource, status r2 = status r -> watched r2) as Hw2 by (intros ? E; by unfold watched; rewrite E).
  destruct (fired (time_left now l r)).
  - destruct He as [[E ->]|(E1 & E2 & E3 & ->)]; cbn [negb]; [split; [done|lia]|].
    specialize (IH r1 (Hw2 _ E1) ltac:(lia)). destruct (watchdogLoop order send l nows r1) as [[r2 ev2] []].
    + destruct IH as (I1 & I2 & I3). split; [congruence|lia].
    + destruct IH as (I1 & I2). split; [done|lia].
  - destruct He as (E1 & E2 & ->). cbn [negb].
    specialize (IH r1 (Hw2 _ E1) ltac:(lia)). destruct (watchdogLoop order send l nows r1) as [[r2 ev2] []].
    + destruct IH as (I1 & I2 & I3). split; [congruence|lia].
    + destruct IH as (I1 & I2). split; [done|lia].
Qed.

(** ** Map hashes that collide *)

Lemma find_hash_first n i hm h k j :
  find_hash n i hm h = Some k -> (i <= j < k)%nat -> default [] (hm !! j) <> h.
Proof.
  induction n as [|n IH] in i |- *; cbn [find_hash]; [done|]. destruct (bytes_eqb _ _) eqn:E.
  - intros [= <-]. lia.
  - intros Hf Hj. destruct (decide (j = i)) as [->|]; [|apply (IH (S i)); [done|lia]].
    intros Eh. rewrite Eh, bytes_eqb_refl in E. done.
Qed.

(** Slots [i] and [i + 1] carry one map hash, and part [i + 1] is missing. *)
Record stuck (i : nat) (h : bytes) (r : Resource) : Prop := {
  sk_first : hashmap r !! i = Some h;
  sk_second : hashmap r !! S i = Some h;
  sk_missing : exists p, parts r !! S i = Some p /\ ReceivedData p = None;
  sk_incomplete : status r <> ResourceStatusComplete;
}.

Lemma collect_missing ps i p : ps !! i = Some p -> ReceivedData p = None -> collect ps = None.
Proof.
  induction ps as [|q ps IH] in i |- *; [done|]. destruct i as [|i]; cbn.
  - intros [= ->] ->. done.
  - intros Hi Hp. destruct (ReceivedData q); [|done]. cbn. by rewrite (IH i Hi Hp).
Qed.

(** Most operations leave the parts and their map hashes alone. *)
Definition same_parts (r r' : Resource) : Prop := parts r' = parts r /\ hashmap r' = hashmap r.

Lemma same_request send now r : same_parts r (requestNextLockedAt send now r).1.1.
Proof.
  unfold requestNextLockedAt. cbv zeta. destruct (scan_window _ _ _ _ _ _ _) as [[hs req] ex].
  repeat (match goal with |- context [if ?b then _ else _] => destruct b end); done.
Qed.

Lemma same_trans r1 r2 r3 : same_parts r1 r2 -> same_parts r2 r3 -> same_parts r1 r3.
Proof. intros [A1 A2] [B1 B2]. split; congruence. Qed.

Lemma same_cancel r : same_parts r (cancelLocked r).
Proof. unfold cancelLocked. by case_match. Qed.

Lemma same_watchdog order send now l r : same_parts r (watchdogStep order send now l r).1.1.
Proof.
  unfold watchdogStep. destruct (_ <=? _); [done|].
  enough (same_parts r (watchdog_case order send now l r).1.1) as Hc.
  { destruct (watchdog_case order send now l r) as [[r1 ev] [s|]]; cbn [fst] in Hc; [case_match; [|exact Hc]|];
      (eapply same_trans; [exact Hc|apply same_cancel]). }
  unfold watchdog_case. cbv zeta. destruct (status r =? ResourceStatusAdvertised).
  { destruct (negb _); [done|]. destruct (_ <=? _); [apply same_cancel|].
    destruct (buildAdvertisementPacket _ _); [destruct (send _ _); [done|]|..];
      (eapply same_trans; [|apply same_cancel]; done). }
  destruct (status r =? ResourceStatusTransferring).
  { destruct (initiator r); cbn [negb]; [destruct (negb _); [done|apply same_cancel]|].
    assert (same_parts r (updateEifr l r).1) as S1 by done. destruct (updateEifr l r) as [r1 ev]. cbn [fst] in S1.
    destruct (negb _); [done|]. destruct (_ <? _); [|eapply same_trans; [exact S1|apply same_cancel]].
    set (r2 := _ <| waitingForHmu := false |>).
    assert (same_parts r1 r2) as S2 by (unfold r2, shrink_resource_window; cbv zeta; by repeat case_match).
    pose proof (same_request send now r2) as S3. destruct (requestNextLockedAt send now r2) as [[r3 ev3] e].
    eapply same_trans; [exact S1|]. by eapply same_trans. }
  destruct (status r =? ResourceStatusAwaitingProof); [|done].
  destruct (negb _); [done|]. destruct (_ <=? _); [|done]. eapply same_trans; [|apply same_cancel]. done.
Qed.

Lemma stuck_same i h r r' :
  stuck i h r -> same_parts r r' -> status r' <> ResourceStatusComplete -> stuck i h r'.
Proof. intros [S1 S2 S3 S4] [E1 E2] Hs. split; rewrite ?E1, ?E2; done. Qed.

(** A part that is filled is not the one behind the collision. *)
Lemma stuck_slot i h r n k partHash :
  stuck i h r -> rx_inv r ->
  find_hash n (Z.to_nat (Z.max (consecutiveCompletedHeight r) 0)) (hashmap r) partHash = Some k -> k <> S i.
Proof.
  intros [S1 S2 (p & Hp & Hd) _] R Hf ->. destruct (find_hash_range _ _ _ _ _ Hf) as [Hk Eh].
  rewrite S2 in Eh. cbn in Eh. subst partHash.
  assert (received_run (parts r) <= S i)%nat as Hrun.
  { apply Nat.nlt_ge. intros Hlt. destruct (received_run_arrived _ _ Hlt) as (q & d & Hq & Hqd). congruence. }
  pose proof (ri_run _ R). apply (find_hash_first _ _ _ _ _ i Hf); [lia|]. by rewrite S1.
Qed.

(** The bookkeeping at the end of [ReceivePart]. *)
Lemma same_tail r (full newlyFilled : bool) :
  let shouldAssemble := full && negb (assemblyLock r) in
  let r1 := if shouldAssemble then r <| assemblyLock := true |> else r in
  same_parts r (if negb shouldAssemble && newlyFilled && (outstandingParts r1 <=? 0)
                then grow_resource_window r1 else r1).
Proof.
  cbv zeta. set (sa := full && _). clearbody sa.
  assert (forall r', same_parts r' (grow_resource_window r')) as Hg.
  { intros r'. unfold grow_resource_window. cbv zeta. by repeat case_match. }
  assert (same_parts r (if sa then r <| assemblyLock := true |> else r)) as H1 by (by destruct sa).
  destruct (_ && _ && _); [eapply same_trans; [exact H1|apply Hg]|exact H1].
Qed.

Lemma ReceivePart_parts now d r r' ev e :
  ReceivePart now d r = (r', ev, e) ->
  hashmap r' = hashmap r /\
  (parts r' = parts r \/ exists n k p ph,
     find_hash n (Z.to_nat (Z.max (consecutiveCompletedHeight r) 0)) (hashmap r) ph = Some k /\
     parts r' = <[k := p]> (parts r)).
Proof.
  unfold ReceivePart. destruct (_ =? _); [intros [= <- <- <-]; auto|]. cbv zeta.
  set (r0 := if (_ && _) then r <| status := ResourceStatusTransferring |> else r).
  assert (parts r0 = parts r /\ hashmap r0 = hashmap r /\
    consecutiveCompletedHeight r0 = consecutiveCompletedHeight r) as (E1 & E2 & E3) by (unfold r0; by case_match).
  clearbody r0. set (r1 := r0 <| lastActivity := now |>).
  change (hashmap r1) with (hashmap r0). change (parts r1) with (parts r0).
  change (consecutiveCompletedHeight r1) with (consecutiveCompletedHeight r0). rewrite E1, E2, E3.
  destruct (find_hash _ _ _ _) as [k|] eqn:Ef; [destruct (parts r !! k) as [p|]; [destruct (ReceivedData p)|]|].
  - intros [= <- _ _]. destruct (same_tail r1 (receivedCount r1 =? totalParts r1) false) as [T1 T2].
    split; [exact (eq_trans T2 E2)|left; exact (eq_trans T1 E1)].
  - intros [= <- _ _]. set (r2 := fill_part k p d r1).
    destruct (same_tail r2 (receivedCount r2 =? totalParts r2) true) as [T1 T2].
    split; [exact (eq_trans T2 E2)|]. right. eexists _, k, _, _. split; [exact Ef|].
    rewrite <- E1. exact T1.
  - intros [= <- _ _]. auto.
  - intros [= <- _ _]. destruct (same_tail r1 (receivedCount r1 =? totalParts r1) false) as [T1 T2].
    split; [exact (eq_trans T2 E2)|left; exact (eq_trans T1 E1)].
Qed.

Lemma stuck_step adv i h r r' :
  part_step r r' -> genuine adv r /\ rx_inv r -> stuck i h r -> stuck i h r'.
Proof.
  intros St [G R] K.
  assert (forall x, safe r x -> status x <> ResourceStatusComplete) as Hs.
  { intros x [[_ _ _ Hk] _] Hc. destruct (Hk Hc). by apply (sk_incomplete _ _ _ K). }
  destruct St as [now d r|send now r|send now l r r' ev E|send now l r|order send now l r].
  - pose proof (Hs _ (proj1 (safe_part now d r R))) as Hc.
    destruct (ReceivePart now d r) as [[r' ev] e] eqn:E. cbn [fst] in *.
    destruct (ReceivePart_parts _ _ _ _ _ _ E) as [Eh [Ep|(n & k & q & ph & Hf & Ep)]]; [by eapply stuck_same|].
    pose proof (stuck_slot _ _ _ _ _ _ K R Hf) as Hne. destruct K as [K1 K2 K3 K4].
    split; rewrite ?Eh, ?Ep; [done..| |done]. by rewrite list_lookup_insert_ne.
  - eapply stuck_same; [done|apply same_request|]. apply Hs, safe_request, R.
  - destruct (sk_missing _ _ _ K) as (p & Hp & Hd). unfold Assemble in E. cbv zeta in E.
    change (parts (r <| status := ResourceStatusAssembling |>)) with (parts r) in E.
    rewrite (collect_missing _ _ _ Hp Hd) in E. injection E as <- <-. by destruct K; split.
  - eapply stuck_same; [done| |].
    + unfold Cancel. cbv zeta. by repeat case_match.
    + apply Hs. unfold Cancel. destruct (status r =? _); [apply safe_refl|].
      destruct (_ <=? _); [apply safe_refl|]. by apply safe_status.
  - eapply stuck_same; [done|apply same_watchdog|]. by apply Hs, safe_watchdog.
Qed.

(** If two neighbouring slots of an advertisement carry one map hash, the
    second part is missing in every state the receiver can get into without a
    hashmap update, whatever parts arrive, and the transfer never completes. *)
Theorem equal_map_hashes_stall now l cb progress packet adv i h r :
  let r0 := accepted_resource now l cb progress packet adv in
  UnpackResourceAdvertisement packet = Ok adv ->
  hashmap r0 !! i = Some h -> hashmap r0 !! S i = Some h ->
  rtc part_step r0 r ->
  status r <> ResourceStatusComplete /\
  exists p, parts r !! S i = Some p /\ ReceivedData p = None.
Proof.
  intros r0 Hu H1 H2 Hs. pose proof (unpacked_count _ _ Hu) as HN.
  assert (stuck i h r0) as K0.
  { split; try done. change (parts r0) with (imap (fun i h => mkPart [] None h (Z.of_nat i) false) (hashmap r0)).
    rewrite list_lookup_imap, H2. by eexists. }
  pose proof (accepted_safe now l cb progress packet adv HN) as G0. fold r0 in G0.
  enough (stuck i h r) as [_ _ Hm Hc] by done. revert G0 K0. clearbody r0. clear H1 H2.
  induction Hs as [|x y z Hxy _ IH]; intros G0 K0; [done|].
  apply IH; [by eapply safe_steps; [apply st_other|]|by eapply stuck_step].
Qed.
End Safety.

(** ** Compressed data with metadata *)

Section CompressedMetadata.
Context `{Sh : Sha256} {ShL : Sha256Laws} `{Ci : BlockCipher} {CiL : BlockCipherLaws}.
Context `{Bz : Bzip2} {BzL : Bzip2Laws}.

(** The decoder refuses a stream that does not begin with the format's
    magic number, ['B'] first. *)
Definition bz_magic : Prop := forall c, head c <> Some 66%Z -> bz_stream c = ([], Some ErrDecompress).

Lemma metadata_prefix_head md prefix payload :
  metadata_prefix md = Ok prefix -> md <> [] -> (zlen prefix < 0x420000)%Z -> head (prefix ++ payload) <> Some 66%Z.
Proof.
  unfold metadata_prefix. destruct md as [|kv md]; [done|]. cbn [length Nat.eqb].
  destruct (Pack _) as [packed [e|]]; [done|]. destruct (_ <? _); [done|]. intros [= <-] _ Hl. cbn [app head].
  cbn [app] in Hl. rewrite !zlen_cons in Hl. pose proof (zlen_nonneg packed).
  change 0xFF with (Z.ones 8). rewrite Z.land_ones, Z.shiftr_div_pow2 by done. unfold u8. rewrite Zmod_mod.
  assert (0 <= zlen packed / 2 ^ 16 < 66)%Z as Hq by (split; [apply Z.div_pos; lia|apply Z.div_lt_upper_bound; lia]).
  rewrite Z.mod_small by lia. intros [= E]. lia.
Qed.

(** A resource that was compressed and carries metadata fails at the
    receiver although every part arrived unharmed: the sender puts the plain
    metadata in front of the compressed payload, the receiver decompresses
    both together, and the decoder refuses the metadata bytes. *)
Theorem compressed_with_metadata_fails rnd key t input l l' opts s prefix r send now :
  bz_magic -> NewToken key = Ok t -> Ltoken l = Some t -> Ltoken l' = Some t ->
  good_random rnd -> bytes_ok input -> metadata_ok (OMetadata opts) ->
  newResourceWithOptions rnd input l opts = Ok s ->
  (AutoCompressLimit (normalized opts) <= ResourceAutoCompressMaxSize)%Z ->
  compressed s = true -> OMetadata opts <> [] ->
  metadata_prefix (OMetadata opts) = Ok prefix -> (zlen prefix < 0x420000)%Z ->
  collect (parts r) = Some (concat (offered s)) -> encrypted r = encrypted s -> compressed r = compressed s ->
  exists r', Assemble send now l' r = Ok (r', []) /\ status r' = ResourceStatusFailed.
Proof.
  intros Hmagic Ht Hl Hl' Hrnd Hin Hmd Hnew Hlim Hc Hne Hpre Hps Hp Ee Ec.
  destruct (newResource_spec _ _ _ _ _ Hnew) as (payload & prefix' & stream & t' & Sp).
  assert (t' = t) as -> by (pose proof (sp_token _ _ _ _ _ _ _ _ _ Sp); congruence).
  assert (prefix' = prefix) as -> by (pose proof (sp_prefix _ _ _ _ _ _ _ _ _ Sp); congruence).
  destruct (spec_tx _ _ _ _ _ _ _ _ _ Sp) as (_ & Hcc & _). rewrite Hcc in Hp.
  destruct (stream_opens _ _ _ _ _ _ _ _ _ _ Sp Ht Hrnd Hin Hmd Hlim) as (Hr4 & _ & Hopen).
  rewrite (proj1 (sp_fresh _ _ _ _ _ _ _ _ _ Sp)) in Ee.
  rewrite (Assemble_opened send now l' r _ t _ _ Hp Ee Hl' Hopen Hr4). cbv zeta.
  set (ra := r <| status := ResourceStatusAssembling |>).
  change (compressed ra) with (compressed r). rewrite Ec, Hc. unfold DecompressBzip2WithLimit.
  rewrite (Hmagic _ (metadata_prefix_head _ _ _ Hpre Hne Hps)). cbv zeta.
  rewrite (proj2 (Z.ltb_ge _ _)) by (change (zlen []) with 0; lia).
  rewrite bool_decide_eq_false_2 by done. eexists. done.
Qed.
End CompressedMetadata.

(** ** Witnesses *)

Module ToyReceiver.
Import ToyCrypto ToyBzip2 ToyResource.
Definition packet : bytes := match buildAdvertisementPacket id sent with Ok b => b | _ => [] end.
Definition adv : ResourceAdvertisement :=
  match UnpackResourceAdvertisement packet with Ok a => a | _ => advertisement zeroResource end.
Definition r0 : Resource := accepted_resource 1 view true true packet adv.
(** The first part arrives. *)
Definition r1 : Resource := (ReceivePart 5 (default [] (offered sent !! 0%nat)) r0).1.1.
(** All parts arrive, the second one first, and the data is assembled. *)
Definition arrive (i : nat) (r : Resource) : Resource := (ReceivePart 5 (default [] (offered sent !! i)) r).1.1.
Definition r3 : Resource := arrive 2 (arrive 0 (arrive 1 r0)).
Definition r4 : Resource * list event := match Assemble reliable 6 view r3 with Ok x => x | _ => (r3, []) end.
(** Two parts of one map hash are advertised. *)
Definition twin : bytes := [7; 7; 7; 7]%Z.
Definition twins : ResourceAdvertisement :=
  advertisement sent <| T := 100 |> <| N := 2 |> <| AM := twin ++ twin |>.
Definition twins_packet : bytes := match (AdvPack id twins).2 with Ok b => b | _ => [] end.
Definition twins_adv : ResourceAdvertisement :=
  match UnpackResourceAdvertisement twins_packet with Ok a => a | _ => twins end.
(** Compressible data with metadata. *)
Definition zeros : bytes := replicate 200 0%Z.
Definition squeezed : Resource :=
  match newResourceWithOptions rnd zeros view opts with Ok s => s | _ => zeroResource end.
Definition all_parts : Resource :=
  zeroResource <| encrypted := true |> <| compressed := true |>
    <| parts := map (fun d => mkPart [] (Some d) [] 0 false) (offered squeezed) |>.
End ToyReceiver.

Section SafetyWitnesses.
Import ToyCrypto ToyBzip2 ToyResource ToyReceiver.

Lemma resource_receiver_invariant_witness :
  receivedCount r1 = 1%Z /\ rx_inv r1 /\
  (forall send now, (requestNextLockedAt send now r1).2 <> Panic) /\
  (forall now d, (ReceivePart now d r1).2 <> Panic).
Proof.
  split; [vm_compute; reflexivity|].
  apply (resource_receiver_invariant 1 view true true packet adv r1); [vm_compute; reflexivity|].
  apply rtc_once, st_other, (st_part 5 _ r0).
Defined.

Lemma resource_integrity_witness :
  let prefix := match metadata_prefix (OMetadata opts) with Ok p => p | _ => [] end in
  status r4.1 = ResourceStatusComplete /\
  exists full, completed_with (accepted_resource 1 view true true packet adv) r4.1 full /\
    (data r4.1 = input /\ full = prefix ++ input \/
     sha_collision (full ++ AR adv) ((prefix ++ input) ++ AR adv)).
Proof.
  intros prefix. assert (status r4.1 = ResourceStatusComplete) as Hc by (vm_compute; reflexivity). split; [exact Hc|].
  apply (resource_integrity 1 view true true packet adv r4.1 (OMetadata opts)
    (match metadata_prefix (OMetadata opts) with Ok p => p | _ => [] end)).
  - vm_compute. reflexivity.
  - vm_compute. reflexivity.
  - split; [apply (bool_decide_unpack _); vm_compute; exact I|reflexivity|].
    constructor; [|constructor]. split; [reflexivity|]. split; [reflexivity|]. split; apply (bool_decide_unpack _); exact I.
  - vm_compute. reflexivity.
  - vm_compute. reflexivity.
  - apply (rtc_l _ _ (arrive 1 r0)); [exact (st_other _ _ (st_part _ _ r0))|].
    apply (rtc_l _ _ (arrive 0 (arrive 1 r0))); [exact (st_other _ _ (st_part _ _ (arrive 1 r0)))|].
    apply (rtc_l _ _ r3); [exact (st_other _ _ (st_part _ _ (arrive 0 (arrive 1 r0))))|].
    apply rtc_once, st_other, (st_assemble reliable 6 view r3 r4.1 r4.2). vm_compute. reflexivity.
  - exact Hc.
Defined.

(** Seventeen timeouts end a transfer of which nothing arrives. *)
Lemma resource_watchdog_gives_up_witness :
  let nows := map (fun i => 100 * 10 ^ 9 * i)%Z (seqZ 1 17) in
  fires id reliable view nows r0 = 17%nat /\
  (watchdogLoop id reliable view nows r0).2 = false /\
  status (watchdogLoop id reliable view nows r0).1.1 = ResourceStatusFailed.
Proof.
  intros nows. assert (fires id reliable view nows r0 = 17%nat) as Hf by (vm_compute; reflexivity). split; [exact Hf|].
  pose proof (resource_watchdog_gives_up id reliable view nows r0 ltac:(split; discriminate) ltac:(discriminate)) as H.
  cbv zeta in H. rewrite Hf in H. destruct (watchdogLoop id reliable view nows r0) as [[r' ev] []].
  - exfalso. destruct H as (_ & _ & H). by apply H.
  - split; [reflexivity|exact (proj1 H)].
Defined.

Lemma equal_map_hashes_stall_witness :
  let r0 := accepted_resource 1 view true true twins_packet twins_adv in
  hashmap r0 = [twin; twin] /\ status r0 <> ResourceStatusComplete /\
  exists p, parts r0 !! 1%nat = Some p /\ ReceivedData p = None.
Proof.
  intros r. split; [vm_compute; reflexivity|].
  apply (equal_map_hashes_stall 1 view true true twins_packet twins_adv 0 twin r);
    [vm_compute; reflexivity..|apply rtc_refl].
Defined.

Lemma compressed_with_metadata_fails_witness :
  compressed squeezed = true /\
  exists r', Assemble reliable 0 view all_parts = Ok (r', []) /\ status r' = ResourceStatusFailed.
Proof.
  split; [vm_compute; reflexivity|].
  apply (compressed_with_metadata_fails) with (rnd := rnd) (key := key) (t := tok) (input := zeros) (l := view)
    (opts := opts) (s := squeezed) (prefix := match metadata_prefix (OMetadata opts) with Ok p => p | _ => [] end);
    try reflexivity.
  - intros c Hc. cbn. destruct c as [|b c]; [reflexivity|].
    destruct b as [|p|p]; [reflexivity| |reflexivity].
    repeat (destruct p as [p|p|]; try reflexivity). by destruct Hc.
  - split; [exists (replicate 4 9)%Z|exists (replicate 16 9)%Z]; by repeat split; apply (bool_decide_unpack _).
  - apply (bool_decide_unpack _). vm_compute. exact I.
  - split; [apply (bool_decide_unpack _); vm_compute; exact I|reflexivity|].
    constructor; [|constructor]. split; [reflexivity|]. split; [reflexivity|]. split; apply (bool_decide_unpack _); exact I.
  - discriminate.
Defined.
End SafetyWitnesses.
