(* ===== verification/Identity.v ===== *)
(** * Key pairs, identities and destinations

    Models [rns/crypto/x25519.go] and [ed25519.go] (wrappers around the
    standard library's curves, which are the class [Curves] with their laws),
    [rns/identity.go] (key loading, signatures, announce validation,
    encryption with ratchets) and [rns/destination.go] (names and hashes,
    announces, the ratchet ring and its file, encryption).

    Keys are the byte strings they are made from.  A Go string is its bytes.
    Each draw of random bytes in an operation has a source of its own; file
    contents are arguments and results. *)

From stdpp Require Import base tactics option list.
From Stdlib Require Import ZArith Lia.
From S2P Require Import Prelude Clock Crypto Packet Msgpack.
Local Open Scope Z_scope.
Local Open Scope go_scope.

(** ** Curves *)

Class Curves := {
  x_public : bytes -> bytes;
  x_exchange : bytes -> bytes -> res crypto_err bytes;
  ed_public : bytes -> bytes;
  ed_sign : bytes -> bytes -> bytes;
  ed_verify : bytes -> bytes -> bytes -> bool;
}.

(** Public keys have 32 bytes and signatures 64, the exchange of two key pairs
    gives both sides one 32-byte secret, and a signature verifies. *)
Class CurvesLaws `{Curves} := {
  x_public_length k : length (x_public k) = 32%nat;
  x_public_bytes k : bytes_ok (x_public k);
  x_agree a b : length a = 32%nat -> length b = 32%nat ->
    exists s, x_exchange a (x_public b) = Ok s /\ x_exchange b (x_public a) = Ok s /\ length s = 32%nat;
  ed_public_length k : length (ed_public k) = 32%nat;
  ed_public_bytes k : bytes_ok (ed_public k);
  ed_sign_length k m : length (ed_sign k m) = 64%nat;
  ed_sign_bytes k m : bytes_ok (ed_sign k m);
  ed_verify_sign k m : ed_verify (ed_public k) m (ed_sign k m) = true;
}.

Inductive id_err :=
  | ErrKeyLength (n : Z)
  | ErrIdRandom
  | ErrNoSigningKey
  | ErrNoPublicKey
  | ErrNoPrivateKey
  | ErrCiphertextShort
  | ErrRatchetEnforced
  | ErrIdCrypto (e : crypto_err)
  | ErrDots
  | ErrNeedsIdentity
  | ErrPlainIdentity
  | ErrAnnounceType
  | ErrAnnounceDirection
  | ErrNoIdentity
  | ErrRatchetsDisabled
  | ErrNoRatchetPath
  | ErrRatchetFile
  | ErrRatchetSignature
  | ErrRatchetUnpack (e : mp_err)
  | ErrRatchetPack (e : mp_err)
  | ErrWriteFile
  | ErrRequestSize.

(** ** Key pairs *)

Section Keys.
Context `{Curves}.

Definition key_of_bytes (data : bytes) : res id_err bytes :=
  if negb (length data =? 32)%nat then Err (ErrKeyLength (zlen data)) else Ok data.

Definition NewX25519PrivateKeyFromBytes : bytes -> res id_err bytes := key_of_bytes.
Definition NewX25519PublicKeyFromBytes : bytes -> res id_err bytes := key_of_bytes.
Definition NewEd25519PrivateKeyFromBytes : bytes -> res id_err bytes := key_of_bytes.
Definition NewEd25519PublicKeyFromBytes : bytes -> res id_err bytes := key_of_bytes.

Definition generate_key (rnd : random_source) : res id_err bytes :=
  match rnd 32%nat with
  | Ok seed => key_of_bytes seed
  | Err _ => Err ErrIdRandom
  | Panic => Panic
  end.
Definition GenerateX25519PrivateKey : random_source -> res id_err bytes := generate_key.
Definition GenerateEd25519PrivateKey : random_source -> res id_err bytes := generate_key.

Definition Exchange (prv peer : bytes) : res id_err bytes := map_err ErrIdCrypto (x_exchange prv peer).
End Keys.

(** ** Identities *)

Definition IdentityKeySize : Z := 256 * 2.
Definition half : nat := Z.to_nat (IdentityKeySize / 8 / 2).
Definition NameHashLength : Z := 80.
Definition nameHashLen : nat := Z.to_nat (NameHashLength / 8).
Definition FlagSet : Z := 0x01.
Definition ContextPathResponse : Z := 0x0b.

Record Identity := mkIdentity {
  prv : option bytes;
  pub : option bytes;
  sigPrv : option bytes;
  sigPub : option bytes;
  IHash : bytes;
  HexHash : bytes;
  AppData : bytes;
}.
#[global] Instance eta_Identity : Eta Identity := fun i =>
  mkIdentity (prv i) (pub i) (sigPrv i) (sigPub i) (IHash i) (HexHash i) (AppData i).

(** [fmt.Sprintf("%x", b)]. *)
Definition hex_digit (d : Z) : Z := if d <? 10 then 48 + d else 87 + d.
Definition hex (b : bytes) : bytes := concat (map (fun x => [hex_digit (x / 16); hex_digit (x mod 16)]) b).

Section Identities.
Context `{Sha256, BlockCipher, Curves}.

Definition zeroIdentity : Identity := mkIdentity None None None None [] [] [].

Definition GetPublicKey (i : Identity) : bytes :=
  match pub i, sigPub i with Some p, Some s => p ++ s | _, _ => [] end.

Definition GetPrivateKey (i : Identity) : bytes :=
  match prv i, sigPrv i with Some p, Some s => p ++ s | _, _ => [] end.

Definition UpdateHashes (i : Identity) : Identity :=
  i <| IHash := TruncatedHash (GetPublicKey i) |> <| HexHash := hex (TruncatedHash (GetPublicKey i)) |>.

(** The key pairs of an identity, and its hashes. *)
Definition with_keys (p s : bytes) (i : Identity) : Identity :=
  UpdateHashes (i <| prv := Some p |> <| pub := Some (x_public p) |>
                  <| sigPrv := Some s |> <| sigPub := Some (ed_public s) |>).

Definition CreateKeys (rnd1 rnd2 : random_source) (i : Identity) : res id_err Identity :=
  p ← GenerateX25519PrivateKey rnd1;
  s ← GenerateEd25519PrivateKey rnd2;
  Ok (with_keys p s i).

Definition NewIdentity (createKeys : bool) (rnd1 rnd2 : random_source) : res id_err Identity :=
  if createKeys then CreateKeys rnd1 rnd2 zeroIdentity else Ok zeroIdentity.

Definition LoadPrivateKey (data : bytes) (i : Identity) : res id_err Identity :=
  if negb (length data =? half * 2)%nat then Err (ErrKeyLength (zlen data))
  else
    p ← NewX25519PrivateKeyFromBytes (take half data);
    s ← NewEd25519PrivateKeyFromBytes (drop half data);
    Ok (with_keys p s i).

Definition LoadPublicKey (data : bytes) (i : Identity) : res id_err Identity :=
  if negb (length data =? half * 2)%nat then Err (ErrKeyLength (zlen data))
  else
    p ← NewX25519PublicKeyFromBytes (take half data);
    s ← NewEd25519PublicKeyFromBytes (drop half data);
    Ok (UpdateHashes (i <| pub := Some p |> <| sigPub := Some s |>)).

Definition FromBytes (data : bytes) : res id_err Identity := LoadPrivateKey data zeroIdentity.

(** [PubToFile] and [ToFile] write these bytes. *)
Definition ToFile (i : Identity) : res id_err bytes :=
  match GetPrivateKey i with [] => Err ErrNoPrivateKey | b => Ok b end.
Definition PubToFile (i : Identity) : res id_err bytes :=
  match GetPublicKey i with [] => Err ErrNoPublicKey | b => Ok b end.

Definition RatchetIDOf (ratchetPub : bytes) : bytes := take nameHashLen (FullHash ratchetPub).

Definition ISign (i : Identity) (message : bytes) : res id_err bytes :=
  match sigPrv i with None => Err ErrNoSigningKey | Some k => Ok (ed_sign k message) end.

Definition IVerify (i : Identity) (signature message : bytes) : bool :=
  match sigPub i with None => false | Some k => ed_verify k message signature end.

(** The token two parties derive from an exchange. *)
Definition exchange_token (prv peer salt : bytes) : res id_err Token :=
  sharedKey ← Exchange prv peer;
  derivedKey ← map_err ErrIdCrypto (HKDF 64 sharedKey salt []);
  map_err ErrIdCrypto (NewToken derivedKey).

(** [rnd] gives the ephemeral key and the initialization vector, which are
    draws of different sizes. *)
Definition IEncrypt (rnd : random_source) (i : Identity) (plaintext ratchetPub : bytes) : res id_err bytes :=
  targetPub ← (if (0 <? length ratchetPub)%nat then NewX25519PublicKeyFromBytes ratchetPub
               else match pub i with None => Err ErrNoPublicKey | Some p => Ok p end);
  ephemeral ← GenerateX25519PrivateKey rnd;
  token ← exchange_token ephemeral targetPub (IHash i);
  ciphertext ← map_err ErrIdCrypto (Encrypt rnd token plaintext);
  Ok (x_public ephemeral ++ ciphertext).

(** The first ratchet that opens the token; an error skips to the next. *)
Fixpoint try_ratchets (ratchets : list bytes) (i : Identity) (ephemeralPub tokenCiphertext : bytes)
    : res id_err (option bytes) :=
  match ratchets with
  | [] => Ok None
  | r :: rs =>
      match (token ← exchange_token r ephemeralPub (IHash i);
             map_err ErrIdCrypto (Decrypt token tokenCiphertext)) with
      | Ok p => Ok (Some p)
      | Err _ => try_ratchets rs i ephemeralPub tokenCiphertext
      | Panic => Panic
      end
  end.

Definition IDecrypt (i : Identity) (ciphertext : bytes) (ratchets : list bytes) (enforceRatchets : bool)
    : res id_err bytes :=
  if (length ciphertext <? half)%nat then Err ErrCiphertextShort
  else
    ephemeralPub ← NewX25519PublicKeyFromBytes (take half ciphertext);
    let tokenCiphertext := drop half ciphertext in
    opened ← try_ratchets ratchets i ephemeralPub tokenCiphertext;
    match opened with
    | Some p => Ok p
    | None =>
        if enforceRatchets then Err ErrRatchetEnforced
        else match prv i with
             | None => Err ErrNoPrivateKey
             | Some k =>
                 token ← exchange_token k ephemeralPub (IHash i);
                 map_err ErrIdCrypto (Decrypt token tokenCiphertext)
             end
    end.

(** ** Announces *)

(** What a valid announce makes the transport learn. *)
Inductive announce_effect :=
  | Remember (packetHash destinationHash publicKey appData : bytes)
  | SetRatchet (destinationHash ratchet : bytes).

Definition keySize : nat := Z.to_nat (IdentityKeySize / 8).
Definition sigLen : nat := 64.
Definition ratchetSize : nat := 32.

Definition announce_min (p : Packet) : nat :=
  (keySize + nameHashLen + 10 + sigLen + if (ContextFlag p =? FlagSet)%Z then ratchetSize else 0)%nat.

(** The fields of an announce, in the order of the wire. *)
Record announce_fields := mkAnnounce {
  a_publicKey : bytes; a_nameHash : bytes; a_randomHash : bytes;
  a_ratchet : bytes; a_signature : bytes; a_appData : bytes;
}.

Definition split_announce (p : Packet) : announce_fields :=
  let d := Packet.Data p in
  let offset := (keySize + nameHashLen + 10)%nat in
  let flag := ContextFlag p =? FlagSet in
  let offset' := if flag then (offset + ratchetSize)%nat else offset in
  mkAnnounce (take keySize d) (slice keySize (keySize + nameHashLen) d)
    (slice (keySize + nameHashLen) (keySize + nameHashLen + 10) d)
    (if flag then slice offset (offset + ratchetSize) d else [])
    (slice offset' (offset' + sigLen) d) (drop (offset' + sigLen) d).

Definition announce_signed (destinationHash : bytes) (a : announce_fields) : bytes :=
  destinationHash ++ a_publicKey a ++ a_nameHash a ++ a_randomHash a ++ a_ratchet a ++ a_appData a.

Definition ValidateAnnounce (p : Packet) : bool * list announce_effect :=
  if negb (PacketType p =? PacketAnnounce) then (false, [])
  else if (length (Packet.Data p) <? announce_min p)%nat then (false, [])
  else
    let a := split_announce p in
    match LoadPublicKey (a_publicKey a) zeroIdentity with
    | Ok i =>
        if negb (IVerify i (a_signature a) (announce_signed (DestinationHash p) a)) then (false, [])
        else if negb (bytes_eqb (DestinationHash p) (TruncatedHash (a_nameHash a ++ IHash i))) then (false, [])
        else
          (true, [Remember (PacketHash p) (DestinationHash p) (a_publicKey a) (a_appData a)] ++
                 (if (0 <? length (a_ratchet a))%nat then [SetRatchet (DestinationHash p) (a_ratchet a)] else []))
    | _ => (false, [])
    end.

(** ** Destinations *)

Definition DestinationGroup : Z := 0x01.
Definition DestinationIn : Z := 0x11.
Definition DestinationOut : Z := 0x12.
Definition ProveNone : Z := 0x21.
Definition ProveApp : Z := 0x22.
Definition ProveAll : Z := 0x23.

Record DestinationT := mkDestination {
  identity : option Identity;
  direction : Z;
  DType : Z;
  appName : bytes;
  aspects : list bytes;
  DHash : bytes;
  DHexHash : bytes;
  name : bytes;
  nameHash : bytes;
  proofStrategy : Z;
  acceptLinkRequests : bool;
  maxRequestSize : Z;
  ratchets : option (list bytes);
  ratchetsPath : bytes;
  ratchetInterval : Z;
  latestRatchetTime : Z;
  latestRatchetID : option bytes;
  enforceRatchets : bool;
  retainedRatchets : Z;
  defaultAppData : option bytes;
}.
#[global] Instance eta_Destination : Eta DestinationT := fun d =>
  mkDestination (identity d) (direction d) (DType d) (appName d) (aspects d) (DHash d) (DHexHash d)
    (name d) (nameHash d) (proofStrategy d) (acceptLinkRequests d) (maxRequestSize d) (ratchets d)
    (ratchetsPath d) (ratchetInterval d) (latestRatchetTime d) (latestRatchetID d)
    (enforceRatchets d) (retainedRatchets d) (defaultAppData d).

Definition dot : Z := 46.

Definition ExpandName (i : option Identity) (appName : bytes) (aspects : list bytes) : bytes :=
  appName ++ concat (map (fun a => dot :: a) aspects) ++
  match i with None => [] | Some i => dot :: HexHash i end.

Definition CalculateHash (i : option Identity) (appName : bytes) (aspects : list bytes) : bytes :=
  let nameHash := take nameHashLen (FullHash (ExpandName None appName aspects)) in
  let material := match i with None => nameHash | Some i => nameHash ++ IHash i end in
  take (Z.to_nat (TruncatedHashLength / 8)) (FullHash material).

(** [strings.Split(s, ".")]. *)
Fixpoint split_dots (s acc : bytes) : list bytes :=
  match s with
  | [] => [acc]
  | c :: s' => if c =? dot then acc :: split_dots s' [] else split_dots s' (acc ++ [c])
  end.

Definition AppAndAspectsFromName (fullName : bytes) : bytes * list bytes :=
  match split_dots fullName [] with
  | a :: l => (a, l)
  | [] => ([], [])
  end.

Definition HashFromNameAndIdentity (fullName : bytes) (i : option Identity) : bytes :=
  let '(a, l) := AppAndAspectsFromName fullName in CalculateHash i a l.

Definition NewDestination (rnd1 rnd2 : random_source) (i : option Identity) (dir destType : Z)
    (app : bytes) (asps : list bytes) : res id_err DestinationT :=
  let has_dot s := existsb (fun c => c =? dot) s in
  if has_dot app || existsb has_dot asps then Err ErrDots
  else
    let d := mkDestination i dir destType app asps [] [] [] [] ProveNone true 0 None []
               (30 * 60 * Second) 0 None false 512 None in
    d ← match i with
        | None =>
            if (dir =? DestinationIn) && negb (destType =? DestinationPlain) then
              i ← NewIdentity true rnd1 rnd2;
              Ok (d <| identity := Some i |> <| aspects := asps ++ [HexHash i] |>)
            else if (dir =? DestinationOut) && negb (destType =? DestinationPlain) then Err ErrNeedsIdentity
            else Ok d
        | Some _ => if destType =? DestinationPlain then Err ErrPlainIdentity else Ok d
        end;
    let h := CalculateHash (identity d) app (aspects d) in
    Ok (d <| name := ExpandName (identity d) app (aspects d) |>
          <| DHash := h |> <| DHexHash := hex h |>
          <| nameHash := take nameHashLen (FullHash (ExpandName None app (aspects d))) |>).

(** ** Ratchets

    [disk] is the content of the ratchet file, if it exists; [writable] says
    whether writing and renaming it succeeds; [order] is the iteration order
    of Go maps. *)

Definition key_signature : bytes := [115; 105; 103; 110; 97; 116; 117; 114; 101].
Definition key_ratchets : bytes := [114; 97; 116; 99; 104; 101; 116; 115].

Definition file_result : Type := DestinationT * option bytes * res id_err unit.

Definition persistRatchets (order : list (value * value) -> list (value * value)) (writable : bool)
    (d : DestinationT) (disk : option bytes) : file_result :=
  if (length (ratchetsPath d) =? 0)%nat then (d, disk, Ok tt)
  else
    match Msgpack.Pack (VArr (map VBin (default [] (ratchets d)))) with
    | (_, Some e) => (d, disk, Err (ErrRatchetPack e))
    | (packed, None) =>
        match identity d with
        | None => (d, disk, Panic)
        | Some i =>
            match ISign i packed with
            | Ok signature =>
                match Msgpack.Pack (VMap (order [(VStr key_signature, VBin signature); (VStr key_ratchets, VBin packed)])) with
                | (_, Some e) => (d, disk, Err (ErrRatchetPack e))
                | (data, None) => if writable then (d, Some data, Ok tt) else (d, disk, Err ErrWriteFile)
                end
            | Err e => (d, disk, Err e)
            | Panic => (d, disk, Panic)
            end
        end
    end.

(** [m[key]] of a decoded map with a string key. *)
Fixpoint map_get (m : list (value * value)) (key : bytes) : value :=
  match m with
  | [] => VNil
  | (k, v) :: m' => if go_eq k (VStr key) then v else map_get m' key
  end.

(** The keys of a decoded list: entries of a wrong length are skipped, an
    entry that is not binary fails its type assertion. *)
Fixpoint load_ratchets (l : list value) : res id_err (list bytes) :=
  match l with
  | [] => Ok []
  | VBin b :: l' =>
      rest ← load_ratchets l';
      Ok (match NewX25519PrivateKeyFromBytes b with Ok k => k :: rest | _ => rest end)
  | _ :: _ => Panic
  end.

Definition parse_ratchets (i : option Identity) (data : bytes) : res id_err (list bytes) :=
  v ← map_err ErrRatchetUnpack (Msgpack.Unpack data);
  match v with
  | VMap m =>
      match map_get m key_signature, map_get m key_ratchets with
      | VBin signature, VBin packed =>
          match i with
          | None => Panic
          | Some i =>
              if negb (IVerify i signature packed) then Err ErrRatchetSignature
              else
                v ← map_err ErrRatchetUnpack (Msgpack.Unpack packed);
                match v with VArr l => load_ratchets l | _ => Err ErrRatchetFile end
          end
      | _, _ => Err ErrRatchetFile
      end
  | _ => Err ErrRatchetFile
  end.

Definition reloadRatchets (order : list (value * value) -> list (value * value)) (writable : bool)
    (d : DestinationT) (disk : option bytes) : file_result :=
  match disk with
  | None => persistRatchets order writable (d <| ratchets := Some [] |>) disk
  | Some data =>
      match parse_ratchets (identity d) data with
      | Ok rs =>
          let d := d <| ratchets := Some rs |> in
          (match rs with
           | [] => d
           | r :: _ => d <| latestRatchetID := Some (RatchetIDOf (x_public r)) |>
           end, disk, Ok tt)
      | Err e => (d, disk, Err e)
      | Panic => (d, disk, Panic)
      end
  end.

Definition EnableRatchets order (writable : bool) (path : bytes) (d : DestinationT) (disk : option bytes)
    : file_result :=
  if (length path =? 0)%nat then (d, disk, Err ErrNoRatchetPath)
  else reloadRatchets order writable (d <| ratchetsPath := path |> <| latestRatchetTime := 0 |>) disk.

Definition RotateRatchets order (writable : bool) (rnd : random_source) (now : Z) (d : DestinationT)
    (disk : option bytes) : file_result :=
  match ratchets d with
  | None => (d, disk, Err ErrRatchetsDisabled)
  | Some rs =>
      if Sub now (latestRatchetTime d) <? ratchetInterval d then (d, disk, Ok tt)
      else
        match GenerateX25519PrivateKey rnd with
        | Err e => (d, disk, Err e)
        | Panic => (d, disk, Panic)
        | Ok k =>
            let rs := k :: rs in
            let d := d <| ratchets := Some rs |> <| latestRatchetTime := now |>
                       <| latestRatchetID := Some (RatchetIDOf (x_public k)) |> in
            if retainedRatchets d <? zlen rs then
              if retainedRatchets d <? 0 then (d, disk, Panic)
              else persistRatchets order writable
                     (d <| ratchets := Some (take (Z.to_nat (retainedRatchets d)) rs) |>) disk
            else persistRatchets order writable d disk
        end
  end.

Definition DEncryptFor (rnd : random_source) (selectedRatchet : option bytes) (d : DestinationT)
    (plaintext : bytes) : DestinationT * res id_err bytes :=
  if DType d =? DestinationPlain then (d, Ok plaintext)
  else match identity d with
       | None => (d, Err ErrNoIdentity)
       | Some i =>
           (match selectedRatchet with
            | None => d | Some r => d <| latestRatchetID := Some (RatchetIDOf r) |> end,
            IEncrypt rnd i plaintext (default [] selectedRatchet))
       end.

Definition DDecryptFor order (writable : bool) (d : DestinationT) (disk : option bytes) (ciphertext : bytes)
    : DestinationT * option bytes * res id_err bytes :=
  if DType d =? DestinationPlain then (d, disk, Ok ciphertext)
  else match identity d with
       | None => (d, disk, Err ErrNoIdentity)
       | Some i =>
           match default [] (ratchets d) with
           | [] => (d, disk, IDecrypt i ciphertext [] (enforceRatchets d))
           | rs =>
               match IDecrypt i ciphertext rs (enforceRatchets d) with
               | Err e =>
                   if (0 <? length (ratchetsPath d))%nat then
                     match reloadRatchets order writable d disk with
                     | (d, disk, Panic) => (d, disk, Panic)
                     | (d, disk, _) =>
                         (d, disk, IDecrypt i ciphertext (default [] (ratchets d)) (enforceRatchets d))
                     end
                   else (d, disk, Err e)
               | r => (d, disk, r)
               end
           end
       end.

Definition DSign (d : DestinationT) (data : bytes) : res id_err bytes :=
  match identity d with None => Err ErrNoIdentity | Some i => ISign i data end.
Definition DVerify (d : DestinationT) (signature data : bytes) : bool :=
  match identity d with None => false | Some i => IVerify i signature data end.

(** A destination as packets see it; [rnd] and [selectedRatchet] serve its
    encryption. *)
Definition packet_view (hasTransport : bool) (rnd : random_source) (selectedRatchet : option bytes)
    (d : DestinationT) : PacketDestination :=
  {| GetHash := DHash d; GetType := DType d; HasTransport := hasTransport;
     DEncrypt := fun plaintext => map_err (fun _ => ErrEncrypt) (DEncryptFor rnd selectedRatchet d plaintext).2;
     Impl := DDestination (latestRatchetID d) (match identity d with
                                               | None => None
                                               | Some i => Some (IVerify i) end) |}.

(** The random part and the timestamp of an announce. *)
Definition announce_random (rnd : random_source) (nowUnix : Z) : res id_err bytes :=
  match rnd (Z.to_nat (TruncatedHashLength / 8)) with
  | Ok randPart => Ok (take 5 (TruncatedHash randPart) ++ be_enc 5 nowUnix)
  | Err _ => Err ErrIdRandom
  | Panic => Panic
  end.

(** The ratchet an announce carries: the rotation, and the transport's copy. *)
Definition announce_ratchet order (writable hasTransport : bool) (rnd : random_source) (now : Z)
    (d : DestinationT) (disk : option bytes)
    : DestinationT * option bytes * list announce_effect * res id_err bytes :=
  match ratchets d with
  | None => (d, disk, [], Ok [])
  | Some _ =>
      match RotateRatchets order writable rnd now d disk with
      | (d, disk, Ok tt) =>
          match default [] (ratchets d) with
          | [] => (d, disk, [], Ok [])
          | r :: _ => (d, disk, if hasTransport then [SetRatchet (DHash d) (x_public r)] else [], Ok (x_public r))
          end
      | (d, disk, Err e) => (d, disk, [], Err e)
      | (d, disk, Panic) => (d, disk, [], Panic)
      end
  end.

Definition announce_packet (hasTransport : bool) (rnd : random_source) (pathResponse : bool)
    (d : DestinationT) (ratchet announceData : bytes) : Packet :=
  let p := NewPacket (packet_view hasTransport rnd None d) announceData in
  let p := p <| PacketType := PacketAnnounce |> in
  let p := if pathResponse then p <| Context := ContextPathResponse |> else p in
  if (0 <? length ratchet)%nat then p <| ContextFlag := FlagSet |> else p.

Definition buildAnnouncePacket order (writable hasTransport : bool) (rnd rndRatchet : random_source)
    (now nowUnix : Z) (appData : option bytes) (pathResponse : bool) (d : DestinationT) (disk : option bytes)
    : DestinationT * option bytes * list announce_effect * res id_err Packet :=
  if negb (DType d =? DestinationSingle) then (d, disk, [], Err ErrAnnounceType)
  else if negb (direction d =? DestinationIn) then (d, disk, [], Err ErrAnnounceDirection)
  else
    let app := match appData with Some a => a | None => default [] (defaultAppData d) end in
    match announce_random rnd nowUnix with
    | Err e => (d, disk, [], Err e)
    | Panic => (d, disk, [], Panic)
    | Ok randomHash =>
        match announce_ratchet order writable hasTransport rndRatchet now d disk with
        | (d, disk, ev, Err e) => (d, disk, ev, Err e)
        | (d, disk, ev, Panic) => (d, disk, ev, Panic)
        | (d, disk, ev, Ok ratchet) =>
            match identity d with
            | None => (d, disk, ev, Panic)
            | Some i =>
                let a := mkAnnounce (GetPublicKey i) (nameHash d) randomHash ratchet [] app in
                match ISign i (announce_signed (DHash d) a) with
                | Err e => (d, disk, ev, Err e)
                | Panic => (d, disk, ev, Panic)
                | Ok signature =>
                    (d, disk, ev,
                     Ok (announce_packet hasTransport rnd pathResponse d ratchet
                           (GetPublicKey i ++ nameHash d ++ randomHash ++ ratchet ++ signature ++ app)))
                end
            end
        end
    end.

(** ** Accessors and setters *)

Definition SetProofStrategy (strategy : Z) (d : DestinationT) : DestinationT := d <| proofStrategy := strategy |>.
Definition SetMaxRequestSize (n : Z) (d : DestinationT) : DestinationT * res id_err unit :=
  if n <? 0 then (d, Err ErrRequestSize) else (d <| maxRequestSize := n |>, Ok tt).
Definition SetAcceptsLinks (accept : bool) (d : DestinationT) : DestinationT := d <| acceptLinkRequests := accept |>.
Definition SetDefaultAppData (appData : option bytes) (d : DestinationT) : DestinationT :=
  d <| defaultAppData := appData |>.
Definition SetRatchetInterval (interval : Z) (d : DestinationT) : DestinationT := d <| ratchetInterval := interval |>.
Definition SetRetainedRatchets (n : Z) (d : DestinationT) : DestinationT := d <| retainedRatchets := n |>.
Definition EnforceRatchets (opt : option bool) (d : DestinationT) : DestinationT * bool :=
  let d := match opt with Some b => d <| enforceRatchets := b |> | None => d end in (d, enforceRatchets d).

(** [Prove]: the proof packet handed to [Send]. *)
Definition IProve (implicit hasTransport : bool) (i : Identity) (packet : Packet)
    (destination : option PacketDestination) (proofDestination : PacketDestination) : option Packet :=
  match sigPrv i with
  | None => None
  | Some k =>
      let signature := ed_sign k (PacketHash packet) in
      let proofData := if implicit then signature else PacketHash packet ++ signature in
      Some ((NewPacketWithTransport hasTransport (Some (default proofDestination destination)) proofData)
              <| PacketType := PacketProof |>)
  end.
End Identities.

(** ** Theorems *)

Section IdentityFacts.
Context `{Sh : Sha256} {ShL : Sha256Laws} `{Ci : BlockCipher} {CiL : BlockCipherLaws}.
Context `{Cu : Curves} {CuL : CurvesLaws}.

(** An identity that holds the key pairs of two 32-byte seeds. *)
Record keypair (i : Identity) (p s : bytes) : Prop := {
  kp_prv : prv i = Some p;
  kp_pub : pub i = Some (x_public p);
  kp_sigPrv : sigPrv i = Some s;
  kp_sigPub : sigPub i = Some (ed_public s);
  kp_hash : IHash i = TruncatedHash (x_public p ++ ed_public s);
  kp_lengths : length p = 32%nat /\ length s = 32%nat;
}.

Lemma keypair_public i p s : keypair i p s -> GetPublicKey i = x_public p ++ ed_public s.
Proof. intros [_ E1 _ E2 _ _]. unfold GetPublicKey. by rewrite E1, E2. Qed.

Lemma public_key_length p s : length (x_public p ++ ed_public s) = 64%nat.
Proof. by rewrite length_app, x_public_length, ed_public_length. Qed.

Lemma with_keys_keypair p s i : length p = 32%nat -> length s = 32%nat -> keypair (with_keys p s i) p s.
Proof. intros Hp Hs. by split. Qed.

Lemma key_of_bytes_ok d : length d = 32%nat -> key_of_bytes d = Ok d.
Proof. intros Hd. unfold key_of_bytes. by rewrite Hd. Qed.

Lemma key_of_bytes_inv d k : key_of_bytes d = Ok k -> k = d /\ length d = 32%nat.
Proof.
  unfold key_of_bytes. destruct (Nat.eqb_spec (length d) 32); cbn; [|done]. by intros [= ->].
Qed.

(** The key file round trip. *)
Lemma private_key_loads i p s i0 :
  keypair i p s -> exists i', LoadPrivateKey (GetPrivateKey i) i0 = Ok i' /\ keypair i' p s.
Proof.
  intros K. destruct (kp_lengths _ _ _ K) as [Hp Hs].
  assert (GetPrivateKey i = p ++ s) as E by (unfold GetPrivateKey; by rewrite (kp_prv _ _ _ K), (kp_sigPrv _ _ _ K)).
  unfold LoadPrivateKey, NewX25519PrivateKeyFromBytes, NewEd25519PrivateKeyFromBytes.
  rewrite E, length_app, Hp, Hs. change (32 + 32 =? half * 2)%nat with true. cbn [negb].
  change half with 32%nat. rewrite take_app_length', drop_app_length' by done.
  rewrite !key_of_bytes_ok by done. cbn [mbind res_bind]. eexists. split; [done|]. by apply with_keys_keypair.
Qed.

Lemma public_key_loads p s :
  exists i, LoadPublicKey (x_public p ++ ed_public s) zeroIdentity = Ok i /\
    sigPub i = Some (ed_public s) /\ pub i = Some (x_public p) /\ IHash i = TruncatedHash (x_public p ++ ed_public s).
Proof.
  unfold LoadPublicKey, NewX25519PublicKeyFromBytes, NewEd25519PublicKeyFromBytes. rewrite public_key_length.
  change (64 =? half * 2)%nat with true. cbn [negb]. change half with 32%nat.
  rewrite take_app_length', drop_app_length' by (by rewrite x_public_length).
  rewrite !key_of_bytes_ok by (by rewrite ?x_public_length, ?ed_public_length). cbn [mbind res_bind].
  eexists. split; [done|]. by split_and!.
Qed.

(** ** Encryption *)

(** The two sides of an exchange derive one token, which is well-keyed. *)
Lemma exchange_token_agree a b salt :
  length a = 32%nat -> length b = 32%nat ->
  exists t key, exchange_token a (x_public b) salt = Ok t /\ exchange_token b (x_public a) salt = Ok t /\
    NewToken key = Ok t.
Proof.
  intros Ha Hb. destruct (x_agree a b Ha Hb) as (s & E1 & E2 & Hl).
  unfold exchange_token, Exchange. rewrite E1, E2. cbn [map_err mbind res_bind].
  destruct (HKDF_size 64 s salt []) as (key & -> & Hk); [lia|by destruct s|]. cbn [map_err mbind res_bind].
  assert (exists t, NewToken key = Ok t) as [t Et].
  { unfold NewToken. rewrite Hk. by eexists. }
  exists t, key. by rewrite Et.
Qed.

#[export] Instance Token_eq_dec : EqDecision Token.
Proof. solve_decision. Defined.

(** Another ratchet whose token accepts the authentication code of [c]. *)
Definition mac_collision (i : Identity) (ephemeralPub c : bytes) (t : Token) (r : bytes) : Prop :=
  match exchange_token r ephemeralPub (IHash i) with
  | Ok t' => VerifyHMAC t' c = true /\ t' <> t
  | _ => False
  end.
#[export] Instance mac_collision_dec i e c t r : Decision (mac_collision i e c t r).
Proof. unfold mac_collision. destruct (exchange_token _ _ _); apply _. Defined.

Lemma try_ratchets_opens i eph c t plaintext rs :
  Decrypt t c = Ok plaintext -> Forall (fun r => ~ mac_collision i eph c t r) rs ->
  Forall (fun r => exists t', exchange_token r eph (IHash i) = Ok t') rs ->
  try_ratchets rs i eph c = Ok (Some plaintext) \/
  (try_ratchets rs i eph c = Ok None /\ Forall (fun r => exchange_token r eph (IHash i) <> Ok t) rs).
Proof.
  intros Hd Hc Hok. induction rs as [|r rs IH]; cbn [try_ratchets]; [by right|].
  apply Forall_cons in Hc as [Hr Hc]. apply Forall_cons in Hok as [[t' Et] Hok].
  unfold mac_collision in Hr. rewrite Et in *. cbn [mbind res_bind].
  destruct (decide (t' = t)) as [->|Hne]; [left; by rewrite Hd|].
  assert (Decrypt t' c = Err ErrTokenHMAC) as ->.
  { unfold Decrypt. destruct (VerifyHMAC t' c); [|done]. by destruct Hr. }
  cbn [map_err]. destruct (IH Hc Hok) as [?|[? Hn]]; [by left|]. right. split; [done|].
  constructor; [congruence|done].
Qed.

(** Encryption for an identity or for a ratchet succeeds, with the key both
    sides agree on. *)
Lemma IEncrypt_seals rnd i p s plaintext ratchet e iv :
  keypair i p s -> rnd 32%nat = Ok e -> length e = 32%nat -> rnd 16%nat = Ok iv -> length iv = 16%nat ->
  match ratchet with Some r => length r = 32%nat | None => True end ->
  let k := match ratchet with Some r => r | None => p end in
  exists ct t key, IEncrypt rnd i plaintext (match ratchet with Some r => x_public r | None => [] end)
      = Ok (x_public e ++ ct) /\
    exchange_token e (x_public k) (IHash i) = Ok t /\ exchange_token k (x_public e) (IHash i) = Ok t /\
    NewToken key = Ok t /\ Encrypt rnd t plaintext = Ok ct.
Proof.
  intros K Ee Hel Eiv Hivl Hr k. destruct (kp_lengths _ _ _ K) as [Hp _].
  assert (length k = 32%nat) as Hk by (unfold k; by destruct ratchet).
  destruct (exchange_token_agree e k (IHash i) Hel Hk) as (t & key & T1 & T2 & Hkey).
  destruct (Encrypt_ok rnd key t iv plaintext Hkey Eiv Hivl) as (? & ? & ? & ? & C1).
  eexists _, t, key. split; [|by split_and!].
  unfold IEncrypt, GenerateX25519PrivateKey, generate_key, NewX25519PublicKeyFromBytes.
  assert ((if (0 <? length (match ratchet with Some r => x_public r | None => [] end))%nat
    then key_of_bytes (match ratchet with Some r => x_public r | None => [] end)
    else match pub i with None => Err ErrNoPublicKey | Some p => Ok p end) = Ok (x_public k)) as ->.
  { unfold k. destruct ratchet as [r|].
    - rewrite x_public_length. cbn [Nat.ltb Nat.leb]. by apply key_of_bytes_ok, x_public_length.
    - cbn [length Nat.ltb Nat.leb]. by rewrite (kp_pub _ _ _ K). }
  cbn [mbind res_bind]. rewrite Ee, key_of_bytes_ok by done. cbn [mbind res_bind]. rewrite T1. cbn [mbind res_bind].
  rewrite C1. done.
Qed.

(** What is encrypted for an identity, or for one of its ratchets, is
    decrypted with the matching private key, whatever other ratchets are
    tried before it and, for a ratchet, also when ratchets are enforced; the
    only exception is another ratchet whose derived key accepts the message's
    authentication code. *)
Theorem identity_encrypt_decrypt rnd i p s plaintext ratchet ratchets enforce e iv :
  keypair i p s -> bytes_ok plaintext ->
  rnd 32%nat = Ok e -> length e = 32%nat -> rnd 16%nat = Ok iv -> length iv = 16%nat -> bytes_ok iv ->
  Forall (fun r => length r = 32%nat) ratchets ->
  match ratchet with Some r => r ∈ ratchets | None => enforce = false end ->
  exists ct t, IEncrypt rnd i plaintext (match ratchet with Some r => x_public r | None => [] end)
      = Ok (x_public e ++ ct) /\
    exchange_token e (x_public (match ratchet with Some r => r | None => p end)) (IHash i) = Ok t /\
    (IDecrypt i (x_public e ++ ct) ratchets enforce = Ok plaintext \/
     Exists (mac_collision i (x_public e) ct t) ratchets).
Proof.
  intros K Hb Ee Hel Eiv Hivl Hivb Hrs Hsel.
  destruct (IEncrypt_seals rnd i p s plaintext ratchet e iv K Ee Hel Eiv Hivl) as (ct & t & key & E & T1 & T2 & Hkey & C1).
  { destruct ratchet as [r|]; [|done]. by eapply Forall_forall in Hrs. }
  destruct (Token_opens rnd key t iv plaintext Hkey Eiv Hivl Hivb Hb) as (ct' & C1' & C2 & _).
  rewrite C1 in C1'. injection C1' as <-. exists ct, t. split; [exact E|]. split; [exact T1|].
  destruct (decide (Exists (mac_collision i (x_public e) ct t) ratchets)) as [|Hno]; [by right|left].
  apply not_Exists_Forall in Hno; [|apply _].
  unfold IDecrypt, NewX25519PublicKeyFromBytes. rewrite length_app, x_public_length.
  rewrite (proj2 (Nat.ltb_ge _ _)) by (change half with 32%nat; lia). change half with 32%nat.
  rewrite take_app_length', drop_app_length' by (by rewrite x_public_length).
  rewrite key_of_bytes_ok by apply x_public_length. cbn [mbind res_bind].
  destruct (try_ratchets_opens i (x_public e) ct t plaintext ratchets C2 Hno) as [->|[-> Hn]]; [|done|].
  { eapply Forall_impl; [exact Hrs|]. intros r Hr.
    destruct (exchange_token_agree r e (IHash i) Hr Hel) as (t' & _ & ? & _). by exists t'. }
  destruct ratchet as [r|]; [exfalso|].
  { eapply Forall_forall in Hn; [|exact Hsel]. by apply Hn. }
  cbn [mbind res_bind]. rewrite Hsel, (kp_prv _ _ _ K), T2. cbn [mbind res_bind].
  by rewrite C2.
Qed.

(** ** Announces *)

(** A destination of an identity, as [NewDestination] makes it. *)
Record dest_ok (d : DestinationT) (i : Identity) (p s : bytes) : Prop := {
  dk_identity : identity d = Some i;
  dk_keys : keypair i p s;
  dk_nameHash : length (nameHash d) = nameHashLen;
  dk_hash : DHash d = TruncatedHash (nameHash d ++ IHash i);
}.

Lemma NewDestination_ok rnd1 rnd2 i p s dir destType app asps d :
  keypair i p s -> NewDestination rnd1 rnd2 (Some i) dir destType app asps = Ok d ->
  dest_ok d i p s /\ DType d = destType /\ direction d = dir /\ ratchets d = None.
Proof.
  intros K. unfold NewDestination. cbv zeta. destruct (_ || _); [done|].
  destruct (destType =? DestinationPlain); [done|]. cbn [mbind res_bind]. intros [= <-].
  split; [|done]. split; try done. cbn. rewrite length_take, sha256_length. done.
Qed.

Lemma DHash_length d i p s : dest_ok d i p s -> length (DHash d) = dstLen.
Proof.
  intros D. rewrite (dk_hash _ _ _ _ D). unfold TruncatedHash, FullHash. by rewrite length_take, sha256_length.
Qed.

(** The fields a valid announce is split into. *)
Lemma split_announce_app q pk nh rh ratchet sig app :
  length pk = keySize -> length nh = nameHashLen -> length rh = 10%nat -> length sig = sigLen ->
  Packet.Data q = pk ++ nh ++ rh ++ ratchet ++ sig ++ app ->
  length ratchet = (if (ContextFlag q =? FlagSet)%Z then ratchetSize else 0)%nat ->
  split_announce q = mkAnnounce pk nh rh ratchet sig app /\ (announce_min q <= length (Packet.Data q))%nat.
Proof.
  intros H1 H2 H3 H4 E Hr. unfold split_announce, announce_min. rewrite E. split.
  - cbv zeta. f_equal.
    + by rewrite take_app_length'.
    + apply slice_app_mid; lia.
    + rewrite (app_assoc pk). apply (slice_app_mid (pk ++ nh) rh); rewrite ?length_app; lia.
    + destruct (ContextFlag q =? FlagSet)%Z; [|by destruct ratchet].
      rewrite (app_assoc pk), (app_assoc (pk ++ nh)). apply (slice_app_mid ((pk ++ nh) ++ rh) ratchet); rewrite ?length_app; lia.
    + rewrite (app_assoc pk), (app_assoc (pk ++ nh)), (app_assoc ((pk ++ nh) ++ rh)).
      apply (slice_app_mid (((pk ++ nh) ++ rh) ++ ratchet) sig); rewrite ?length_app, ?H1, ?H2, ?H3, ?Hr; case_match; lia.
    + rewrite (app_assoc pk), (app_assoc (pk ++ nh)), (app_assoc ((pk ++ nh) ++ rh)), (app_assoc (((pk ++ nh) ++ rh) ++ ratchet)).
      apply drop_app_length'. rewrite !length_app, H1, H2, H3, H4, Hr. case_match; lia.
  - rewrite !length_app, H1, H2, H3, H4, Hr. lia.
Qed.

(** What the ratchet operations leave alone. *)
Definition dest_same (d d' : DestinationT) : Prop :=
  identity d' = identity d /\ nameHash d' = nameHash d /\ DHash d' = DHash d /\ DType d' = DType d /\
  direction d' = direction d /\ ratchetsPath d' = ratchetsPath d.

Lemma persist_destination order w d disk : (persistRatchets order w d disk).1.1 = d.
Proof. unfold persistRatchets. repeat case_match; done. Qed.

Lemma rotate_same order w rnd now d disk : dest_same d (RotateRatchets order w rnd now d disk).1.1.
Proof.
  unfold RotateRatchets. destruct (ratchets d) as [rs|]; [|done].
  destruct (_ <? _); [done|]. destruct (GenerateX25519PrivateKey rnd) as [k| |]; [|done..]. cbv zeta.
  destruct (_ <? _); [destruct (_ <? _); [done|]|]; by rewrite persist_destination.
Qed.

(** The newest ratchet, as announced. *)
Definition announced_ratchet (d : DestinationT) : bytes :=
  match ratchets d with Some (r :: _) => x_public r | _ => [] end.

Lemma announce_ratchet_spec order w ht rnd now d disk d' disk' ev ratchet :
  announce_ratchet order w ht rnd now d disk = (d', disk', ev, Ok ratchet) ->
  dest_same d d' /\ ratchet = announced_ratchet d' /\ (ratchet = [] \/ length ratchet = ratchetSize).
Proof.
  unfold announce_ratchet, announced_ratchet. destruct (ratchets d) as [rs|] eqn:Er.
  - pose proof (rotate_same order w rnd now d disk) as Hs.
    destruct (RotateRatchets order w rnd now d disk) as [[d1 disk1] [[]|e|]]; cbn [fst] in Hs; try done.
    destruct (ratchets d1) as [[|r rs1]|] eqn:E1; cbn; intros [= <- <- <- <-]; rewrite E1.
    + auto.
    + split; [done|]. split; [done|]. right. apply x_public_length.
    + auto.
  - intros [= <- <- <- <-]. rewrite Er. split; [done|]. auto.
Qed.

Lemma Pack_plain p p' :
  HeaderType p = Header1 -> PacketType p = PacketAnnounce -> Packet.Pack p = (p', Ok tt) ->
  Ciphertext p' = Packet.Data p /\ PMTU p' = PMTU p.
Proof.
  intros Hh Ht. unfold Packet.Pack. destruct (Destination p) as [d|]; [|done]. cbv zeta.
  cbn [HeaderType]. set (p1 := _ <| Flags := _ |>). change (HeaderType p1) with (HeaderType p).
  rewrite Hh. change (Header1 =? Header1) with true. cbv iota.
  assert (shouldEncrypt p1 = false) as ->.
  { unfold shouldEncrypt. change (PacketType p1) with (PacketType p). rewrite Ht. done. }
  unfold finishPack. cbv zeta. destruct (_ <? _); [done|].
  unfold UpdateHash, PGetHash. destruct (GetHashablePart _) as [h| |]; cbn; [|done..]. by intros [= <-].
Qed.

Lemma announce_packet_wire ht rnd pr d ratchet data :
  DType d = DestinationSingle -> length (DHash d) = dstLen ->
  wire_ok (announce_packet ht rnd pr d ratchet data) (packet_view ht rnd None d) /\
  HeaderType (announce_packet ht rnd pr d ratchet data) = Header1 /\
  PacketType (announce_packet ht rnd pr d ratchet data) = PacketAnnounce /\
  Packet.Data (announce_packet ht rnd pr d ratchet data) = data /\
  ContextFlag (announce_packet ht rnd pr d ratchet data) = (if (0 <? length ratchet)%nat then FlagSet else FlagUnset).
Proof.
  intros Hd Hl. unfold announce_packet, NewPacket, NewPacketWithTransport. cbn [packet_view Impl].
  destruct (latestRatchetID d), pr, (0 <? length ratchet)%nat; (split; [|done]);
    unfold wire_ok, small_flags; cbn; rewrite Hd;
    (split; [done|]); (split; [unfold DestinationSingle, Header1, FlagSet, FlagUnset, PacketAnnounce; lia|]);
    (split; [unfold is_byte, ContextPathResponse, ContextNone; lia|]); (split; [unfold PathfinderM; lia|]); done.
Qed.

(** C15: an announce packet built by [buildAnnouncePacket] for a destination,
    with or without ratchets and application data, is accepted by
    [ValidateAnnounce] once packed and unpacked, and makes the receiver
    remember the packet hash, the destination hash, the public key and the
    application data, and the newest ratchet when there is one. *)
Theorem announce_roundtrip d i p s order w ht rnd rndR now nowUnix appData pr disk d' disk' ev pkt pkt' :
  dest_ok d i p s ->
  buildAnnouncePacket order w ht rnd rndR now nowUnix appData pr d disk = (d', disk', ev, Ok pkt) ->
  Packet.Pack pkt = (pkt', Ok tt) ->
  exists q, Packet.Unpack (NewPacketFromRaw (Raw pkt')) = (q, Ok tt) /\
    ValidateAnnounce q =
      (true,
       [Remember (PacketHash pkt') (DHash d) (GetPublicKey i)
          (match appData with Some a => a | None => default [] (defaultAppData d) end)] ++
       (if (0 <? length (announced_ratchet d'))%nat then [SetRatchet (DHash d) (announced_ratchet d')] else [])).
Proof.
  intros D Hb Hp. set (app := match appData with Some a => a | None => default [] (defaultAppData d) end).
  unfold buildAnnouncePacket in Hb. destruct (Z.eqb_spec (DType d) DestinationSingle) as [Hs|]; [|done].
  cbn [negb] in Hb. destruct (negb _); [done|]. cbv zeta in Hb. fold app in Hb.
  destruct (announce_random rnd nowUnix) as [rh| |] eqn:Erh; [|done..].
  destruct (announce_ratchet order w ht rndR now d disk) as [[[d1 disk1] ev1] [ratchet| |]] eqn:Er; [|done..].
  destruct (announce_ratchet_spec _ _ _ _ _ _ _ _ _ _ _ Er) as ((S1 & S2 & S3 & S4 & _ & _) & Ert & Hrl).
  rewrite S1, (dk_identity _ _ _ _ D) in Hb. unfold ISign in Hb. pose proof (dk_keys _ _ _ _ D) as K.
  rewrite (kp_sigPrv _ _ _ K), S2, S3 in Hb. injection Hb as <- <- <- <-.
  set (sg := ed_sign s _) in *. set (pd := GetPublicKey i ++ _) in *.
  destruct (announce_packet_wire ht rnd pr d1 ratchet pd) as (W & Hh & Ht & Hd & Hf).
  { by rewrite S4. } { rewrite S3. by eapply DHash_length. }
  destruct (Pack_plain _ _ Hh Ht Hp) as [Hct _].
  destruct (Pack_Unpack_fields _ _ _ W Hp) as (_ & q & Eq & _ & _ & Q3 & _ & Q5 & _ & _ & _ & Q9 & Q10 & Q11).
  exists q. split; [done|]. rewrite Hct, Hd in Q10. rewrite Hf in Q3. rewrite Ht in Q5.
  cbn [packet_view GetHash] in Q9. rewrite S3 in Q9.
  assert (length rh = 10%nat) as Hrh.
  { unfold announce_random in Erh. destruct (rnd _) as [rp| |]; [|done..].
    assert (rh = take 5 (TruncatedHash rp) ++ be_enc 5 nowUnix) as -> by congruence.
    unfold TruncatedHash, FullHash. rewrite length_app, be_enc_length, !length_take, sha256_length. done. }
  destruct (split_announce_app q (GetPublicKey i) (nameHash d) rh ratchet sg app) as [Esp Hmin]; try done.
  { rewrite (keypair_public _ _ _ K). apply public_key_length. }
  { apply (dk_nameHash _ _ _ _ D). }
  { apply ed_sign_length. }
  { rewrite Q3. destruct Hrl as [->|Hrl]; [done|]. rewrite Hrl. done. }
  unfold ValidateAnnounce. rewrite Q5. change (PacketAnnounce =? PacketAnnounce) with true. cbn [negb].
  rewrite (proj2 (Nat.ltb_ge _ _)) by done. rewrite Esp. cbn [a_publicKey a_signature a_nameHash a_appData a_ratchet].
  rewrite (keypair_public _ _ _ K). destruct (public_key_loads p s) as (i' & -> & I1 & I2 & I3).
  unfold IVerify. rewrite I1, Q9.
  assert (ed_verify (ed_public s) (announce_signed (DHash d) (mkAnnounce (x_public p ++ ed_public s) (nameHash d) rh ratchet sg app)) sg = true) as ->.
  { unfold sg. rewrite <- (keypair_public _ _ _ K). apply ed_verify_sign. }
  cbn [negb]. rewrite I3, <- (kp_hash _ _ _ K), <- (dk_hash _ _ _ _ D), bytes_eqb_refl. cbn [negb].
  by rewrite Q11, Ert.
Qed.

(** What a validated announce satisfies. *)
Lemma ValidateAnnounce_inv q ev :
  ValidateAnnounce q = (true, ev) ->
  let a := split_announce q in
  length (a_publicKey a) = keySize /\ length (a_nameHash a) = nameHashLen /\
  ed_verify (drop half (a_publicKey a)) (announce_signed (DestinationHash q) a) (a_signature a) = true /\
  DestinationHash q = TruncatedHash (a_nameHash a ++ TruncatedHash (a_publicKey a)).
Proof.
  unfold ValidateAnnounce. destruct (negb _); [done|]. destruct (Nat.ltb_spec (length (Packet.Data q)) (announce_min q)) as [|Hl]; [done|].
  cbv zeta. set (a := split_announce q).
  assert (length (a_nameHash a) = nameHashLen) as Hn.
  { unfold a, split_announce, announce_min in *. cbn [a_nameHash]. unfold slice. rewrite length_take, length_drop. lia. }
  unfold LoadPublicKey, NewX25519PublicKeyFromBytes, NewEd25519PublicKeyFromBytes.
  destruct (Nat.eqb_spec (length (a_publicKey a)) (half * 2)) as [Hk|]; cbn [negb]; [|done].
  destruct (key_of_bytes (take half (a_publicKey a))) as [k1| |] eqn:E1; cbn [mbind res_bind]; [|done..].
  destruct (key_of_bytes (drop half (a_publicKey a))) as [k2| |] eqn:E2; cbn [mbind res_bind]; [|done..].
  apply key_of_bytes_inv in E1 as [-> _]. apply key_of_bytes_inv in E2 as [-> _].
  set (i := UpdateHashes _). assert (forall sg m, IVerify i sg m = ed_verify (drop half (a_publicKey a)) m sg) as Hv by done.
  assert (IHash i = TruncatedHash (take half (a_publicKey a) ++ drop half (a_publicKey a))) as Hi by done.
  rewrite Hv, Hi, take_drop. clearbody i. clear Hv Hi.
  destruct (ed_verify _ _ _) eqn:Ev; cbn [negb]; [|done].
  destruct (bytes_eqb _ _) eqn:Eh; cbn [negb]; [|done]. intros _. apply bytes_eqb_eq in Eh.
  split; [by rewrite Hk|]. by split_and!.
Qed.

(** Two different byte strings with one truncated hash. *)
Definition hash_collision (x y : bytes) : Prop := x <> y /\ TruncatedHash x = TruncatedHash y.

(** C30: two accepted announces for one destination hash carry the same public
    key and name hash, both signed by that key: nobody else can announce a
    destination.  The only exception is a collision of the truncated hash
    between the public keys of these two announces, or between what they have
    their destination hash computed from. *)
Theorem announce_binds_identity q1 q2 ev1 ev2 :
  ValidateAnnounce q1 = (true, ev1) -> ValidateAnnounce q2 = (true, ev2) ->
  DestinationHash q1 = DestinationHash q2 ->
  let a1 := split_announce q1 in let a2 := split_announce q2 in
  (a_publicKey a1 = a_publicKey a2 /\ a_nameHash a1 = a_nameHash a2 /\
   ed_verify (drop half (a_publicKey a1)) (announce_signed (DestinationHash q1) a1) (a_signature a1) = true /\
   ed_verify (drop half (a_publicKey a1)) (announce_signed (DestinationHash q1) a2) (a_signature a2) = true) \/
  hash_collision (a_publicKey a1) (a_publicKey a2) \/
  hash_collision (a_nameHash a1 ++ TruncatedHash (a_publicKey a1)) (a_nameHash a2 ++ TruncatedHash (a_publicKey a2)).
Proof.
  intros V1 V2 E. cbv zeta. set (a1 := split_announce q1). set (a2 := split_announce q2).
  destruct (ValidateAnnounce_inv _ _ V1) as (_ & N1 & S1 & D1). destruct (ValidateAnnounce_inv _ _ V2) as (_ & N2 & S2 & D2).
  fold a1 in N1, S1, D1. fold a2 in N2, S2, D2.
  destruct (decide (a_nameHash a1 ++ TruncatedHash (a_publicKey a1) = a_nameHash a2 ++ TruncatedHash (a_publicKey a2)))
    as [Em|Hne]; [|right; right; split; [exact Hne|congruence]].
  apply app_inj_1 in Em as [En Ek]; [|congruence].
  destruct (decide (a_publicKey a1 = a_publicKey a2)) as [Ep|Hne]; [|right; by left].
  left. split_and!; [done|done|done|]. rewrite Ep, E. done.
Qed.

(** ** The ratchet file *)

Lemma map_get_str (f : value -> value) (es : list (bytes * value)) key v :
  NoDup (map fst es) -> (key, v) ∈ es -> map_get (map (fun e => (VStr e.1, f e.2)) es) key = f v.
Proof.
  induction es as [|[k x] es IH]; cbn; [by intros _ ?%elem_of_nil|]. rewrite NoDup_cons. intros [Hk Hn].
  rewrite elem_of_cons. unfold go_eq. intros [[= <- <-]|Hin].
  - by rewrite bytes_eqb_refl.
  - destruct (bytes_eqb k key) eqn:E; [|by apply IH]. apply bytes_eqb_eq in E as <-.
    exfalso. apply Hk. apply list_elem_of_fmap. by exists (k, v).
Qed.

Lemma load_ratchets_keys rs :
  Forall (fun r => length r = 32%nat) rs -> load_ratchets (map VBin rs) = Ok rs.
Proof.
  induction 1 as [|r rs Hr _ IH]; [done|]. cbn [map load_ratchets]. rewrite IH. cbn [mbind res_bind].
  unfold NewX25519PrivateKeyFromBytes. by rewrite key_of_bytes_ok.
Qed.

Lemma packed_ratchets rs :
  Forall (fun r => length r = 32%nat) rs -> (zlen rs < 2 ^ 32)%Z ->
  exists b, Msgpack.Pack (VArr (map VBin rs)) = (b, None) /\ Msgpack.Unpack b = Ok (VArr (map VBin rs)) /\
    (zlen b <= 5 + 34 * zlen rs)%Z.
Proof.
  intros Hr Hl.
  assert (packable (VArr (map VBin rs))) as Hp.
  { apply pk_arr; [unfold zlen in *; by rewrite length_map|]. apply Forall_fmap. eapply Forall_impl; [exact Hr|].
    intros r Hlen. constructor. unfold zlen. rewrite Hlen. lia. }
  destruct (Unpack_Pack _ Hp) as [He Hu]. 
  destruct (Msgpack.Pack (VArr (map VBin rs))) as [b e] eqn:E. cbn [fst snd] in He, Hu. subst e.
  exists b. split; [done|]. split; [rewrite Hu; cbn [decoded]; by rewrite map_map|].
  assert (b = (Msgpack.Pack (VArr (map VBin rs))).1) as -> by (by rewrite E). unfold Msgpack.Pack.
  rewrite pack_arr_bytes by (apply Forall_fmap, Forall_true; intros r; constructor).
  rewrite zlen_app. assert (zlen (array_header (zlen (map VBin rs))) <= 5)%Z by (unfold array_header; repeat case_match; done).
  enough (zlen (concat (map (fun v => (pack false v).1) (map VBin rs))) = 34 * zlen rs)%Z by lia.
  clear -Hr. induction Hr as [|r rs Hr _ IH]; [done|]. cbn [map concat]. rewrite zlen_app, zlen_cons, IH.
  change ((pack false (VBin r)).1) with (packBin r). unfold packBin, zlen. rewrite Hr.
  change (Z.of_nat 32 <? 256) with true. cbv iota. rewrite length_app, Hr. cbn [length]. lia.
Qed.

(** The ratchets a destination persists are the ratchets any destination
    of the same identity loads from the file, in order, whatever order the
    file's map is written in; the file is signed and the signature is
    checked. *)
Theorem ratchet_file_roundtrip order d i p s rs disk d' :
  dest_ok d i p s -> (forall es, order es ≡ₚ es) ->
  ratchets d = Some rs -> Forall (fun r => length r = 32%nat) rs -> (zlen rs < 2 ^ 26)%Z ->
  ratchetsPath d <> [] -> identity d' = identity d ->
  exists data, persistRatchets order true d disk = (d, Some data, Ok tt) /\
    exists d2, reloadRatchets order true d' (Some data) = (d2, Some data, Ok tt) /\ ratchets d2 = Some rs /\
      latestRatchetID d2 = match rs with [] => latestRatchetID d' | r :: _ => Some (RatchetIDOf (x_public r)) end.
Proof.
  intros D Hord Hrs Hr Hl Hpath Hid. destruct (packed_ratchets rs Hr ltac:(lia)) as (packed & Ep & Eu & Hpl).
  pose proof (dk_keys _ _ _ _ D) as K. unfold persistRatchets. rewrite Hrs. cbn [default from_option].
  destruct (Nat.eqb_spec (length (ratchetsPath d)) 0) as [E0|]; [by destruct (ratchetsPath d)|].
  change (id rs) with rs. rewrite Ep, (dk_identity _ _ _ _ D). unfold ISign. rewrite (kp_sigPrv _ _ _ K).
  set (sg := ed_sign s packed).
  set (fields := [(key_signature, VBin sg); (key_ratchets, VBin packed)]).
  assert (exists es, order [(VStr key_signature, VBin sg); (VStr key_ratchets, VBin packed)]
      = map (fun e => (VStr e.1, e.2)) es /\ fields ≡ₚ es) as (es & Ees & Hperm).
  { apply (Permutation_map_inv (fun e : bytes * value => (VStr e.1, e.2)) fields). apply Hord. }
  assert (NoDup (map fst es)) as Hnd.
  { rewrite <- Hperm. apply (bool_decide_unpack _). vm_compute. exact I. }
  assert (packable (VMap (map (fun e => (VStr e.1, e.2)) es))) as Hp.
  { apply packable_str_map; [|done|].
    - unfold zlen. rewrite <- Hperm. done.
    - rewrite <- Hperm. repeat (apply Forall_cons; split; [split; [done|constructor]|]); [|lia|constructor].
      unfold sg, zlen. rewrite ed_sign_length. done. }
  destruct (Unpack_Pack _ Hp) as [He Hu]. rewrite Ees.
  destruct (Msgpack.Pack (VMap _)) as [data e]. cbn [fst snd] in He, Hu. subst e. exists data. split; [done|].
  unfold reloadRatchets, parse_ratchets. rewrite Hu, decoded_str_map by done. cbn [map_err mbind res_bind].
  set (f := decoded (mkOptions false false false)).
  rewrite (map_get_str f es key_signature (VBin sg)), (map_get_str f es key_ratchets (VBin packed));
    [|done|rewrite <- Hperm; right; left|done|rewrite <- Hperm; left].
  unfold f. cbn [decoded]. rewrite Hid, (dk_identity _ _ _ _ D). unfold IVerify. rewrite (kp_sigPub _ _ _ K).
  unfold sg. rewrite ed_verify_sign. cbn [negb]. rewrite Eu. cbn [map_err mbind res_bind].
  rewrite load_ratchets_keys by done. eexists. split; [done|]. by destruct rs.
Qed.
End IdentityFacts.

(** ** A concrete instance, for the witnesses: public keys are the seeds,
    secrets their sums, and signatures checksums. *)
Module ToyCurves.
Import ToyCrypto.
Definition norm (k : bytes) : bytes := take 32 (map u8 k ++ replicate 32 0).
#[export] Instance toy_curves : Curves := {|
  x_public := norm;
  x_exchange := fun a b => Ok (zip_with (fun x y => u8 (x + y)) (norm a) (norm b));
  ed_public := norm;
  ed_sign := fun k m => SHA256 (norm k ++ m) ++ SHA256 (norm k);
  ed_verify := fun p m s => bytes_eqb s (SHA256 (norm p ++ m) ++ SHA256 (norm p));
|}.

Lemma norm_length k : length (norm k) = 32%nat.
Proof. unfold norm. rewrite length_take, length_app, length_replicate. lia. Qed.

Lemma norm_bytes k : bytes_ok (norm k).
Proof.
  apply bytes_ok_take, bytes_ok_app; [|by apply Forall_replicate].
  apply Forall_fmap, Forall_true. intros x. apply u8_is_byte.
Qed.

Lemma norm_idemp k : norm (norm k) = norm k.
Proof.
  unfold norm at 1. assert (map u8 (norm k) = norm k) as ->.
  { pose proof (norm_bytes k) as Hb. induction Hb as [|x l Hx Hl IH]; [done|]. cbn. by rewrite u8_id, IH. }
  by rewrite take_app_length' by (by rewrite norm_length).
Qed.

Lemma zip_comm a b : zip_with (fun x y => u8 (x + y)) a b = zip_with (fun x y => u8 (x + y)) b a.
Proof. revert b. induction a as [|x a IH]; intros [|y b]; try done. cbn. by rewrite IH, Z.add_comm. Qed.

#[export] Instance toy_curves_laws : CurvesLaws.
Proof.
  split.
  - apply norm_length.
  - apply norm_bytes.
  - intros a b _ _. exists (zip_with (fun x y => u8 (x + y)) (norm a) (norm b)).
    unfold x_exchange, x_public, toy_curves. rewrite !norm_idemp. split; [done|]. split; [by rewrite zip_comm|].
    by rewrite length_zip_with, !norm_length.
  - apply norm_length.
  - apply norm_bytes.
  - intros k m. unfold ed_sign, toy_curves, SHA256, toy_sha. by rewrite length_app, !be_enc_length.
  - intros k m. apply bytes_ok_app; apply be_enc_ok.
  - intros k m. unfold ed_verify, ed_public, ed_sign, toy_curves. rewrite norm_idemp. apply bytes_eqb_refl.
Qed.
End ToyCurves.

Module ToyIdentity.
Import ToyCrypto ToyCurves.
Definition seed (b : Z) : bytes := replicate 32 b.
Definition alice : Identity := with_keys (seed 3) (seed 4) zeroIdentity.
Definition home : DestinationT :=
  match NewDestination rnd rnd (Some alice) DestinationIn DestinationSingle [97; 112; 112] [[120]] with
  | Ok d => d <| ratchets := Some [seed 7; seed 8] |> <| ratchetsPath := [114] |>
  | _ => mkDestination None 0 0 [] [] [] [] [] [] 0 false 0 None [] 0 0 None false 0 None
  end.
Definition announced := buildAnnouncePacket id true true rnd rnd (10 ^ 15) 1700000000 None false home None.
Definition built : Packet := match announced.2 with Ok p => p | _ => zeroPacket end.
Definition announce : Packet := (Packet.Pack built).1.
Definition is_ok {E A} (r : res E A) : bool := match r with Ok _ => true | _ => false end.
Definition heard : Packet := (Packet.Unpack (NewPacketFromRaw (Raw announce))).1.
(** A later announce of the same destination, with application data. *)
Definition heard_later : Packet :=
  match (buildAnnouncePacket id true true rnd rnd (10 ^ 15) 1700000900 (Some [5; 6]) false home None).2 with
  | Ok p => (Packet.Unpack (NewPacketFromRaw (Raw (Packet.Pack p).1))).1
  | _ => zeroPacket
  end.
End ToyIdentity.

Section IdentityWitnesses.
Import ToyCrypto ToyCurves ToyIdentity.

Lemma alice_keys : keypair alice (seed 3) (seed 4).
Proof. apply with_keys_keypair; reflexivity. Defined.

Lemma home_ok : dest_ok home alice (seed 3) (seed 4).
Proof.
  destruct (NewDestination_ok rnd rnd alice (seed 3) (seed 4) DestinationIn DestinationSingle [97; 112; 112] [[120]]
    (home <| ratchets := None |> <| ratchetsPath := [] |>) alice_keys) as [[D1 D2 D3 D4] _]; [vm_compute; reflexivity|].
  split; [exact D1|exact D2|exact D3|exact D4].
Defined.

(** A message to the second ratchet, while another is tried first. *)
Lemma identity_encrypt_decrypt_witness :
  exists ct t, IEncrypt rnd alice [1; 2; 3] (x_public (seed 8)) = Ok (x_public (seed 9) ++ ct) /\
    exchange_token (seed 9) (x_public (seed 8)) (IHash alice) = Ok t /\
    (IDecrypt alice (x_public (seed 9) ++ ct) [seed 7; seed 8] true = Ok [1; 2; 3] \/
     Exists (mac_collision alice (x_public (seed 9)) ct t) [seed 7; seed 8]).
Proof.
  apply (identity_encrypt_decrypt rnd alice (seed 3) (seed 4) [1; 2; 3] (Some (seed 8)) [seed 7; seed 8] true
    (seed 9) (replicate 16 9)); try reflexivity.
  - exact alice_keys.
  - solve_bytes.
  - apply (bool_decide_unpack _). exact I.
  - repeat constructor.
  - apply (bool_decide_unpack _). vm_compute. exact I.
Defined.

Lemma announce_roundtrip_witness :
  exists q, Packet.Unpack (NewPacketFromRaw (Raw announce)) = (q, Ok tt) /\
    ValidateAnnounce q =
      (true, [Remember (PacketHash announce) (DHash home) (GetPublicKey alice) []] ++
             (if (0 <? length (announced_ratchet announced.1.1.1))%nat
              then [SetRatchet (DHash home) (announced_ratchet announced.1.1.1)] else [])).
Proof.
  apply (announce_roundtrip home alice (seed 3) (seed 4) id true true rnd rnd (10 ^ 15) 1700000000 None false None
    announced.1.1.1 announced.1.1.2 announced.1.2 built).
  - exact home_ok.
  - assert (is_ok announced.2 = true) as E by (vm_compute; reflexivity). fold announced. unfold built.
    destruct announced as [[[d disk] ev] [p| |]]; [reflexivity|discriminate..].
  - assert (is_ok (Packet.Pack built).2 = true) as E by (vm_compute; reflexivity). unfold announce.
    destruct (Packet.Pack built) as [p [[]| |]]; [reflexivity|discriminate..].
Defined.

Lemma announce_binds_identity_witness :
  let a1 := split_announce heard in let a2 := split_announce heard_later in
  a_randomHash a1 <> a_randomHash a2 /\ a_appData a1 <> a_appData a2 /\
  a_publicKey a1 = a_publicKey a2 /\ a_nameHash a1 = a_nameHash a2 /\
  ed_verify (drop half (a_publicKey a1)) (announce_signed (DestinationHash heard) a1) (a_signature a1) = true /\
  ed_verify (drop half (a_publicKey a1)) (announce_signed (DestinationHash heard) a2) (a_signature a2) = true.
Proof.
  intros a1 a2. split; [intros E; vm_compute in E; discriminate|]. split; [intros E; vm_compute in E; discriminate|].
  destruct (announce_binds_identity heard heard_later (ValidateAnnounce heard).2 (ValidateAnnounce heard_later).2)
    as [H|[[Hne _]|[Hne _]]].
  - vm_compute. reflexivity.
  - vm_compute. reflexivity.
  - vm_compute. reflexivity.
  - exact H.
  - destruct Hne. vm_compute. reflexivity.
  - destruct Hne. vm_compute. reflexivity.
Defined.

Lemma ratchet_file_roundtrip_witness :
  exists data, persistRatchets id true home None = (home, Some data, Ok tt) /\
    exists d2, reloadRatchets id true home (Some data) = (d2, Some data, Ok tt) /\
      ratchets d2 = Some [seed 7; seed 8] /\ latestRatchetID d2 = Some (RatchetIDOf (x_public (seed 7))).
Proof.
  apply (ratchet_file_roundtrip id home alice (seed 3) (seed 4) [seed 7; seed 8] None home);
    [exact home_ok|reflexivity|reflexivity|repeat constructor|reflexivity|discriminate|reflexivity].
Defined.
End IdentityWitnesses.
