(* ===== verification/Link.v ===== *)
(** * Links

    Models [rns/link.go] with the counters of [rns/link-traffic-stats.go] and
    the proof delivery of [rns/transport.go]: the handshake between initiator
    and responder, the dispatch of received packets, sending, the watchdog and
    the teardown.

    A link is the record of its fields.  Interfaces are numbers; callbacks are
    flags that say whether one is installed; what an operation hands to an
    interface, the transport, the application, the channel or a resource is
    its events.  The answers of the transport (hop counts, timeouts, MTU
    discovery) and the random bytes are arguments.  The operations whose locks
    are released in the middle are split there. *)

From stdpp Require Import base tactics option list.
From Stdlib Require Import ZArith Lia PrimFloat.
From S2P Require Import Prelude Clock Crypto Packet Channel Buffer Msgpack Resource Identity.
Local Open Scope Z_scope.
Local Open Scope go_scope.

(** ** Constants *)

Definition LinkPending : Z := 0x00.
Definition LinkHandshake : Z := 0x01.
Definition LinkActive : Z := 0x02.
Definition LinkStale : Z := 0x03.
Definition LinkClosed : Z := 0x04.
Definition LinkModeAES128CBC : Z := 0x00.
Definition LinkModeAES256CBC : Z := 0x01.
Definition LinkECPubSize : Z := 32 + 32.
Definition LinkMTUSize : Z := 3.
Definition MTUBytemask : Z := 0x1FFFFF.
Definition ModeBytemask : Z := 0xE0.
Definition LinkKeepaliveMaxRTT : float := 1.75%float.
Definition LinkKeepaliveTimeoutFactor : float := 4.0%float.
Definition LinkStaleGrace : Z := 5 * Second.
Definition LinkKeepaliveMax : Z := 360 * Second.
Definition LinkKeepaliveMin : Z := 5 * Second.
Definition LinkKeepaliveDefault : Z := LinkKeepaliveMax.
Definition LinkStaleFactor : Z := 2.
Definition LinkWatchdogMaxSleep : Z := 5 * Second.
Definition AcceptNone : Z := 0x00.
Definition AcceptApp : Z := 0x01.
Definition AcceptAll : Z := 0x02.
Definition TeardownTimeout : Z := 0x00.
Definition TeardownDestinationClosed : Z := 0x01.
Definition TeardownInitiatorClosed : Z := 0x02.
Definition ContextRequest : Z := 0x09.
Definition ContextResponse : Z := 0x0a.
Definition ContextLinkIdentify : Z := 0xfb.
Definition ContextLinkClose : Z := 0xfc.
Definition ContextLrrtt : Z := 0xfe.
Definition establishmentTimeoutPerHop : Z := 6 * Second.

Inductive lk_err :=
  | ErrNotSingle
  | ErrLinkKeys (e : id_err)
  | ErrNotInitiator
  | ErrLinkPack (e : pkt_err)
  | ErrRequestSizeLR (n : Z)
  | ErrHandshakeState (status : Z)
  | ErrNoPeerKey
  | ErrLinkCrypto (e : crypto_err)
  | ErrLinkIsClosed
  | ErrLinkSend
  | ErrNotPending
  | ErrProofLength
  | ErrProofSignature
  | ErrPackRTT
  | ErrNoSessionKeys
  | ErrIdentifyState
  | ErrIdentifyKey
  | ErrResourceStrategy.

(** ** Links *)

Record LinkCallbacks := mkCallbacks {
  cbEstablished : bool;
  cbClosed : bool;
  cbPacket : bool;
  cbIdentified : bool;
  cbResource : option (ResourceAdvertisement -> bool);
  cbStarted : bool;
  cbConcluded : bool;
}.

(** What the link reads of a request receipt. *)
Record PendingRequest := mkPending { RequestID : bytes; maxResponseSize : Z }.

Record Link := mkLink {
  destination : option DestinationT;
  linitiator : bool;
  lstatus : Z;
  mode : Z;
  lprv : bytes; pubBytes : bytes;
  lsigPrv : option bytes; sigPubBytes : bytes;
  peerPub : option bytes; peerSigPub : option bytes;
  linkID : bytes;
  sharedKey : bytes; derivedKey : bytes; token : option Token;
  lrtt : float; mtu : Z; mdu : Z;
  expectedHops : Z; rebalancedAt : Z;
  establishmentCost : float; establishmentRate : float;
  lastInbound : Z; lastOutbound : Z; lastKeepalive : Z; lastData : Z;
  activatedAt : Z; requestTime : Z; lastProof : Z;
  tx : Z; rx : Z; txbytes : Z; rxbytes : Z;
  callbacks : LinkCallbacks;
  remoteIdentity : option Identity;
  establishmentTimeout : Z;
  attachedInterface : option nat;
  resourceStrategy : Z;
  outgoingResources : list Resource; incomingResources : list Resource;
  pendingRequests : list PendingRequest;
  trafficTimeoutFactor : float; keepaliveTimeoutFactor : float;
  keepalive : Z; staleTime : Z;
  channel : bool;
  teardownReason : Z;
  watchdogStopped : bool;
}.
#[global] Instance eta_Link : Eta Link := fun l =>
  mkLink (destination l) (linitiator l) (lstatus l) (mode l) (lprv l) (pubBytes l) (lsigPrv l)
    (sigPubBytes l) (peerPub l) (peerSigPub l) (linkID l) (sharedKey l) (derivedKey l) (token l)
    (lrtt l) (mtu l) (mdu l) (expectedHops l) (rebalancedAt l) (establishmentCost l)
    (establishmentRate l) (lastInbound l) (lastOutbound l) (lastKeepalive l) (lastData l)
    (activatedAt l) (requestTime l) (lastProof l) (tx l) (rx l) (txbytes l) (rxbytes l)
    (callbacks l) (remoteIdentity l) (establishmentTimeout l) (attachedInterface l)
    (resourceStrategy l) (outgoingResources l) (incomingResources l) (pendingRequests l) (trafficTimeoutFactor l)
    (keepaliveTimeoutFactor l) (keepalive l) (staleTime l) (channel l) (teardownReason l)
    (watchdogStopped l).

(** What a link does to its surroundings: packets to an interface or the
    transport, registration with the transport, application callbacks, the
    channel, goroutines that run a request handler or an operation of the
    [i]-th resource, and calls of [Accept] and [Reject] with a packet. *)
Inductive lk_event :=
  | LSend (iface : option nat) (p : Packet)
  | LRegister
  | LActivate
  | LEstablished
  | LClosedCallback
  | LChannelShutdown
  | LPacketCallback (data : bytes)
  | LIdentified (i : Identity)
  | LHandleRequest (requestID : bytes) (request : list value)
  | LResponseReceived (requestID : bytes) (response : value)
  | LResponseRejected (requestID : bytes)
  | LAcceptResource (packet : bytes)
  | LRejectResource (packet : bytes)
  | LResourceRequest (i : nat) (data : bytes)
  | LResourceHmu (i : nat) (data : bytes)
  | LResourcePart (i : nat) (data : bytes)
  | LResourceProof (i : nat) (data : bytes)
  | LChannelReceive (data : bytes)
  | LGenerateResponse (path : bytes) (requestID : bytes) (remote : option Identity).

Definition link_result : Type := Link * list lk_event * res lk_err unit.

Definition opened (l : Link) : bool := negb (lstatus l =? LinkClosed).

(** ** Arithmetic of a link *)

(** The wire form of MTU and mode: nothing when discovery is disabled; the
    next hop's hardware MTU when the transport knows it. *)
Definition signallingBytes (discovery : bool) (nextHopMTU : option Z) (l : Link) : bytes :=
  if negb discovery then []
  else
    let signallingMTU := match destination l, nextHopMTU with Some _, Some n => n | _, _ => mtu l end in
    let v := u32 (u32 (Z.land signallingMTU MTUBytemask)
                  + u32 (Z.shiftl (Z.land (Z.shiftl (mode l) 5) ModeBytemask) 16)) in
    drop 1 (be_enc 4 v).

(** [math.Floor] of a quotient of small integers. *)
Definition UpdateMDU (l : Link) : Link :=
  l <| mdu := (mtu l - IFACMinSize - HeaderMinSize - TokenOverhead) / AES128BlockSize * AES128BlockSize - 1 |>.

Definition updateKeepaliveLocked (l : Link) : Link :=
  let keepaliveSeconds := (lrtt l * (float_of_Z LinkKeepaliveMax / float_of_Z Second) / LinkKeepaliveMaxRTT)%float in
  let k := Z.min (Z.max (seconds_to_Duration keepaliveSeconds) LinkKeepaliveMin) LinkKeepaliveMax in
  l <| keepalive := k |> <| staleTime := LinkStaleFactor * k |>.

Definition effectiveLastInbound (l : Link) : Z :=
  let t := activatedAt l in
  let t := if After (lastInbound l) t then lastInbound l else t in
  if After (lastProof l) t then lastProof l else t.

Definition markRebalancedLocked (now : Z) (l : Link) : Link :=
  if IsZero (rebalancedAt l) then l <| rebalancedAt := now |> else l.

Definition hadOutbound (now : Z) (l : Link) : Link := l <| lastOutbound := now |> <| lastData := now |>.
Definition hadKeepaliveOutbound (now : Z) (l : Link) : Link := l <| lastOutbound := now |> <| lastKeepalive := now |>.
Definition noteProofReceived (now : Z) (l : Link) : Link := l <| lastProof := now |>.

Definition recordOutbound (now ciphertextLen : Z) (isKeepalive : bool) (l : Link) : Link :=
  let l := l <| tx := u64 (tx l + 1) |> <| txbytes := u64 (txbytes l + ciphertextLen) |> <| lastOutbound := now |> in
  if isKeepalive then l <| lastKeepalive := now |> else l <| lastData := now |>.

Definition accumulateEstablishmentCost (p : Packet) (l : Link) : Link :=
  if negb (PacketType p =? PacketLinkRequest) && negb (PacketType p =? PacketProof) then l
  else l <| establishmentCost := (establishmentCost l + float_of_Z (zlen (Raw p)))%float |>.

(** The rate, once the round-trip time is known. *)
Definition set_rate (l : Link) : Link :=
  if PrimFloat.ltb 0 (lrtt l) && PrimFloat.ltb 0 (establishmentCost l)
  then l <| establishmentRate := (establishmentCost l / lrtt l)%float |> else l.

(** The msgpack number kinds. *)
Definition numericValue (v : value) : option float :=
  match v with
  | VInt i => Some (float_of_Z i)
  | VUint i => Some (float_of_uint64 i)
  | VFloat32 b => Some (float_of_bits32 b)
  | VFloat64 b => Some (float_of_bits64 b)
  | _ => None
  end.

(** The closing of a link under its lock. *)
Definition close_link (reason : Z) (l : Link) : Link * list lk_event :=
  (l <| lstatus := LinkClosed |> <| teardownReason := reason |> <| watchdogStopped := true |>,
   (if channel l then [LChannelShutdown] else []) ++
   (if cbClosed (callbacks l) then [LClosedCallback] else [])).

Definition teardown (reason : Z) (l : Link) : Link * list lk_event :=
  if lstatus l =? LinkClosed then (l, []) else close_link reason l.

Section WithCrypto.
Context `{Sh : Sha256} `{Ci : BlockCipher} `{Cu : Curves}.

(** ** Keys *)

Definition LEncrypt (rnd : random_source) (l : Link) (plaintext : bytes) : res lk_err bytes :=
  match token l with None => Err ErrNoSessionKeys | Some t => map_err ErrLinkCrypto (Encrypt rnd t plaintext) end.

Definition LDecrypt (l : Link) (ciphertext : bytes) : res lk_err bytes :=
  match token l with None => Err ErrNoSessionKeys | Some t => map_err ErrLinkCrypto (Decrypt t ciphertext) end.

Definition LSign (l : Link) (data : bytes) : res lk_err bytes :=
  match lsigPrv l with None => Err ErrNoSessionKeys | Some k => Ok (ed_sign k data) end.

Definition LVerify (l : Link) (signature data : bytes) : bool :=
  match peerSigPub l with None => false | Some k => ed_verify k data signature end.

Definition LoadPeer (pb sigPb : bytes) (l : Link) : Link * res lk_err unit :=
  match NewX25519PublicKeyFromBytes pb with
  | Ok k =>
      let l := l <| peerPub := Some k |> in
      match NewEd25519PublicKeyFromBytes sigPb with
      | Ok s => (l <| peerSigPub := Some s |>, Ok tt)
      | Err e => (l <| peerSigPub := None |>, Err (ErrLinkKeys e))
      | Panic => (l, Panic)
      end
  | Err e => (l <| peerPub := None |>, Err (ErrLinkKeys e))
  | Panic => (l, Panic)
  end.

(** The derivation of the session token; a failing step leaves nil behind. *)
Definition handshake (l : Link) : Link * res lk_err unit :=
  if negb (lstatus l =? LinkPending) && negb (lstatus l =? LinkHandshake) then (l, Err (ErrHandshakeState (lstatus l)))
  else match peerPub l with
  | None => (l, Err ErrNoPeerKey)
  | Some peer =>
      match x_exchange (lprv l) peer with
      | Ok shared =>
          let l := l <| sharedKey := shared |> in
          let n := if mode l =? LinkModeAES128CBC then 32 else 64 in
          match HKDF n shared (linkID l) [] with
          | Ok key =>
              let l := l <| derivedKey := key |> in
              match NewToken key with
              | Ok t => (l <| token := Some t |> <| lstatus := LinkHandshake |>, Ok tt)
              | Err e => (l <| token := None |>, Err (ErrLinkCrypto e))
              | Panic => (l, Panic)
              end
          | Err e => (l <| derivedKey := [] |>, Err (ErrLinkCrypto e))
          | Panic => (l, Panic)
          end
      | Err e => (l <| sharedKey := [] |>, Err (ErrLinkCrypto e))
      | Panic => (l, Panic)
      end
  end.

(** ** Sending *)

(** A link as packets see it. *)
Definition link_view (rnd : random_source) (l : Link) : PacketDestination :=
  {| GetHash := linkID l; GetType := DestinationLink; HasTransport := true;
     DEncrypt := fun pt => map_err (fun _ => ErrEncrypt) (LEncrypt rnd l pt);
     Impl := DLink (lstatus l =? LinkClosed) (LVerify l) |}.

Definition link_packet (rnd : random_source) (l : Link) (context packetType : Z) (data : bytes) : Packet :=
  (NewPacketWithTransport true (Some (link_view rnd l)) data)
    <| PacketType := packetType |> <| Context := context |>.

(** [net] says whether the interface or the transport accepts the packet. *)
Definition send (now : Z) (net : bool) (p : Packet) (l : Link) : Link * list lk_event * res lk_err unit :=
  let l := l <| lastOutbound := now |> in
  if lstatus l =? LinkClosed then (l, [], Err ErrLinkIsClosed)
  else
    let '(p, r) := if Packed p then (p, Ok tt) else Packet.Pack p in
    match r with
    | Err e => (l, [], Err (ErrLinkPack e))
    | Panic => (l, [], Panic)
    | Ok tt =>
        let l := accumulateEstablishmentCost p l in
        match attachedInterface l with
        | Some _ =>
            let l := recordOutbound now (zlen (Ciphertext p)) (Context p =? ContextKeepalive) l in
            if net then (l, [LSend (attachedInterface l) p], Ok tt) else (l, [], Err ErrLinkSend)
        | None =>
            match Packet.Send p with
            | (p, eff, Ok tt) =>
                let l := if existsb (fun e => match e with RecordOutbound _ _ => true | _ => false end) eff
                         then recordOutbound now (zlen (Ciphertext p)) (Context p =? ContextKeepalive) l else l in
                if net then (l, [LSend None p], Ok tt) else (l, [], Err ErrLinkSend)
            | (p, eff, Err e) => (l, [], Err (ErrLinkPack e))
            | (p, eff, Panic) => (l, [], Panic)
            end
        end
    end.

Definition sendKeepalive (now : Z) (rnd : random_source) (net : bool) (l : Link) : Link * list lk_event :=
  match send now net (link_packet rnd l ContextKeepalive PacketData [0xFF]) l with
  | (l, ev, Ok tt) => (hadKeepaliveOutbound now l, ev)
  | (l, ev, _) => (l, ev)
  end.

Definition sendTeardownPacket (now : Z) (rnd : random_source) (net : bool) (l : Link) : Link * list lk_event :=
  if (length (linkID l) =? 0)%nat then (l, [])
  else let '(l, ev, _) := send now net (link_packet rnd l ContextLinkClose PacketData (linkID l)) l in (l, ev).

Definition Teardown (now : Z) (rnd : random_source) (net : bool) (l : Link) : Link * list lk_event :=
  let '(l, ev) := if negb (lstatus l =? LinkPending) && negb (lstatus l =? LinkClosed)
                  then sendTeardownPacket now rnd net l else (l, []) in
  let '(l, ev') := teardown (if linitiator l then TeardownInitiatorClosed else TeardownDestinationClosed) l in
  (l, ev ++ ev').

(** The proof of a received packet; without a signing key nothing is sent. *)
Definition ProvePacket (now : Z) (rnd : random_source) (net : bool) (p : Packet) (l : Link) : Link * list lk_event :=
  match lsigPrv l with
  | None => (l, [])
  | Some k =>
      let proof := link_packet rnd l ContextNone PacketProof (PacketHash p ++ ed_sign k (PacketHash p)) in
      let '(l, ev, _) := send now net proof l in (hadOutbound now l, ev)
  end.

(** ** The initiator *)

Definition no_callbacks : LinkCallbacks := mkCallbacks false false false false None false false.

(** The two key pairs are drawn from two sources; [hops] and [firstHop] are
    the transport's answers. *)
Definition NewLink (rnd1 rnd2 : random_source) (hops firstHop : Z) (dest : option DestinationT) : res lk_err Link :=
  match dest with
  | Some d => if negb (DType d =? DestinationSingle) then Err ErrNotSingle else Ok tt
  | None => Ok tt
  end ≫= fun _ =>
  prv ← map_err ErrLinkKeys (GenerateX25519PrivateKey rnd1);
  sig ← map_err ErrLinkKeys (GenerateEd25519PrivateKey rnd2);
  Ok (UpdateMDU
      {| destination := dest; linitiator := bool_decide (is_Some dest); lstatus := LinkPending;
         mode := LinkModeAES256CBC; lprv := prv; pubBytes := x_public prv; lsigPrv := Some sig;
         sigPubBytes := ed_public sig; peerPub := None; peerSigPub := None; linkID := [];
         sharedKey := []; derivedKey := []; token := None; lrtt := 0; mtu := MTU; mdu := 0;
         expectedHops := (if dest then hops else 0); rebalancedAt := 0; establishmentCost := 0;
         establishmentRate := 0; lastInbound := 0; lastOutbound := 0; lastKeepalive := 0; lastData := 0;
         activatedAt := 0; requestTime := 0; lastProof := 0; tx := 0; rx := 0; txbytes := 0; rxbytes := 0;
         callbacks := no_callbacks; remoteIdentity := None;
         establishmentTimeout := (if dest then firstHop else 0); attachedInterface := None;
         resourceStrategy := 0; outgoingResources := []; incomingResources := [];
         pendingRequests := []; trafficTimeoutFactor := 6; keepaliveTimeoutFactor := LinkKeepaliveTimeoutFactor;
         keepalive := LinkKeepaliveDefault; staleTime := LinkStaleFactor * LinkKeepaliveDefault;
         channel := false; teardownReason := 0; watchdogStopped := false |}).

Definition LinkIDFromLR (p : Packet) : res pkt_err bytes :=
  h ← GetHashablePart p;
  let diff := (length (Packet.Data p) - Z.to_nat LinkECPubSize)%nat in
  if (length h <? diff)%nat then Panic
  else Ok (TruncatedHash (take (length h - diff) h)).

Definition link_request (rnd : random_source) (signalling : bytes) (d : DestinationT) (l : Link) : Packet :=
  (NewPacketWithTransport true (Some (packet_view true rnd None d)) (pubBytes l ++ sigPubBytes l ++ signalling))
    <| PacketType := PacketLinkRequest |>.

Definition Establish (now : Z) (rnd : random_source) (net : bool) (signalling : bytes) (hops firstHop : Z) (l : Link)
    : link_result :=
  if negb (linitiator l) then (l, [], Err ErrNotInitiator)
  else match destination l with
  | None => (l, [], Panic)
  | Some d =>
      match Packet.Pack (link_request rnd signalling d l) with
      | (_, Err e) => (l, [], Err (ErrLinkPack e))
      | (_, Panic) => (l, [], Panic)
      | (p, Ok tt) =>
          match LinkIDFromLR p with
          | Ok id =>
              let l := l <| linkID := id |> <| requestTime := now |>
                         <| establishmentTimeout := firstHop + establishmentTimeoutPerHop * Z.max 1 hops |> in
              let '(l, ev, r) := send now net p l in (l, LRegister :: ev, r)
          | Err e => (l, [], Err (ErrLinkPack e))
          | Panic => (l, [], Panic)
          end
      end
  end.

(** ** The responder *)

Definition proof_signed (linkID peerPub peerSigPub signalling : bytes) : bytes :=
  linkID ++ peerPub ++ peerSigPub ++ signalling.

Definition Prove (now : Z) (rnd : random_source) (net : bool) (signalling : bytes) (l : Link) : link_result :=
  let signedData := proof_signed (linkID l) (pubBytes l) (sigPubBytes l) signalling in
  match (match destination l with
         | Some d => match identity d with
                     | Some i => map_err ErrLinkKeys (ISign i signedData)
                     | None => LSign l signedData end
         | None => LSign l signedData end) with
  | Ok signature =>
      send now net (link_packet rnd l ContextLrproof PacketProof (signature ++ pubBytes l ++ signalling)) l
  | Err e => (l, [], Err e)
  | Panic => (l, [], Panic)
  end.

(** The link of an accepted request, before its proof is sent. *)
Definition responder_link (d : DestinationT) (iface : option nat) (cb : bool) (l : Link) : Link :=
  l <| linitiator := false |> <| destination := Some d |> <| attachedInterface := iface |>
    <| callbacks := mkCallbacks cb false false false None false false |>
    <| lsigPrv := match identity d with Some i => sigPrv i | None => lsigPrv l end |>
    <| sigPubBytes := match identity d with Some i => default [] (sigPub i) | None => sigPubBytes l end |>.

(** [iface] is the interface the request came in on, [cb] whether the
    destination has a link callback. *)
Definition ValidateRequest (now : Z) (rnd1 rnd2 rnd : random_source) (net : bool) (signalling : bytes)
    (d : DestinationT) (iface : option nat) (cb : bool) (p : Packet)
    : option Link * list lk_event * res lk_err unit :=
  let data := Packet.Data p in
  if zlen data <? LinkECPubSize then (None, [], Err (ErrRequestSizeLR (zlen data)))
  else match NewLink rnd1 rnd2 0 0 None with
  | Err e => (None, [], Err e)
  | Panic => (None, [], Panic)
  | Ok l =>
      if match identity d with Some i => bool_decide (sigPub i = None) | None => false end then (None, [], Panic)
      else
        let l := responder_link d iface cb l in
        match LoadPeer (take 32 data) (slice 32 64 data) l with
        | (_, Err e) => (None, [], Err e)
        | (_, Panic) => (None, [], Panic)
        | (l, Ok tt) =>
            match LinkIDFromLR p with
            | Err e => (None, [], Err (ErrLinkPack e))
            | Panic => (None, [], Panic)
            | Ok id =>
                let l := l <| linkID := id |>
                           <| establishmentTimeout := establishmentTimeoutPerHop * Z.max 1 (Hops p) + LinkKeepaliveDefault |> in
                match handshake l with
                | (_, Err e) => (None, [], Err e)
                | (_, Panic) => (None, [], Panic)
                | (l, Ok tt) =>
                    let l := l <| requestTime := now |> <| lastInbound := now |>
                               <| establishmentCost := (establishmentCost l + float_of_Z (zlen (Raw p)))%float |> in
                    match Prove now rnd net signalling l with
                    | (l, ev, Ok tt) => (Some l, LRegister :: ev, Ok tt)
                    | (_, ev, Err e) => (None, LRegister :: ev, Err e)
                    | (_, ev, Panic) => (None, LRegister :: ev, Panic)
                    end
                end
            end
        end
  end.

(** ** Proofs of a link request *)

Definition verifyProofSignatureLocked (l : Link) (p : Packet) : bool :=
  match destination l with
  | Some d =>
      match identity d with
      | Some i =>
          let data := Packet.Data p in
          if (length data <? 64 + 32)%nat then false
          else
            let sigBytes := if zlen data =? 64 + 32 + LinkMTUSize then slice 96 99 data else [] in
            IVerify i (take 64 data) (proof_signed (linkID l) (slice 64 96 data) (slice 32 64 (GetPublicKey i)) sigBytes)
      | None => false
      end
  | None => false
  end.

(** [verifyProofSignatureLocked] slices the public key of the destination's
    identity, which has one. *)

(** The activation after a verified proof. *)
Definition activate_initiator (now : Z) (iface : option nat) (p : Packet) (l : Link) : Link :=
  let l := l <| attachedInterface := iface |> <| lstatus := LinkActive |> <| activatedAt := now |>
             <| lrtt := Seconds (Sub now (requestTime l)) |>
             <| establishmentCost := (establishmentCost l + float_of_Z (zlen (Raw p)))%float |> in
  updateKeepaliveLocked (set_rate l).

Definition rtt_packet (rnd : random_source) (l : Link) : res lk_err Packet :=
  match Msgpack.Pack (VFloat64 (float_bits (lrtt l))) with
  | (b, None) => Ok (link_packet rnd l ContextLrrtt PacketData b)
  | (_, Some _) => Err ErrPackRTT
  end.

(** [ValidateProof]: the public key of the destination's identity is sliced
    before anything is checked about it. *)
Definition ValidateProof (now : Z) (rnd : random_source) (net : bool) (iface : option nat) (p : Packet) (l : Link)
    : link_result :=
  if negb (lstatus l =? LinkPending) then (l, [], Err ErrNotPending)
  else if (length (Packet.Data p) <? 64 + 32)%nat then (l, [], Err ErrProofLength)
  else
    match destination l with
    | None => (l, [], Panic)
    | Some d =>
        match identity d with
        | None => (l, [], Panic)
        | Some i =>
            if (length (GetPublicKey i) <? 64)%nat then (l, [], Panic)
            else
              match LoadPeer (slice 64 96 (Packet.Data p)) (slice 32 64 (GetPublicKey i)) l with
              | (l, Err e) => (l, [], Err e)
              | (l, Panic) => (l, [], Panic)
              | (l, Ok tt) =>
                  match handshake l with
                  | (l, Err e) => (l, [], Err e)
                  | (l, Panic) => (l, [], Panic)
                  | (l, Ok tt) =>
                      if negb (verifyProofSignatureLocked l p) then (l, [], Err ErrProofSignature)
                      else
                        let l := activate_initiator now iface p l in
                        match rtt_packet rnd l with
                        | Err e => (l, [LActivate], Err e)
                        | Panic => (l, [LActivate], Panic)
                        | Ok q =>
                            match send now net q l with
                            | (l, ev, Ok tt) =>
                                (l, LActivate :: ev ++ (if cbEstablished (callbacks l) then [LEstablished] else []), Ok tt)
                            | (l, ev, Err e) => (l, LActivate :: ev, Err e)
                            | (l, ev, Panic) => (l, LActivate :: ev, Panic)
                            end
                        end
                  end
              end
        end
    end.

(** ** The round-trip time

    [HandleRTT] checks the status under the lock, decrypts without it, and
    activates the link under the lock again. *)

Inductive rtt_decision :=
  | RttIgnore
  | RttTeardown
  | RttActivate (measured received : float).

Definition HandleRTT_check (now : Z) (p : Packet) (l : Link) : res lk_err rtt_decision :=
  if (lstatus l =? LinkHandshake) || (lstatus l =? LinkPending) then
    let measured := Seconds (Sub now (requestTime l)) in
    match LDecrypt l (Packet.Data p) with
    | Ok plaintext =>
        match Msgpack.Unpack plaintext with
        | Ok v => match numericValue v with
                  | Some received => Ok (RttActivate measured received)
                  | None => Ok RttTeardown
                  end
        | Err _ => Ok RttTeardown
        | Panic => Panic
        end
    | Err _ => Ok RttTeardown
    | Panic => Panic
    end
  else Ok RttIgnore.

Definition HandleRTT_finish (now : Z) (p : Packet) (measured received : float) (l : Link) : Link * list lk_event :=
  let l := l <| lrtt := MathMax measured received |> <| lstatus := LinkActive |> <| activatedAt := now |>
             <| expectedHops := Hops p |> in
  let l := updateKeepaliveLocked (set_rate l) in
  (l, LActivate :: if cbEstablished (callbacks l) then [LEstablished] else []).

(** The whole of it, when nothing intervenes. *)
Definition HandleRTT (now : Z) (rnd : random_source) (net : bool) (p : Packet) (l : Link) : link_result :=
  match HandleRTT_check now p l with
  | Ok RttIgnore => (l, [], Ok tt)
  | Ok RttTeardown => let '(l, ev) := Teardown now rnd net l in (l, ev, Ok tt)
  | Ok (RttActivate measured received) =>
      let '(l, ev) := HandleRTT_finish now p measured received l in (l, ev, Ok tt)
  | Err e => (l, [], Err e)
  | Panic => (l, [], Panic)
  end.

(** ** Requests and responses *)

Definition find_pending (requestID : bytes) (l : Link) : option (nat * PendingRequest) :=
  list_find (fun r => bytes_eqb (RequestID r) requestID = true) (pendingRequests l).

Definition packedResponseSize (v : value) : Z :=
  match Msgpack.Pack v with
  | (packed, None) => if zlen packed <? 2 then 0 else zlen packed - 2
  | (_, Some _) => 0
  end.

Definition handleResponse (requestID : bytes) (response : value) (responseSize : Z) (checkSize : bool) (l : Link)
    : Link * list lk_event :=
  if negb (lstatus l =? LinkActive) then (l, [])
  else match find_pending requestID l with
  | None => (l, [])
  | Some (i, r) =>
      (l <| pendingRequests ::= fun ps => take i ps ++ drop (S i) ps |>,
       if negb checkSize || (maxResponseSize r =? 0) || (responseSize <=? maxResponseSize r)
       then [LResponseReceived requestID response] else [LResponseRejected requestID])
  end.

Definition AllowNone : Z := 0x00.
Definition AllowAll : Z := 0x01.
Definition AllowList : Z := 0x02.

Record RequestHandler := mkHandler {
  Path : bytes;
  Allow : Z;
  AllowedList : list bytes;
  (** [ResponseGenerator], for the data and the request. *)
  generate : value -> bytes -> option Identity -> option value;
}.

Definition request_allowed (h : RequestHandler) (remote : option Identity) : bool :=
  if Allow h =? AllowAll then true
  else if Allow h =? AllowList then
    match remote with
    | Some i => existsb (fun addr => bytes_eqb addr (IHash i)) (AllowedList h)
    | None => false
    end
  else false.

(** [handleRequest], up to the response that is packed and sent; [handlers]
    are those of the destination. *)
Definition handleRequest (handlers : bytes -> option RequestHandler) (requestID : bytes) (request : list value)
    (l : Link) : list lk_event * option value :=
  if negb (lstatus l =? LinkActive) then ([], None)
  else match request with
  | ts :: VBin pathHash :: requestData :: _ =>
      match numericValue ts with
      | None => ([], None)
      | Some _ =>
          match handlers pathHash with
          | None => ([], None)
          | Some h =>
              if request_allowed h (remoteIdentity l)
              then ([LGenerateResponse (Path h) requestID (remoteIdentity l)],
                    generate h requestData requestID (remoteIdentity l))
              else ([], None)
          end
      end
  | _ => ([], None)
  end.

(** ** Receiving *)

(** The activity update at the start of [receive]. *)
Definition count_inbound (now : Z) (p : Packet) (l : Link) : Link :=
  if negb (lstatus l =? LinkClosed) &&
     negb (linitiator l && (Context p =? ContextKeepalive) &&
           match Packet.Data p with b :: _ => b =? 0xFF | [] => false end)
  then
    let l := l <| lastInbound := now |> in
    let l := if negb (Context p =? ContextKeepalive) then l <| lastData := now |> else l in
    let l := l <| rx := u64 (rx l + 1) |> <| rxbytes := u64 (rxbytes l + zlen (Packet.Data p)) |> in
    if lstatus l =? LinkStale then l <| lstatus := LinkActive |> else l
  else l.

Definition shouldDecrypt (context : Z) : bool :=
  negb (context =? ContextResource) && negb (context =? ContextResourcePrf) &&
  negb (context =? ContextKeepalive) && negb (context =? ContextCacheRequest) && negb (context =? ContextLrproof).

(** A resource advertisement. *)
Definition receive_advertisement (data : bytes) (l : Link) : list lk_event :=
  match UnpackResourceAdvertisement data with
  | Ok adv =>
      if AIsRequest adv then
        let max := match destination l with Some d => maxRequestSize d | None => 0 end in
        if (0 <? max) && (max <? D adv) then [LRejectResource data] else [LAcceptResource data]
      else if AIsResponse adv then
        match find_pending (AQ adv) l with
        | Some (_, r) =>
            if (0 <? maxResponseSize r) && (maxResponseSize r <? D adv)
            then [LRejectResource data; LResponseRejected (RequestID r)] else [LAcceptResource data]
        | None => [LAcceptResource data]
        end
      else if (resourceStrategy l =? AcceptAll) ||
              ((resourceStrategy l =? AcceptApp) &&
               match cbResource (callbacks l) with Some f => f adv | None => false end)
      then [LAcceptResource data] else [LRejectResource data]
  | _ => []
  end.

(** The first resource with a hash. *)
Definition find_resource (h : bytes) (rs : list Resource) : option nat :=
  fst <$> list_find (fun r => bytes_eqb (hash r) h = true) rs.

(** The outgoing resource a request names, with the hash at [offset]. *)
Definition find_requested (data : bytes) (offset : nat) (rs : list Resource) : option nat :=
  fst <$> list_find (fun r => (offset + length (hash r) <= length data)%nat /\
                       bytes_eqb (hash r) (slice offset (offset + length (hash r)) data) = true) rs.

(** An identification by the initiator; [blackholed] is the transport's list. *)
Definition receive_identify (now : Z) (rnd : random_source) (net : bool) (blackholed : bytes -> bool) (data : bytes)
    (l : Link) : Link * list lk_event :=
  if linitiator l then (l, [])
  else if negb (length data =? keySize + 64)%nat then (l, [])
  else
    let publicKey := take keySize data in
    match LoadPublicKey publicKey zeroIdentity with
    | Ok i =>
        if negb (IVerify i (drop keySize data) (linkID l ++ publicKey)) then (l, [])
        else if blackholed (IHash i) then Teardown now rnd net l
        else (l <| remoteIdentity := Some i |>, if cbIdentified (callbacks l) then [LIdentified i] else [])
    | _ => (l, [])
    end.

Definition receive_keepalive (now : Z) (rnd : random_source) (net : bool) (data : bytes) (l : Link)
    : Link * list lk_event :=
  if negb (linitiator l) && match data with b :: _ => b =? 0xFF | [] => false end
     && negb (Before now (Add (lastOutbound l) (keepalive l)))
  then match send now net (link_packet rnd l ContextKeepalive PacketData [0xFE]) l with
       | (l, ev, Ok tt) => (hadKeepaliveOutbound now l, ev)
       | (l, ev, _) => (l, ev)
       end
  else (l, []).

(** Data for the application: proved if the destination says so; [requested]
    is the answer of its proof callback. *)
Definition receive_data (now : Z) (rnd : random_source) (net requested : bool) (p : Packet) (l : Link)
    : Link * list lk_event :=
  if (lstatus l =? LinkClosed) || (lstatus l =? LinkPending) then (l, [])
  else
    let prove := negb (PacketType p =? PacketProof) &&
      match destination l with
      | Some d => if proofStrategy d =? ProveAll then true
                  else if proofStrategy d =? ProveApp then requested else false
      | None => false
      end in
    let '(l, ev) := if prove then ProvePacket now rnd net p l else (l, []) in
    (l, ev ++ if cbPacket (callbacks l) then [LPacketCallback (Packet.Data p)] else []).

(** The dispatch of a packet, whose data is decrypted where it was encrypted. *)
Definition dispatch (now : Z) (rnd : random_source) (net requested : bool) (blackholed : bytes -> bool) (p : Packet)
    (l : Link) : link_result :=
  let data := Packet.Data p in
  let ok (x : Link * list lk_event) : link_result := (x, Ok tt) in
  let c := Context p in
  if c =? ContextResourceAdv then ok (l, receive_advertisement data l)
  else if c =? ContextRequest then
    match GetTruncatedHash p with
    | Ok requestID =>
        let max := match destination l with Some d => maxRequestSize d | None => 0 end in
        if (0 <? max) && (max <? zlen data) then ok (l, [])
        else match UnpackPreserveBinMapKeys data with
             | Ok (VArr req) => ok (l, [LHandleRequest requestID req])
             | Panic => (l, [], Panic)
             | _ => ok (l, [])
             end
    | _ => (l, [], Panic)
    end
  else if c =? ContextResponse then
    match UnpackPreserveBinMapKeys data with
    | Ok (VArr (VBin requestID :: response :: _)) =>
        ok (handleResponse requestID response (packedResponseSize response) true l)
    | Panic => (l, [], Panic)
    | _ => ok (l, [])
    end
  else if c =? ContextResourceReq then
    match data with
    | [] => ok (l, [])
    | b :: _ =>
        let offset := if b =? 0xFF then 5%nat else 1%nat in
        ok (l, match find_requested data offset (outgoingResources l) with
               | Some i => [LResourceRequest i data] | None => [] end)
    end
  else if c =? ContextResourceHmu then
    let hashLen := Z.to_nat (Packet.HashLength / 8) in
    if (length data <? hashLen)%nat then ok (l, [])
    else ok (l, match find_resource (take hashLen data) (incomingResources l) with
                | Some i => [LResourceHmu i data] | None => [] end)
  else if c =? ContextResource then
    ok (l, imap (fun i _ => LResourcePart i data) (incomingResources l))
  else if c =? ContextResourcePrf then
    if negb (PacketType p =? PacketProof) || (length data <? 64)%nat then ok (l, [])
    else ok (l, match find_resource (take 32 data) (outgoingResources l) with
                | Some i => [LResourceProof i data] | None => [] end)
  else if c =? ContextLinkIdentify then ok (receive_identify now rnd net blackholed data l)
  else if c =? ContextKeepalive then ok (receive_keepalive now rnd net data l)
  else if c =? ContextLinkClose then
    if bytes_eqb data (linkID l)
    then ok (teardown (if linitiator l then TeardownDestinationClosed else TeardownInitiatorClosed) l)
    else ok (l, [])
  else if c =? ContextChannel then
    let '(l, ev) := ProvePacket now rnd net p l in
    ok (l, ev ++ if channel l then [LChannelReceive data] else [])
  else ok (receive_data now rnd net requested p l).

Definition receive (now : Z) (rnd : random_source) (net requested : bool) (blackholed : bytes -> bool)
    (iface : option nat) (p : Packet) (l : Link) : link_result :=
  let l := count_inbound now p l in
  if Context p =? ContextLrproof then
    match ValidateProof now rnd net iface p l with
    | (l, ev, Panic) => (l, ev, Panic)
    | (l, ev, _) => (l, ev, Ok tt)
    end
  else if Context p =? ContextLrrtt then
    if negb (linitiator l) then HandleRTT now rnd net p l else (l, [], Ok tt)
  else if shouldDecrypt (Context p) then
    if lstatus l =? LinkClosed then (l, [], Ok tt)
    else match LDecrypt l (Packet.Data p) with
         | Ok plaintext => dispatch now rnd net requested blackholed (p <| Packet.Data := plaintext |>) l
         | Err _ => (l, [], Ok tt)
         | Panic => (l, [], Panic)
         end
  else dispatch now rnd net requested blackholed p l.

(** ** Delivery of a proof by the transport

    [rebalance] is the transport's setting; the path table's hop count, which
    is also adopted, is not part of the link. *)
Definition deliverLinkProof (now : Z) (rnd : random_source) (net rebalance : bool) (iface : option nat) (p : Packet)
    (l : Link) : link_result :=
  if negb (lstatus l =? LinkPending) then (l, [], Ok tt)
  else
    match (if negb (Hops p =? expectedHops l) then
             if rebalance && verifyProofSignatureLocked l p
             then Some (markRebalancedLocked now (l <| expectedHops := Hops p |>)) else None
           else Some l) with
    | None => (l, [], Ok tt)
    | Some l =>
        if negb (Hops p =? expectedHops l) then (l, [], Ok tt)
        else receive now rnd net false (fun _ => false) iface p l
    end.

(** ** Identification *)

Definition Identify (now : Z) (rnd : random_source) (net : bool) (i : option Identity) (l : Link) : link_result :=
  if negb (linitiator l) || negb (lstatus l =? LinkActive) then (l, [], Err ErrIdentifyState)
  else match i with
  | None => (l, [], Err ErrIdentifyKey)
  | Some i =>
      let pubKey := GetPublicKey i in
      if (length pubKey =? 0)%nat then (l, [], Err ErrIdentifyKey)
      else match ISign i (linkID l ++ pubKey) with
           | Ok signature => send now net (link_packet rnd l ContextLinkIdentify PacketData (pubKey ++ signature)) l
           | Err e => (l, [], Err (ErrLinkKeys e))
           | Panic => (l, [], Panic)
           end
  end.

(** ** The watchdog *)

Definition cap_sleep (sleep : Z) : Z := if LinkWatchdogMaxSleep <? sleep then LinkWatchdogMaxSleep else sleep.

(** One run at [now]; the sleep time.  Sending the teardown packet of a stale
    link releases the lock; nothing intervenes here. *)
Definition watchdogStep (now : Z) (rnd : random_source) (net : bool) (l : Link) : Link * list lk_event * Z :=
  if lstatus l =? LinkClosed then (l, [], 0)
  else if (lstatus l =? LinkPending) || (lstatus l =? LinkHandshake) then
    let nextCheck := Add (requestTime l) (establishmentTimeout l) in
    if negb (Before now nextCheck) then
      let '(l, ev) := close_link TeardownTimeout l in (l, ev, Millisecond)
    else (l, [], cap_sleep (Sub nextCheck now))
  else if lstatus l =? LinkActive then
    let inbound := effectiveLastInbound l in
    if negb (Before now (Add inbound (keepalive l))) || negb (Before now (Add (lastOutbound l) (keepalive l))) then
      let ping := linitiator l && negb (Before now (Add (lastKeepalive l) (keepalive l))) in
      let l := if ping then l <| lastKeepalive := now |> else l in
      if negb (Before now (Add inbound (staleTime l))) then
        let l := l <| lstatus := LinkStale |> in
        let '(l', ev) := if ping then sendKeepalive now rnd net l else (l, []) in
        (l', ev, cap_sleep (i64 (seconds_to_Duration (lrtt l * keepaliveTimeoutFactor l)%float + LinkStaleGrace)))
      else
        let '(l', ev) := if ping then sendKeepalive now rnd net l else (l, []) in
        (l', ev, cap_sleep (keepalive l))
    else (l, [], cap_sleep (Sub (Add inbound (keepalive l)) now))
  else if lstatus l =? LinkStale then
    let '(l, ev) := sendTeardownPacket now rnd net l in
    let '(l, ev') := close_link TeardownTimeout l in (l, ev ++ ev', Millisecond)
  else (l, [], LinkWatchdogMaxSleep).

Definition watchdog_pause (sleep : Z) : Z := if sleep <=? 0 then Millisecond else sleep.

(** The watchdog's loop on its own, when its timers fire on time: the link it
    closes, what it did and when it ended.  [None] when [fuel] runs do not
    suffice. *)
Fixpoint watchdogJob (fuel : nat) (now : Z) (rnd : random_source) (net : bool) (l : Link)
    : option (Link * list lk_event * Z) :=
  match fuel with
  | O => None
  | S fuel =>
      let '(l, ev, sleep) := watchdogStep now rnd net l in
      if lstatus l =? LinkClosed then Some (l, ev, now)
      else match watchdogJob fuel (now + watchdog_pause sleep) rnd net l with
           | Some (l, ev', t) => Some (l, ev ++ ev', t)
           | None => None
           end
  end.

(** ** Accessors and setters *)

Definition SetResourceStrategy (strategy : Z) (l : Link) : Link * res lk_err unit :=
  if negb (strategy =? AcceptNone) && negb (strategy =? AcceptApp) && negb (strategy =? AcceptAll)
  then (l, Err ErrResourceStrategy) else (l <| resourceStrategy := strategy |>, Ok tt).
Definition NoInboundFor (now : Z) (l : Link) : Z := Sub now (lastInbound l).
Definition NoOutboundFor (now : Z) (l : Link) : Z := Sub now (lastOutbound l).
Definition NoDataFor (now : Z) (l : Link) : Z := Sub now (lastData l).
Definition InactiveFor (now : Z) (l : Link) : Z :=
  if NoInboundFor now l <? NoOutboundFor now l then NoInboundFor now l else NoOutboundFor now l.
Definition ReadyForNewResource (l : Link) : bool := (length (outgoingResources l) =? 0)%nat.
Definition RegisterOutgoingResource (r : Resource) (l : Link) : Link := l <| outgoingResources ::= fun rs => rs ++ [r] |>.
Definition RegisterIncomingResource (r : Resource) (l : Link) : Link := l <| incomingResources ::= fun rs => rs ++ [r] |>.

(** Resources are pointers: [i] is the position of the one cancelled. *)
Definition CancelOutgoingResource (i : nat) (l : Link) : Link :=
  l <| outgoingResources ::= fun rs => take i rs ++ drop (S i) rs |>.
Definition CancelIncomingResource (i : nat) (l : Link) : Link :=
  l <| incomingResources ::= fun rs => take i rs ++ drop (S i) rs |>.
End WithCrypto.
