(* ===== verification/LinkSafety.v ===== *)
(** * Links under any traffic

    What [rns/link.go] guarantees in every state a link can get into: its life
    cycle refines a small state machine, an initiator is active only after a
    verified proof, a remote identity has signed the link; and how the
    watchdog ends a silent link.  Also two ways the guarantees end: a proof
    with a bad signature, and a link that closes while its round-trip time is
    handled. *)

From stdpp Require Import base tactics option list relations.
From Stdlib Require Import ZArith Lia PrimFloat.
From S2P Require Import Prelude Clock Crypto Packet Channel Buffer Msgpack Resource Identity Link.
Local Open Scope Z_scope.
Local Open Scope go_scope.

Section LinkFacts.
Context `{Sh : Sha256} {ShL : Sha256Laws} `{Ci : BlockCipher} {CiL : BlockCipherLaws}.
Context `{Cu : Curves} {CuL : CurvesLaws}.

(** ** Frames *)

(** The fields that make up the identity and the session of a link. *)
Definition core (l : Link) :=
  (destination l, linitiator l, mode l, lprv l, linkID l, peerPub l, token l, remoteIdentity l).

(** An operation that only keeps books. *)
Definition quiet (l l' : Link) : Prop := core l' = core l /\ lstatus l' = lstatus l.

Lemma quiet_refl l : quiet l l.
Proof. done. Qed.

Lemma quiet_trans l1 l2 l3 : quiet l1 l2 -> quiet l2 l3 -> quiet l1 l3.
Proof. intros [A1 A2] [B1 B2]. split; congruence. Qed.

Lemma quiet_record now n b l : quiet l (recordOutbound now n b l).
Proof. unfold recordOutbound. by destruct b. Qed.

Lemma quiet_cost p l : quiet l (accumulateEstablishmentCost p l).
Proof. unfold accumulateEstablishmentCost. by case_match. Qed.

Lemma quiet_send now net p l : quiet l (send now net p l).1.1.
Proof.
  unfold send. cbv zeta. set (l0 := l <| lastOutbound := now |>). assert (quiet l l0) as Q0 by done. clearbody l0.
  destruct (lstatus l0 =? LinkClosed); [done|]. destruct (if Packed p then _ else _) as [p1 [[]| |]]; [|done..].
  pose proof (quiet_trans _ _ _ Q0 (quiet_cost p1 l0)) as Q1. set (l1 := accumulateEstablishmentCost p1 l0) in *. clearbody l1.
  destruct (attachedInterface l1).
  - pose proof (quiet_trans _ _ _ Q1 (quiet_record now (zlen (Ciphertext p1)) (Context p1 =? ContextKeepalive) l1)).
    by destruct net.
  - destruct (Packet.Send p1) as [[p2 eff] [[]| |]]; [|done..].
    assert (forall b : bool, quiet l (if b then recordOutbound now (zlen (Ciphertext p2)) (Context p2 =? ContextKeepalive) l1 else l1)) as Hb.
    { intros []; [|done]. eapply quiet_trans; [exact Q1|apply quiet_record]. }
    destruct net; apply Hb.
Qed.

Lemma quiet_keepalive now rnd net l : quiet l (sendKeepalive now rnd net l).1.
Proof.
  unfold sendKeepalive. pose proof (quiet_send now net (link_packet rnd l ContextKeepalive PacketData [0xFF]) l) as Q.
  destruct (send _ _ _ _) as [[l1 ev] [[]| |]]; done.
Qed.

Lemma quiet_teardown_packet now rnd net l : quiet l (sendTeardownPacket now rnd net l).1.
Proof.
  unfold sendTeardownPacket. case_match; [done|].
  pose proof (quiet_send now net (link_packet rnd l ContextLinkClose PacketData (linkID l)) l) as Q.
  by destruct (send _ _ _ _) as [[l1 ev] r].
Qed.

Lemma quiet_prove now rnd net p l : quiet l (ProvePacket now rnd net p l).1.
Proof.
  unfold ProvePacket. destruct (lsigPrv l) as [k|]; [|done].
  pose proof (quiet_send now net (link_packet rnd l ContextNone PacketProof (PacketHash p ++ ed_sign k (PacketHash p))) l) as Q.
  by destruct (send _ _ _ _) as [[l1 ev] r].
Qed.

(** Books are kept, or the link is closed. *)
Definition quiet_or_closed (l l' : Link) : Prop :=
  core l' = core l /\ (lstatus l' = lstatus l \/ lstatus l' = LinkClosed).

Lemma quiet_weaken l l' : quiet l l' -> quiet_or_closed l l'.
Proof. intros [H1 H2]. split; auto. Qed.

Lemma closed_teardown reason l : quiet_or_closed l (teardown reason l).1.
Proof. unfold teardown. case_match; [by apply quiet_weaken|]. split; [done|]. by right. Qed.

Lemma closed_trans l1 l2 l3 : quiet l1 l2 -> quiet_or_closed l2 l3 -> quiet_or_closed l1 l3.
Proof. intros [A1 A2] [B1 B2]. split; [congruence|]. rewrite <- A2. done. Qed.

Lemma closed_Teardown now rnd net l : quiet_or_closed l (Teardown now rnd net l).1.
Proof.
  unfold Teardown. set (b := negb _ && _).
  pose proof (quiet_teardown_packet now rnd net l) as Q.
  destruct b; [destruct (sendTeardownPacket now rnd net l) as [l1 ev]|].
  - cbn [fst] in Q. pose proof (closed_teardown (if linitiator l1 then TeardownInitiatorClosed else TeardownDestinationClosed) l1) as C.
    destruct (teardown _ l1) as [l2 ev2]. by eapply closed_trans.
  - pose proof (closed_teardown (if linitiator l then TeardownInitiatorClosed else TeardownDestinationClosed) l) as C.
    by destruct (teardown _ l) as [l2 ev2].
Qed.

Lemma teardown_closes reason l : lstatus (teardown reason l).1 = LinkClosed.
Proof. unfold teardown, close_link. destruct (Z.eqb_spec (lstatus l) LinkClosed); done. Qed.

Lemma Teardown_closes now rnd net l : lstatus (Teardown now rnd net l).1 = LinkClosed.
Proof.
  unfold Teardown. set (b := negb _ && _).
  destruct b; [destruct (sendTeardownPacket now rnd net l) as [l1 ev]|];
    match goal with |- context [teardown ?r ?x] => pose proof (teardown_closes r x) as C; by destruct (teardown r x) end.
Qed.

Lemma count_inbound_core now p l :
  core (count_inbound now p l) = core l /\
  (lstatus (count_inbound now p l) = lstatus l \/
   lstatus l = LinkStale /\ lstatus (count_inbound now p l) = LinkActive).
Proof.
  unfold count_inbound. destruct (_ && _); [|auto].
  destruct (negb (Context p =? ContextKeepalive)); cbv zeta;
    match goal with |- context [lstatus ?x =? LinkStale] => change (lstatus x) with (lstatus l) end;
    destruct (Z.eqb_spec (lstatus l) LinkStale); (split; [done|]); auto.
Qed.

(** ** What serving a packet can change *)

(** A remote identity has signed the link and its own key. *)
Definition signed_by (id : bytes) (i : Identity) : Prop :=
  exists pk sig, LoadPublicKey pk zeroIdentity = Ok i /\ IVerify i sig (id ++ pk) = true.

Definition signed_remote (l : Link) : Prop :=
  forall i, remoteIdentity l = Some i -> signed_by (linkID l) i.

Definition session (l : Link) := (destination l, linitiator l, mode l, lprv l, linkID l, peerPub l, token l).

Definition served (l l' : Link) : Prop :=
  session l' = session l /\ (lstatus l' = lstatus l \/ lstatus l' = LinkClosed) /\
  (signed_remote l -> signed_remote l').

Lemma core_session l l' : core l' = core l -> session l' = session l /\ (signed_remote l -> signed_remote l').
Proof.
  unfold core, session, signed_remote. intros H. injection H as ?????? Hp Hr.
  split; [congruence|]. intros HS i. rewrite Hr. intros Hi. replace (linkID l') with (linkID l) by congruence. auto.
Qed.

Lemma served_of l l' : quiet_or_closed l l' -> served l l'.
Proof. intros [H1 H2]. destruct (core_session _ _ H1). done. Qed.

Lemma served_quiet l l' : quiet l l' -> served l l'.
Proof. intros H. by apply served_of, quiet_weaken. Qed.

Lemma served_response id v n c l : served l (handleResponse id v n c l).1.
Proof. unfold handleResponse. repeat case_match; by apply served_quiet. Qed.

Lemma served_identify now rnd net bh data l : served l (receive_identify now rnd net bh data l).1.
Proof.
  unfold receive_identify. repeat (case_match; [by apply served_quiet|]).
  destruct (LoadPublicKey (take keySize data) zeroIdentity) as [i| |] eqn:HL; [|by apply served_quiet..].
  destruct (IVerify i _ _) eqn:HV; [|by apply served_quiet]. cbn [negb].
  case_match; [apply served_of, closed_Teardown|].
  split; [done|]. split; [by left|]. intros _ j [= <-]. by eexists _, _.
Qed.

Lemma served_keepalive now rnd net data l : served l (receive_keepalive now rnd net data l).1.
Proof.
  unfold receive_keepalive. case_match; [|by apply served_quiet].
  pose proof (quiet_send now net (link_packet rnd l ContextKeepalive PacketData [0xFE]) l) as Q.
  apply served_quiet. destruct (send _ _ _ _) as [[l1 ev] [[]| |]]; done.
Qed.

Lemma served_data now rnd net req p l : served l (receive_data now rnd net req p l).1.
Proof.
  unfold receive_data. case_match; [by apply served_quiet|]. cbv zeta. set (b := negb _ && _).
  pose proof (quiet_prove now rnd net p l) as Q. apply served_quiet.
  destruct b; [|done]. by destruct (ProvePacket now rnd net p l).
Qed.

Lemma served_dispatch now rnd net req bh p l : served l (dispatch now rnd net req bh p l).1.1.
Proof.
  unfold dispatch. cbv zeta.
  destruct (Context p =? ContextResourceAdv); [by apply served_quiet|].
  destruct (Context p =? ContextRequest); [repeat case_match; by apply served_quiet|].
  destruct (Context p =? ContextResponse).
  { repeat case_match; try (by apply served_quiet); apply served_response. }
  destruct (Context p =? ContextResourceReq); [case_match; by apply served_quiet|].
  destruct (Context p =? ContextResourceHmu); [case_match; by apply served_quiet|].
  destruct (Context p =? ContextResource); [by apply served_quiet|].
  destruct (Context p =? ContextResourcePrf); [case_match; by apply served_quiet|].
  destruct (Context p =? ContextLinkIdentify); [apply served_identify|].
  destruct (Context p =? ContextKeepalive); [apply served_keepalive|].
  destruct (Context p =? ContextLinkClose); [case_match; [apply served_of, closed_teardown|by apply served_quiet]|].
  destruct (Context p =? ContextChannel); [|apply served_data].
  pose proof (quiet_prove now rnd net p l) as Q. apply served_quiet. by destruct (ProvePacket now rnd net p l).
Qed.

(** ** The handshake *)

(** The session token comes from the exchange with the peer's key. *)
Definition keyed (l : Link) : Prop :=
  exists peer shared key t, peerPub l = Some peer /\ x_exchange (lprv l) peer = Ok shared /\
    HKDF (if mode l =? LinkModeAES128CBC then 32 else 64) shared (linkID l) [] = Ok key /\
    NewToken key = Ok t /\ token l = Some t.

(** The destination's identity has signed the link and the peer's key. *)
Definition proved (l : Link) : Prop :=
  keyed l /\ exists p, verifyProofSignatureLocked l p = true /\ peerPub l = Some (slice 64 96 (Packet.Data p)).

(** What a handshake leaves alone. *)
Definition frame (l : Link) := (destination l, linitiator l, mode l, lprv l, linkID l, remoteIdentity l).

Lemma LoadPeer_spec pb sb l l' r : LoadPeer pb sb l = (l', r) ->
  frame l' = frame l /\ lstatus l' = lstatus l /\ (r = Ok tt -> peerPub l' = Some pb).
Proof.
  unfold LoadPeer, NewX25519PublicKeyFromBytes, NewEd25519PublicKeyFromBytes, key_of_bytes. intros H.
  repeat case_match; simplify_eq; (split; [done|]); (split; [done|]); try done.
Qed.

Lemma handshake_spec l l' r : handshake l = (l', r) ->
  frame l' = frame l /\ peerPub l' = peerPub l /\
  (r = Ok tt -> keyed l' /\ lstatus l' = LinkHandshake) /\ (r <> Ok tt -> lstatus l' = lstatus l).
Proof.
  unfold handshake. intros H.
  destruct (negb _ && negb _); [by simplify_eq|]. destruct (peerPub l) as [peer|] eqn:Hp; [|by simplify_eq].
  destruct (x_exchange (lprv l) peer) as [shared| |] eqn:Hx; [|by simplify_eq..]. cbv zeta in H.
  change (mode (l <| sharedKey := shared |>)) with (mode l) in H.
  change (linkID (l <| sharedKey := shared |>)) with (linkID l) in H.
  destruct (HKDF _ _ _ _) as [key| |] eqn:Hk; [|by simplify_eq..].
  destruct (NewToken key) as [t| |] eqn:Ht; [|by simplify_eq..]. simplify_eq.
  split; [done|]. split; [done|]. split; [|done]. intros _. split; [|done].
  by exists peer, shared, key, t.
Qed.

Lemma core_frame l l' : core l' = core l -> frame l' = frame l.
Proof. unfold core, frame. congruence. Qed.

Lemma session_keyed l l' : session l' = session l -> keyed l -> keyed l'.
Proof.
  unfold session, keyed. intros H (peer & shared & key & t & H1 & H2 & H3 & H4 & H5).
  exists peer, shared, key, t. split_and!; [congruence..| |done|congruence].
  replace (mode l') with (mode l) by congruence. by replace (linkID l') with (linkID l) by congruence.
Qed.

Lemma session_proved l l' : session l' = session l -> proved l -> proved l'.
Proof.
  intros H [HK (p & HV & HP)]. split; [by eapply session_keyed|]. exists p. unfold session in H.
  split; [|congruence]. revert HV. unfold verifyProofSignatureLocked.
  replace (destination l') with (destination l) by congruence. by replace (linkID l') with (linkID l) by congruence.
Qed.

Lemma core_to_session l l' : core l' = core l -> session l' = session l.
Proof. intros H. by apply core_session. Qed.

Lemma rate_core l : core (set_rate l) = core l /\ lstatus (set_rate l) = lstatus l.
Proof. unfold set_rate. by case_match. Qed.

Lemma activate_session now iface p l :
  core (activate_initiator now iface p l) = core l /\ lstatus (activate_initiator now iface p l) = LinkActive.
Proof. unfold activate_initiator, set_rate. cbv zeta. by case_match. Qed.

(** Where a proof takes a link. *)
Lemma ValidateProof_spec now rnd net iface p l : let l' := (ValidateProof now rnd net iface p l).1.1 in
  frame l' = frame l /\
  (lstatus l <> LinkPending /\ l' = l \/
   lstatus l = LinkPending /\
   (lstatus l' = LinkPending \/ lstatus l' = LinkHandshake /\ keyed l' \/ lstatus l' = LinkActive /\ proved l')).
Proof.
  unfold ValidateProof. destruct (Z.eqb_spec (lstatus l) LinkPending) as [Hs|Hs]; cbn [negb]; [|cbn [fst]; auto].
  case_match; [cbn [fst]; auto|].
  destruct (destination l) as [d|]; [|cbn [fst]; auto]. destruct (identity d) as [i|]; [|cbn [fst]; auto].
  case_match; [cbn [fst]; auto|].
  destruct (LoadPeer _ _ l) as [l1 r1] eqn:HL. apply LoadPeer_spec in HL as (F1 & S1 & P1).
  destruct r1 as [[]| |]; [|cbn [fst]; rewrite F1, S1; auto..]. specialize (P1 eq_refl).
  destruct (handshake l1) as [l2 r2] eqn:HH. apply handshake_spec in HH as (F2 & P2 & K2 & S2).
  destruct r2 as [[]| |]; [|cbn [fst]; rewrite F2, F1, S2, S1 by done; auto..].
  destruct (K2 eq_refl) as [K S3]. clear K2 S2.
  destruct (verifyProofSignatureLocked l2 p) eqn:HV; cbn [negb]; [|cbn [fst]; rewrite F2, F1; tauto].
  pose proof (activate_session now iface p l2) as [C3 S4]. cbv zeta.
  set (l3 := activate_initiator now iface p l2) in *. clearbody l3.
  assert (proved l2) as PR by (split; [done|]; exists p; split; [done|congruence]).
  assert (forall l4, quiet l3 l4 -> frame l4 = frame l /\
    (lstatus l <> LinkPending /\ l4 = l \/ lstatus l = LinkPending /\
      (lstatus l4 = LinkPending \/ lstatus l4 = LinkHandshake /\ keyed l4 \/ lstatus l4 = LinkActive /\ proved l4))) as Hend.
  { intros l4 [C4 S5]. split; [rewrite (core_frame l3 l4 C4), (core_frame l2 l3 C3); congruence|]. right. split; [done|].
    right. right. split; [congruence|]. apply (session_proved l2); [|done]. apply core_to_session. congruence. }
  destruct (rtt_packet rnd l3) as [q| |]; [|cbn [fst]; apply Hend; done..].
  pose proof (quiet_send now net q l3) as Q. destruct (send now net q l3) as [[l4 ev] [[]| |]]; by apply Hend.
Qed.

(** ** Steps of a link *)

(** What the handlers of a link do to it, whole and, where they release the
    lock in between, section by section: the activity update, a proof, what a
    packet is dispatched to and the closing of the link are steps of their own. *)
Inductive handler_step : Link -> Link -> Prop :=
  | StepReceive now rnd net req bh iface p l : handler_step l (receive now rnd net req bh iface p l).1.1
  | StepCount now p l : handler_step l (count_inbound now p l)
  | StepValidate now rnd net iface p l : handler_step l (ValidateProof now rnd net iface p l).1.1
  | StepDispatch now rnd net req bh p l : handler_step l (dispatch now rnd net req bh p l).1.1
  | StepProof now rnd net rebalance iface p l : handler_step l (deliverLinkProof now rnd net rebalance iface p l).1.1
  | StepWatchdog now rnd net l : handler_step l (watchdogStep now rnd net l).1.1
  | StepTeardown now rnd net l : handler_step l (Teardown now rnd net l).1
  | StepClose reason l : handler_step l (teardown reason l).1
  | StepIdentify now rnd net i l : handler_step l (Identify now rnd net i l).1.1
  | StepSend now net p l : handler_step l (send now net p l).1.1
  | StepProve now rnd net p l : handler_step l (ProvePacket now rnd net p l).1
  | StepCallbacks cb l : handler_step l (l <| callbacks := cb |>)
  | StepChannel b l : handler_step l (l <| channel := b |>)
  | StepStrategy s l : handler_step l (SetResourceStrategy s l).1.

(** A round-trip time packet that [HandleRTT] has checked and decrypted, with
    the times measured and received, before it takes the lock again. *)
Definition activation : Type := Packet * float * float.

(** The steps of a link and of the goroutines that are inside [HandleRTT]: one
    enters when its check, with the lock held, has passed, and activates the
    link later, whatever happened to the link in between. *)
Inductive link_step : Link * list activation -> Link * list activation -> Prop :=
  | StepHandler l l' rs : handler_step l l' -> link_step (l, rs) (l', rs)
  | StepRttCheck now p measured received l rs :
      linitiator l = false -> HandleRTT_check now p l = Ok (RttActivate measured received) ->
      link_step (l, rs) (l, (p, measured, received) :: rs)
  | StepRttFinish now p measured received l rs1 rs2 :
      link_step (l, rs1 ++ (p, measured, received) :: rs2) ((HandleRTT_finish now p measured received l).1, rs1 ++ rs2).

(** The status changes of the handlers, by role: an initiator whose keys were
    exchanged without a proof only waits to be closed; a responder waits for
    the round-trip time. *)
Inductive moves : bool -> Z -> Z -> Prop :=
  | LifeStay b s : moves b s s
  | LifeKeys b : moves b LinkPending LinkHandshake
  | LifeProved b : moves b LinkPending LinkActive
  | LifeRtt : moves false LinkHandshake LinkActive
  | LifeStale b : moves b LinkActive LinkStale
  | LifeRevived b : moves b LinkStale LinkActive
  | LifeClosed b s : moves b s LinkClosed.

(** The life of a link: its status and the number of activations under way,
    which begin before the link is active and end with it active. *)
Inductive lifecycle : bool -> Z * nat -> Z * nat -> Prop :=
  | LifeMove b s s' n : moves b s s' -> lifecycle b (s, n) (s', n)
  | LifeChecked s n : s = LinkPending \/ s = LinkHandshake -> lifecycle false (s, n) (s, S n)
  | LifeActivated b s n : lifecycle b (s, S n) (LinkActive, n).
#[local] Hint Constructors moves lifecycle : core.

(** One step: the frame is kept, the status moves along the life cycle, an
    active initiator is proved and a remote identity has signed. *)
Definition allowed (l l' : Link) : Prop :=
  (destination l', linitiator l', mode l', lprv l', linkID l') = (destination l, linitiator l, mode l, lprv l, linkID l) /\
  moves (linitiator l) (lstatus l) (lstatus l') /\
  (signed_remote l -> signed_remote l') /\
  (lstatus l <> LinkPending -> session l' = session l) /\
  (linitiator l = true -> lstatus l = LinkPending ->
     lstatus l' = LinkPending \/ lstatus l' = LinkClosed \/ lstatus l' = LinkHandshake /\ keyed l' \/
     lstatus l' = LinkActive /\ proved l').

Lemma session_five l l' : session l' = session l ->
  (destination l', linitiator l', mode l', lprv l', linkID l') = (destination l, linitiator l, mode l, lprv l, linkID l).
Proof. unfold session. congruence. Qed.

Lemma frame_signed l l' : frame l' = frame l -> signed_remote l -> signed_remote l'.
Proof.
  unfold frame, signed_remote. intros H HS i. replace (remoteIdentity l') with (remoteIdentity l) by congruence.
  replace (linkID l') with (linkID l) by congruence. auto.
Qed.

Lemma allowed_served l l' : served l l' -> allowed l l'.
Proof.
  intros (H1 & H2 & H3). split; [by apply session_five|]. split; [destruct H2 as [->| ->]; auto|].
  split; [done|]. split; [done|]. intros _ <-. destruct H2; auto.
Qed.

(** The activity update revives a stale link and changes nothing else. *)
Lemma allowed_counted now p l l' : allowed (count_inbound now p l) l' -> allowed l l'.
Proof.
  destruct (count_inbound_core now p l) as [C S]. set (l0 := count_inbound now p l) in *. clearbody l0.
  destruct (core_session l l0 C) as [C1 C2]. pose proof (session_five l l0 C1) as C3.
  intros (H1 & H2 & H3 & H4 & H5).
  assert (linitiator l0 = linitiator l) as HI by (injection C3; done).
  rewrite HI in *. split; [congruence|]. split; [|split; [auto|]; split].
  - destruct S as [<-|[-> S]]; [done|]. rewrite S in H2. inversion H2; subst; auto.
  - intros Hs. rewrite H4; [done|]. destruct S as [->|[_ ->]]; done.
  - intros Hi Hs. apply H5; [done|]. destruct S as [->|[S _]]; [done|by rewrite S in Hs].
Qed.

Lemma allowed_proof now rnd net iface p l : allowed l (ValidateProof now rnd net iface p l).1.1.
Proof.
  destruct (ValidateProof_spec now rnd net iface p l) as [F [[H ->]|[H1 H2]]].
  { by apply allowed_served, served_quiet. }
  set (l' := (ValidateProof now rnd net iface p l).1.1) in *. clearbody l'.
  split; [unfold frame in F; congruence|]. split; [|split; [by apply frame_signed|]; split; [done|]; intuition].
  rewrite H1. destruct H2 as [->|[[-> _]|[-> _]]]; auto.
Qed.

Lemma finish_session now p m r l :
  session (HandleRTT_finish now p m r l).1 = session l /\ remoteIdentity (HandleRTT_finish now p m r l).1 = remoteIdentity l /\
  lstatus (HandleRTT_finish now p m r l).1 = LinkActive.
Proof. unfold HandleRTT_finish, set_rate. cbv zeta. by case_match. Qed.

Lemma allowed_rtt now rnd net p l : linitiator l = false -> allowed l (HandleRTT now rnd net p l).1.1.
Proof.
  intros Hi. unfold HandleRTT. destruct (HandleRTT_check now p l) as [[]| |] eqn:HC; cbn [fst];
    try (by apply allowed_served, served_quiet).
  - pose proof (closed_Teardown now rnd net l). destruct (Teardown now rnd net l). by apply allowed_served, served_of.
  - destruct (finish_session now p measured received l) as (F1 & F2 & F3).
    destruct (HandleRTT_finish _ _ _ _ _) as [l' ev]. cbn [fst] in *.
    assert (moves false (lstatus l) LinkActive) as HL.
    { unfold HandleRTT_check in HC. destruct (Z.eqb_spec (lstatus l) LinkHandshake) as [->|]; [auto|].
      destruct (Z.eqb_spec (lstatus l) LinkPending) as [->|]; [auto|]. done. }
    split; [by apply session_five|]. rewrite Hi, F3. split; [done|]. split; [|split; done].
    apply frame_signed. unfold session in F1. unfold frame. congruence.
Qed.

Lemma allowed_receive now rnd net req bh iface p l : allowed l (receive now rnd net req bh iface p l).1.1.
Proof.
  unfold receive. apply (allowed_counted now p). set (l0 := count_inbound now p l). clearbody l0.
  assert (allowed l0 l0) as H0 by by apply allowed_served, served_quiet.
  destruct (Context p =? ContextLrproof).
  { pose proof (allowed_proof now rnd net iface p l0). by destruct (ValidateProof _ _ _ _ _ _) as [[l1 ev] [[]| |]]. }
  destruct (Context p =? ContextLrrtt).
  { destruct (linitiator l0) eqn:Hi; [done|]. by apply allowed_rtt. }
  destruct (shouldDecrypt (Context p)); [|apply allowed_served, served_dispatch].
  case_match; [done|]. destruct (LDecrypt l0 _); [|done..]. apply allowed_served, served_dispatch.
Qed.

Lemma allowed_after l l0 l' : quiet l l0 -> allowed l0 l' -> allowed l l'.
Proof.
  intros [C S] (H1 & H2 & H3 & H4 & H5). destruct (core_session l l0 C) as [C1 C2].
  pose proof (session_five l l0 C1) as C3. assert (linitiator l0 = linitiator l) as HI by (injection C3; done).
  rewrite HI, S in *. split; [congruence|]. split; [done|]. split; [auto|]. split; [|done].
  intros Hs. by rewrite H4.
Qed.

Lemma allowed_deliver now rnd net rebalance iface p l : allowed l (deliverLinkProof now rnd net rebalance iface p l).1.1.
Proof.
  assert (allowed l l) as H0 by by apply allowed_served, served_quiet.
  assert (forall l0, quiet l l0 -> allowed l (if negb (Hops p =? expectedHops l0) then (l0, [], Ok tt)
            else receive now rnd net false (fun _ => false) iface p l0).1.1) as Hl.
  { intros l0 Q. destruct (negb (Hops p =? expectedHops l0)); [by apply allowed_served, served_quiet|]. eapply allowed_after; [done|apply allowed_receive]. }
  unfold deliverLinkProof. case_match; [done|]. destruct (negb (Hops p =? expectedHops l)) eqn:Hh.
  - destruct (rebalance && _); [|done]. apply Hl. unfold markRebalancedLocked. by destruct (IsZero _).
  - cbv beta iota. apply (Hl l). done.
Qed.

Lemma closed_close reason l : quiet_or_closed l (close_link reason l).1.
Proof. split; [done|by right]. Qed.

Lemma allowed_stale l l' : lstatus l = LinkActive -> core l' = core l -> lstatus l' = LinkStale -> allowed l l'.
Proof.
  intros H1 H2 H3. destruct (core_session l l' H2) as [C1 C2]. split; [by apply session_five|]. rewrite H1, H3. by split_and!.
Qed.

Lemma allowed_watchdog now rnd net l : allowed l (watchdogStep now rnd net l).1.1.
Proof.
  unfold watchdogStep. assert (allowed l l) as H0 by by apply allowed_served, served_quiet.
  case_match; [done|]. case_match.
  { cbv zeta. destruct (negb _); [|done]. apply allowed_served, served_of, (closed_close TeardownTimeout). }
  destruct (Z.eqb_spec (lstatus l) LinkActive) as [Ha|].
  - cbv zeta. case_match; [|done]. set (ping := linitiator l && _). clearbody ping.
    set (l1 := if ping then l <| lastKeepalive := now |> else l).
    assert (quiet l l1) as Q1 by (unfold l1; by destruct ping). clearbody l1.
    case_match.
    + pose proof (quiet_keepalive now rnd net (l1 <| lstatus := LinkStale |>)) as Q2. set (l2 := l1 <| lstatus := LinkStale |>) in *.
      assert (quiet l2 (if ping then sendKeepalive now rnd net l2 else (l2, [])).1) as [Q3 Q4] by by destruct ping.
      destruct (if ping then _ else _) as [l3 ev]. destruct Q1 as [Q1 _].
      apply allowed_stale; [done|by transitivity (core l2)|done].
    + pose proof (quiet_keepalive now rnd net l1) as Q2. apply allowed_served, served_quiet.
      apply (quiet_trans _ _ _ Q1). destruct ping; [|done]. by destruct (sendKeepalive now rnd net l1).
  - case_match; [|done]. pose proof (quiet_teardown_packet now rnd net l) as Q.
    destruct (sendTeardownPacket now rnd net l) as [l1 ev]. cbn [fst] in *.
    apply allowed_served, served_of. eapply closed_trans; [exact Q|]. by apply (closed_close TeardownTimeout).
Qed.

Lemma allowed_identify now rnd net i l : allowed l (Identify now rnd net i l).1.1.
Proof.
  unfold Identify. apply allowed_served, served_quiet. repeat (case_match; try done). apply quiet_send.
Qed.

Lemma allowed_count now p l : allowed l (count_inbound now p l).
Proof. apply (allowed_counted now p). by apply allowed_served, served_quiet. Qed.

Lemma allowed_step l l' : handler_step l l' -> allowed l l'.
Proof.
  intros []; [apply allowed_receive|apply allowed_count|apply allowed_proof| |apply allowed_deliver|apply allowed_watchdog| | |
    apply allowed_identify|..]; apply allowed_served;
    [apply served_dispatch|apply served_of, closed_Teardown|apply served_of, closed_teardown|apply served_quiet..].
  - apply quiet_send.
  - apply quiet_prove.
  - done.
  - done.
  - unfold SetResourceStrategy. by case_match.
Qed.

(** ** Runs *)

(** What every step keeps of a link, activations included. *)
Definition carried (l l' : Link) : Prop :=
  (destination l', linitiator l', mode l', lprv l', linkID l') = (destination l, linitiator l, mode l, lprv l, linkID l) /\
  (signed_remote l -> signed_remote l') /\
  (lstatus l <> LinkPending -> session l' = session l /\ lstatus l' <> LinkPending).

Lemma carried_trans l1 l2 l3 : carried l1 l2 -> carried l2 l3 -> carried l1 l3.
Proof.
  intros (H1 & H2 & H3) (K1 & K2 & K3). split; [congruence|]. split; [auto|].
  intros Hp. destruct (H3 Hp) as [E1 E2]. destruct (K3 E2) as [E3 E4]. split; [congruence|done].
Qed.

Lemma step_carried x y : link_step x y -> carried x.1 y.1.
Proof.
  intros [l l' rs H|now p m r l rs Hi HC|now p m r l rs1 rs2]; cbn [fst].
  - destruct (allowed_step _ _ H) as (H1 & H2 & H3 & H4 & _). split; [done|]. split; [done|]. intros Hp. split; [auto|].
    intros E. rewrite E in H2. inversion H2; congruence.
  - by split_and!.
  - destruct (finish_session now p m r l) as (F1 & F2 & F3). split; [by apply session_five|]. split.
    + apply frame_signed. unfold session in F1. unfold frame. congruence.
    + intros _. by rewrite F3.
Qed.

Lemma run_carried x y : rtc link_step x y -> carried x.1 y.1.
Proof.
  induction 1 as [x|x y z H _ IH]; [by split_and!|]. by eapply carried_trans; [apply step_carried|].
Qed.

Lemma step_lifecycle x y :
  link_step x y -> lifecycle (linitiator x.1) (lstatus x.1, length x.2) (lstatus y.1, length y.2).
Proof.
  intros [l l' rs H|now p m r l rs Hi HC|now p m r l rs1 rs2]; cbn [fst snd length].
  - apply LifeMove, (allowed_step _ _ H).
  - rewrite Hi. apply LifeChecked. unfold HandleRTT_check in HC.
    destruct (Z.eqb_spec (lstatus l) LinkHandshake); [by right|]. destruct (Z.eqb_spec (lstatus l) LinkPending); [by left|done].
  - destruct (finish_session now p m r l) as (_ & _ & ->). rewrite !length_app. cbn [length]. rewrite Nat.add_succ_r. apply LifeActivated.
Qed.

Lemma run_lifecycle x y :
  rtc link_step x y -> rtc (lifecycle (linitiator x.1)) (lstatus x.1, length x.2) (lstatus y.1, length y.2).
Proof.
  induction 1 as [|x y z H _ IH]; [done|]. destruct (step_carried _ _ H) as [H1 _].
  replace (linitiator y.1) with (linitiator x.1) in IH by (injection H1; done).
  eapply rtc_l; [by apply step_lifecycle|done].
Qed.

(** A property of the life cycle's states that its moves keep. *)
Lemma lifecycle_invariant (P : Z * nat -> Prop) b x y :
  (forall x y, lifecycle b x y -> P x -> P y) -> rtc (lifecycle b) x y -> P x -> P y.
Proof. intros HP. induction 1; eauto. Qed.

Lemma lifecycle_closed b y : rtc (lifecycle b) (LinkClosed, O) y -> y = (LinkClosed, O).
Proof.
  intros H. refine (lifecycle_invariant (fun x => x = (LinkClosed, O)) b _ y _ H eq_refl). clear.
  intros x y Hxy ->. inversion Hxy as [? ? ? ? Hm|? ? Hs|]; subst; [by inversion Hm|by destruct Hs].
Qed.

Lemma lifecycle_waiting y :
  rtc (lifecycle true) (LinkHandshake, O) y -> y = (LinkHandshake, O) \/ y = (LinkClosed, O).
Proof.
  intros H. refine (lifecycle_invariant (fun x => x = (LinkHandshake, O) \/ x = (LinkClosed, O)) true _ y _ H (or_introl eq_refl)). clear.
  intros x y Hxy [-> | ->]; inversion Hxy as [? ? ? ? Hm|? ? Hs|]; subst; inversion Hm; auto.
Qed.

(** No activation begins on a link that is past its establishment. *)
Definition established (x : Z * nat) : Prop := x.1 <> LinkPending /\ x.1 <> LinkHandshake.

Lemma lifecycle_established b x y : rtc (lifecycle b) x y -> established x -> (y.2 <= x.2)%nat.
Proof.
  intros H Hx. refine (proj2 (lifecycle_invariant (fun y => established y /\ (y.2 <= x.2)%nat) b _ y _ H (conj Hx (Nat.le_refl _)))).
  clear. intros y z Hyz [[E1 E2] Hle]. inversion Hyz as [? ? ? ? Hm|? ? Hs|]; subst; cbn [fst snd] in *.
  - split; [|done]. inversion Hm; subst; by split.
  - destruct Hs; congruence.
  - split; [by split|]. cbn [snd]. lia.
Qed.

(** C19: whatever packets arrive and whatever the application and the watchdog
    do, in any order and also between the two critical sections of [HandleRTT],
    the status of a link moves along [lifecycle]: its role, destination and ID
    never change, its keys never change once it has left the pending state, a
    closed link stays closed unless an activation was under way, none begins
    once the link has been established or closed, and an initiator that has
    exchanged keys without a valid proof never becomes active. *)
Theorem link_lifecycle_refines l rs l' rs' : rtc link_step (l, rs) (l', rs') ->
  rtc (lifecycle (linitiator l)) (lstatus l, length rs) (lstatus l', length rs') /\
  (destination l', linitiator l', linkID l') = (destination l, linitiator l, linkID l) /\
  (lstatus l <> LinkPending -> session l' = session l) /\
  (lstatus l = LinkClosed -> rs = [] -> lstatus l' = LinkClosed /\ rs' = []) /\
  (lstatus l <> LinkPending -> lstatus l <> LinkHandshake -> (length rs' <= length rs)%nat) /\
  (linitiator l = true -> rs = [] -> lstatus l = LinkHandshake -> lstatus l' = LinkHandshake \/ lstatus l' = LinkClosed).
Proof.
  intros H. pose proof (run_lifecycle _ _ H) as HL. cbn [fst snd] in HL. split; [done|].
  destruct (run_carried _ _ H) as (F & _ & HS). cbn [fst] in *.
  split; [congruence|]. split; [intros Hp; by apply HS|]. split_and!.
  - intros E ->. rewrite E in HL. apply lifecycle_closed in HL as [= -> ?%nil_length_inv]. done.
  - intros E1 E2. apply (lifecycle_established _ _ _ HL). by split.
  - intros Hi -> E. rewrite Hi, E in HL. destruct (lifecycle_waiting _ HL) as [[= -> _]|[= -> _]]; auto.
Qed.

(** ** Active initiators *)

Definition alive (l : Link) : Prop := lstatus l = LinkActive \/ lstatus l = LinkStale.

(** The invariant of an initiator. *)
Definition initiator_inv (l : Link) : Prop := linitiator l = true /\ (alive l -> proved l).

Lemma initiator_step l l' : handler_step l l' -> initiator_inv l -> initiator_inv l'.
Proof.
  intros (H1 & H2 & _ & H4 & H5)%allowed_step [Hi Hp].
  assert (linitiator l' = true) as Hi' by (injection H1; congruence). split; [done|].
  destruct (decide (lstatus l = LinkPending)) as [Hs|Hs].
  - specialize (H5 Hi Hs). intros [A|A]; rewrite A in H5; intuition discriminate.
  - specialize (H4 Hs). intros HA. apply (session_proved l); [done|]. apply Hp. unfold alive in *.
    rewrite Hi in H2. destruct HA as [A|A]; rewrite A in H2; inversion H2; auto; congruence.
Qed.

(** An initiator never runs [HandleRTT]. *)
Lemma initiator_run x y :
  rtc link_step x y -> x.2 = [] -> initiator_inv x.1 -> y.2 = [] /\ initiator_inv y.1.
Proof.
  induction 1 as [|x y z H _ IH]; [done|]. intros E I. apply IH; clear IH; destruct H as [l l' rs H|? ? ? ? l rs Hi|? ? ? ? l rs1 rs2];
    cbn [fst snd] in *.
  - done.
  - destruct I as [Hi' _]. congruence.
  - by destruct rs1.
  - by eapply initiator_step.
  - done.
  - by destruct rs1.
Qed.

Lemma NewLink_fields rnd1 rnd2 hops firstHop d l : NewLink rnd1 rnd2 hops firstHop (Some d) = Ok l ->
  linitiator l = true /\ lstatus l = LinkPending /\ destination l = Some d /\ remoteIdentity l = None /\ mode l = LinkModeAES256CBC.
Proof.
  unfold NewLink. destruct (negb _); [done|]. cbn [res_bind mbind]. intros H.
  destruct (map_err ErrLinkKeys (GenerateX25519PrivateKey rnd1)) as [k| |]; [|done..].
  cbn in H. destruct (map_err ErrLinkKeys (GenerateEd25519PrivateKey rnd2)) as [s| |]; [|done..]. cbn in H. by injection H as <-.
Qed.

Lemma Establish_fields now rnd net sgn hops firstHop l : let l' := (Establish now rnd net sgn hops firstHop l).1.1 in
  linitiator l' = linitiator l /\ lstatus l' = lstatus l /\ destination l' = destination l /\
  remoteIdentity l' = remoteIdentity l /\ mode l' = mode l.
Proof.
  unfold Establish. cbv zeta. repeat (case_match; try done).
  match goal with H : send now net ?q ?x = (?y, _, _) |- _ => pose proof (quiet_send now net q x) as [Q1 Q2]; rewrite H in Q1, Q2 end.
  unfold core in Q1. cbn in *. split_and!; congruence.
Qed.

(** C9: a link that [Establish] has started and that is active or stale later,
    after any sequence of steps, has received a proof whose signature by the
    destination's identity covers the link ID and the peer key in use, and its
    session token is derived from the exchange with that very key. *)
Theorem initiator_active_proved rnd1 rnd2 hops firstHop d l now rnd net sgn hops' firstHop' l' rs :
  NewLink rnd1 rnd2 hops firstHop (Some d) = Ok l ->
  rtc link_step ((Establish now rnd net sgn hops' firstHop' l).1.1, []) (l', rs) ->
  lstatus l' = LinkActive \/ lstatus l' = LinkStale ->
  destination l' = Some d /\
  (exists i p, identity d = Some i /\ peerPub l' = Some (slice 64 96 (Packet.Data p)) /\
     IVerify i (take 64 (Packet.Data p))
       (proof_signed (linkID l') (slice 64 96 (Packet.Data p)) (slice 32 64 (GetPublicKey i))
          (if zlen (Packet.Data p) =? 64 + 32 + LinkMTUSize then slice 96 99 (Packet.Data p) else [])) = true) /\
  (exists peer shared key t, peerPub l' = Some peer /\ x_exchange (lprv l') peer = Ok shared /\
     HKDF 64 shared (linkID l') [] = Ok key /\ NewToken key = Ok t /\ token l' = Some t).
Proof.
  intros HN HR HA. apply NewLink_fields in HN as (N1 & N2 & N3 & _ & N4).
  destruct (Establish_fields now rnd net sgn hops' firstHop' l) as (E1 & E2 & E3 & _ & E4).
  set (l0 := (Establish _ _ _ _ _ _ l).1.1) in *. clearbody l0.
  destruct (run_carried _ _ HR) as [F _]. cbn [fst] in F. injection F as F1 F2 F3 F4 F5.
  destruct (initiator_run _ _ HR) as [_ [_ HP]]; [done| |]; cbn [fst snd] in *.
  { split; [congruence|]. unfold alive. rewrite E2, N2. by intros []. }
  destruct (HP HA) as [HK (p & HV & HPP)]. split; [congruence|]. split.
  - unfold verifyProofSignatureLocked in HV. rewrite F1, E3, N3 in HV.
    destruct (identity d) as [i|]; [|done]. exists i, p. case_match; [done|]. done.
  - unfold keyed in HK. rewrite F3, E4, N4 in HK. done.
Qed.

(** ** Requests *)

(** C31: on a link that started without a remote identity, a response is
    generated only while the link is active, and for a handler with an allow
    list only when the remote identity is on the list and has signed the link
    ID and its own public key. *)
Theorem request_authorised l rs l' rs' handlers requestID request path id remote :
  remoteIdentity l = None -> rtc link_step (l, rs) (l', rs') ->
  LGenerateResponse path id remote ∈ (handleRequest handlers requestID request l').1 ->
  lstatus l' = LinkActive /\ id = requestID /\
  exists pathHash h, handlers pathHash = Some h /\ Path h = path /\
    (Allow h = AllowAll \/
     Allow h = AllowList /\ exists i pk sig, remote = Some i /\ IHash i ∈ AllowedList h /\
       LoadPublicKey pk zeroIdentity = Ok i /\ IVerify i sig (linkID l ++ pk) = true).
Proof.
  intros Hn HR HG.
  destruct (run_carried _ _ HR) as (F & HS & _). injection F as _ _ _ _ F. cbn [fst] in *.
  specialize (HS ltac:(intros i; by rewrite Hn)).
  unfold handleRequest in HG. destruct (Z.eqb_spec (lstatus l') LinkActive) as [Ha|]; cbn [negb] in HG; [|by apply elem_of_nil in HG].
  split; [done|]. repeat case_match; try (by apply elem_of_nil in HG).
  cbn [fst] in HG. apply list_elem_of_singleton in HG. simplify_eq. split; [done|].
  eexists _, _. split; [eassumption|]. split; [done|].
  match goal with H : request_allowed ?h _ = true |- _ => rename H into HA; set (hh := h) in * end. clearbody hh.
  unfold request_allowed in HA. destruct (Z.eqb_spec (Allow hh) AllowAll); [by left|]. right.
  destruct (Z.eqb_spec (Allow hh) AllowList); [|done]. split; [done|].
  destruct (remoteIdentity l') as [i|] eqn:Hi; [|done].
  destruct (HS i Hi) as (pk & sig & H1 & H2). exists i, pk, sig. split; [done|]. rewrite <- F. split; [|done].
  apply existsb_exists in HA as (a & Hin & He). apply bytes_eqb_eq in He as ->. by apply list_elem_of_In.
Qed.

(** ** A forged proof *)

(** The session token of a secret shared for a link. *)
Definition session_token (shared id : bytes) (t : Token) : Prop :=
  exists key, HKDF 64 shared id [] = Ok key /\ NewToken key = Ok t.

Lemma session_token_exists shared id : length shared = 32%nat -> exists t, session_token shared id t.
Proof.
  intros Hl. destruct (HKDF_size 64 shared id []) as (key & E & Hk); [lia|by destruct shared|].
  assert (exists t, NewToken key = Ok t) as [t Et] by (unfold NewToken; rewrite Hk; by eexists).
  by exists t, key.
Qed.

Lemma handshake_ok l peer shared t :
  lstatus l = LinkPending -> mode l = LinkModeAES256CBC -> peerPub l = Some peer -> x_exchange (lprv l) peer = Ok shared ->
  session_token shared (linkID l) t ->
  exists key, handshake l =
    (l <| sharedKey := shared |> <| derivedKey := key |> <| token := Some t |> <| lstatus := LinkHandshake |>, Ok tt).
Proof.
  intros Hs Hm Hp Hx (key & Hk & Ht). exists key. unfold handshake. rewrite Hs, Hp, Hx. cbv zeta.
  change (mode (l <| sharedKey := shared |>)) with (mode l). change (linkID (l <| sharedKey := shared |>)) with (linkID l).
  rewrite Hm. change (LinkModeAES256CBC =? LinkModeAES128CBC) with false. cbv iota.
  rewrite Hk. cbv zeta. by rewrite Ht.
Qed.

Lemma LoadPeer_ok pb sb l : length pb = 32%nat -> length sb = 32%nat ->
  LoadPeer pb sb l = (l <| peerPub := Some pb |> <| peerSigPub := Some sb |>, Ok tt).
Proof.
  intros H1 H2. unfold LoadPeer, NewX25519PublicKeyFromBytes, NewEd25519PublicKeyFromBytes.
  by rewrite !key_of_bytes_ok by done.
Qed.

(** Up to the signature check. *)
Lemma ValidateProof_keys now rnd net iface p l d i k s a sg shared t :
  lstatus l = LinkPending -> mode l = LinkModeAES256CBC -> destination l = Some d -> identity d = Some i ->
  pub i = Some k -> length k = 32%nat -> sigPub i = Some s -> length s = 32%nat ->
  (exists rest, Packet.Data p = sg ++ a ++ rest) -> length sg = 64%nat -> length a = 32%nat ->
  x_exchange (lprv l) a = Ok shared -> session_token shared (linkID l) t ->
  exists l2, frame l2 = frame l /\ token l2 = Some t /\ lstatus l2 = LinkHandshake /\
    ValidateProof now rnd net iface p l =
      if negb (verifyProofSignatureLocked l p) then (l2, [], Err ErrProofSignature)
      else
        match rtt_packet rnd (activate_initiator now iface p l2) with
        | Err e => (activate_initiator now iface p l2, [LActivate], Err e)
        | Panic => (activate_initiator now iface p l2, [LActivate], Panic)
        | Ok q =>
            match send now net q (activate_initiator now iface p l2) with
            | (l, ev, Ok tt) => (l, LActivate :: ev ++ (if cbEstablished (callbacks l) then [LEstablished] else []), Ok tt)
            | (l, ev, Err e) => (l, LActivate :: ev, Err e)
            | (l, ev, Panic) => (l, LActivate :: ev, Panic)
            end
        end.
Proof.
  intros Hs Hm Hd Hi Hk Hkl Hsp Hsl [rest Hdata] Hsg Ha Hx Ht.
  unfold ValidateProof. rewrite Hs, Hd, Hi. change (LinkPending =? LinkPending) with true. cbn [negb].
  rewrite (proj2 (Nat.ltb_ge _ _)) by (rewrite Hdata, !length_app; lia).
  assert (GetPublicKey i = k ++ s) as Hpk by (unfold GetPublicKey; by rewrite Hk, Hsp).
  rewrite (proj2 (Nat.ltb_ge _ _)) by (rewrite Hpk, length_app; lia).
  assert (slice 64 96 (Packet.Data p) = a) as -> by (rewrite Hdata; apply slice_app_mid; lia).
  assert (slice 32 64 (GetPublicKey i) = s) as ->.
  { rewrite Hpk. replace (k ++ s) with (k ++ s ++ []) by (by rewrite app_nil_r). apply slice_app_mid; lia. }
  rewrite LoadPeer_ok by done. set (l1 := l <| peerPub := Some a |> <| peerSigPub := Some s |>).
  destruct (handshake_ok l1 a shared t Hs Hm eq_refl Hx Ht) as [key ->].
  set (l2 := l1 <| sharedKey := _ |> <| derivedKey := _ |> <| token := _ |> <| lstatus := _ |>).
  exists l2. split; [done|]. split; [done|]. split; [done|].
  change (verifyProofSignatureLocked l2 p) with (verifyProofSignatureLocked l p). clearbody l2. done.
Qed.

Lemma send_callbacks now net p l : callbacks (send now net p l).1.1 = callbacks l.
Proof.
  unfold send, accumulateEstablishmentCost, recordOutbound. cbv zeta. repeat (case_match; simplify_eq; try done).
Qed.

Lemma prove_callbacks now rnd net p l : callbacks (ProvePacket now rnd net p l).1 = callbacks l.
Proof.
  unfold ProvePacket. case_match; [|done]. cbv zeta.
  match goal with |- context [send now net ?q l] => pose proof (send_callbacks now net q l) as E; by destruct (send now net q l) as [[l1 ev] r] end.
Qed.

(** Before the activation, too, what the token opens reaches the application. *)
Lemma receive_application now rnd net req bh iface q l t m :
  lstatus l = LinkHandshake -> token l = Some t -> cbPacket (callbacks l) = true ->
  Context q = ContextNone -> Decrypt t (Packet.Data q) = Ok m ->
  LPacketCallback m ∈ (receive now rnd net req bh iface q l).1.2.
Proof.
  intros Hs Ht Hcb Hq HD. unfold receive. cbv zeta. rewrite Hq.
  assert (lstatus (count_inbound now q l) = LinkHandshake /\ token (count_inbound now q l) = Some t /\
          cbPacket (callbacks (count_inbound now q l)) = true) as (Hs0 & Ht0 & Hcb0).
  { unfold count_inbound. rewrite Hq, Hs. cbn. by rewrite Hs, andb_false_r. }
  set (l0 := count_inbound now q l) in *. clearbody l0.
  change (ContextNone =? ContextLrproof) with false. change (ContextNone =? ContextLrrtt) with false.
  change (shouldDecrypt ContextNone) with true. cbv iota. rewrite Hs0. change (LinkHandshake =? LinkClosed) with false. cbv iota.
  unfold LDecrypt. rewrite Ht0, HD. cbn [map_err]. unfold dispatch. cbv zeta.
  change (Context (q <| Packet.Data := m |>)) with (Context q). rewrite Hq. cbn [Z.eqb ContextNone].
  change (receive_data now rnd net req (q <| Packet.Data := m |>) l0, Ok tt).1.2 with
    (receive_data now rnd net req (q <| Packet.Data := m |>) l0).2.
  unfold receive_data. rewrite Hs0. change ((LinkHandshake =? LinkClosed) || (LinkHandshake =? LinkPending)) with false. cbv iota zeta.
  set (b := negb _ && _). clearbody b. pose proof (prove_callbacks now rnd net (q <| Packet.Data := m |>) l0) as HP.
  destruct b; [destruct (ProvePacket _ _ _ _ l0) as [l1 ev]; cbn [fst] in HP; rewrite HP|]; rewrite Hcb0;
    apply elem_of_app; right; by left.
Qed.

(** C32: a proof with an invalid signature is not without effect.  Anybody who
    sees the request (the link ID and the initiator's public key) can answer
    with a key of their own: [ValidateProof] exchanges keys before it checks
    the signature, so the initiator keeps a session token the sender knows,
    never becomes active whatever arrives later, and hands data encrypted with
    that token to its packet callback. *)
Theorem forged_proof_hijacks now rnd net req bh iface p l d i k s a sg rest :
  linitiator l = true -> lstatus l = LinkPending -> mode l = LinkModeAES256CBC ->
  length (lprv l) = 32%nat -> length a = 32%nat ->
  destination l = Some d -> identity d = Some i ->
  pub i = Some k -> length k = 32%nat -> sigPub i = Some s -> length s = 32%nat ->
  Context p = ContextLrproof -> Packet.Data p = sg ++ x_public a ++ rest -> length sg = 64%nat ->
  verifyProofSignatureLocked l p = false ->
  exists l1 shared t, receive now rnd net req bh iface p l = (l1, [], Ok tt) /\
    x_exchange a (x_public (lprv l)) = Ok shared /\ session_token shared (linkID l) t /\
    (forall l2 rs, rtc link_step (l1, []) (l2, rs) -> lstatus l2 = LinkHandshake \/ lstatus l2 = LinkClosed) /\
    (forall l2 rs now rnd net req bh iface q m, rtc link_step (l1, []) (l2, rs) -> lstatus l2 = LinkHandshake ->
       cbPacket (callbacks l2) = true -> Context q = ContextNone -> Decrypt t (Packet.Data q) = Ok m ->
       LPacketCallback m ∈ (receive now rnd net req bh iface q l2).1.2).
Proof.
  intros Hi Hs Hm Hlp Ha Hd Hid Hk Hkl Hsp Hsl Hc Hdata Hsg Hv.
  destruct (x_agree (lprv l) a Hlp Ha) as (shared & X1 & X2 & Hsl2).
  destruct (session_token_exists shared (linkID l) Hsl2) as [t Ht].
  destruct (count_inbound_core now p l) as [C S]. unfold receive. cbv zeta. rewrite Hc.
  change (ContextLrproof =? ContextLrproof) with true. cbv iota.
  set (l0 := count_inbound now p l) in *. clearbody l0. unfold core in C. injection C as C1 C2 C3 C4 C5 C6 C7 C8.
  assert (lstatus l0 = LinkPending) as Hs0 by (destruct S as [S|[S _]]; [congruence|by rewrite S in Hs]).
  assert (verifyProofSignatureLocked l0 p = false) as Hv0 by (unfold verifyProofSignatureLocked in *; by rewrite C1, C5).
  destruct (ValidateProof_keys now rnd net iface p l0 d i k s (x_public a) sg shared t) as (l1 & F & Ht1 & Hs1 & E); try congruence.
  { by exists rest. } { apply x_public_length. }
  rewrite E, Hv0. cbn [negb]. unfold frame in F. injection F as _ Hi1 _ _ _ _.
  exists l1, shared, t. split; [done|]. split; [done|]. split; [done|]. split.
  - intros l2 rs HR%run_lifecycle. cbn [fst snd length] in HR. rewrite Hs1, Hi1, C2, Hi in HR.
    destruct (lifecycle_waiting _ HR) as [[= -> _]|[= -> _]]; auto.
  - intros l2 rs now' rnd' net' req' bh' iface' q m HR Hs2 Hcb Hq HD.
    assert (token l2 = Some t) as Htok.
    { assert (session l2 = session l1) as HS; [|unfold session in HS; congruence].
      apply (run_carried _ _ HR). cbn [fst]. rewrite Hs1. discriminate. }
    by apply (receive_application _ _ _ _ _ _ _ _ t).
Qed.

(** ** A link that closes under the round-trip time *)

Lemma Teardown_stops now rnd net l : lstatus l <> LinkClosed -> watchdogStopped (Teardown now rnd net l).1 = true.
Proof.
  intros Hs. unfold Teardown. set (b := negb _ && _). pose proof (quiet_teardown_packet now rnd net l) as [_ Q].
  destruct b; [destruct (sendTeardownPacket now rnd net l) as [l1 ev]|]; cbn [fst] in Q; unfold teardown;
    (rewrite (proj2 (Z.eqb_neq _ _)); [done|congruence]).
Qed.

(** A teardown between the two critical sections of [HandleRTT]. *)
Definition teardown_during_rtt (now : Z) (rnd : random_source) (net : bool) (now' : Z) (p : Packet)
    (measured received : float) (l : Link) : Link :=
  (HandleRTT_finish now' p measured received (Teardown now rnd net l).1).1.

(** [HandleRTT] releases the lock between its status check and the
    activation.  A teardown in between is undone: the link is active again,
    with its keys, after its watchdog has been stopped. *)
Theorem rtt_reopens_closed_link now rnd net now' p measured received l :
  HandleRTT_check now p l = Ok (RttActivate measured received) ->
  let closed := (Teardown now rnd net l).1 in
  let reopened := teardown_during_rtt now rnd net now' p measured received l in
  lstatus closed = LinkClosed /\ watchdogStopped closed = true /\
  lstatus reopened = LinkActive /\ watchdogStopped reopened = true /\ token reopened = token l /\ is_Some (token l).
Proof.
  intros HC. cbv zeta. unfold teardown_during_rtt. pose proof (Teardown_closes now rnd net l) as T1. destruct (closed_Teardown now rnd net l) as [T2 _].
  assert (lstatus l <> LinkClosed /\ is_Some (token l)) as [Hs Ht].
  { unfold HandleRTT_check in HC. destruct (Z.eqb_spec (lstatus l) LinkHandshake) as [->|];
      [|destruct (Z.eqb_spec (lstatus l) LinkPending) as [->|]; [|done]]; (split; [done|]); unfold LDecrypt in HC;
      destruct (token l); done. }
  pose proof (Teardown_stops now rnd net l Hs) as T3. set (c := (Teardown now rnd net l).1) in *. clearbody c.
  destruct (finish_session now' p measured received c) as (F1 & _ & F3).
  assert (watchdogStopped (HandleRTT_finish now' p measured received c).1 = watchdogStopped c) as F4
    by (unfold HandleRTT_finish, set_rate; cbv zeta; by case_match).
  set (r := (HandleRTT_finish _ _ _ _ _).1) in *. clearbody r. unfold core in T2. unfold session in F1.
  split_and!; [done..|congruence|congruence|done].
Qed.

(** ** The watchdog of a silent link *)

(** What the stale check depends on. *)
Definition timing (l : Link) := (effectiveLastInbound l, keepalive l, staleTime l).

Lemma send_timing now net p l : timing (send now net p l).1.1 = timing l.
Proof.
  unfold send, accumulateEstablishmentCost, recordOutbound. cbv zeta. repeat (case_match; simplify_eq; try done).
Qed.

Lemma keepalive_timing now rnd net l : timing (sendKeepalive now rnd net l).1 = timing l.
Proof.
  unfold sendKeepalive. pose proof (send_timing now net (link_packet rnd l ContextKeepalive PacketData [0xFF]) l) as Q.
  destruct (send _ _ _ _) as [[l1 ev] [[]| |]]; done.
Qed.

(** The keepalive settings [NewLink] and [updateKeepaliveLocked] make. *)
Definition keepalive_ok (l : Link) : Prop :=
  LinkKeepaliveMin <= keepalive l <= LinkKeepaliveMax /\ staleTime l = 2 * keepalive l.

Lemma updateKeepalive_ok l : keepalive_ok (updateKeepaliveLocked l).
Proof.
  unfold keepalive_ok, updateKeepaliveLocked. cbv zeta. set (k := Z.min (Z.max _ _) _). change (LinkKeepaliveMin <= k <= LinkKeepaliveMax /\ 2 * k = 2 * k).
  split; [|done]. assert (LinkKeepaliveMin <= LinkKeepaliveMax) by done. unfold k. lia.
Qed.

Lemma pause_bounds s : 0 < watchdog_pause (cap_sleep s) <= LinkWatchdogMaxSleep.
Proof. unfold watchdog_pause, cap_sleep, LinkWatchdogMaxSleep, Millisecond, Second. zcase. Qed.

(** A run on an active link. *)
Lemma watchdog_active now rnd net l : lstatus l = LinkActive ->
  let T := effectiveLastInbound l in
  exists l' ev sleep, watchdogStep now rnd net l = (l', ev, sleep) /\ timing l' = timing l /\
    (T + staleTime l <= now -> T + keepalive l <= now -> lstatus l' = LinkStale) /\
    (now < T + staleTime l -> lstatus l' = LinkActive /\
      (sleep = cap_sleep (keepalive l) \/ now < T + keepalive l /\ sleep = cap_sleep (Sub (T + keepalive l) now))) /\
    (exists s, sleep = cap_sleep s).
Proof.
  intros Ha. cbv zeta. unfold watchdogStep. rewrite Ha.
  change (LinkActive =? LinkClosed) with false. change ((LinkActive =? LinkPending) || (LinkActive =? LinkHandshake)) with false.
  change (LinkActive =? LinkActive) with true. cbv iota zeta. unfold Before, Add.
  set (T := effectiveLastInbound l).
  destruct (negb (now <? T + keepalive l) || negb (now <? lastOutbound l + keepalive l)) eqn:E.
  - set (ping := linitiator l && _). clearbody ping. set (l1 := if ping then l <| lastKeepalive := now |> else l).
    assert (timing l1 = timing l /\ lstatus l1 = LinkActive /\ staleTime l1 = staleTime l /\ keepalive l1 = keepalive l)
      as (T1 & S1 & -> & ->) by (unfold l1; by destruct ping). clearbody l1. clear E.
    destruct (Z.ltb_spec now (T + staleTime l)) as [H2|H2]; cbn [negb].
    + pose proof (quiet_keepalive now rnd net l1) as [_ Q]. pose proof (keepalive_timing now rnd net l1) as Q'.
      destruct ping; [destruct (sendKeepalive now rnd net l1) as [l2 ev]|]; cbn [fst] in *;
        eexists _, _, _; (split; [done|]); (split; [congruence|]); (split; [lia|]); (split; [|by eexists]);
        intros _; (split; [congruence|by left]).
    + set (l2 := l1 <| lstatus := LinkStale |>). assert (timing l2 = timing l1) as T2 by done.
      pose proof (quiet_keepalive now rnd net l2) as [_ Q]. pose proof (keepalive_timing now rnd net l2) as Q'.
      destruct ping; [destruct (sendKeepalive now rnd net l2) as [l3 ev]|]; cbn [fst] in *;
        eexists _, _, _; (split; [done|]); (split; [congruence|]); (split; [done|]); (split; [lia|by eexists]).
  - apply orb_false_iff in E as [E _]. apply negb_false_iff, Z.ltb_lt in E.
    eexists _, _, _. split; [done|]. split; [done|]. split; [lia|]. split; [auto|by eexists].
Qed.

(** A run on a stale link ends it. *)
Lemma watchdog_stale now rnd net l : lstatus l = LinkStale ->
  exists l' ev sleep, watchdogStep now rnd net l = (l', ev, sleep) /\ lstatus l' = LinkClosed /\ teardownReason l' = TeardownTimeout.
Proof.
  intros Hs. unfold watchdogStep. rewrite Hs. cbn [Z.eqb LinkStale LinkClosed LinkPending LinkHandshake LinkActive Pos.eqb orb].
  destruct (sendTeardownPacket now rnd net l) as [l1 ev]. by eexists _, _, _.
Qed.

(** The last runs, once the keepalive time has passed. *)
Lemma watchdog_second n now rnd net l :
  lstatus l = LinkActive -> LinkKeepaliveMin <= keepalive l <= LinkKeepaliveMax -> staleTime l = 2 * keepalive l ->
  let T := effectiveLastInbound l in
  T + keepalive l <= now -> T + staleTime l - now <= Z.of_nat n * LinkWatchdogMaxSleep ->
  exists l' ev t, watchdogJob (n + 2) now rnd net l = Some (l', ev, t) /\
    lstatus l' = LinkClosed /\ teardownReason l' = TeardownTimeout /\
    T + staleTime l <= t <= Z.max now (T + staleTime l + LinkWatchdogMaxSleep) + LinkWatchdogMaxSleep.
Proof.
  revert now l. induction n as [|n IH]; intros now l Ha Hk Hst T Hnow Hn; subst T;
    destruct (watchdog_active now rnd net l Ha) as (l1 & ev1 & sleep & E & Ht & H1 & H2 & s & Hsl);
    unfold timing in Ht; injection Ht as Ht1 Ht2 Ht3.
  all: destruct (Z.le_gt_cases (effectiveLastInbound l + staleTime l) now) as [Hd|Hd].
  1,3: specialize (H1 Hd Hnow); rewrite Nat.add_comm; cbn [Nat.add watchdogJob]; rewrite E, H1;
    change (LinkStale =? LinkClosed) with false; cbv iota;
    destruct (watchdog_stale (now + watchdog_pause sleep) rnd net l1 H1) as (l2 & ev2 & s2 & E2 & C1 & C2);
    rewrite E2, C1; change (LinkClosed =? LinkClosed) with true; cbv iota;
    eexists _, _, _; (split; [done|]); (split; [done|]); (split; [done|]);
    pose proof (pause_bounds s); rewrite Hsl; lia.
  - lia.
  - destruct (H2 Hd) as [Ha1 [Hs2|[? _]]]; [|lia]. clear Hsl s H1 H2.
    assert (watchdog_pause sleep = LinkWatchdogMaxSleep) as Hp.
    { subst sleep. unfold LinkKeepaliveMin, LinkKeepaliveMax in Hk. unfold watchdog_pause, cap_sleep, LinkWatchdogMaxSleep, Second in *. zcase. }
    cbn [Nat.add watchdogJob]. rewrite E, Ha1, Hp. change (LinkActive =? LinkClosed) with false. cbv iota.
    destruct (IH (now + LinkWatchdogMaxSleep) l1) as (l2 & ev2 & t & -> & C1 & C2 & C3).
    + done. + congruence. + congruence.
    + rewrite Ht1, Ht2. unfold LinkWatchdogMaxSleep, Second. lia.
    + rewrite Ht1, Ht3. lia.
    + eexists _, _, _. split; [done|]. split; [done|]. split; [done|]. rewrite Ht1, Ht3 in C3. lia.
Qed.

Lemma watchdog_first n m now rnd net l :
  lstatus l = LinkActive -> LinkKeepaliveMin <= keepalive l <= LinkKeepaliveMax -> staleTime l = 2 * keepalive l ->
  let T := effectiveLastInbound l in
  keepalive l <= Z.of_nat m * LinkWatchdogMaxSleep -> T + keepalive l - now <= Z.of_nat n * LinkWatchdogMaxSleep ->
  exists l' ev t, watchdogJob (n + m + 2) now rnd net l = Some (l', ev, t) /\
    lstatus l' = LinkClosed /\ teardownReason l' = TeardownTimeout /\
    T + staleTime l <= t <= Z.max now (T + staleTime l + LinkWatchdogMaxSleep) + LinkWatchdogMaxSleep.
Proof.
  revert now l. induction n as [|n IH]; intros now l Ha Hk Hst T Hm Hn; subst T.
  { apply (watchdog_second m); try done; lia. }
  destruct (Z.le_gt_cases (effectiveLastInbound l + keepalive l) now) as [Hd|Hd].
  { apply (watchdog_second (S n + m)); try done. unfold LinkWatchdogMaxSleep, Second in *. lia. }
  destruct (watchdog_active now rnd net l Ha) as (l1 & ev1 & sleep & E & Ht & _ & H2 & _).
  unfold timing in Ht; injection Ht as Ht1 Ht2 Ht3.
  destruct H2 as [Ha1 Hs]; [unfold LinkKeepaliveMin, Second in Hk; lia|].
  cbn [Nat.add watchdogJob]. rewrite E, Ha1. change (LinkActive =? LinkClosed) with false. cbv iota.
  set (w := watchdog_pause sleep).
  assert (0 < w <= LinkWatchdogMaxSleep /\ (w = LinkWatchdogMaxSleep \/ now + w = effectiveLastInbound l + keepalive l)) as [Hw1 Hw2].
  { unfold w, LinkKeepaliveMin, LinkKeepaliveMax in *. destruct Hs as [->|[_ ->]];
      unfold watchdog_pause, cap_sleep, Sub, minDuration, maxDuration, LinkWatchdogMaxSleep, Millisecond, Second in *; zcase. }
  clearbody w. unfold LinkWatchdogMaxSleep, Second in *.
  destruct (IH (now + w) l1) as (l2 & ev2 & t & -> & C1 & C2 & C3); [done|congruence|congruence|congruence|rewrite Ht1, Ht2; lia|].
  eexists _, _, _. split; [done|]. split; [done|]. split; [done|]. rewrite Ht1, Ht3 in C3. unfold LinkKeepaliveMin, Second in *. lia.
Qed.

(** C33: the watchdog of an active link on which nothing arrives closes it with
    the timeout reason, not before its stale time after the last arrival and
    at most ten seconds later (or after the loop starts, if that is later);
    146 runs suffice for every keepalive interval the link can have. *)
Theorem watchdog_closes_silent_link now rnd net l :
  lstatus l = LinkActive -> keepalive_ok l ->
  effectiveLastInbound l <= now ->
  exists l' ev t, watchdogJob 146 now rnd net l = Some (l', ev, t) /\
    lstatus l' = LinkClosed /\ teardownReason l' = TeardownTimeout /\
    effectiveLastInbound l + staleTime l <= t <= Z.max now (effectiveLastInbound l + staleTime l + 5 * Second) + 5 * Second.
Proof.
  intros Ha [Hk Hst] Hnow. apply (watchdog_first 72 72); try done; unfold LinkKeepaliveMax, LinkWatchdogMaxSleep, Second in *; lia.
Qed.
End LinkFacts.

(** ** A concrete link, for the witnesses *)
Module ToyLink.
Import ToyCrypto ToyCurves ToyIdentity.
Definition fresh : Link :=
  match NewLink rnd rnd 1 Second (Some home) with
  | Ok l => l
  | _ => mkLink None false 0 0 [] [] None [] None None [] [] [] None 0 0 0 0 0 0 0 0 0 0 0 0 0 0 0 0 0 0
           no_callbacks None 0 None 0 [] [] [] 0 0 0 0 false 0 false
  end.
Definition start : Z := 10 ^ 18.
Definition waiting : Link := (Establish start rnd true [] 1 Second fresh).1.1.
Definition packet (context : Z) (data : bytes) : Packet := NewPacketFromRaw [] <| Context := context |> <| Packet.Data := data |>.

(** A genuine proof and a forged one. *)
Definition peer : bytes := x_public (seed 5).
Definition proof : Packet :=
  packet ContextLrproof (ed_sign (seed 4) (proof_signed (linkID waiting) peer (ed_public (seed 4)) []) ++ peer).
Definition forged : Packet := packet ContextLrproof (replicate 64 0 ++ peer).
Definition active : Link := (receive (start + Second) rnd true false (fun _ => false) None proof waiting).1.1.

(** The other end, before and after its initiator identifies as Alice. *)
Definition session : Token := default (mkToken [] [] false) (token active).
Definition seal (data : bytes) : bytes := match Encrypt rnd session data with Ok c => c | _ => [] end.
Definition responder : Link := active <| linitiator := false |> <| lstatus := LinkHandshake |>.
Definition identify : Packet :=
  packet ContextLinkIdentify (seal (GetPublicKey alice ++ ed_sign (seed 4) (linkID responder ++ GetPublicKey alice))).
Definition opened_responder : Link := responder <| lstatus := LinkActive |>.
Definition identified : Link := (receive start rnd true false (fun _ => false) None identify opened_responder).1.1.
Definition handlers (_ : bytes) : option RequestHandler :=
  Some (mkHandler [112] AllowList [IHash alice] (fun _ _ _ => None)).
Definition request : list value := [VInt 1; VBin [7]; VNil].
Definition rtt : Packet := packet ContextLrrtt (seal (Msgpack.Pack (VInt 2)).1).
End ToyLink.

Section LinkWitnesses.
Import ToyCrypto ToyCurves ToyIdentity ToyLink.

Lemma active_run : rtc link_step (waiting, []) (active, []).
Proof.
  unfold active. generalize waiting. intros l. apply rtc_once.
  exact (StepHandler _ _ [] (StepReceive (start + Second) rnd true false (fun _ => false) None proof l)).
Defined.

(** A link that is closed while the round-trip time packet is handled. *)
Lemma link_lifecycle_refines_witness : exists measured received,
  let reopened := teardown_during_rtt start rnd true start rtt measured received responder in
  rtc link_step (responder, []) (reopened, []) /\ lstatus reopened = LinkActive /\
  rtc (lifecycle false) (LinkHandshake, O) (LinkActive, O).
Proof.
  destruct (HandleRTT_check start rtt responder) as [[| |measured received]| |] eqn:E; try (vm_compute in E; discriminate).
  exists measured, received. intros reopened.
  assert (rtc link_step (responder, []) (reopened, [])) as HR.
  { apply (rtc_l _ _ (responder, [(rtt, measured, received)])).
    { apply (StepRttCheck start); [vm_compute; reflexivity|exact E]. }
    apply (rtc_l _ _ ((Teardown start rnd true responder).1, [(rtt, measured, received)])).
    { apply StepHandler, StepTeardown. }
    apply rtc_once. exact (StepRttFinish start rtt measured received (Teardown start rnd true responder).1 [] []). }
  split; [exact HR|].
  assert (lstatus reopened = LinkActive) as Ha by apply finish_session.
  destruct (link_lifecycle_refines responder [] reopened [] HR) as [HL _]. rewrite Ha in HL. split; [exact Ha|exact HL].
Defined.

Lemma initiator_active_proved_witness : destination active = Some home.
Proof.
  apply (initiator_active_proved rnd rnd 1 Second home fresh start rnd true [] 1 Second active []).
  - vm_compute. reflexivity.
  - assert (waiting = (Establish start rnd true [] 1 Second fresh).1.1) as E by (unfold waiting; reflexivity).
    destruct E. exact active_run.
  - left. vm_compute. reflexivity.
Defined.

Lemma request_authorised_witness : lstatus identified = LinkActive.
Proof.
  apply (request_authorised opened_responder [] identified [] handlers [1] request [112] [1] (remoteIdentity identified)).
  - vm_compute. reflexivity.
  - apply rtc_once. exact (StepHandler _ _ [] (StepReceive start rnd true false (fun _ => false) None identify opened_responder)).
  - assert ((handleRequest handlers [1] request identified).1 = [LGenerateResponse [112] [1] (remoteIdentity identified)]) as ->
      by (vm_compute; reflexivity). left.
Defined.

Lemma forged_proof_hijacks_witness : exists l1 shared t,
  receive start rnd true false (fun _ => false) None forged waiting = (l1, [], Ok tt) /\
  x_exchange (seed 5) (x_public (lprv waiting)) = Ok shared /\ session_token shared (linkID waiting) t /\
  (forall l2 rs, rtc link_step (l1, []) (l2, rs) -> lstatus l2 = LinkHandshake \/ lstatus l2 = LinkClosed) /\
  (forall l2 rs now rnd net req bh iface q m, rtc link_step (l1, []) (l2, rs) -> lstatus l2 = LinkHandshake ->
     cbPacket (callbacks l2) = true -> Context q = ContextNone -> Decrypt t (Packet.Data q) = Ok m ->
     LPacketCallback m ∈ (receive now rnd net req bh iface q l2).1.2).
Proof.
  apply (forged_proof_hijacks start rnd true false (fun _ => false) None forged waiting home alice
    (x_public (seed 3)) (ed_public (seed 4)) (seed 5) (replicate 64 0) []); vm_compute; reflexivity.
Defined.

Lemma rtt_reopens_closed_link_witness : exists measured received,
  HandleRTT_check start rtt responder = Ok (RttActivate measured received) /\
  lstatus (teardown_during_rtt start rnd true start rtt measured received responder) = LinkActive.
Proof.
  destruct (HandleRTT_check start rtt responder) as [[| |measured received]| |] eqn:E; try (vm_compute in E; discriminate).
  exists measured, received. split; [reflexivity|].
  exact (proj1 (proj2 (proj2 (rtt_reopens_closed_link start rnd true start rtt measured received responder E)))).
Defined.

Lemma watchdog_closes_silent_link_witness : exists l' ev t,
  watchdogJob 146 (start + Second) rnd true active = Some (l', ev, t) /\
  lstatus l' = LinkClosed /\ teardownReason l' = TeardownTimeout /\
  effectiveLastInbound active + staleTime active <= t <=
    Z.max (start + Second) (effectiveLastInbound active + staleTime active + 5 * Second) + 5 * Second.
Proof.
  apply (watchdog_closes_silent_link (start + Second) rnd true active);
    [vm_compute; reflexivity|split; [split; vm_compute; discriminate|vm_compute; reflexivity]|vm_compute; discriminate].
Defined.
End LinkWitnesses.
