(* ===== verification/LinkHandshake.v ===== *)
(** * The link handshake, end to end

    An initiator and a responder that run [rns/link.go], with any relays in
    between: the request, its proof and the round-trip time make both ends
    active with one session token. *)

From stdpp Require Import base tactics option list relations.
From Stdlib Require Import ZArith Lia PrimFloat.
From S2P Require Import Prelude Clock Crypto Packet Channel Buffer Msgpack Resource Identity Link LinkSafety.
Local Open Scope Z_scope.
Local Open Scope go_scope.

Section Handshake.
Context `{Sh : Sha256} {ShL : Sha256Laws} `{Ci : BlockCipher} {CiL : BlockCipherLaws}.
Context `{Cu : Curves} {CuL : CurvesLaws}.

(** ** Packets on their way *)

(** [q] is what a node unpacks of [p], after relays that change what the packet
    hash does not cover. *)
Definition relayed (p q : Packet) : Prop :=
  exists raw q0, Packet.Unpack (NewPacketFromRaw raw) = (q, Ok tt) /\
    Packet.Unpack (NewPacketFromRaw (Raw p)) = (q0, Ok tt) /\
    GetHashablePart q = GetHashablePart q0 /\ hash_view q = hash_view q0.

Lemma Unpack_keeps raw q : Packet.Unpack (NewPacketFromRaw raw) = (q, Ok tt) -> Raw q = raw.
Proof.
  intros H. destruct (Unpack_ok_layout raw q H) as (f & h & tid & dst & ctx & data & -> & Hd & Hh & Ht).
  destruct (Unpack_raw f h tid dst ctx data Hd Hh Ht) as (q' & E & R & _). congruence.
Qed.

(** Packing a header-1 packet whose payload fits. *)
Lemma Pack_header1 p d ct :
  wire_ok p d -> HeaderType p = Header1 ->
  (if shouldEncrypt p then DEncrypt d (Packet.Data p) = Ok ct else Packet.Data p = ct) ->
  19 + zlen ct <= PMTU p ->
  exists p', Packet.Pack p = (p', Ok tt) /\ Ciphertext p' = ct /\ Packet.Data p' = Packet.Data p /\
    HeaderType p' = Header1 /\ Packed p' = true /\ Sent p' = Sent p /\ Hops p' = Hops p /\ transport p' = transport p /\
    Destination p' = Some d /\ Context p' = Context p /\ PacketType p' = PacketType p.
Proof.
  intros (Hd & _ & _ & _ & Hl & _) Hh Hct Hm. unfold Packet.Pack. rewrite Hd. cbv zeta.
  set (p1 := p <| DestinationHash := _ |>). set (p2 := p1 <| Flags := _ |>).
  change (HeaderType p2) with (HeaderType p). rewrite Hh. change (Header1 =? Header1) with true. cbv iota.
  change (shouldEncrypt p2) with (shouldEncrypt p). change (Packet.Data p2) with (Packet.Data p).
  change (DestinationHash p2) with (GetHash d). change (Hops p2) with (Hops p).
  assert (forall c, c = ct -> exists p', finishPack (p2 <| Ciphertext := c |>) ([Flags p2; u8 (Hops p)] ++ GetHash d) = (p', Ok tt) /\
    Ciphertext p' = ct /\ Packet.Data p' = Packet.Data p /\
    HeaderType p' = Header1 /\ Packed p' = true /\ Sent p' = Sent p /\ Hops p' = Hops p /\ transport p' = transport p /\
    Destination p' = Some d /\ Context p' = Context p /\ PacketType p' = PacketType p) as Hfin.
  { intros c ->. unfold finishPack. cbv zeta. set (raw := (([Flags p2; u8 (Hops p)] ++ GetHash d) ++ _) ++ _).
    assert (zlen raw = 19 + zlen ct) as Hraw.
    { unfold raw. change (Ciphertext (p2 <| Ciphertext := ct |>)) with ct. rewrite !zlen_app. unfold zlen. rewrite Hl. done. }
    change (PMTU _ <? zlen _) with (PMTU p <? zlen raw). rewrite (proj2 (Z.ltb_ge _ _)) by lia.
    unfold UpdateHash, PGetHash. set (q := _ <| Packed := true |>).
    assert (exists h, GetHashablePart q = Ok h) as [h ->].
    { unfold GetHashablePart. change (HeaderType q) with (HeaderType p). rewrite Hh. change (Raw q) with raw.
      unfold raw at 1. cbn [app]. rewrite (proj2 (Nat.ltb_ge _ _)); [by eexists|].
      change (if Header1 =? Header2 then _ else _) with 2%nat. unfold zlen in *. lia. }
    cbn [fmap res_fmap mbind res_bind]. eexists. split; [done|]. by split_and!. }
  destruct (shouldEncrypt p); [rewrite Hct; exact (Hfin ct eq_refl)|exact (Hfin _ Hct)].
Qed.

(** What arrives of a packet. *)
Lemma relayed_packet p d p' q :
  wire_ok p d -> Packet.Pack p = (p', Ok tt) -> HeaderType p = Header1 -> HeaderType p' = Header1 -> relayed p' q ->
  Packet.Data q = Ciphertext p' /\ Context q = Context p /\ PacketType q = PacketType p /\ GetHashablePart q = GetHashablePart p'.
Proof.
  intros W Hp Hh Hh' (raw & q0 & U & U0 & HG & HV).
  destruct (Pack_Unpack_fields _ _ _ W Hp) as (_ & q1 & U1 & _ & E2 & _ & _ & E5 & _ & E7 & _ & _ & E10 & _).
  assert (q1 = q0) as -> by congruence. unfold hash_view in HV. injection HV as V1 V2 V3 V4 V5.
  split_and!; [congruence..|]. rewrite HG. unfold GetHashablePart. rewrite (Unpack_keeps _ _ U0), E2, Hh, Hh'. done.
Qed.

(** A packet that nobody relays arrives as well. *)
Lemma relayed_direct p d p' p2 : wire_ok p d -> Packet.Pack p = (p', Ok tt) -> Raw p2 = Raw p' -> exists q, relayed p2 q.
Proof.
  intros W Hp E. destruct (Pack_Unpack_fields _ _ _ W Hp) as (_ & q & U & _). exists q, (Raw p'), q. by rewrite E.
Qed.

Lemma relayed_raw p p' q : Raw p' = Raw p -> relayed p' q -> relayed p q.
Proof. intros E (raw & q0 & H). exists raw, q0. by rewrite <- E. Qed.

(** ** Sending on an open link *)

Definition not_closed (d : PacketDestination) : Prop := match Impl d with DLink true _ => False | _ => True end.

Lemma send_ready now p d l :
  lstatus l <> LinkClosed -> Packed p = true -> Sent p = false -> Hops p = 0 -> transport p = true ->
  Destination p = Some d -> not_closed d -> (exists h, GetHashablePart p = Ok h) ->
  exists l' p', send now true p l = (l', [LSend (attachedInterface l) p'], Ok tt) /\ quiet l l' /\ Raw p' = Raw p.
Proof.
  intros Hs Hp Hse Hh Ht Hd Hc [h Hg]. pose proof (quiet_send now true p l) as Q. revert Q. unfold send. cbv zeta.
  change (lstatus (l <| lastOutbound := now |>)) with (lstatus l). rewrite (proj2 (Z.eqb_neq _ _)) by done. rewrite Hp.
  assert (attachedInterface (accumulateEstablishmentCost p (l <| lastOutbound := now |>)) = attachedInterface l) as Ea
    by (unfold accumulateEstablishmentCost; by case_match).
  set (l1 := accumulateEstablishmentCost p (l <| lastOutbound := now |>)) in *. clearbody l1. rewrite Ea.
  destruct (attachedInterface l) as [n|] eqn:En.
  - set (l2 := recordOutbound _ _ _ l1).
    assert (attachedInterface l2 = Some n) as -> by (unfold l2, recordOutbound; cbv zeta; by case_match).
    intros Q. by eexists _, _.
  - unfold Packet.Send. rewrite Hse, Hh, Hp, Hd. change (PathfinderM <=? 0) with false. cbv iota.
    unfold not_closed in Hc.
    unfold GetTruncatedHash. rewrite Hg. cbn [fmap res_fmap mbind res_bind].
    destruct (Impl d) as [r v|[] v|]; [|done|..]; destruct (CreateReceipt p), (Receipt p);
      match goal with |- context [transport ?q] => replace (transport q) with true by (symmetry; exact Ht) end;
      intros Q; (eexists _, _; split; [done|]; split; [exact Q|done]).
Qed.

Lemma send_unpacked now net p p' l :
  Packed p = false -> Packet.Pack p = (p', Ok tt) -> Packed p' = true -> send now net p l = send now net p' l.
Proof. intros H1 H2 H3. unfold send. by rewrite H1, H2, H3. Qed.

Lemma signalling_length discovery nextHop l :
  length (signallingBytes discovery nextHop l) = 0%nat \/ length (signallingBytes discovery nextHop l) = 3%nat.
Proof. unfold signallingBytes. destruct discovery; [right|by left]. cbn [negb]. by rewrite length_drop, be_enc_length. Qed.

Lemma NewLink_made rnd1 rnd2 hops firstHop dest a b :
  match dest with Some d => DType d = DestinationSingle | None => True end ->
  rnd1 32%nat = Ok a -> length a = 32%nat -> rnd2 32%nat = Ok b -> length b = 32%nat ->
  exists l, NewLink rnd1 rnd2 hops firstHop dest = Ok l /\
    destination l = dest /\ linitiator l = bool_decide (is_Some dest) /\ lstatus l = LinkPending /\
    mode l = LinkModeAES256CBC /\ lprv l = a /\ pubBytes l = x_public a /\ lsigPrv l = Some b /\ sigPubBytes l = ed_public b /\
    attachedInterface l = None.
Proof.
  intros Hd Ea La Eb Lb. unfold NewLink, GenerateX25519PrivateKey, GenerateEd25519PrivateKey, generate_key.
  assert (match dest with
    | Some d => if negb (DType d =? DestinationSingle) then Err ErrNotSingle else Ok tt
    | None => Ok tt end = Ok tt) as ->.
  { destruct dest as [d|]; [|done]. by rewrite Hd. }
  cbn [mbind res_bind]. rewrite Ea, Eb, !key_of_bytes_ok by done. cbn [map_err mbind res_bind].
  eexists. split; [done|]. by split_and!.
Qed.

Lemma TruncatedHash_length x : length (TruncatedHash x) = dstLen.
Proof. unfold TruncatedHash, FullHash. by rewrite length_take, sha256_length. Qed.

(** A link request reaches the responder. *)
Lemma request_sent now rnd sgn hops firstHop l d :
  linitiator l = true -> destination l = Some d -> lstatus l = LinkPending -> attachedInterface l = None ->
  DType d = DestinationSingle -> length (DHash d) = dstLen ->
  length (pubBytes l) = 32%nat -> length (sigPubBytes l) = 32%nat -> (length sgn <= 3)%nat ->
  exists l1 p, Establish now rnd true sgn hops firstHop l = (l1, [LRegister; LSend None p], Ok tt) /\
    (destination l1, linitiator l1, mode l1, lprv l1, peerPub l1, token l1, remoteIdentity l1, lstatus l1) =
    (destination l, linitiator l, mode l, lprv l, peerPub l, token l, remoteIdentity l, lstatus l) /\
    length (linkID l1) = dstLen /\ (exists q, relayed p q) /\
    forall q, relayed p q -> Packet.Data q = pubBytes l ++ sigPubBytes l ++ sgn /\ LinkIDFromLR q = Ok (linkID l1).
Proof.
  intros Hi Hd Hs Ha Ht Hh Lp Ls Lg. unfold Establish. rewrite Hi, Hd. cbn [negb].
  set (r := link_request rnd sgn d l).
  assert (wire_ok r (packet_view true rnd None d)) as W.
  { unfold wire_ok, small_flags, r, link_request, NewPacketWithTransport. cbn [packet_view Impl].
    destruct (latestRatchetID d); cbn; rewrite Ht; (split; [done|]);
      (split; [unfold DestinationSingle, Header1, FlagUnset, PacketLinkRequest; lia|]);
      (split; [unfold is_byte, ContextNone; lia|]); (split; [unfold PathfinderM; lia|]); done. }
  assert (HeaderType r = Header1 /\ shouldEncrypt r = false /\ Packet.Data r = pubBytes l ++ sigPubBytes l ++ sgn /\
    PMTU r = 500 /\ Sent r = false /\ Hops r = 0 /\ transport r = true) as (R1 & R2 & R3 & R4 & R5 & R6 & R7).
  { unfold r, link_request, NewPacketWithTransport. cbn [packet_view Impl]. by destruct (latestRatchetID d). }
  destruct (Pack_header1 r (packet_view true rnd None d) (Packet.Data r) W R1) as
    (p & Ep & P1 & P2 & P3 & P4 & P5 & P6 & P7 & P8 & _).
  { by rewrite R2. } { rewrite R3, R4. unfold zlen. rewrite !length_app. lia. }
  clearbody r. rewrite Ep.
  destruct (Pack_ok_inv r _ p W Ep) as (Eraw & _).
  assert (exists h, GetHashablePart p = Ok h /\ length h = 18 + length (Packet.Data p))%nat as (h & Eh & Lh).
  { unfold GetHashablePart. rewrite P3. change (if Header1 =? Header2 then _ else _) with 2%nat.
    assert (length (Raw p) = 19 + length (Packet.Data p))%nat as Lr.
    { rewrite Eraw, raw_of_length. unfold wire_tid. rewrite R1, P1, P2. cbn. rewrite Hh. unfold dstLen. lia. }
    destruct (Raw p) as [|x raw]; [done|]. rewrite (proj2 (Nat.ltb_ge _ _)) by lia. eexists. split; [done|].
    cbn [length]. rewrite length_drop. cbn [length] in *. lia. }
  assert (LinkIDFromLR p = Ok (TruncatedHash (take (length h - (length (Packet.Data p) - 64)) h))) as Eid.
  { unfold LinkIDFromLR. rewrite Eh. cbn [mbind res_bind]. cbv zeta. change (Z.to_nat LinkECPubSize) with 64%nat.
    rewrite (proj2 (Nat.ltb_ge _ _)) by lia. done. }
  rewrite Eid. set (id := TruncatedHash _) in *.
  set (l0 := l <| linkID := id |> <| requestTime := now |> <| establishmentTimeout := _ |>).
  destruct (send_ready now p (packet_view true rnd None d) l0) as (l1 & p' & -> & [Q1 Q2] & Q3); try done; try congruence.
  { change (lstatus l0) with (lstatus l). rewrite Hs. discriminate. } { by exists h. }
  change (attachedInterface l0) with (attachedInterface l). rewrite Ha.
  exists l1, p'. split; [done|]. unfold core in Q1. change (lstatus l0) with (lstatus l) in Q2. injection Q1 as C1 C2 C3 C4 C5 C6 C7 C8.
  split; [rewrite C1, C2, C3, C4, C6, C7, C8, Q2; cbn; congruence|]. rewrite C5. split; [apply TruncatedHash_length|].
  split; [by eapply relayed_direct|].
  intros q Hq. apply (relayed_raw p) in Hq; [|done].
  destruct (relayed_packet r _ p q W Ep R1 P3 Hq) as (D1 & _ & _ & D4).
  split; [by rewrite D1, P1, R3|]. change (linkID l0) with id. rewrite <- Eid. unfold LinkIDFromLR.
  by rewrite D4, D1, P1, P2.
Qed.

(** ** Packets of a link *)

Lemma link_packet_wire rnd l c t data :
  length (linkID l) = dstLen -> is_byte c -> 0 <= t < 4 ->
  let p := link_packet rnd l c t data in
  wire_ok p (link_view rnd l) /\ HeaderType p = Header1 /\ Packet.Data p = data /\ PMTU p = 500 /\ Sent p = false /\
  Hops p = 0 /\ transport p = true /\ Packed p = false /\ Context p = c /\ PacketType p = t.
Proof.
  intros Hl Hc Ht. cbv zeta. split; [|by split_and!]. unfold wire_ok, small_flags, link_packet. cbn.
  split; [done|]. unfold DestinationLink, Header1, FlagUnset, PathfinderM. split_and!; try lia; done.
Qed.

(** A link packet, sent on an open link and received by the other end. *)
Lemma link_packet_sent now rnd l c t data ct :
  lstatus l <> LinkClosed -> length (linkID l) = dstLen -> is_byte c -> 0 <= t < 4 ->
  (if shouldEncrypt (link_packet rnd l c t data) then LEncrypt rnd l data = Ok ct else data = ct) -> zlen ct <= 481 ->
  exists l' p, send now true (link_packet rnd l c t data) l = (l', [LSend (attachedInterface l) p], Ok tt) /\ quiet l l' /\
    (exists q, relayed p q) /\ forall q, relayed p q -> Packet.Data q = ct /\ Context q = c /\ PacketType q = t.
Proof.
  intros Hs Hl Hc Ht Hct Hz. destruct (link_packet_wire rnd l c t data Hl Hc Ht) as (W & R1 & R2 & R3 & R4 & R5 & R6 & R7 & R8 & R9).
  set (r := link_packet rnd l c t data) in *.
  destruct (Pack_header1 r (link_view rnd l) ct W R1) as (p & Ep & P1 & P2 & P3 & P4 & P5 & P6 & P7 & P8 & _).
  { rewrite R2. destruct (shouldEncrypt r); [|done]. cbn [link_view DEncrypt]. by rewrite Hct. } { lia. }
  clearbody r. rewrite (send_unpacked now true r p l R7 Ep P4).
  destruct (Pack_ok_inv r _ p W Ep) as (Eraw & _).
  destruct (send_ready now p (link_view rnd l) l) as (l' & p' & E & Q & Er); try done; try congruence.
  { unfold not_closed. cbn. by destruct (Z.eqb_spec (lstatus l) LinkClosed). }
  { unfold GetHashablePart. rewrite Eraw, P3. unfold raw_of. cbn [app]. rewrite (proj2 (Nat.ltb_ge _ _)); [by eexists|].
    change (if Header1 =? Header2 then _ else _) with 2%nat. cbn [length]. lia. }
  exists l', p'. split; [done|]. split; [done|]. split; [by eapply relayed_direct|]. intros q Hq. apply (relayed_raw p) in Hq; [|done].
  destruct (relayed_packet r _ p q W Ep R1 P3 Hq) as (D1 & D2 & D3 & _). split_and!; congruence.
Qed.

(** ** The responder's proof *)

Definition proof_data (s id pub sgn : bytes) : bytes := ed_sign s (proof_signed id pub (ed_public s) sgn) ++ pub ++ sgn.

Lemma request_accepted now rnd3 rnd4 rnd sgn d i k s iface cb q a b a' b' rest id :
  dest_ok d i k s -> length a = 32%nat -> rnd3 32%nat = Ok a' -> length a' = 32%nat -> rnd4 32%nat = Ok b' -> length b' = 32%nat ->
  Packet.Data q = x_public a ++ ed_public b ++ rest -> LinkIDFromLR q = Ok id -> length id = dstLen -> (length sgn <= 3)%nat ->
  exists shared t r p, x_exchange a (x_public a') = Ok shared /\ session_token shared id t /\
    ValidateRequest now rnd3 rnd4 rnd true sgn d iface cb q = (Some r, [LRegister; LSend iface p], Ok tt) /\
    (linkID r, lstatus r, linitiator r, token r, destination r) = (id, LinkHandshake, false, Some t, Some d) /\
    (exists q, relayed p q) /\ forall q, relayed p q -> Packet.Data q = proof_data s id (x_public a') sgn /\ Context q = ContextLrproof.
Proof.
  intros D La Ea La' Eb Lb' Hdata Hid Lid Lsgn.
  destruct (x_agree a a' La La') as (shared & X1 & X2 & Lsh).
  destruct (session_token_exists shared id Lsh) as [t Ht]. pose proof (dk_keys _ _ _ _ D) as K.
  unfold ValidateRequest. cbv zeta. rewrite (proj2 (Z.ltb_ge _ _)).
  2: { rewrite Hdata. unfold zlen, LinkECPubSize. rewrite !length_app, x_public_length, ed_public_length. lia. }
  destruct (NewLink_made rnd3 rnd4 0 0 None a' b' I Ea La' Eb Lb') as (l & -> & N1 & N2 & N3 & N4 & N5 & N6 & N7 & N8 & N9).
  rewrite (dk_identity _ _ _ _ D), (kp_sigPub _ _ _ K). cbn [bool_decide decide_rel decide option_eq_dec].
  rewrite bool_decide_false by done.
  assert (take 32 (Packet.Data q) = x_public a) as -> by (rewrite Hdata; by rewrite take_app_length' by (by rewrite x_public_length)).
  assert (slice 32 64 (Packet.Data q) = ed_public b) as ->.
  { rewrite Hdata. apply slice_app_mid; by rewrite ?x_public_length, ?ed_public_length. }
  rewrite LoadPeer_ok by (by rewrite ?x_public_length, ?ed_public_length). rewrite Hid.
  set (l1 := responder_link d iface cb l <| peerPub := _ |> <| peerSigPub := _ |> <| linkID := _ |> <| establishmentTimeout := _ |>).
  assert (linkID l1 = id) as I1 by done. assert (lprv l1 = a') as I2 by done.
  destruct (handshake_ok l1 (x_public a) shared t) as [key ->]; try done; try congruence.
  set (l2 := _ <| requestTime := now |> <| lastInbound := now |> <| establishmentCost := _ |>).
  unfold Prove. change (destination l2) with (Some d). cbv iota. rewrite (dk_identity _ _ _ _ D). unfold ISign.
  assert (sigPubBytes l2 = ed_public s) as ->.
  { change (sigPubBytes l2) with (match identity d with Some i => default [] (sigPub i) | None => sigPubBytes l end).
    by rewrite (dk_identity _ _ _ _ D), (kp_sigPub _ _ _ K). }
  assert (pubBytes l2 = x_public a') as -> by done. rewrite (kp_sigPrv _ _ _ K). cbn [map_err].
  change (linkID l2) with id. fold (proof_data s id (x_public a') sgn).
  destruct (link_packet_sent now rnd l2 ContextLrproof PacketProof (proof_data s id (x_public a') sgn) (proof_data s id (x_public a') sgn))
    as (r & p & E & [Q1 Q2] & Hex & Hq); try done.
  { unfold zlen, proof_data. rewrite !length_app, ed_sign_length, x_public_length. lia. }
  rewrite E. exists shared, t, r, p. split; [done|]. split; [done|]. split; [done|]. split; [|split; [done|intros q0 Hr; by apply Hq in Hr as (? & ? & _)]].
  unfold core in Q1. injection Q1 as C1 C2 C3 C4 C5 C6 C7 C8. rewrite C5, Q2, C2, C7, C1. done.
Qed.

Lemma proof_verifies l q d i s a sgn :
  destination l = Some d -> identity d = Some i -> (exists k, pub i = Some k /\ length k = 32%nat) -> sigPub i = Some (ed_public s) ->
  length a = 32%nat -> Packet.Data q = proof_data s (linkID l) a sgn -> length sgn = 0%nat \/ length sgn = 3%nat ->
  verifyProofSignatureLocked l q = true.
Proof.
  intros Hd Hi (k & Hk & Lk) Hs La Hdata Lsgn. unfold verifyProofSignatureLocked. rewrite Hd, Hi, Hdata. unfold proof_data.
  set (sg := ed_sign s _). assert (length sg = 64%nat) as Lsg by apply ed_sign_length.
  rewrite (proj2 (Nat.ltb_ge _ _)) by (rewrite !length_app; lia). cbv zeta.
  assert (GetPublicKey i = k ++ ed_public s ++ []) as -> by (unfold GetPublicKey; by rewrite Hk, Hs, app_nil_r).
  rewrite (slice_app_mid k) by (rewrite ?ed_public_length; lia). rewrite (slice_app_mid sg a) by lia.
  rewrite take_app_length' by done. unfold IVerify. rewrite Hs.
  assert ((if zlen (sg ++ a ++ sgn) =? 64 + 32 + LinkMTUSize then slice 96 99 (sg ++ a ++ sgn) else []) = sgn) as ->.
  { unfold zlen, LinkMTUSize. rewrite !length_app, Lsg, La. destruct Lsgn as [Ls|Ls]; rewrite Ls.
    - by destruct sgn.
    - rewrite (app_assoc sg a). replace ((sg ++ a) ++ sgn) with ((sg ++ a) ++ sgn ++ []) by by rewrite app_nil_r.
      apply slice_app_mid; rewrite ?length_app; lia. }
  apply ed_verify_sign.
Qed.

Lemma packed_float b : 0 <= b < 2 ^ 64 ->
  exists m, Msgpack.Pack (VFloat64 b) = (m, None) /\ Msgpack.Unpack m = Ok (VFloat64 b) /\ bytes_ok m /\ zlen m = 9.
Proof.
  intros Hb. destruct (Unpack_Pack (VFloat64 b) (pk_float64 b Hb)) as [_ Hu].
  exists (float64Val :: be_enc 8 b). split; [done|]. split; [exact Hu|].
  split; [|by rewrite zlen_cons; unfold zlen; rewrite be_enc_length]. constructor; [done|apply be_enc_ok].
Qed.

(** ** Activation of both ends *)

(** The round-trip time leaves an activated initiator. *)
Lemma rtt_sent now rnd l key t iv :
  lstatus l = LinkActive -> length (linkID l) = dstLen -> token l = Some t -> NewToken key = Ok t ->
  rnd 16%nat = Ok iv -> length iv = 16%nat -> bytes_ok iv ->
  exists r l' p rtt, rtt_packet rnd l = Ok r /\ send now true r l = (l', [LSend (attachedInterface l) p], Ok tt) /\ quiet l l' /\
    (exists q, relayed p q) /\ forall q, relayed p q -> Context q = ContextLrrtt /\
      exists m, Decrypt t (Packet.Data q) = Ok m /\ Msgpack.Unpack m = Ok (VFloat64 rtt).
Proof.
  intros Hs Lid Ht Htk Er Liv Biv.
  pose proof (float_bits_range (lrtt l)) as Hr. unfold rtt_packet. set (rtt := float_bits (lrtt l)) in *. clearbody rtt.
  destruct (packed_float rtt Hr) as (m & Em & Um & Bm & Lm). rewrite Em.
  destruct (Token_opens rnd key t iv m Htk Er Liv Biv Bm) as (ct & Ec & Dc & Lc).
  destruct (link_packet_sent now rnd l ContextLrrtt PacketData m ct) as (l' & p & Es & Q & Hex & Hq); [|done|done|done| | |].
  { rewrite Hs. discriminate. }
  { change (shouldEncrypt _) with true. cbv iota. unfold LEncrypt. by rewrite Ht, Ec. }
  { rewrite Lc, Lm. done. }
  eexists _, _, _, _. split; [reflexivity|]. split; [exact Es|]. split; [done|]. split; [done|].
  intros q Hrel. apply Hq in Hrel as (-> & -> & _). split; [done|]. by exists m.
Qed.

Lemma activate_attached now iface p l : attachedInterface (activate_initiator now iface p l) = iface.
Proof. unfold activate_initiator, set_rate. cbv zeta. by case_match. Qed.

Lemma proof_accepted now rnd req bh iface q l d i s a sgn shared t iv :
  lstatus l = LinkPending -> mode l = LinkModeAES256CBC -> length (linkID l) = dstLen ->
  destination l = Some d -> identity d = Some i -> (exists k, pub i = Some k /\ length k = 32%nat) -> sigPub i = Some (ed_public s) ->
  Context q = ContextLrproof -> Packet.Data q = proof_data s (linkID l) (x_public a) sgn ->
  length sgn = 0%nat \/ length sgn = 3%nat ->
  x_exchange (lprv l) (x_public a) = Ok shared -> session_token shared (linkID l) t ->
  rnd 16%nat = Ok iv -> length iv = 16%nat -> bytes_ok iv ->
  exists l2 p rtt, receive now rnd true req bh iface q l =
      (l2, LActivate :: LSend iface p :: (if cbEstablished (callbacks l2) then [LEstablished] else []), Ok tt) /\
    (lstatus l2, token l2, linkID l2, linitiator l2) = (LinkActive, Some t, linkID l, linitiator l) /\
    (exists q, relayed p q) /\ forall q, relayed p q -> Context q = ContextLrrtt /\
      exists m, Decrypt t (Packet.Data q) = Ok m /\ Msgpack.Unpack m = Ok (VFloat64 rtt).
Proof.
  intros Hs Hm Lid Hd Hi Hk Hsp Hc Hdata Lsgn Hx Ht Er Liv Biv.
  destruct (count_inbound_core now q l) as [C S]. unfold receive. cbv zeta. rewrite Hc.
  change (ContextLrproof =? ContextLrproof) with true. cbv iota.
  set (l0 := count_inbound now q l) in *. clearbody l0. unfold core in C. injection C as C1 C2 C3 C4 C5 C6 C7 C8.
  assert (lstatus l0 = LinkPending) as Hs0 by (destruct S as [S|[S _]]; [congruence|by rewrite S in Hs]).
  assert (verifyProofSignatureLocked l0 q = true) as Hv.
  { apply (proof_verifies l0 q d i s (x_public a) sgn); try done; [congruence|apply x_public_length|by rewrite C5]. }
  destruct Hk as (k & Hk & Lk).
  destruct (ValidateProof_keys now rnd true iface q l0 d i k (ed_public s) (x_public a) (ed_sign s (proof_signed (linkID l) (x_public a) (ed_public s) sgn)) shared t)
    as (l1 & F & D3 & _ & E); try congruence.
  { apply ed_public_length. } { by exists sgn. } { apply ed_sign_length. } { apply x_public_length. }
  rewrite E, Hv. cbn [negb]. clear E. unfold frame in F. injection F as _ D2 _ _ D1 _.
  destruct (activate_session now iface q l1) as [A1 A2]. pose proof (activate_attached now iface q l1) as A3.
  set (l2 := activate_initiator now iface q l1) in *. clearbody l2.
  unfold core in A1. injection A1 as _ A5 _ _ A8 _ A10 _. destruct Ht as (dk & Hdk & Htk).
  destruct (rtt_sent now rnd l2 dk t iv) as (r & l3 & p & rtt & -> & -> & [Q1 Q2] & Hex & Hq); try done; [congruence..|].
  exists l3, p, rtt. rewrite A3. split; [done|].
  unfold core in Q1. injection Q1 as Q11 Q12 Q13 Q14 Q15 Q16 Q17 Q18. split; [congruence|done].
Qed.

Lemma rtt_accepted now rnd net req bh iface q l t m rtt :
  lstatus l = LinkHandshake -> linitiator l = false -> token l = Some t -> Context q = ContextLrrtt ->
  Decrypt t (Packet.Data q) = Ok m -> Msgpack.Unpack m = Ok (VFloat64 rtt) ->
  exists l2, receive now rnd net req bh iface q l =
      (l2, LActivate :: (if cbEstablished (callbacks l2) then [LEstablished] else []), Ok tt) /\
    (lstatus l2, token l2, linkID l2) = (LinkActive, Some t, linkID l).
Proof.
  intros Hs Hi Ht Hc HD HU. destruct (count_inbound_core now q l) as [C S]. unfold receive. cbv zeta. rewrite Hc.
  change (ContextLrrtt =? ContextLrproof) with false. change (ContextLrrtt =? ContextLrrtt) with true. cbv iota.
  set (l0 := count_inbound now q l) in *. clearbody l0. unfold core in C. injection C as C1 C2 C3 C4 C5 C6 C7 C8.
  assert (lstatus l0 = LinkHandshake) as Hs0 by (destruct S as [S|[S _]]; [congruence|by rewrite S in Hs]).
  rewrite C2, Hi. cbn [negb]. unfold HandleRTT, HandleRTT_check, LDecrypt. rewrite Hs0, C7, Ht, HD. cbn [orb map_err Z.eqb LinkHandshake Pos.eqb].
  rewrite HU. cbn [numericValue].
  set (ms := Seconds _). destruct (finish_session now q ms (float_of_bits64 rtt) l0) as (F1 & _ & F3).
  assert (HandleRTT_finish now q ms (float_of_bits64 rtt) l0 =
    ((HandleRTT_finish now q ms (float_of_bits64 rtt) l0).1,
     LActivate :: if cbEstablished (callbacks (HandleRTT_finish now q ms (float_of_bits64 rtt) l0).1) then [LEstablished] else [])) as E by done.
  rewrite E. set (l2 := (HandleRTT_finish _ _ _ _ _).1) in *. clearbody l2. exists l2. split; [done|].
  unfold session in F1. congruence.
Qed.

(** C2: the link handshake completes: an initiator that knows the public key
    of a destination sends a request, the responder that owns the destination
    accepts it and answers with a proof, the proof activates the initiator,
    and the round-trip time it sends activates the responder; both ends then
    have one link ID and one session token.  Each message may be relayed with
    any hop count, header type and transport ID, and arrives at least when it
    is not relayed. *)
Theorem link_handshake_completes d i k s d' i' rnd1 rnd2 rnd3 rnd4 rnd a b a' b' iv sgn sgn' hops firstHop hops' firstHop' now1 now2 now3 now4 :
  dest_ok d i k s ->
  identity d' = Some i' -> pub i' = pub i -> sigPub i' = sigPub i -> DHash d' = DHash d -> DType d' = DestinationSingle ->
  rnd1 32%nat = Ok a -> length a = 32%nat -> rnd2 32%nat = Ok b -> length b = 32%nat ->
  rnd3 32%nat = Ok a' -> length a' = 32%nat -> rnd4 32%nat = Ok b' -> length b' = 32%nat ->
  rnd 16%nat = Ok iv -> length iv = 16%nat -> bytes_ok iv ->
  length sgn = 0%nat \/ length sgn = 3%nat -> length sgn' = 0%nat \/ length sgn' = 3%nat ->
  exists l0 l1 p1, NewLink rnd1 rnd2 hops firstHop (Some d') = Ok l0 /\
    Establish now1 rnd true sgn hops' firstHop' l0 = (l1, [LRegister; LSend None p1], Ok tt) /\ (exists q1, relayed p1 q1) /\
  forall q1 iface cb, relayed p1 q1 ->
  exists r1 p2, ValidateRequest now2 rnd3 rnd4 rnd true sgn' d iface cb q1 = (Some r1, [LRegister; LSend iface p2], Ok tt) /\
    (exists q2, relayed p2 q2) /\
  forall q2 req bh iface', relayed p2 q2 ->
  exists l2 p3, receive now3 rnd true req bh iface' q2 l1 =
      (l2, LActivate :: LSend iface' p3 :: (if cbEstablished (callbacks l2) then [LEstablished] else []), Ok tt) /\
    (exists q3, relayed p3 q3) /\
  forall q3 net req bh iface'', relayed p3 q3 ->
  exists r2 t, receive now4 rnd net req bh iface'' q3 r1 =
      (r2, LActivate :: (if cbEstablished (callbacks r2) then [LEstablished] else []), Ok tt) /\
    (lstatus l2, lstatus r2) = (LinkActive, LinkActive) /\ linkID l2 = linkID r2 /\ token l2 = Some t /\ token r2 = Some t.
Proof.
  intros D Hi' Hpub Hsig Hh Ht E1 L1 E2 L2 E3 L3 E4 L4 Er Liv Biv Ls Ls'. pose proof (dk_keys _ _ _ _ D) as K.
  rewrite (kp_sigPub _ _ _ K) in Hsig.
  destruct (NewLink_made rnd1 rnd2 hops firstHop (Some d') a b Ht E1 L1 E2 L2)
    as (l0 & EN & N1 & N2 & N3 & N4 & N5 & N6 & N7 & N8 & N9).
  assert (length (DHash d') = dstLen) as Lh by (rewrite Hh; by eapply DHash_length).
  destruct (request_sent now1 rnd sgn hops' firstHop' l0 d') as (l1 & p1 & EE & F & Lid & Hex1 & Hq1); try done.
  { by rewrite N6, x_public_length. } { by rewrite N8, ed_public_length. } { lia. }
  injection F as F1 F2 F3 F4 F5 F6 F7 F8. exists l0, l1, p1. split; [done|]. split; [done|]. split; [done|].
  intros q1 iface cb Hr1. destruct (Hq1 q1 Hr1) as [D1 D2]. rewrite N6, N8 in D1.
  destruct (request_accepted now2 rnd3 rnd4 rnd sgn' d i k s iface cb q1 a b a' b' sgn (linkID l1))
    as (shared & t & r1 & p2 & X & T & EV & G & Hex2 & Hq2); try done; [lia|].
  injection G as G1 G2 G3 G4 G5. exists r1, p2. split; [done|]. split; [done|].
  intros q2 req bh iface' Hr2. destruct (Hq2 q2 Hr2) as [D3 D4].
  destruct (proof_accepted now3 rnd req bh iface' q2 l1 d' i' s a' sgn' shared t iv)
    as (l2 & p3 & rtt & ER & H & Hex3 & Hq3); try done; try congruence.
  { exists (x_public k). rewrite Hpub, (kp_pub _ _ _ K), x_public_length. done. }
  injection H as H1 H2 H3 H4. exists l2, p3. split; [done|]. split; [done|].
  intros q3 net req3 bh3 iface'' Hr3. destruct (Hq3 q3 Hr3) as (C3 & m & HD & HU).
  destruct (rtt_accepted now4 rnd net req3 bh3 iface'' q3 r1 t m rtt) as (r2 & E5 & J); try done.
  injection J as J1 J2 J3. exists r2, t. split; [done|]. split_and!; congruence.
Qed.
End Handshake.

Section HandshakeWitness.
Import ToyCrypto ToyCurves ToyIdentity.

Lemma link_handshake_completes_witness : exists l0 l1 p1,
  NewLink rnd rnd 1 Second (Some home) = Ok l0 /\
  Establish (10 ^ 18) rnd true [] 1 Second l0 = (l1, [LRegister; LSend None p1], Ok tt).
Proof.
  destruct (link_handshake_completes home alice (seed 3) (seed 4) home alice rnd rnd rnd rnd rnd
    (seed 9) (seed 9) (seed 9) (seed 9) (replicate 16 9) [] [1; 2; 3] 1 Second 1 Second (10 ^ 18) (10 ^ 18 + 1) (10 ^ 18 + 2) (10 ^ 18 + 3))
    as (l0 & l1 & p1 & H1 & H2 & _); [exact home_ok|reflexivity..|solve_bytes|by left|by right|].
  exists l0, l1, p1. split; [exact H1|exact H2].
Defined.
End HandshakeWitness.
