(* ===== verification/Transport.v ===== *)
(** * The transport

    Models the routing core of [rns/transport.go]: the packet filter and the
    duplicate detection, the path table and how announces fill it, the
    forwarding of packets, link packets and proofs, the rebroadcast of
    announces with its rate limits and queues, and sending.

    The state is the record of the tables; maps are finite maps keyed by
    hashes.  An interface is a number; what the code asks an interface about
    itself is answered by [io], an argument.  Frames sent, deliveries to local
    destinations and links, held announces and callbacks are events.  An entry
    of a table is a pointer in Go; entries are updated in place and not shared
    between tables.  One operation reads the clock once. *)

From stdpp Require Import base tactics option list gmap.
From Stdlib Require Import ZArith Lia PrimFloat.
From S2P Require Import Prelude Clock Crypto Packet Channel Buffer Msgpack Resource Identity Link.
Local Open Scope Z_scope.
Local Open Scope go_scope.

(** ** Constants *)

Definition TransportBroadcast : Z := 0x00.
Definition TransportForward : Z := 0x01.
Definition ContextLinkProof : Z := 0xfd.
Definition ModeAccessPoint : Z := 0x03.
Definition ModeRoaming : Z := 0x04.
Definition ModeBoundary : Z := 0x05.
Definition ModeGateway : Z := 0x06.
Definition ModeInternal : Z := 0x07.
Definition DiscoverPathsFor : list Z := [ModeAccessPoint; ModeGateway; ModeRoaming; ModeInternal].
Definition BoundarySearchModes : list Z := [ModeBoundary; ModeGateway].
Definition ModeIn (mode : Z) (modes : list Z) : bool := existsb (Z.eqb mode) modes.
Definition TCData : Z := 0x00.
Definition TCAnnounce : Z := 0x01.
Definition TCPathRequest : Z := 0x02.
Definition TCIngressLimited : Z := 0x03.
Definition Minute : Z := 60 * Second.
Definition Hour : Z := 60 * Minute.
Definition pathfinderE : Z := 7 * 24 * Hour.
Definition apPathTime : Z := 24 * Hour.
Definition roamingPathTime : Z := 6 * Hour.
Definition pathfinderRetries : Z := 1.
Definition pathfinderGrace : Z := 5 * Second.
Definition pathfinderRandomWindow : Z := 500 * Millisecond.
Definition localRebroadcastsMax : Z := 2.
Definition maxRateTimestamps : Z := 16.
Definition announceCapDefault : float := 0.02%float.
Definition maxQueuedAnnounces : Z := 16384.
Definition queuedAnnounceLife : Z := 24 * Hour.
Definition packetHashRotateDefault : Z := 50000.
Definition reverseEntryTimeout : Z := 8 * Minute.
Definition transportLinkTimeout : Z := Duration_of_float (float_of_Z LinkKeepaliveMax * float_of_Z LinkStaleFactor * 1.25)%float.
Definition maxRandomBlobs : Z := 64.
Definition MaxReceipts : Z := 1024.
Definition maxAnnounceTimebaseSkew : Z := 24 * Hour.
Definition trafficTimeoutMinSeconds : float := 0.005%float.
Definition packetTimeoutPerHop : Z := 6 * Second.

(** ** Interfaces *)

Abbreviation Iface := nat.

(** What an interface says about itself. *)
Record IfaceInfo := mkIface {
  gravity : Z;
  ifMode : Z;
  bitrate : Z;
  isOut : bool;
  up : bool;
  isDetached : bool;
  spawnedLocalClient : bool;
  connectedToShared : bool;
  isLocalServer : bool;
  spawnedClients : list Iface;
  rateTarget : option Z;
  rateGrace : option Z;
  ratePenalty : option Z;
  announcesFromInternal : bool;
  announcesToInternal : option bool;
  ingressLimit : bool;
  ingressLimitPr : bool;
  egressLimitPr : bool;
  recursivePrs : bool;
  hardwareMTU : option Z;
  ifacSize : Z;
  (** [GetHash] of a local client interface. *)
  ifaceHash : option bytes;
  (** [interfaceHash]: the SHA-256 hash of its type and name, by which a path
      that is read from disk finds its interface. *)
  interfaceHash : bytes;
  (** [ApplyIFACOutbound] and [ApplyIFACInbound]; [None] is an error. *)
  ifacOut : bytes -> option bytes;
  ifacIn : bytes -> option bytes;
}.

(** ** Tables *)

Record PathEntry := mkPath {
  Timestamp : Z;
  NextHop : bytes;
  PHops : Z;
  Expires : Z;
  RandomBlobs : list bytes;
  PInterface : option Iface;
  PPacket : bytes;
  PPacketHash : bytes;
  Unresponsive : bool;
  ResponsiveState : Z;
  IfaceHash : bytes;
}.
#[global] Instance eta_PathEntry : Eta PathEntry := fun e =>
  mkPath (Timestamp e) (NextHop e) (PHops e) (Expires e) (RandomBlobs e) (PInterface e) (PPacket e) (PPacketHash e)
    (Unresponsive e) (ResponsiveState e) (IfaceHash e).

Record LinkEntry := mkLinkEntry {
  LTimestamp : Z;
  LNextHop : bytes;
  LOutboundInterface : option Iface;
  RemainingHops : Z;
  LReceivedInterface : Iface;
  LHops : Z;
  LDestinationHash : bytes;
  Validated : bool;
  ProofTimeout : Z;
}.
#[global] Instance eta_LinkEntry : Eta LinkEntry := fun e =>
  mkLinkEntry (LTimestamp e) (LNextHop e) (LOutboundInterface e) (RemainingHops e) (LReceivedInterface e) (LHops e)
    (LDestinationHash e) (Validated e) (ProofTimeout e).

Record ReverseEntry := mkReverse {
  ReceivedInterface : Iface;
  OutboundInterface : Iface;
  RTimestamp : Z;
}.

Record AnnounceEntry := mkAnnounceEntry {
  PacketRaw : bytes;
  SourceInterface : Iface;
  AHops : Z;
  NextRebroadcastAt : Z;
  Retries : Z;
  LocalRebroadcasts : Z;
}.
#[global] Instance eta_AnnounceEntry : Eta AnnounceEntry := fun e =>
  mkAnnounceEntry (PacketRaw e) (SourceInterface e) (AHops e) (NextRebroadcastAt e) (Retries e) (LocalRebroadcasts e).

Record AnnounceRateEntry := mkRate {
  Last : Z;
  RateViolations : Z;
  BlockedUntil : Z;
  Timestamps : list Z;
}.
#[global] Instance eta_AnnounceRateEntry : Eta AnnounceRateEntry := fun e =>
  mkRate (Last e) (RateViolations e) (BlockedUntil e) (Timestamps e).

Record announceQueueEntry := mkQueued {
  q_destinationHash : bytes;
  queuedAt : Z;
  q_hops : Z;
  emitted : Z;
  q_raw : bytes;
}.

(** [timer] is the instant the queue's timer fires at. *)
Record announceQueueState := mkQueueState {
  allowedAt : Z;
  q_queue : list announceQueueEntry;
  timer : option Z;
}.
#[global] Instance eta_announceQueueState : Eta announceQueueState := fun s =>
  mkQueueState (allowedAt s) (q_queue s) (timer s).

(** A known destination; [k_use] is 0 when it was never used, -1 when it is
    retained, and the instant of its last use otherwise. *)
Record KnownDestination := mkKnown {
  k_packetHash : bytes;
  k_publicKey : bytes;
  k_appData : bytes;
  k_use : Z;
}.
#[global] Instance eta_KnownDestination : Eta KnownDestination := fun k =>
  mkKnown (k_packetHash k) (k_publicKey k) (k_appData k) (k_use k).

Record AnnounceHandler := mkAnnounceHandler {
  AspectFilter : bytes;
  ReceivePathResponses : bool;
}.

Record Transport := mkTransport {
  tidentity : option bytes;
  enabled : bool;
  connectedToSharedInstance : bool;
  allowLinkPathRebalance : bool;
  localHopsDelta : Z;
  ifaces : list Iface;
  pathRequestHash : bytes;
  destinationsMap : gmap bytes DestinationT;
  activeLinks : list Link;
  pendingLinks : list Link;
  announceHandlers : list AnnounceHandler;
  packetHashes : gmap bytes Z;
  packetHashesPrev : gmap bytes Z;
  packetHashRotateAt : Z;
  pathTable : gmap bytes PathEntry;
  linkTable : gmap bytes LinkEntry;
  reverseTable : gmap bytes ReverseEntry;
  announceTable : gmap bytes AnnounceEntry;
  announceRateTable : gmap bytes AnnounceRateEntry;
  announceQueues : gmap Iface announceQueueState;
  pathRequests : gmap bytes Z;
  pendingPathRequests : gmap bytes (list Iface);
  inflightPathRequests : gmap bytes Z;
  discoveryPRTagsSet : gset bytes;
  discoveryPRTagsPrev : gset bytes;
  knownDestinations : gmap bytes KnownDestination;
  knownRatchets : gmap bytes bytes;
  receipts : list PacketReceipt;
}.
#[global] Instance eta_Transport : Eta Transport := fun t =>
  mkTransport (tidentity t) (enabled t) (connectedToSharedInstance t) (allowLinkPathRebalance t) (localHopsDelta t)
    (ifaces t) (pathRequestHash t) (destinationsMap t) (activeLinks t) (pendingLinks t) (announceHandlers t) (packetHashes t)
    (packetHashesPrev t) (packetHashRotateAt t) (pathTable t) (linkTable t) (reverseTable t) (announceTable t)
    (announceRateTable t) (announceQueues t) (pathRequests t) (pendingPathRequests t) (inflightPathRequests t)
    (discoveryPRTagsSet t) (discoveryPRTagsPrev t)    (knownDestinations t) (knownRatchets t) (receipts t).

Inductive tr_event :=
  | TSend (i : Iface) (raw : bytes)
  | TDeliver (dest : bytes) (p : Packet)
  | TLinkReceive (id : bytes) (p : Packet)
  | TLinkProof (id : bytes) (p : Packet)
  | TReceipt (ev : list receipt_event)
  | TViolation (i : Iface)
  | TIfacViolation (i : Iface)
  | TFilterHit (i : Iface)
  | TReceivedAnnounce (i : Iface) (size : Z)
  | THold (i : Iface) (raw : bytes) (hops : Z) (dest : bytes)
  | TReceivedPathRequest (i : Iface) (size : Z)
  | TRatchetFile (dest : bytes) (disk : option bytes)
  | TRediscover (dest : bytes)
  | TReleaseHeld (i : Iface) (dest : bytes)
  | TAnnounceHandler (n : nat) (dest : bytes) (i : Identity) (isPathResponse : bool).

Section WithHash.
Context `{Sh : Sha256} `{Cu : Curves}.

(** ** Duplicate detection *)

Definition packetHashSeenLocked (h : bytes) (t : Transport) : bool :=
  bool_decide (is_Some (packetHashes t !! h)) || bool_decide (is_Some (packetHashesPrev t !! h)).

Definition ForgetPacketHash (h : bytes) (t : Transport) : Transport :=
  t <| packetHashes ::= delete h |> <| packetHashesPrev ::= delete h |>.

Definition rotate_at (t : Transport) : Z :=
  if packetHashRotateAt t <=? 0 then packetHashRotateDefault else packetHashRotateAt t.

Definition seenOrRememberPacketHashLocked (h : bytes) (now : Z) (t : Transport) : Transport * bool :=
  if packetHashSeenLocked h t then (t, true)
  else
    let t := if rotate_at t <=? Z.of_nat (base.size (packetHashes t))
             then t <| packetHashesPrev := packetHashes t |> <| packetHashes := ∅ |> else t in
    (t <| packetHashes ::= <[h := now]> |>, false).

(** ** The packet filter *)

Definition filter_exempt (context : Z) : bool :=
  (context =? ContextKeepalive) || (context =? ContextResource) || (context =? ContextResourceReq) ||
  (context =? ContextResourcePrf) || (context =? ContextCacheRequest) || (context =? ContextChannel).

(** Whether the packet passes, and whether it counts as a violation. *)
Definition packetFilter (p : Packet) (t : Transport) : bool * bool :=
  if connectedToSharedInstance t then (true, false)
  else if negb (length (TransportID p) =? 0)%nat && negb (PacketType p =? PacketAnnounce) &&
          match tidentity t with Some h => negb (bytes_eqb (TransportID p) h) | None => false end
  then (false, false)
  else if filter_exempt (Context p) then (true, false)
  else if (DestinationType p =? DestinationPlain) || (DestinationType p =? DestinationGroup) then
    if negb (PacketType p =? PacketAnnounce) then
      if 1 <? Hops p then (false, true) else (true, false)
    else (false, true)
  else if negb (packetHashSeenLocked (PacketHash p) t) then (true, false)
  else if PacketType p =? PacketAnnounce then
    if DestinationType p =? DestinationSingle then (true, false) else (false, true)
  else (false, false).

(** ** Known destinations *)

Definition TRemember (packetHash dest publicKey appData : bytes) (t : Transport) : Transport :=
  let use := match knownDestinations t !! dest with Some k => k_use k | None => 0 end in
  t <| knownDestinations ::= <[dest := mkKnown packetHash publicKey appData use]> |>.

Definition TSetRatchet (dest ratchetPub : bytes) (t : Transport) : Transport :=
  if (length dest =? 0)%nat || (length ratchetPub =? 0)%nat then t
  else t <| knownRatchets ::= <[dest := ratchetPub]> |>.

Definition usedDestinationDataLocked (now : Z) (dest : bytes) (t : Transport) : Transport :=
  match knownDestinations t !! dest with
  | Some k => if k_use k <? 0 then t else t <| knownDestinations ::= <[dest := k <| k_use := now |>]> |>
  | None => t
  end.

(** The identity of a known public key; nil when it does not load. *)
Definition known_identity (k : KnownDestination) : option Identity :=
  match LoadPublicKey (k_publicKey k) zeroIdentity with
  | Ok i => Some (i <| AppData := k_appData k |>)
  | _ => None
  end.

(** [recallLocked] without the use mark; when several destinations belong to
    an identity hash, the order of the map decides.  A local destination
    without an identity is dereferenced. *)
Definition recallLocked (target : bytes) (t : Transport) : res pkt_err (option Identity) :=
  match knownDestinations t !! target with
  | Some k => Ok (known_identity k)
  | None =>
      match list_find (fun e => bytes_eqb target (TruncatedHash (k_publicKey e.2)) = true) (map_to_list (knownDestinations t)) with
      | Some (_, (_, k)) => Ok (known_identity k)
      | None =>
          match destinationsMap t !! target with
          | Some d =>
              match identity d with
              | Some i => Ok (match LoadPublicKey (GetPublicKey i) zeroIdentity with Ok i => Some i | _ => None end)
              | None => Panic
              end
          | None => Ok None
          end
      end
  end.

(** The effects of a validated announce. *)
Definition apply_announce (ev : list announce_effect) (t : Transport) : Transport :=
  foldl (fun t e => match e with
                    | Remember ph d pk app => TRemember ph d pk app t
                    | SetRatchet d r => TSetRatchet d r t
                    end) t ev.

(** ** Paths *)

Definition HopsTo (dest : bytes) (t : Transport) : Z :=
  match pathTable t !! dest with Some e => PHops e | None => PathfinderM end.
Definition HasPath (dest : bytes) (t : Transport) : bool := bool_decide (is_Some (pathTable t !! dest)).
Definition nextHopInterfaceLocked (dest : bytes) (t : Transport) : option Iface := pathTable t !! dest ≫= PInterface.

Definition mark_path (unresponsive : bool) (state : Z) (dest : bytes) (t : Transport) : Transport :=
  t <| pathTable ::= alter (fun e => e <| Unresponsive := unresponsive |> <| ResponsiveState := state |>) dest |>.
Definition MarkPathUnresponsive : bytes -> Transport -> Transport := mark_path true 2.
Definition MarkPathResponsive : bytes -> Transport -> Transport := mark_path false 1.
Definition MarkPathUnknownState : bytes -> Transport -> Transport := mark_path false 0.
Definition PathIsUnresponsive (dest : bytes) (t : Transport) : bool :=
  match pathTable t !! dest with Some e => Unresponsive e | None => false end.
Definition ExpirePath (dest : bytes) (t : Transport) : Transport := t <| pathTable ::= delete dest |>.

Definition InvalidatePath (dest : bytes) (t : Transport) : Transport * bool :=
  (t <| pathTable ::= delete dest |> <| knownDestinations ::= delete dest |> <| announceTable ::= delete dest |>
     <| pathRequests ::= delete dest |>,
   bool_decide (is_Some (pathTable t !! dest)) || bool_decide (is_Some (knownDestinations t !! dest))).

(** The removal of every path that [drop] selects, with what belongs to it. *)
Definition kept {A} (drop : PathEntry -> bool) (t : Transport) (m : gmap bytes A) : gmap bytes A :=
  filter (fun kv => match pathTable t !! kv.1 with Some e => negb (drop e) | None => true end = true) m.

Definition dropped (drop : PathEntry -> bool) (t : Transport) : Z :=
  Z.of_nat (base.size (filter (fun kv => drop kv.2 = true) (pathTable t))).

Definition invalidate_paths (drop : PathEntry -> bool) (t : Transport) : Transport * Z :=
  (t <| pathTable := kept drop t (pathTable t) |> <| knownDestinations := kept drop t (knownDestinations t) |>
     <| announceTable := kept drop t (announceTable t) |> <| pathRequests := kept drop t (pathRequests t) |>,
   dropped drop t).
Definition InvalidatePathsViaInterface (i : Iface) : Transport -> Transport * Z :=
  invalidate_paths (fun e => bool_decide (PInterface e = Some i)).
Definition InvalidatePathsViaNextHop (h : bytes) : Transport -> Transport * Z :=
  invalidate_paths (fun e => bytes_eqb (NextHop e) h).

Definition cullExpiredPaths (io : Iface -> IfaceInfo) (now : Z) (t : Transport) : Transport :=
  let drop e := (negb (IsZero (Expires e)) && After now (Expires e)) ||
                match PInterface e with Some i => isDetached (io i) | None => false end in
  t <| pathTable := kept drop t (pathTable t) |> <| announceTable := kept drop t (announceTable t) |>
    <| pathRequests := kept drop t (pathRequests t) |>.

(** Paths that were read from disk find their interfaces. *)
Definition findInterfaceByHash (io : Iface -> IfaceInfo) (hash : bytes) (t : Transport) : option Iface :=
  if (length hash =? 0)%nat then None else List.find (fun i => bytes_eqb (interfaceHash (io i)) hash) (ifaces t).

Definition attach (io : Iface -> IfaceInfo) (t : Transport) (e : PathEntry) : PathEntry :=
  match PInterface e with
  | Some i => e <| IfaceHash := interfaceHash (io i) |>
  | None => match findInterfaceByHash io (IfaceHash e) t with
            | Some i => e <| PInterface := Some i |>
            | None => e
            end
  end.

Definition resolvePathInterfacesLocked (io : Iface -> IfaceInfo) (t : Transport) : Transport :=
  t <| pathTable ::= fmap (attach io t) |>.

(** Paths whose interface does not exist are dropped, once there is one. *)
Definition prunePathEntriesWithoutInterfaceLocked (t : Transport) : Transport :=
  if (length (ifaces t) =? 0)%nat then t
  else t <| pathTable ::= filter (fun kv => is_Some (PInterface kv.2)) |>.

Definition pathExpiryForInterface (i : IfaceInfo) : Z :=
  if ifMode i =? ModeAccessPoint then apPathTime else if ifMode i =? ModeRoaming then roamingPathTime else pathfinderE.

(** ** The emission time of an announce *)

Definition blobStart : nat := Z.to_nat (IdentityKeySize / 8 + NameHashLength / 8).

Definition announceEmissionFromPacket (p : Packet) : Z :=
  if (length (Packet.Data p) <? blobStart + 10)%nat then 0
  else be_dec (slice (blobStart + 5) (blobStart + 10) (Packet.Data p)).

Definition randomBlobTimebase (blob : bytes) : Z := if (length blob <? 10)%nat then 0 else be_dec (slice 5 10 blob).

(** [now.Unix()]. *)
Definition Unix (now : Z) : Z := now / Second - 62135596800.

Definition plausibleAnnounceTimebase (tb now : Z) : bool :=
  negb (u64 (u64 (Unix now) + u64 (Z.quot maxAnnounceTimebaseSkew Second)) <? tb).

Definition timebaseFromRandomBlobs (now : Z) (blobs : list bytes) : Z :=
  foldl (fun tb b =>
    if (length b <? 10)%nat then tb
    else if negb (plausibleAnnounceTimebase (randomBlobTimebase b) now) then tb
    else if tb <? randomBlobTimebase b then randomBlobTimebase b else tb) 0 blobs.

Definition containsBlob (blobs : list bytes) (blob : bytes) : bool := existsb (fun b => bytes_eqb b blob) blobs.

(** The replay-protection blob of an announce. *)
Definition random_blob (p : Packet) : option bytes :=
  if (blobStart + 10 <=? length (Packet.Data p))%nat then Some (slice blobStart (blobStart + 10) (Packet.Data p)) else None.

Definition nextHopFromAnnounce (p : Packet) : option bytes :=
  if (0 <? length (TransportID p))%nat then Some (TransportID p)
  else if (0 <? length (DestinationHash p))%nat then Some (DestinationHash p) else None.

(** ** Announces *)

(** A rebroadcast of a queued announce, heard from another node. *)
Definition note_rebroadcast (now : Z) (p : Packet) (t : Transport) : Transport :=
  if (0 <? length (TransportID p))%nat && enabled t then
    match announceTable t !! DestinationHash p with
    | None => t
    | Some e =>
        let heard := Hops p - 1 =? AHops e in
        let e := if heard then e <| LocalRebroadcasts ::= Z.succ |> else e in
        let drop1 := heard && (0 <? Retries e) && (localRebroadcastsMax <=? LocalRebroadcasts e) in
        let drop2 := (Hops p - 1 =? AHops e + 1) && (0 <? Retries e) && Before now (NextRebroadcastAt e) in
        if drop1 || drop2 then t <| announceTable ::= delete (DestinationHash p) |>
        else t <| announceTable ::= <[DestinationHash p := e]> |>
    end
  else t.

(** Whether an announce replaces a path. *)
Definition should_replace (io : Iface -> IfaceInfo) (now : Z) (p : Packet) (i : Iface) (e : PathEntry) : bool :=
  let announceEmitted := announceEmissionFromPacket p in
  let pathTimebase := timebaseFromRandomBlobs now (RandomBlobs e) in
  let newBlob := match random_blob p with Some b => negb (containsBlob (RandomBlobs e) b) | None => false end in
  if Hops p <=? PHops e then
    if newBlob && (pathTimebase <? announceEmitted) then true
    else if announceEmitted =? pathTimebase then
      Unresponsive e || match PInterface e with Some j => gravity (io j) <? gravity (io i) | None => false end
    else false
  else if negb (Before now (Expires e)) then newBlob
  else if pathTimebase <? announceEmitted then newBlob
  else if announceEmitted =? pathTimebase then Unresponsive e
  else false.

(** The blobs after an accepted announce: the last [maxRandomBlobs]. *)
Definition add_blob (blob : option bytes) (blobs : list bytes) : list bytes :=
  match blob with
  | Some b =>
      if containsBlob blobs b then blobs
      else let blobs := blobs ++ [b] in drop (length blobs - Z.to_nat maxRandomBlobs) blobs
  | None => blobs
  end.

(** The path an announce teaches; [hash] is the packet hash. *)
Definition learned_path (io : Iface -> IfaceInfo) (now : Z) (p : Packet) (i : Iface) (nextHop hash : bytes)
    (blobs : list bytes) : PathEntry :=
  mkPath now nextHop (Hops p) (Add now (pathExpiryForInterface (io i))) blobs (Some i) (Raw p) hash false 0
    (interfaceHash (io i)).

(** The table, and whether the announce installed or replaced a path; no next
    hop ends the processing, which is [None]. *)
Definition update_path (io : Iface -> IfaceInfo) (now : Z) (p : Packet) (i : Iface) (t : Transport)
    : res pkt_err (option (Transport * bool)) :=
  let install blobs :=
    match nextHopFromAnnounce p with
    | None => Ok None
    | Some nextHop => h ← PGetHash p; Ok (Some (t <| pathTable ::= <[DestinationHash p := learned_path io now p i nextHop h blobs]> |>))
    end in
  match pathTable t !! DestinationHash p with
  | Some e =>
      if should_replace io now p i e
      then r ← install (add_blob (random_blob p) (RandomBlobs e)); Ok (match r with Some t => Some (t, true) | None => None end)
      else Ok (Some (t, false))
  | None =>
      r ← install (option_list (random_blob p));
      Ok (match r with
          | Some t => Some (t <| inflightPathRequests ::= delete (DestinationHash p) |>, true)
          | None => None
          end)
  end.

(** The announce rate of a destination on an interface with a target: the
    entry, and whether rebroadcasting is blocked. *)
Definition check_rate (io : Iface -> IfaceInfo) (now : Z) (i : Iface) (dest : bytes) (t : Transport) : Transport * bool :=
  match rateTarget (io i) with
  | None => (t, false)
  | Some target =>
      let grace := default 0 (rateGrace (io i)) in
      let penalty := default 0 (ratePenalty (io i)) in
      match announceRateTable t !! dest with
      | None => (t <| announceRateTable ::= <[dest := mkRate now 0 0 [now]]> |>, false)
      | Some r =>
          let ts := Timestamps r ++ [now] in
          let r := r <| Timestamps := drop (length ts - Z.to_nat maxRateTimestamps) ts |> in
          if After now (BlockedUntil r) then
            let r := if PrimFloat.ltb (Seconds (Sub now (Last r))) (float_of_Z target) then r <| RateViolations ::= Z.succ |>
                     else if 0 <? RateViolations r then r <| RateViolations ::= Z.pred |> else r in
            if grace <? RateViolations r then
              (t <| announceRateTable ::= <[dest := r <| BlockedUntil := Add (Last r)
                   (i64 (Duration_of_float (float_of_Z target + float_of_Z penalty) * Second)) |>]> |>, true)
            else (t <| announceRateTable ::= <[dest := r <| Last := now |>]> |>, false)
          else (t <| announceRateTable ::= <[dest := r]> |>, true)
      end
  end.

(** [raw] with its hop byte replaced. *)
Definition with_hops (hops : Z) (raw : bytes) : bytes :=
  match raw with f :: _ :: rest => f :: u8 hops :: rest | _ => raw end.

(** The queueing of an accepted announce for rebroadcast; [delay] is the random
    delay. *)
Definition queue_rebroadcast (io : Iface -> IfaceInfo) (now delay : Z) (p : Packet) (i : Iface) (t : Transport) : Transport :=
  let fromLocalClient := spawnedLocalClient (io i) in
  if (enabled t || fromLocalClient) && negb (Context p =? ContextPathResponse) then
    let '(t, blocked) := check_rate io now i (DestinationHash p) t in
    if blocked then t
    else if match announceTable t !! DestinationHash p with Some e => Hops p <=? AHops e | None => true end then
      t <| announceTable ::= <[DestinationHash p :=
        mkAnnounceEntry (with_hops (Hops p) (Raw p)) i (Hops p) (if fromLocalClient then now else Add now delay)
          (if fromLocalClient then pathfinderRetries else 0) 0]> |>
    else t
  else t.

(** A frame with a transport header that names [transportID]. *)
Definition header2_frame (p : Packet) (transportID : bytes) : bytes :=
  packFlags Header2 (ContextFlag p) TransportForward (DestinationType p) (PacketType p)
    :: u8 (Hops p) :: transportID ++ DestinationHash p ++ u8 (Context p) :: Packet.Data p.

Definition forwardAnnounceToLocalClients (io : Iface -> IfaceInfo) (p : Packet) (i : Iface) (t : Transport) : list tr_event :=
  match tidentity t with
  | None => []
  | Some h =>
      if (length h =? 0)%nat then []
      else map (fun c => TSend c (header2_frame p h)) (filter (fun c => c <> i) (mjoin (map (fun s => spawnedClients (io s)) (ifaces t))))
  end.

(** The announce handlers whose aspect filter the destination matches. *)
Definition run_handlers (p : Packet) (t : Transport) : list tr_event :=
  match recallLocked (DestinationHash p) t with
  | Ok (Some i) =>
      let isPathResponse := Context p =? ContextPathResponse in
      mjoin (imap (fun n h =>
        let matches := (length (AspectFilter h) =? 0)%nat ||
          (let '(app, aspects) := AppAndAspectsFromName (AspectFilter h) in
           bytes_eqb (DestinationHash p) (CalculateHash (Some i) app aspects)) in
        if matches && negb (isPathResponse && negb (ReceivePathResponses h))
        then [TAnnounceHandler n (DestinationHash p) i isPathResponse] else []) (announceHandlers t))
  | _ => []
  end.

Definition shouldHoldAnnounce (io : Iface -> IfaceInfo) (p : Packet) (i : Iface) (t : Transport) : bool :=
  negb (bool_decide (is_Some (pathTable t !! DestinationHash p)) ||
        bool_decide (is_Some (pendingPathRequests t !! DestinationHash p)) ||
        bool_decide (is_Some (pathRequests t !! DestinationHash p))) && ingressLimit (io i).

(** A panic inside is recovered: the announce is dropped. *)
Definition handleAnnounce (io : Iface -> IfaceInfo) (now delay : Z) (p : Packet) (i : Iface) (t : Transport)
    : Transport * list tr_event :=
  match ValidateAnnounce p with
  | (false, _) => (t, [TViolation i])
  | (true, effects) =>
      let t := apply_announce effects t in
      if bool_decide (is_Some (destinationsMap t !! DestinationHash p)) then (t, [])
      else
        let ev := [TReceivedAnnounce i (zlen (Raw p))] in
        if shouldHoldAnnounce io p i t then (t, ev ++ [THold i (Raw p) (Hops p) (DestinationHash p)])
        else
          let t := note_rebroadcast now p t in
          match update_path io now p i t with
          | Ok (Some (t, added)) =>
              if negb added then (t, ev)
              else
                let t := if bool_decide (is_Some (pathRequests t !! DestinationHash p))
                         then usedDestinationDataLocked now (DestinationHash p) t else t in
                let t := queue_rebroadcast io now delay p i t in
                (t, ev ++ forwardAnnounceToLocalClients io p i t ++ run_handlers p t)
          | _ => (t, ev)
          end
  end.
End WithHash.
