(* ===== verification/PathRequests.v ===== *)
(** * Path requests

    Models the path discovery of [rns/transport.go]: answering a request for a
    path from the local destinations or from the path table, relaying it, and
    handing responses to those who asked.  The answer of a local destination
    is the announce of [Identity.buildAnnouncePacket], whose surroundings
    (random bytes, the ratchet file) are the environment [Env]. *)

From stdpp Require Import base tactics option list gmap.
From Stdlib Require Import ZArith Lia PrimFloat.
From S2P Require Import Prelude Clock Crypto Packet Channel Buffer Msgpack Resource Identity Link Transport.
Local Open Scope Z_scope.
Local Open Scope go_scope.

Definition pathRequestMinInterval : Z := 20 * Second.
Definition pathRequestCullAfter : Z := 2 * pathRequestMinInterval.
Definition maxPRTags : Z := 32000.

(** "rnstransport", "path", "request". *)
Definition s_rnstransport : bytes := [114; 110; 115; 116; 114; 97; 110; 115; 112; 111; 114; 116].
Definition s_path : bytes := [112; 97; 116; 104].
Definition s_request : bytes := [114; 101; 113; 117; 101; 115; 116].

(** What a step of the transport takes from outside besides the interfaces and
    the clock: random bytes, a random delay, the ratchet files and the order in
    which maps are written to them, and the unused capacity of the buffer that
    holds the received frame. *)
Record Env := mkEnv {
  env_rnd : random_source;
  env_rndRatchet : random_source;
  env_delay : Z;
  env_disk : bytes -> option bytes;
  env_writable : bool;
  env_order : list (value * value) -> list (value * value);
  env_spare : nat;
}.

Section WithHash.
Context `{Sh : Sha256} `{Ci : BlockCipher} `{Cu : Curves}.

(** A frame sent through the access code of an interface. *)
Definition egress (io : Iface -> IfaceInfo) (i : Iface) (raw : bytes) : list tr_event :=
  match ifacOut (io i) raw with Some raw => [TSend i raw] | None => [] end.

(** Announces are rebuilt with this node as their next hop. *)
Definition reframeAnnounceForTransport (raw : bytes) (t : Transport) : bytes :=
  match tidentity t with
  | None => raw
  | Some h =>
      match Packet.Unpack (NewPacketFromRaw raw) with
      | (p, Ok tt) => if PacketType p =? PacketAnnounce then header2_frame p h else raw
      | _ => raw
      end
  end.

(** ** Answering *)

Definition request_tag (data : bytes) : bytes :=
  if (2 * dstLen <? length data)%nat then drop (2 * dstLen) data
  else if (dstLen <? length data)%nat then drop dstLen data else [].

Definition cullDiscoveryPRTagsLocked (t : Transport) : Transport :=
  if Z.of_nat (base.size (discoveryPRTagsSet t)) <=? maxPRTags then t
  else t <| discoveryPRTagsPrev := discoveryPRTagsSet t |> <| discoveryPRTagsSet := ∅ |>.

(** The announce of a local destination as a path response. *)
Definition answer_local (io : Iface -> IfaceInfo) (now : Z) (env : Env) (d : DestinationT) (i : Iface) (t : Transport)
    : res pkt_err (Transport * list tr_event) :=
  let '(d', disk, effects, r) :=
    buildAnnouncePacket (env_order env) (env_writable env) true (env_rnd env) (env_rndRatchet env) now (Unix now)
      None true d (env_disk env (DHash d)) in
  let t := apply_announce effects (t <| destinationsMap ::= <[DHash d := d']> |>) in
  let ev := [TRatchetFile (DHash d) disk] in
  match r with
  | Err _ => Ok (t, ev)
  | Panic => Panic
  | Ok p =>
      match Packet.Pack (p <| HeaderType := Header1 |> <| TransportType := TransportBroadcast |> <| TransportID := [] |>) with
      | (p, Ok tt) => Ok (t, ev ++ egress io i (Raw p))
      | (_, Err _) => Ok (t, ev)
      | (_, Panic) => Panic
      end
  end.

(** The cached announce [cached] of [target] with this node as its next hop. *)
Definition cached_response (h : bytes) (target : bytes) (e : PathEntry) (cached : Packet) : bytes :=
  packFlags Header2 (ContextFlag cached) TransportForward (DestinationType cached) PacketAnnounce
    :: u8 (PHops e) :: h ++ target ++ u8 ContextPathResponse :: Packet.Data cached.

Definition answer_cached (io : Iface -> IfaceInfo) (now : Z) (data : bytes) (h : bytes) (e : PathEntry) (i : Iface)
    (t : Transport) : res pkt_err (Transport * list tr_event) :=
  let target := take dstLen data in
  if (dstLen <? length data)%nat && (length (NextHop e) =? dstLen)%nat &&
     bytes_eqb (NextHop e) (slice dstLen (Nat.min (length data) (2 * dstLen)) data)
  then Ok (t, [])
  else match Packet.Unpack (zeroPacket <| Raw := PPacket e |>) with
       | (cached, Ok tt) =>
           if negb (bytes_eqb (DestinationHash cached) target) then Ok (t, [])
           else Ok (usedDestinationDataLocked now target t, egress io i (cached_response h target e cached))
       | (_, Err _) => Ok (t, [])
       | (_, Panic) => Panic
       end.

(** The transport, its events, and whether the request was consumed. *)
Definition handlePathRequest (io : Iface -> IfaceInfo) (now : Z) (env : Env) (data : bytes) (i : Iface) (t : Transport)
    : res pkt_err (Transport * list tr_event * bool) :=
  if (length data <? dstLen)%nat then Ok (t, [], false)
  else
    let target := take dstLen data in
    let tag := request_tag data in
    if (length tag =? 0)%nat then Ok (t, [TViolation i], true)
    else
      let ev := if (dstLen <? length tag)%nat then [TViolation i] else [] in
      let uniqueTag := target ++ take dstLen tag in
      if bool_decide (uniqueTag ∈ discoveryPRTagsSet t) || bool_decide (uniqueTag ∈ discoveryPRTagsPrev t)
      then Ok (t, ev, true)
      else
        let t := cullDiscoveryPRTagsLocked (t <| discoveryPRTagsSet ::= fun s => {[ uniqueTag ]} ∪ s |>) in
        if bool_decide (is_Some (inflightPathRequests t !! target)) then Ok (t, ev, true)
        else
          let answered (t : Transport) := t <| inflightPathRequests ::= delete target |> in
          let t := t <| inflightPathRequests ::= <[target := now]> |> in
          match destinationsMap t !! target with
          | Some d =>
              '(t, ev') ← answer_local io now env d i t;
              Ok (answered t, ev ++ ev', true)
          | None =>
              let cachedPath := if connectedToSharedInstance t then None else pathTable t !! target in
              let t := match cachedPath with
                       | Some e => match PInterface e with
                                   | Some j => if spawnedLocalClient (io j) then usedDestinationDataLocked now target t else t
                                   | None => t
                                   end
                       | None => t
                       end in
              match cachedPath, tidentity t with
              | Some e, Some h =>
                  if (0 <? length (PPacket e))%nat then
                    '(t, ev') ← answer_cached io now data h e i t;
                    Ok (answered t, ev ++ ev', true)
                  else Ok (t, ev, false)
              | _, _ => Ok (t, ev, false)
              end
          end.

(** ** Relaying *)

(** A packet for the destination of path requests; its random sources are not
    used, a plain destination has no keys. *)
Definition path_request_packet (env : Env) (data : bytes) : option Packet :=
  match NewDestination (env_rnd env) (env_rnd env) None DestinationOut DestinationPlain s_rnstransport [s_path; s_request] with
  | Ok d => Some ((NewPacket (packet_view true (env_rnd env) None d) data) <| TransportType := TransportBroadcast |>)
  | _ => None
  end.

Definition relay_request (env : Env) (data : bytes) : option bytes :=
  match path_request_packet env data with
  | Some p => match Packet.Pack p with (p, Ok tt) => Some (Raw p) | _ => None end
  | None => None
  end.

Definition local_clients (io : Iface -> IfaceInfo) (t : Transport) : list Iface :=
  filter (fun c => up (io c) = true) (mjoin (map (fun s => spawnedClients (io s)) (ifaces t))).

Definition queue_busy (now : Z) (o : Iface) (t : Transport) : bool :=
  match announceQueues t !! o with
  | Some s => negb (length (q_queue s) =? 0)%nat || Before now (allowedAt s)
  | None => false
  end.

(** Whether an unknown path is searched for, and the modes it is searched on. *)
Definition search_for_unknown (s : IfaceInfo) : bool * option (list Z) :=
  if recursivePrs s then (true, None)
  else if ModeIn (ifMode s) DiscoverPathsFor then (true, None)
  else if ifMode s =? ModeBoundary then (true, Some BoundarySearchModes)
  else (false, None).

Definition request_egress (io : Iface -> IfaceInfo) (now : Z) (modes : option (list Z)) (source : Iface) (t : Transport) : list Iface :=
  filter (fun o => o <> source /\
                   match modes with Some ms => ModeIn (ifMode (io o)) ms | None => true end = true /\
                   up (io o) = true /\ queue_busy now o t = false /\ egressLimitPr (io o) = false) (ifaces t).

Definition forwardPathRequest (io : Iface -> IfaceInfo) (now : Z) (env : Env) (data : bytes) (source : Iface) (t : Transport)
    : Transport * list tr_event :=
  if (length data <? dstLen)%nat then (t, [])
  else
    let target := take dstLen data in
    let local := spawnedLocalClient (io source) in
    if negb local && ingressLimitPr (io source) then (t, [])
    else
      let '(search, modes) := search_for_unknown (io source) in
      let clients := match relay_request env data with Some _ => local_clients io t | None => [] end in
      let relay := default [] (relay_request env data) in
      if negb local && negb search && negb (length clients =? 0)%nat
      then (t, mjoin (map (fun c => egress io c relay) clients))
      else
        let requesters := default [] (pendingPathRequests t !! target) in
        let t := if bool_decide (source ∈ requesters) then t
                 else t <| pendingPathRequests ::= <[target := requesters ++ [source]]> |> in
        match relay_request env data with
        | None => (t, [])
        | Some raw => (t, mjoin (map (fun o => egress io o raw) (request_egress io now modes source t)))
        end.

(** The requesters a path response is handed to, and the frames. *)
Definition response_targets (io : Iface -> IfaceInfo) (p : Packet) (source : Iface) (t : Transport) : list Iface :=
  filter (fun r => r <> source /\ up (io r) = true) (default [] (pendingPathRequests t !! DestinationHash p)).

Definition forwardPathResponseToRequesters (io : Iface -> IfaceInfo) (p : Packet) (source : Iface) (t : Transport)
    : list tr_event * bool :=
  let targets := response_targets io p source t in
  (mjoin (map (fun r => egress io r (reframeAnnounceForTransport (with_hops (Hops p) (Raw p)) t)) targets),
   negb (length targets =? 0)%nat).

Definition clearPendingPathRequesters (dest : bytes) (t : Transport) : Transport :=
  t <| pendingPathRequests ::= delete dest |>.

(** ** Requesting and forgetting *)

(** The packet of a request, and the state before it is sent. *)
Definition RequestPath_prepare (now : Z) (env : Env) (dest : bytes) (t : Transport)
    : Transport * list tr_event * option Packet :=
  let t := t <| pathRequests ::= <[dest := now]> |> in
  let ev := map (fun i => TReleaseHeld i dest) (ifaces t) in
  match env_rnd env (Z.to_nat (TruncatedHashLength / 8)) with
  | Ok r => (t, ev, path_request_packet env (dest ++ default [] (tidentity t) ++ TruncatedHash r))
  | _ => (t, ev, None)
  end.

Definition PathRequestPending (dest : bytes) (t : Transport) : bool := bool_decide (is_Some (pathRequests t !! dest)).

Definition cullPathRequests (io : Iface -> IfaceInfo) (now : Z) (t : Transport) : Transport :=
  t <| pathRequests ::= filter (fun kv => (Sub now kv.2 <=? pathRequestCullAfter) = true) |>
    <| inflightPathRequests ::= filter (fun kv => (Sub now kv.2 <=? pathRequestCullAfter) = true) |>
    <| pendingPathRequests ::= filter (fun kv => existsb (fun r => negb (isDetached (io r))) kv.2 = true) |>.
End WithHash.
