(* ===== verification/Forwarding.v ===== *)
(** * Inbound processing and forwarding

    Models the receive side of [rns/transport.go]: [inbound] (access codes,
    parsing, the filter, duplicate detection, classification),
    [processInboundPacket] (local delivery, forwarding along paths and links,
    proofs, announces) and the relaying of link proofs.  A panic is [Panic];
    a failing send leaves no trace in the state. *)

From stdpp Require Import base tactics option list gmap.
From Stdlib Require Import ZArith Lia PrimFloat.
From S2P Require Import Prelude Clock Crypto Packet Channel Buffer InboundQueues Msgpack Resource Identity Link Transport PathRequests.
Local Open Scope Z_scope.
Local Open Scope go_scope.

Definition noTrafficClass : Z := -1.

Definition tr_result : Type := res pkt_err (Transport * list tr_event).

(** [float64(now.UnixNano()) / 1e9]. *)
Definition UnixSeconds (now : Z) : float := (float_of_Z (i64 (now - 62135596800 * Second)) / 1e9)%float.

Section WithHash.
Context `{Sh : Sha256} `{Ci : BlockCipher} `{Cu : Curves}.

(** ** The disguise of hop counts *)

Definition mangleHops (raw : bytes) (hops : Z) (transportInsert : bool) (t : Transport) : bytes :=
  match raw with
  | f :: _ :: rest =>
      (if transportInsert then Z.lor f (u8 (Z.lor (Z.shiftl Header2 6) (Z.shiftl TransportForward 4))) else f)
        :: u8 hops :: (if transportInsert then default [] (tidentity t) else []) ++ rest
  | _ => raw
  end.

Definition instanceLocalLink (io : Iface -> IfaceInfo) (e : LinkEntry) : bool :=
  spawnedLocalClient (io (LReceivedInterface e)) &&
  match LOutboundInterface e with Some o => spawnedLocalClient (io o) | None => false end.

Definition proofForLocalClientLocked (io : Iface -> IfaceInfo) (p : Packet) (t : Transport) : bool :=
  match reverseTable t !! DestinationHash p with
  | Some e => spawnedLocalClient (io (ReceivedInterface e))
  | None => false
  end.

Definition forwardedHopByteLocked (p : Packet) (fromLocalClient localCase : bool) (t : Transport) : Z :=
  if negb fromLocalClient || localCase then Hops p
  else if negb (localHopsDelta t =? 0) then localHopsDelta t else Hops p.

Definition mangleForwardedRaw (raw : bytes) (fromLocalClient toLocalClient : bool) (t : Transport) : bytes :=
  if (localHopsDelta t =? 0) || negb fromLocalClient || toLocalClient then raw
  else mangleHops raw (localHopsDelta t) false t.

(** ** Forwarding along a path *)

Definition isForLocalClient (p : Packet) (t : Transport) : bool :=
  match pathTable t !! DestinationHash p with Some e => PHops e =? 0 | None => false end.

Definition isForLocalClientLink (io : Iface -> IfaceInfo) (p : Packet) (t : Transport) : bool :=
  match linkTable t !! DestinationHash p with
  | Some e => spawnedLocalClient (io (LReceivedInterface e)) ||
              match LOutboundInterface e with Some o => spawnedLocalClient (io o) | None => false end
  | None => false
  end.

Definition extraLinkProofTimeout (i : IfaceInfo) : Z :=
  if bitrate i <=? 0 then 0
  else Duration_of_float (float_of_Z Second * (1 / float_of_Z (bitrate i)) * 8 * float_of_Z MTU)%float.

(** The frame towards the next hop: the transport ID is replaced, or removed
    for the last hop. *)
Definition forwarded_raw (p : Packet) (e : PathEntry) (t : Transport) : bytes :=
  let stripped := Z.lor (Z.shiftl Header1 6) (Z.land (Flags p) 15) :: u8 (Hops p) :: drop (dstLen + 2) (Raw p) in
  if 1 <? PHops e then
    let n := take dstLen (NextHop e) in
    let raw := with_hops (Hops p) (Raw p) in
    take 2 raw ++ n ++ drop (2 + length n) raw
  else if PHops e =? 1 then stripped
  else if negb (localHopsDelta t =? 0) then stripped
  else with_hops (Hops p) (Raw p).

(** The link table entry of a link request, the reverse table entry of
    another packet. *)
Definition record_forward (io : Iface -> IfaceInfo) (now : Z) (p : Packet) (i : Iface) (e : PathEntry) (out : Iface)
    (t : Transport) : res pkt_err Transport :=
  if PacketType p =? PacketLinkRequest then
    let proofTimeout := extraLinkProofTimeout (io i) + Z.max 1 (PHops e) * establishmentTimeoutPerHop in
    linkID ← LinkIDFromLR p;
    Ok (t <| linkTable ::= <[linkID := mkLinkEntry now (NextHop e) (Some out) (PHops e) i (Hops p) (DestinationHash p)
                                         false (Add now proofTimeout)]> |>)
  else
    h ← GetTruncatedHash p;
    Ok (t <| reverseTable ::= <[h := mkReverse i out now]> |>).

(** The forwarding of a packet whose next hop is this node; [None] when no path
    is known. *)
Definition forward_path (io : Iface -> IfaceInfo) (now : Z) (p : Packet) (i : Iface) (t : Transport) : option tr_result :=
  match pathTable t !! DestinationHash p with
  | None => None
  | Some e =>
      match PInterface e with
      | None => Some (Ok (t, []))
      | Some out =>
          let toLocal := isForLocalClient p t || proofForLocalClientLocked io p t in
          Some (t' ← record_forward io now p i e out t;
                Ok (t', [TSend out (mangleForwardedRaw (forwarded_raw p e t) (spawnedLocalClient (io i)) toLocal t)]))
      end
  end.

(** ** Forwarding along a link *)

(** The interface opposite to the one a link packet arrived on, when its hop
    count is the one expected from there. *)
Definition link_direction (p : Packet) (i : Iface) (e : LinkEntry) : option Iface :=
  if bool_decide (LOutboundInterface e = Some (LReceivedInterface e)) then
    if (Hops p =? RemainingHops e) || (Hops p =? LHops e) then LOutboundInterface e else None
  else if bool_decide (Some i = LOutboundInterface e) then
    if Hops p =? RemainingHops e then Some (LReceivedInterface e) else None
  else if bool_decide (i = LReceivedInterface e) then
    if Hops p =? LHops e then LOutboundInterface e else None
  else None.

(** [None] when the packet is not one of a link transported here. *)
Definition forward_link (io : Iface -> IfaceInfo) (now : Z) (p : Packet) (i : Iface) (t : Transport)
    : option (Transport * list tr_event) :=
  if negb (PacketType p =? PacketLinkRequest) && negb (Context p =? ContextLrproof) then
    match linkTable t !! DestinationHash p with
    | None => None
    | Some e =>
        if negb (Validated e) then Some (t, [TViolation i])
        else match link_direction p i e with
             | None => None
             | Some out =>
                 Some (t <| linkTable ::= <[DestinationHash p := e <| LTimestamp := now |>]> |>,
                       [TSend out (with_hops (forwardedHopByteLocked p (spawnedLocalClient (io i)) (instanceLocalLink io e) t)
                                     (Raw p))])
             end
    end
  else None.

(** ** Proofs *)

Definition FindLink (id : bytes) (t : Transport) : option Link :=
  List.find (fun l => bytes_eqb (linkID l) id) (activeLinks t ++ pendingLinks t).

(** What [deliverLinkProof] does to the transport; the link's part is
    [Link.deliverLinkProof], which the event stands for. *)
Definition deliver_proof (p : Packet) (l : Link) (t : Transport) : Transport * list tr_event :=
  let t := if (lstatus l =? LinkPending) && negb (Hops p =? expectedHops l) && allowLinkPathRebalance t &&
              verifyProofSignatureLocked l p
           then match destination l with
                | Some d => t <| pathTable ::= alter (fun e => e <| PHops := Hops p |>) (DHash d) |>
                | None => t
                end
           else t in
  (t, [TLinkProof (linkID l) p]).

Definition validateRelayLinkProofLocked (p : Packet) (dest : bytes) (t : Transport) : res pkt_err bool :=
  let data := Packet.Data p in
  if (length data <? 64 + 32)%nat then Ok false
  else
    i ← recallLocked dest t;
    Ok match i with
       | None => false
       | Some i =>
           let sigBytes := if zlen data =? 64 + 32 + LinkMTUSize then slice 96 99 data else [] in
           IVerify i (take 64 data)
             (DestinationHash p ++ slice 64 96 data ++ slice 32 64 (GetPublicKey i) ++ sigBytes)
       end.

(** The entry after a re-balance: [None] when the proof's hop count differs,
    re-balancing is allowed and the signature does not verify. *)
Definition rebalance_entry (p : Packet) (e : LinkEntry) (t : Transport) : res pkt_err (option (LinkEntry * Transport)) :=
  if negb (Hops p =? RemainingHops e) && allowLinkPathRebalance t && negb (Validated e) then
    valid ← validateRelayLinkProofLocked p (LDestinationHash e) t;
    Ok (if valid : bool then
          let e := e <| RemainingHops := Hops p |> in
          Some (e, t <| linkTable ::= <[DestinationHash p := e]> |>
                     <| pathTable ::= alter (fun pe => pe <| PHops := Hops p |>) (LDestinationHash e) |>)
        else None)
  else Ok (Some (e, t)).

(** [None] when no link table entry exists. *)
Definition relayLinkProof (io : Iface -> IfaceInfo) (now : Z) (p : Packet) (i : Iface) (t : Transport) : option tr_result :=
  match linkTable t !! DestinationHash p with
  | None => None
  | Some e =>
      let forgotten := Ok (ForgetPacketHash (PacketHash p) t, []) in
      Some (
        if negb (bool_decide (Some i = LOutboundInterface e)) then forgotten
        else
          r ← rebalance_entry p e t;
          match r with
          | None => forgotten
          | Some (e, t) =>
              if negb (Hops p =? RemainingHops e) then Ok (ForgetPacketHash (PacketHash p) t, [])
              else
                valid ← validateRelayLinkProofLocked p (LDestinationHash e) t;
                if negb valid then Ok (t, [])
                else
                  let frame := with_hops (forwardedHopByteLocked p (spawnedLocalClient (io i)) (instanceLocalLink io e) t) (Raw p) in
                  let t := t <| linkTable ::= <[DestinationHash p := e <| Validated := true |>]> |> in
                  let t := if connectedToSharedInstance t then t else usedDestinationDataLocked now (LDestinationHash e) t in
                  Ok (t, [TSend (LReceivedInterface e) frame])
          end)
  end.

(** The receipts a proof proves leave the list. *)
Fixpoint match_receipts (proofHash : bytes) (p : Packet) (cap : nat) (now : float) (rs : list PacketReceipt)
    : res pkt_err (list PacketReceipt * list tr_event) :=
  match rs with
  | [] => Ok ([], [])
  | r :: rs =>
      v ← (if (0 <? length proofHash)%nat && negb (bytes_eqb (RTruncatedHash r) proofHash) then Ok (r, false, [])
           else ValidateProofPacket r (Packet.Data p) cap now);
      let '(r, validated, ev) := v in
      '(kept, evs) ← match_receipts proofHash p cap now rs;
      Ok (if validated : bool then (kept, TReceipt ev :: evs) else (r :: kept, evs))
  end.

Definition process_proof (io : Iface -> IfaceInfo) (now : Z) (env : Env) (p : Packet) (i : Iface) (t : Transport) : tr_result :=
  if Context p =? ContextLrproof then
    match relayLinkProof io now p i t with
    | Some r => r
    | None => match FindLink (DestinationHash p) t with
              | Some l => Ok (deliver_proof p l t)
              | None => Ok (t, [])
              end
    end
  else
    let proofHash := if (Context p =? ContextLinkProof) && (dstLen <=? length (Packet.Data p))%nat
                     then take dstLen (Packet.Data p) else [] in
    match List.find (fun c => spawnedLocalClient (io c) && bool_decide (ifaceHash (io c) = Some (DestinationHash p))) (ifaces t) with
    | Some c => Ok (t, [TSend c (with_hops (Hops p) (Raw p))])
    | None =>
        match reverseTable t !! DestinationHash p with
        | Some e =>
            Ok (t, [TSend (ReceivedInterface e)
                      (with_hops (forwardedHopByteLocked p (spawnedLocalClient (io i)) (spawnedLocalClient (io (ReceivedInterface e))) t)
                         (Raw p))])
        | None =>
            '(kept, ev) ← match_receipts proofHash p (length (Packet.Data p) + env_spare env) (UnixSeconds now) (receipts t);
            Ok (t <| receipts := kept |>, ev)
        end
    end.

(** ** Processing *)

Definition isPathRequestPacket (p : Packet) (t : Transport) : bool :=
  (PacketType p =? PacketData) && negb (length (pathRequestHash t) =? 0)%nat &&
  bytes_eqb (DestinationHash p) (pathRequestHash t).

Definition process_path_request (io : Iface -> IfaceInfo) (now : Z) (env : Env) (p : Packet) (i : Iface) (t : Transport) : tr_result :=
  let ev := if (dstLen <? length (Packet.Data p))%nat then [TReceivedPathRequest i (zlen (Raw p))] else [] in
  '(t, ev', consumed) ← handlePathRequest io now env (Packet.Data p) i t;
  if consumed : bool then Ok (t, ev ++ ev')
  else let '(t, ev'') := forwardPathRequest io now env (Packet.Data p) i t in Ok (t, ev ++ ev' ++ ev'').

Definition process_announce (io : Iface -> IfaceInfo) (now : Z) (env : Env) (p : Packet) (i : Iface) (t : Transport)
    : Transport * list tr_event :=
  let '(t, ev) := handleAnnounce io now (env_delay env) p i t in
  if Context p =? ContextPathResponse then
    let '(ev', served) := forwardPathResponseToRequesters io p i t in
    (if served then clearPendingPathRequesters (DestinationHash p) t else t, ev ++ ev')
  else (t, ev).

(** A packet from a local client without a transport ID goes to every other
    interface. *)
Definition broadcast_events (io : Iface -> IfaceInfo) (p : Packet) (i : Iface) (t : Transport) : list tr_event :=
  if spawnedLocalClient (io i) && (length (TransportID p) =? 0)%nat && negb (PacketType p =? PacketAnnounce) &&
     negb (PacketType p =? PacketProof)
  then map (fun o => TSend o (Raw p)) (filter (fun o => o <> i) (ifaces t))
  else [].

(** A transport ID is inserted into packets for local clients. *)
Definition insert_transport_id (p : Packet) (t : Transport) : Packet :=
  if (length (TransportID p) =? 0)%nat && isForLocalClient p t
  then match tidentity t with Some h => p <| TransportID := h |> | None => p end
  else p.

Definition is_next_hop (p : Packet) (t : Transport) : bool :=
  match tidentity t with
  | Some h => (0 <? length (TransportID p))%nat && bytes_eqb (TransportID p) h
  | None => false
  end.

(** What comes after the transport handling. *)
Definition process_rest (io : Iface -> IfaceInfo) (now : Z) (env : Env) (p : Packet) (i : Iface) (t : Transport) : tr_result :=
  let ev := broadcast_events io p i t in
  if PacketType p =? PacketProof then '(t, ev') ← process_proof io now env p i t; Ok (t, ev ++ ev')
  else if PacketType p =? PacketAnnounce then Ok (process_announce io now env p i t)
  else Ok (t, ev).

Definition process_transport (io : Iface -> IfaceInfo) (now : Z) (env : Env) (p : Packet) (i : Iface) (t : Transport) : tr_result :=
  if negb (PacketType p =? PacketAnnounce) &&
     (enabled t || spawnedLocalClient (io i) || isForLocalClient p t || isForLocalClientLink io p t)
  then
    let p := insert_transport_id p t in
    match (if is_next_hop p t then forward_path io now p i t else None) with
    | Some r => r
    | None => match forward_link io now p i t with
              | Some r => Ok r
              | None => process_rest io now env p i t
              end
    end
  else process_rest io now env p i t.

Definition processInboundPacket (io : Iface -> IfaceInfo) (now : Z) (env : Env) (p : Packet) (i : Iface) (t : Transport) : tr_result :=
  if isPathRequestPacket p t then process_path_request io now env p i t
  else if bool_decide (is_Some (destinationsMap t !! DestinationHash p)) then Ok (t, [TDeliver (DestinationHash p) p])
  else match FindLink (DestinationHash p) t with
       | Some l =>
           if (Context p =? ContextLrproof) && (PacketType p =? PacketProof) then Ok (deliver_proof p l t)
           else if negb ((PacketType p =? PacketProof) && negb (Context p =? ContextResourcePrf))
           then Ok (t, [TLinkReceive (linkID l) p])
           else process_transport io now env p i t
       | None => process_transport io now env p i t
       end.

(** ** Receiving a frame *)

Definition dedup (now : Z) (p : Packet) (t : Transport) : Transport * bool :=
  if (PacketType p =? PacketProof) && (Context p =? ContextLrproof) then (t, packetHashSeenLocked (PacketHash p) t)
  else if connectedToSharedInstance t then (t, false)
  else if filter_exempt (Context p) then (t, false)
  else if bool_decide (is_Some (linkTable t !! DestinationHash p)) then (t, false)
  else seenOrRememberPacketHashLocked (PacketHash p) now t.

(** The parsed packet with its hop count, which does not grow between a shared
    instance and its clients. *)
Definition parse_frame (io : Iface -> IfaceInfo) (raw : bytes) (i : Iface) : option Packet :=
  match Packet.Unpack (NewPacketFromRaw raw) with
  | (p, Ok tt) =>
      Some (if spawnedLocalClient (io i) || connectedToShared (io i) then p else p <| Hops := Hops p + 1 |>)
  | _ => None
  end.

Definition traffic_class (tc : Z) (p : Packet) (t : Transport) : Z :=
  let tc := if PacketType p =? PacketAnnounce then if tc =? noTrafficClass then TCAnnounce else tc
            else if isPathRequestPacket p t then TCPathRequest else tc in
  if tc =? noTrafficClass then TCData else tc.

(** The steps before the queue: the packet and its class if it is accepted. *)
Definition accept (io : Iface -> IfaceInfo) (now : Z) (raw : bytes) (i : Iface) (tc : Z) (ifacHandled : bool) (t : Transport)
    : Transport * list tr_event * option (Packet * Z) :=
  if (length raw =? 0)%nat then (t, [], None)
  else match (if ifacHandled then Some raw else ifacIn (io i) raw) with
  | None => (t, [TIfacViolation i], None)
  | Some raw =>
      if match hardwareMTU (io i) with Some hw => hw + ifacSize (io i) <? zlen raw | None => false end
      then (t, [TViolation i], None)
      else match parse_frame io raw i with
      | None => (t, [TViolation i], None)
      | Some p =>
          let '(pass, violation) := packetFilter p t in
          if negb pass then (t, (if violation then [TViolation i] else []) ++ [TFilterHit i], None)
          else
            let '(t, dup) := dedup now p t in
            if dup && negb ((PacketType p =? PacketAnnounce) && (DestinationType p =? DestinationSingle)) then (t, [], None)
            else (t, [], Some (p, traffic_class tc p t))
      end
  end.

(** [Inbound] of a transport without a queue. *)
Definition Inbound (io : Iface -> IfaceInfo) (now : Z) (env : Env) (raw : bytes) (i : Iface) (t : Transport) : tr_result :=
  match accept io now raw i noTrafficClass false t with
  | (t, ev, None) => Ok (t, ev)
  | (t, ev, Some (p, _)) => '(t, ev') ← processInboundPacket io now env p i t; Ok (t, ev ++ ev')
  end.

(** [inbound] of a running transport, and one round of its drainer. *)
Definition inbound_queued (io : Iface -> IfaceInfo) (now : Z) (raw : bytes) (i : Iface) (tc : Z) (ifacHandled : bool)
    (s : Transport * InboundQueues (Packet * Iface)) : Transport * InboundQueues (Packet * Iface) * list tr_event :=
  match accept io now raw i tc ifacHandled s.1 with
  | (t, ev, None) => (t, s.2, ev)
  | (t, ev, Some (p, class)) => (t, (Put s.2 class (p, i)).1, ev)
  end.

Definition drain (io : Iface -> IfaceInfo) (now : Z) (env : Env) (s : Transport * InboundQueues (Packet * Iface))
    : res pkt_err (Transport * InboundQueues (Packet * Iface) * list tr_event) :=
  match TryGet s.2 with
  | (q, Ok (p, i)) => '(t, ev) ← processInboundPacket io now env p i s.1; Ok (t, q, ev)
  | (q, _) => Ok (s.1, q, [])
  end.
End WithHash.
