(* ===== verification/Announcing.v ===== *)
(** * Sending, rebroadcasting and maintenance

    Models the send side of [rns/transport.go] and its periodic jobs: the
    announce filter and the announce queues of the interfaces, the rebroadcast
    of announces, [Outbound], the receipts, and the culling of the tables.
    The iteration over a Go map takes the order of its keys as an argument. *)

From stdpp Require Import base tactics option list gmap.
From Stdlib Require Import ZArith Lia PrimFloat.
From S2P Require Import Prelude Clock Crypto Packet Channel Buffer InboundQueues Msgpack Resource Identity Link Transport PathRequests Forwarding.
Local Open Scope Z_scope.
Local Open Scope go_scope.

Inductive announceTransmitDecision := announceBlock | announceDirect | announceCapped.

(** ** The announce filter *)

Definition shouldTransmitAnnounce (io : Iface -> IfaceInfo) (out : Iface) (from : option Iface) (localDestination : bool)
    (receivedHops : Z) : announceTransmitDecision :=
  let outMode := ifMode (io out) in
  match from with
  | None =>
      if negb localDestination then announceBlock
      else if outMode =? ModeAccessPoint then announceBlock
      else if outMode =? ModeRoaming then announceDirect
      else if outMode =? ModeBoundary then announceDirect
      else if 0 <? receivedHops then announceCapped else announceDirect
  | Some f =>
      let fromMode := ifMode (io f) in
      if negb localDestination && negb (announcesFromInternal (io out)) && (fromMode =? ModeInternal) then announceBlock
      else if outMode =? ModeAccessPoint then announceBlock
      else if negb localDestination && (outMode =? ModeInternal) then
        if default false (announcesToInternal (io f)) then announceDirect
        else if fromMode =? ModeBoundary then announceBlock else announceDirect
      else if outMode =? ModeRoaming then
        if localDestination then announceDirect
        else if (fromMode =? ModeRoaming) || (fromMode =? ModeBoundary) then announceBlock else announceDirect
      else if outMode =? ModeBoundary then
        if localDestination then announceDirect
        else if fromMode =? ModeRoaming then announceBlock else announceDirect
      else if 0 <? receivedHops then announceCapped else announceDirect
  end.

Definition announceWaitDuration (rawLen bitrate : Z) : Z :=
  if (rawLen <=? 0) || (bitrate <=? 0) then 0
  else Duration_of_float (float_of_Z (rawLen * 8) / float_of_Z bitrate / announceCapDefault * float_of_Z Second)%float.

Record outgoingAnnounceJob := mkJob { j_iface : Iface; j_raw : bytes; j_hops : Z }.

(** [sort.SliceStable] by hops. *)
Fixpoint insert_job (j : outgoingAnnounceJob) (l : list outgoingAnnounceJob) : list outgoingAnnounceJob :=
  match l with
  | [] => [j]
  | k :: l' => if j_hops j <=? j_hops k then j :: l else k :: insert_job j l'
  end.
Definition sort_jobs (l : list outgoingAnnounceJob) : list outgoingAnnounceJob := foldr insert_job [] l.

(** The index of the queued announce that is sent next: the first with the
    fewest hops and, among those, the earliest. *)
Fixpoint select_announce (best : announceQueueEntry) (bi k : nat) (l : list announceQueueEntry) : nat :=
  match l with
  | [] => bi
  | e :: l =>
      if (q_hops e <? q_hops best) || ((q_hops e =? q_hops best) && Before (queuedAt e) (queuedAt best))
      then select_announce e k (S k) l else select_announce best bi (S k) l
  end.

Section WithHash.
Context `{Sh : Sha256} `{Ci : BlockCipher} `{Cu : Curves}.

(** ** Announce queues *)

Definition announceEmissionFromRaw (raw : bytes) : Z :=
  match Packet.Unpack (NewPacketFromRaw raw) with (p, Ok tt) => announceEmissionFromPacket p | _ => 0 end.

Definition queue_state (i : Iface) (t : Transport) : announceQueueState :=
  default (mkQueueState 0 [] None) (announceQueues t !! i).

(** The queue with an announce of [dest] in it: a newer one replaces the one
    that waits. *)
Definition enqueue_announce (now : Z) (dest raw : bytes) (hops : Z) (s : announceQueueState) : announceQueueState :=
  let emitted' := announceEmissionFromRaw raw in
  match list_find (fun e => q_destinationHash e = dest) (q_queue s) with
  | Some (k, e) =>
      if emitted e <? emitted'
      then s <| q_queue ::= <[k := mkQueued (q_destinationHash e) now hops emitted' raw]> |> else s
  | None =>
      let s' := s <| q_queue ::= fun q => q ++ [mkQueued dest now hops emitted' raw] |> in
      if (length (q_queue s) =? 0)%nat then s' <| timer := Some (now + Z.max (Sub (allowedAt s) now) 0) |> else s'
  end.

Definition queueOrSendAnnounceLocked (io : Iface -> IfaceInfo) (now : Z) (i : Iface) (dest raw : bytes) (hops : Z)
    (t : Transport) : Transport * option bytes :=
  let s := queue_state i t in
  let put (s : announceQueueState) := t <| announceQueues ::= <[i := s]> |> in
  if bitrate (io i) <=? 0 then (put s, Some raw)
  else if (length (q_queue s) =? 0)%nat && After now (allowedAt s)
  then (put (s <| allowedAt := Add now (announceWaitDuration (zlen raw) (bitrate (io i))) |>), Some raw)
  else if maxQueuedAnnounces <=? zlen (q_queue s) then (put s, None)
  else (put (enqueue_announce now dest raw hops s), None).

Definition sendRebroadcast (i : Iface) (raw : bytes) (t : Transport) : list tr_event :=
  if (length raw =? 0)%nat then [] else [TSend i (reframeAnnounceForTransport raw t)].

(** The firing of a queue's timer. *)
Definition processAnnounceQueue (io : Iface -> IfaceInfo) (now : Z) (i : Iface) (t : Transport) : Transport * list tr_event :=
  match announceQueues t !! i with
  | None => (t, [])
  | Some s =>
      let put (s : announceQueueState) := t <| announceQueues ::= <[i := s]> |> in
      let s := s <| timer := None |>
                 <| q_queue ::= filter (fun e => (Sub now (queuedAt e) <=? queuedAnnounceLife) = true) |> in
      match q_queue s with
      | [] => (put s, [])
      | e :: q =>
          let k := select_announce e 0 1 q in
          let raw := q_raw (nth k (q_queue s) e) in
          let nextDelay := announceWaitDuration (zlen raw) (bitrate (io i)) in
          let s := s <| q_queue ::= delete k |> <| allowedAt := Add now nextDelay |> in
          let s := if (0 <? length (q_queue s))%nat then s <| timer := Some (now + Z.max nextDelay 0) |> else s in
          (put s, sendRebroadcast i raw t)
      end
  end.

Definition DropAnnounceQueues (t : Transport) : Transport * Z :=
  (t <| announceTable := ∅ |> <| announceQueues ::= fmap (fun s => s <| timer := None |> <| q_queue := [] |>) |>
     <| pendingPathRequests := ∅ |>,
   Z.of_nat (base.size (announceTable t))).

(** ** Rebroadcasting *)

Definition rebroadcast_done (retries : Z) : bool := (localRebroadcastsMax <=? retries) || (pathfinderRetries <? retries).

(** One announce on one interface, and on all of them. *)
Definition rebroadcast_on (io : Iface -> IfaceInfo) (now : Z) (dest : bytes) (e : AnnounceEntry) (localDest : bool)
    (acc : Transport * list outgoingAnnounceJob) (out : Iface) : Transport * list outgoingAnnounceJob :=
  let '(t, jobs) := acc in
  if negb (up (io out)) || negb (isOut (io out)) then (t, jobs)
  else match shouldTransmitAnnounce io out (Some (SourceInterface e)) localDest (AHops e) with
       | announceBlock => (t, jobs)
       | announceDirect => (t, jobs ++ [mkJob out (PacketRaw e) (AHops e)])
       | announceCapped =>
           match queueOrSendAnnounceLocked io now out dest (PacketRaw e) (AHops e) t with
           | (t, Some raw) => (t, if (0 <? length raw)%nat then jobs ++ [mkJob out raw (AHops e)] else jobs)
           | (t, None) => (t, jobs)
           end
       end.

Definition rebroadcast_jobs (io : Iface -> IfaceInfo) (now : Z) (dest : bytes) (e : AnnounceEntry) (localDest : bool)
    (t : Transport) : Transport * list outgoingAnnounceJob :=
  foldl (rebroadcast_on io now dest e localDest) (t, []) (ifaces t).

(** One entry of the announce table; [delay] is the random part of its next
    rebroadcast. *)
Definition rebroadcast_entry (io : Iface -> IfaceInfo) (now delay : Z) (dest : bytes) (t : Transport)
    : res pkt_err (Transport * list outgoingAnnounceJob) :=
  match announceTable t !! dest with
  | None => Ok (t, [])
  | Some e =>
      let drop (t : Transport) := t <| announceTable ::= delete dest |> in
      if Before now (NextRebroadcastAt e) then Ok (t, [])
      else if rebroadcast_done (Retries e) then Ok (drop t, [])
      else
        i ← recallLocked dest t;
        match i with
        | None => Ok (drop t, [])
        | Some _ =>
            let '(t, jobs) := rebroadcast_jobs io now dest e (bool_decide (is_Some (destinationsMap t !! dest))) t in
            let e := e <| Retries ::= Z.succ |> <| NextRebroadcastAt := Add now (pathfinderGrace + delay) |> in
            Ok (if rebroadcast_done (Retries e) then drop t else t <| announceTable ::= <[dest := e]> |>, jobs)
        end
  end.

Fixpoint rebroadcast_all (io : Iface -> IfaceInfo) (now : Z) (delays : bytes -> Z) (order : list bytes) (t : Transport)
    : res pkt_err (Transport * list outgoingAnnounceJob) :=
  match order with
  | [] => Ok (t, [])
  | dest :: order =>
      '(t, jobs) ← rebroadcast_entry io now (delays dest) dest t;
      '(t, jobs') ← rebroadcast_all io now delays order t;
      Ok (t, jobs ++ jobs')
  end.

Definition handleOutgoingAnnounces (jobs : list outgoingAnnounceJob) (t : Transport) : list tr_event :=
  mjoin (map (fun j => sendRebroadcast (j_iface j) (j_raw j) t) (sort_jobs jobs)).

Definition processAnnounceTable (io : Iface -> IfaceInfo) (now : Z) (delays : bytes -> Z) (order : list bytes) (t : Transport)
    : tr_result :=
  '(t, jobs) ← rebroadcast_all io now delays order t;
  Ok (t, handleOutgoingAnnounces jobs t).

(** ** Receipts *)

Definition FirstHopTimeout (io : Iface -> IfaceInfo) (dest : bytes) (t : Transport) : Z :=
  match nextHopInterfaceLocked dest t with
  | Some i =>
      if bitrate (io i) <=? 0 then establishmentTimeoutPerHop
      else establishmentTimeoutPerHop +
           Duration_of_float (float_of_Z MTU * (1 / float_of_Z (bitrate (io i)) * 8) * float_of_Z Second)%float
  | None => establishmentTimeoutPerHop
  end.

(** [link] is the link when the destination is one. *)
Definition armReceiptTimeout (io : Iface -> IfaceInfo) (link : option Link) (t : Transport) (pr : PacketReceipt) : PacketReceipt :=
  match RDestination pr with
  | None => pr
  | Some d =>
      match Impl d, link with
      | DLink _ _, Some l => SetTimeout pr (MathMax (lrtt l * trafficTimeoutFactor l)%float trafficTimeoutMinSeconds)
      | _, _ =>
          SetTimeout pr (float_of_Z (i64 (FirstHopTimeout io (GetHash d) t + i64 (packetTimeoutPerHop * HopsTo (GetHash d) t)))
                         / float_of_Z Second)%float
      end
  end.

Definition receiptEligible (p : Packet) : bool :=
  bool_decide (is_Some (Receipt p)) && (PacketType p =? PacketData) && negb (DestinationType p =? DestinationPlain) &&
  negb ((ContextKeepalive <=? Context p) && (Context p <=? ContextLrproof)) &&
  negb ((ContextResource <=? Context p) && (Context p <=? ContextResourceRcl)).

(** The bookkeeping after a transmission. *)
Definition mark_sent (io : Iface -> IfaceInfo) (now : Z) (link : option Link) (p : Packet) (t : Transport) : Packet * Transport :=
  let register := receiptEligible p in
  let p := if register then p <| Receipt ::= fmap (armReceiptTimeout io link t) |> else p in
  let p := p <| Sent := true |> <| SentAt := UnixSeconds now |> in
  match Receipt p with
  | None => (p, t)
  | Some r =>
      let r := MarkSent r (SentAt p) in
      (p <| Receipt := Some r |>, if register then t <| receipts ::= fun rs => rs ++ [r] |> else t)
  end.

(** The receipts over the limit are culled; the ones with a timeout callback
    expire; the concluded ones leave the list. *)
Definition cull_receipt (now : float) (r : PacketReceipt) : PacketReceipt * list receipt_event :=
  let '(r, _, ev) := CheckTimeout (SetTimeout r receiptTimeoutCulled) now in (r, ev).
Definition expire_receipt (now : float) (r : PacketReceipt) : PacketReceipt * list receipt_event :=
  if timeoutCallback r then let '(r, _, ev) := CheckTimeout r now in (r, ev) else (r, []).

Definition processReceipts (now : Z) (t : Transport) : Transport * list tr_event :=
  let nowSeconds := UnixSeconds now in
  let n := (length (receipts t) - Z.to_nat MaxReceipts)%nat in
  let culled := map (cull_receipt nowSeconds) (take n (receipts t)) in
  let checked := map (expire_receipt nowSeconds) (drop n (receipts t)) in
  (t <| receipts := filter (fun r => (RStatus r =? ReceiptSent) = true) (map fst checked) |>,
   map (fun c => TReceipt c.2) (culled ++ checked)).

(** ** Outbound *)

Definition shouldApplyDelta (io : Iface -> IfaceInfo) (p : Packet) (i : Iface) (t : Transport) : bool :=
  negb (isLocalServer (io i)) && negb (connectedToSharedInstance t) && (Hops p =? 0) && negb (localHopsDelta t =? 0) &&
  negb (DestinationType p =? DestinationPlain) && negb (DestinationType p =? DestinationGroup) &&
  negb (spawnedLocalClient (io i)).

Definition insertHopByte (io : Iface -> IfaceInfo) (p : Packet) (i : Iface) (t : Transport) : Z :=
  if shouldApplyDelta io p i t then u8 (localHopsDelta t) else nth 1 (Raw p) 0.

Definition disguiseBroadcastRaw (io : Iface -> IfaceInfo) (p : Packet) (i : Iface) (t : Transport) : bytes :=
  if negb (shouldApplyDelta io p i t) then Raw p
  else mangleHops (Raw p) (localHopsDelta t)
         ((PacketType p =? PacketAnnounce) && (HeaderType p =? Header1) && bool_decide (is_Some (tidentity t))) t.

(** The frame of a packet with a transport header that names the next hop. *)
Definition insert_header2 (io : Iface -> IfaceInfo) (p : Packet) (e : PathEntry) (i : Iface) (t : Transport) : bytes :=
  packFlags Header2 (ContextFlag p) TransportForward (DestinationType p) (PacketType p)
    :: insertHopByte io p i t :: NextHop e ++ drop 2 (Raw p).

Definition path_frame (io : Iface -> IfaceInfo) (p : Packet) (e : PathEntry) (i : Iface) (t : Transport) : bytes :=
  if (1 <? PHops e) && (length (NextHop e) =? dstLen)%nat then insert_header2 io p e i t
  else if (PHops e =? 1) && connectedToSharedInstance t && (length (NextHop e) =? dstLen)%nat then insert_header2 io p e i t
  else if shouldApplyDelta io p i t then mangleHops (Raw p) (localHopsDelta t) false t
  else Raw p.

(** One interface of the broadcast: whether a transmission was attempted. *)
Definition broadcast_on (io : Iface -> IfaceInfo) (now : Z) (p : Packet) (i : Iface) (t : Transport)
    : Transport * list tr_event :=
  if negb (isOut (io i)) then (t, [])
  else
    let isAnnounce := PacketType p =? PacketAnnounce in
    let decision := shouldTransmitAnnounce io i (nextHopInterfaceLocked (DestinationHash p) t)
                      (bool_decide (is_Some (destinationsMap t !! DestinationHash p))) (Hops p) in
    let '(t, transmit) :=
      if negb isAnnounce then (t, true)
      else match decision with
           | announceBlock => (t, false)
           | announceDirect => (t, true)
           | announceCapped =>
               let '(t, raw) := queueOrSendAnnounceLocked io now i (DestinationHash p) (Raw p) (Hops p) t in
               (t, match raw with Some raw => (0 <? length raw)%nat | None => false end)
           end in
    if transmit then (t, egress io i (disguiseBroadcastRaw io p i t)) else (t, []).

Definition broadcast (io : Iface -> IfaceInfo) (now : Z) (p : Packet) (t : Transport) : Transport * list tr_event :=
  foldl (fun '(t, ev) i => let '(t, ev') := broadcast_on io now p i t in (t, ev ++ ev')) (t, []) (ifaces t).

Definition unicast (p : Packet) (t : Transport) : bool :=
  bool_decide (is_Some (destinationsMap t !! DestinationHash p)) && negb (PacketType p =? PacketAnnounce) &&
  ((DestinationType p =? DestinationSingle) || (DestinationType p =? DestinationLink)).

(** The path a packet follows. *)
Definition usable_path (p : Packet) (t : Transport) : option (PathEntry * Iface) :=
  if negb (PacketType p =? PacketAnnounce) && negb (DestinationType p =? DestinationPlain) &&
     negb (DestinationType p =? DestinationGroup)
  then match pathTable t !! DestinationHash p with
       | Some e => match PInterface e with Some i => Some (e, i) | None => None end
       | None => None
       end
  else None.

Definition out_result : Type := Packet * Transport * list tr_event * res pkt_err unit.

(** A packed packet; [attached] is the interface it is bound to. *)
Definition outbound_packed (io : Iface -> IfaceInfo) (now : Z) (attached : option Iface) (link : option Link) (p : Packet)
    (t : Transport) : out_result :=
  if unicast p t then
    let p' := p <| Sent := true |> <| SentAt := UnixSeconds now |> in
    (p' <| Receipt ::= fmap (fun r => MarkSent r (SentAt p')) |>, t, [TDeliver (DestinationHash p) p], Ok tt)
  else
    let attached := match attached with
                    | Some i => Some i
                    | None => if DestinationType p =? DestinationLink
                              then FindLink (DestinationHash p) t ≫= attachedInterface else None
                    end in
    match attached with
    | Some i =>
        if negb (isOut (io i)) then (p, t, [], Ok tt)
        else
          let raw := disguiseBroadcastRaw io p i t in
          let '(p, t') := mark_sent io now link p t in
          (p, t', [TSend i (default raw (ifacOut (io i) raw))], Ok tt)
    | None =>
        match usable_path p t with
        | Some (e, i) =>
            if HeaderType p =? Header2 then (p, t, [], Ok tt)
            else match ifacOut (io i) (path_frame io p e i t) with
                 | None => (p, t, [], Ok tt)
                 | Some raw => let '(p, t') := mark_sent io now link p t in (p, t', [TSend i raw], Ok tt)
                 end
        | None =>
            let '(t, ev) := broadcast io now p t in
            if (length ev =? 0)%nat then (p, t, [], Ok tt)
            else let '(p, t') := mark_sent io now link p t in (p, t', ev, Ok tt)
        end
    end.

Definition Outbound (io : Iface -> IfaceInfo) (now : Z) (attached : option Iface) (link : option Link) (p : Packet)
    (t : Transport) : out_result :=
  if PathfinderM - 1 <? Hops p then (p, t, [], Err (ErrHopBudget (Hops p)))
  else
    let '(p, r) := if Packed p then (p, Ok tt) else Packet.Pack p in
    match r with
    | Ok tt => outbound_packed io now attached link p t
    | Err e => (p, t, [], Err e)
    | Panic => (p, t, [], Panic)
    end.

(** The error is [None] when the request could not be made. *)
Definition RequestPath (io : Iface -> IfaceInfo) (now : Z) (env : Env) (dest : bytes) (t : Transport)
    : Transport * list tr_event * res (option pkt_err) unit :=
  match RequestPath_prepare now env dest t with
  | (t, ev, None) => (t, ev, Err None)
  | (t, ev, Some p) => let '(_, t, ev', r) := Outbound io now None None p t in (t, ev ++ ev', map_err Some r)
  end.

(** ** Culling *)

(** The destinations of a link request that was not answered. *)
Definition mark_dead (io : Iface -> IfaceInfo) (e : LinkEntry) (t : Transport) : Transport :=
  if enabled t && negb (ifMode (io (LReceivedInterface e)) =? ModeBoundary) then MarkPathUnresponsive (LDestinationHash e) t else t.

(** The transport after an unanswered link request, and whether the path is
    asked for. *)
Definition rediscover (io : Iface -> IfaceInfo) (now : Z) (e : LinkEntry) (t : Transport) : Transport * bool :=
  let dst := LDestinationHash e in
  let throttle := Sub now (default 0 (pathRequests t !! dst)) <? pathRequestMinInterval in
  let '(t, ask) :=
    match pathTable t !! dst with
    | None => (t, true)
    | Some _ => if negb throttle then (mark_dead io e t, true) else (t, false)
    end in
  if ask : bool then
    let t := t <| pathRequests ::= <[dst := now]> |> in
    (if negb (enabled t) then ExpirePath dst t else t, true)
  else (t, false).

Definition cull_link (io : Iface -> IfaceInfo) (now : Z) (linkID : bytes) (t : Transport) : Transport * list tr_event :=
  match linkTable t !! linkID with
  | None => (t, [])
  | Some e =>
      let gone := t <| linkTable ::= delete linkID |> in
      if Validated e then
        if (transportLinkTimeout <? Sub now (LTimestamp e)) ||
           match LOutboundInterface e with Some o => negb (up (io o)) | None => false end ||
           negb (up (io (LReceivedInterface e)))
        then (gone, []) else (t, [])
      else if negb (IsZero (ProofTimeout e)) && After now (ProofTimeout e) then
        let '(t, ask) := rediscover io now e gone in (t, if ask then [TRediscover (LDestinationHash e)] else [])
      else (t, [])
  end.

Definition cullStaleTransportTables (io : Iface -> IfaceInfo) (now : Z) (order : list bytes) (t : Transport)
    : Transport * list tr_event :=
  let t := t <| reverseTable ::= filter (fun kv => (Sub now (RTimestamp kv.2) <=? reverseEntryTimeout) = true) |> in
  foldl (fun '(t, ev) id => let '(t, ev') := cull_link io now id t in (t, ev ++ ev')) (t, []) order.

(** A pending link that closed by its timeout. *)
Definition pending_closed (now : Z) (l : Link) (t : Transport) : Transport * list tr_event :=
  match destination l with
  | None => (t, [])
  | Some d =>
      if teardownReason l =? TeardownTimeout then
        let t := if enabled t then MarkPathUnresponsive (DHash d) t else ExpirePath (DHash d) t in
        if negb (connectedToSharedInstance t) && (pathRequestMinInterval <? Sub now (default 0 (pathRequests t !! DHash d)))
        then (t <| pathRequests ::= <[DHash d := now]> |>, [TRediscover (DHash d)])
        else (t, [])
      else (t, [])
  end.

Definition processPendingLinks (now : Z) (t : Transport) : Transport * list tr_event :=
  let '(t', ev) := foldl (fun '(t, ev) l =>
                     if lstatus l =? LinkClosed then let '(t, ev') := pending_closed now l t in (t, ev ++ ev') else (t, ev))
                     (t, []) (pendingLinks t) in
  (t' <| pendingLinks ::= filter (fun l => opened l = true) |> <| activeLinks ::= filter (fun l => opened l = true) |>, ev).

(** ** Registration *)

Definition RegisterDestination (d : DestinationT) (t : Transport) : Transport :=
  if negb (direction d =? DestinationIn) || bool_decide (is_Some (destinationsMap t !! DHash d)) then t
  else t <| destinationsMap ::= <[DHash d := d]> |>.
Definition RegisterLink (l : Link) (t : Transport) : Transport := t <| pendingLinks ::= fun ls => ls ++ [l] |>.

(** A link is a pointer; [k] is its position among the pending links. *)
Definition ActivateLink (k : nat) (t : Transport) : Transport :=
  match pendingLinks t !! k with
  | Some l => t <| pendingLinks ::= delete k |> <| activeLinks ::= fun ls => ls ++ [l] |>
  | None => t
  end.
Definition RegisterInterface (io : Iface -> IfaceInfo) (i : Iface) (t : Transport) : Transport :=
  if bool_decide (i ∈ ifaces t) then t
  else resolvePathInterfacesLocked io (t <| ifaces ::= fun l => l ++ [i] |>).

(** The first registration of [i] is dropped. *)
Fixpoint remove_first (i : Iface) (l : list Iface) : list Iface :=
  match l with
  | [] => []
  | j :: l => if (i =? j)%nat then l else j :: remove_first i l
  end.
Definition RemoveInterface (io : Iface -> IfaceInfo) (i : Iface) (t : Transport) : Transport :=
  if bool_decide (i ∈ ifaces t) then resolvePathInterfacesLocked io (t <| ifaces ::= remove_first i |>) else t.
Definition ReprunePathsAfterInterfaces : Transport -> Transport := prunePathEntriesWithoutInterfaceLocked.
End WithHash.
