(* ===== verification/Ifac.v ===== *)
(** * Interface access codes

    Models the access codes of [rns/interfaces/base.go]: the key material of
    an interface that belongs to a named network, the code and the mask put on
    outgoing frames, and the check of incoming ones.  The Ed25519 key is the
    signing function of [Curves]. *)

From stdpp Require Import base tactics option list.
From Stdlib Require Import ZArith Lia.
From S2P Require Import Prelude Crypto Packet Identity.
Local Open Scope Z_scope.
Local Open Scope go_scope.

Definition IFACMaxSize : Z := 64.
Definition ifacSalt : bytes :=
  [0xad; 0xf5; 0x4d; 0x88; 0x2c; 0x9a; 0x9b; 0x80; 0x77; 0x1e; 0xb4; 0x99; 0x5d; 0x70; 0x2d; 0x4a;
   0x3e; 0x73; 0x33; 0x91; 0xb2; 0xa0; 0xf5; 0x3f; 0x41; 0x6d; 0x9f; 0x90; 0x7e; 0x55; 0xcf; 0xf8].

Record IFACConfig := mkIFACConfig {
  Enabled : bool;
  NetName : bytes;
  NetKey : bytes;
  ISize : Z;
}.
#[global] Instance eta_IFACConfig : Eta IFACConfig := fun c =>
  mkIFACConfig (Enabled c) (NetName c) (NetKey c) (ISize c).

(** The part of a [BaseInterface] the access code uses. *)
Record Ifac := mkIfac {
  ifacConfig : IFACConfig;
  ifacKey : bytes;
  ifacSigner : option bytes;
}.

Inductive ifac_err :=
  | ErrIfacSize (size sig : Z)
  | ErrIfacMask (e : crypto_err).

Definition DefaultIFACSize (defaultIFACSize : Z) : Z := if 0 <? defaultIFACSize then defaultIFACSize else 16.

Section WithCrypto.
Context `{Sh : Sha256} `{Cu : Curves}.

Definition SetIFACConfig (defaultSize : Z) (cfg : IFACConfig) : Ifac :=
  if negb (Enabled cfg) then mkIfac cfg [] None
  else
    let size := if ISize cfg <? 1 then DefaultIFACSize defaultSize else ISize cfg in
    let size := if IFACMaxSize <? size then IFACMaxSize else size in
    let cfg := cfg <| ISize := size |> in
    let origin := (if (0 <? length (NetName cfg))%nat then SHA256 (NetName cfg) else []) ++
                  (if (0 <? length (NetKey cfg))%nat then SHA256 (NetKey cfg) else []) in
    let disabled := mkIfac (cfg <| Enabled := false |>) [] None in
    if (length origin =? 0)%nat then disabled
    else match HKDF 64 (SHA256 origin) ifacSalt [] with
         | Ok key =>
             if negb (length key =? 64)%nat then disabled
             else match NewEd25519PrivateKeyFromBytes (drop 32 key) with
                  | Ok signer => mkIfac cfg key (Some signer)
                  | _ => disabled
                  end
         | _ => disabled
         end.

(** The signer and the code length, when access codes are in use. *)
Definition ifac_enabled (x : Ifac) : option (bytes * Z) :=
  match ifacSigner x with
  | Some s => if Enabled (ifacConfig x) && (length (ifacKey x) =? 64)%nat then Some (s, ISize (ifacConfig x)) else None
  | None => None
  end.

(** Whether byte [i] of a frame with a code of [n] bytes is masked. *)
Definition masked_at (n : Z) (i : nat) : bool := (i <=? 1)%nat || (n + 1 <? Z.of_nat i).

Definition ApplyIFACOutbound (x : Ifac) (data : bytes) : res ifac_err bytes :=
  match ifac_enabled x, data with
  | Some (signer, ifacSize), f :: h :: body =>
      if (length data <=? 2)%nat then Ok data
      else
        let sig := ed_sign signer data in
        if zlen sig <? ifacSize then Err (ErrIfacSize ifacSize (zlen sig))
        else
          let ifac := drop (Z.to_nat (zlen sig - ifacSize)) sig in
          match HKDF (zlen data + ifacSize) ifac (ifacKey x) [] with
          | Ok mask =>
              Ok (imap (fun i b => let m := nth i mask 0 in
                                   if (i =? 0)%nat then Z.lor (Z.lxor b m) 0x80
                                   else if masked_at ifacSize i then Z.lxor b m else b)
                    (Z.lor f 0x80 :: h :: ifac ++ body))
          | Err e => Err (ErrIfacMask e)
          | Panic => Panic
          end
  | _, _ => Ok data
  end.

Definition ApplyIFACInbound (x : Ifac) (data : bytes) : option bytes :=
  if (length data <=? 2)%nat then None
  else
    let hasIFACFlag := Z.land (nth 0 data 0) 0x80 =? 0x80 in
    match ifac_enabled x with
    | None => if hasIFACFlag then None else Some data
    | Some (signer, ifacSize) =>
        if negb hasIFACFlag then None
        else if zlen data <=? 2 + ifacSize then None
        else
          let n := Z.to_nat ifacSize in
          let ifac := slice 2 (2 + n) data in
          match HKDF (zlen data) ifac (ifacKey x) [] with
          | Ok mask =>
              let unmasked := imap (fun i b => if masked_at ifacSize i then Z.lxor b (nth i mask 0) else b) data in
              let newRaw := Z.land (nth 0 unmasked 0) 0x7f :: nth 1 unmasked 0 :: drop (2 + n) unmasked in
              let sig := ed_sign signer newRaw in
              if zlen sig <? ifacSize then None
              else if bytes_eqb ifac (drop (Z.to_nat (zlen sig - ifacSize)) sig) then Some newRaw else None
          | _ => None
          end
    end.
End WithCrypto.

(** ** Theorems *)

Lemma masked_at_low n i : (i < 2)%nat -> masked_at n i = true.
Proof. intros H. unfold masked_at. by rewrite (proj2 (Nat.leb_le i 1)) by lia. Qed.

Lemma masked_at_code n k i : Z.of_nat k = n -> (i < k)%nat -> masked_at n (2 + i) = false.
Proof.
  intros <- H. unfold masked_at. rewrite (proj2 (Nat.leb_gt _ _)) by lia. cbn. apply Z.ltb_ge. lia.
Qed.

Lemma masked_at_body n k i : Z.of_nat k = n -> masked_at n (2 + k + i) = true.
Proof. intros <-. unfold masked_at. apply orb_true_iff. right. apply Z.ltb_lt. lia. Qed.

Lemma imap_id_on {A} (g : nat -> A -> A) l : (forall i x, (i < length l)%nat -> g i x = x) -> imap g l = l.
Proof.
  revert g. induction l as [|x l IH]; intros g H; [done|]. cbn. rewrite H by (cbn; lia). f_equal.
  apply IH. intros i y Hi. apply H. cbn. lia.
Qed.

(** Masking touches the two header bytes and the payload, not the code. *)
Lemma imap_masked (f : nat -> Z -> Z) n a b code body :
  zlen code = n ->
  imap (fun i x => if masked_at n i then f i x else x) (a :: b :: code ++ body) =
  f 0%nat a :: f 1%nat b :: code ++ imap (fun i => f (2 + length code + i)%nat) body.
Proof.
  intros Hn. rewrite !imap_cons. unfold compose. rewrite (masked_at_low n 0), (masked_at_low n 1) by lia. do 2 f_equal.
  rewrite imap_app. f_equal.
  - apply imap_id_on. intros i x Hi. by rewrite (masked_at_code n (length code) i Hn Hi : masked_at n (S (S i)) = false).
  - apply imap_ext. intros i x _.
    by rewrite (masked_at_body n (length code) i Hn : masked_at n (S (S (length code + i))) = true).
Qed.

Lemma imap_lxor_twice (g : nat -> Z) l : imap (fun i x => Z.lxor x (g i)) (imap (fun i x => Z.lxor x (g i)) l) = l.
Proof.
  revert g. induction l as [|x l IH]; intros g; [done|]. cbn. f_equal; [|apply (IH (g ∘ S))].
  by rewrite Z.lxor_assoc, Z.lxor_nilpotent, Z.lxor_0_r.
Qed.

(** The flag bit survives the mask and hides nothing of a header byte. *)
Lemma flag_bit f m : Z.land (Z.lor (Z.lxor (Z.lor f 0x80) m) 0x80) 0x80 = 0x80.
Proof. apply Z.bits_inj'. intros k _. rewrite Z.land_spec, Z.lor_spec. by destruct (Z.testbit 0x80 k); rewrite ?orb_true_r, ?andb_false_r. Qed.

Lemma unmask_flags f m :
  0 <= f < 128 -> Z.land (Z.lxor (Z.lor (Z.lxor (Z.lor f 0x80) m) 0x80) m) 0x7f = f.
Proof.
  intros Hf. transitivity (Z.land f 0x7f).
  - apply Z.bits_inj'. intros k Hk. rewrite !Z.land_spec, !Z.lxor_spec, !Z.lor_spec, Z.lxor_spec, Z.lor_spec.
    destruct (Z.testbit 0x7f k) eqn:E7; [|by rewrite !andb_false_r].
    assert (Z.testbit 0x80 k = false) as ->.
    { destruct (Z.testbit 0x80 k) eqn:E; [|done]. assert (Z.testbit (Z.land 0x80 0x7f) k = true) as H
        by (by rewrite Z.land_spec, E, E7). by rewrite Z.testbit_0_l in H. }
    rewrite !orb_false_r, !andb_true_r. by destruct (Z.testbit f k), (Z.testbit m k).
  - change 0x7f with (Z.ones 7). rewrite Z.land_ones by lia. by apply Z.mod_small.
Qed.

Section IfacFacts.
Context `{Sh : Sha256} {ShL : Sha256Laws} `{Cu : Curves} {CuL : CurvesLaws}.

(** Where access codes are in use, the code has between 1 and 64 bytes. *)
Lemma SetIFACConfig_size d cfg s n :
  ifac_enabled (SetIFACConfig d cfg) = Some (s, n) -> 1 <= n <= 64.
Proof.
  unfold SetIFACConfig, ifac_enabled. destruct (Enabled cfg) eqn:He; [|done]. cbn [negb].
  set (size := if IFACMaxSize <? _ then _ else _).
  assert (Hsize : 1 <= size <= 64).
  { unfold size, DefaultIFACSize, IFACMaxSize. zcase. }
  clearbody size. destruct (_ =? 0)%nat; [done|]. destruct (HKDF _ _ _ _) as [k|e|]; [|done..].
  destruct (negb (length k =? 64)%nat); [done|]. destruct (NewEd25519PrivateKeyFromBytes _) as [sg|e|]; [|done..].
  intros H. cbn [ifacSigner ifacConfig ifacKey] in H. destruct (_ && _); [|done]. injection H as <- <-. exact Hsize.
Qed.

Lemma code_length signer n data :
  0 <= n <= 64 -> zlen (drop (Z.to_nat (zlen (ed_sign signer data) - n)) (ed_sign signer data)) = n.
Proof. intros H. unfold zlen. rewrite length_drop, ed_sign_length. lia. Qed.

(** The frame that leaves an interface. *)
Lemma ApplyIFACOutbound_frame x signer n f h body :
  ifac_enabled x = Some (signer, n) -> 1 <= n <= 64 -> body <> [] ->
  let data := f :: h :: body in
  let code := drop (Z.to_nat (64 - n)) (ed_sign signer data) in
  exists mask, HKDF (zlen data + n) code (ifacKey x) [] = Ok mask /\
  ApplyIFACOutbound x data =
    Ok (Z.lor (Z.lxor (Z.lor f 0x80) (nth 0 mask 0)) 0x80 :: Z.lxor h (nth 1 mask 0) :: code ++
        imap (fun i b => Z.lxor b (nth (2 + length code + i) mask 0)) body).
Proof.
  intros Hx Hn Hb data code.
  assert (Hs : zlen (ed_sign signer data) = 64) by (unfold zlen; by rewrite ed_sign_length).
  assert (Hc : zlen code = n) by (unfold code; rewrite <- Hs; apply code_length; lia).
  destruct (HKDF_size (zlen data + n) code (ifacKey x) []) as (mask & Hm & _).
  { unfold zlen. lia. }
  { intros E. rewrite E in Hc. unfold zlen in Hc. cbn in Hc. lia. }
  exists mask. split; [done|]. unfold ApplyIFACOutbound, data. rewrite Hx. fold data.
  rewrite (proj2 (Nat.leb_gt _ _)) by (destruct body; cbn; [done|lia]).
  rewrite Hs, (proj2 (Z.ltb_ge 64 n)) by lia. fold code. rewrite Hm. f_equal.
  pose proof (imap_masked (fun i b => if (i =? 0)%nat then Z.lor (Z.lxor b (nth i mask 0)) 0x80 else Z.lxor b (nth i mask 0))
                n (Z.lor f 0x80) h code body Hc) as E.
  etransitivity; [|etransitivity; [apply E|]]; [|cbn [Nat.eqb Nat.add]; reflexivity].
  apply imap_ext. intros [|i] y _; [by rewrite masked_at_low by lia|done].
Qed.

(** What one interface of a network sends, another interface of the same
    network accepts and restores: the access code verifies and the mask is
    removed, for every frame whose flag bit is clear. *)
Theorem ifac_roundtrip x signer n f h body :
  ifac_enabled x = Some (signer, n) -> 1 <= n <= 64 -> 0 <= f < 128 -> body <> [] ->
  exists frame, ApplyIFACOutbound x (f :: h :: body) = Ok frame /\
    ApplyIFACInbound x frame = Some (f :: h :: body) /\ length frame = (Z.to_nat n + 2 + length body)%nat.
Proof.
  intros Hx Hn Hf Hb. destruct (ApplyIFACOutbound_frame x signer n f h body Hx Hn Hb) as (mask & Hm & Ho).
  set (data := f :: h :: body) in *. set (code := drop (Z.to_nat (64 - n)) (ed_sign signer data)) in *.
  assert (Hs : zlen (ed_sign signer data) = 64) by (unfold zlen; by rewrite ed_sign_length).
  assert (Hc : zlen code = n) by (unfold code; rewrite <- Hs; apply code_length; lia).
  eexists. split; [exact Ho|]. clear Ho.
  set (tail := imap _ body) in *. assert (Ht : length tail = length body) by apply length_imap.
  assert (Hk : length code = Z.to_nat n) by (unfold zlen in Hc; lia).
  split; [|cbn; rewrite length_app, Ht, Hk; lia].
  unfold ApplyIFACInbound. rewrite (proj2 (Nat.leb_gt _ _)) by (cbn; rewrite length_app; lia). rewrite Hx.
  cbn [nth]. rewrite flag_bit, Z.eqb_refl. cbn [negb].
  assert (Hb' : (0 < length body)%nat) by (destruct body; cbn; [done|lia]).
  rewrite (proj2 (Z.leb_gt _ _)) by (unfold zlen; cbn [length]; rewrite length_app, Ht; lia).
  assert (forall u v : Z, slice 2 (2 + Z.to_nat n) (u :: v :: code ++ tail) = code) as ->.
  { intros u v. apply (slice_app_mid [u; v]); [done|lia]. }
  rewrite <- Hk.
  assert (zlen (Z.lor (Z.lxor (Z.lor f 128) (nth 0 mask 0)) 128 :: Z.lxor h (nth 1 mask 0) :: code ++ tail) = zlen data + n) as ->.
  { unfold zlen, data in *. cbn [length]. rewrite length_app, Ht. lia. }
  rewrite Hm. cbv beta. rewrite (imap_masked (fun i b => Z.lxor b (nth i mask 0))) by done. cbn [nth].
  rewrite unmask_flags by done. rewrite Z.lxor_assoc, Z.lxor_nilpotent, Z.lxor_0_r.
  assert (forall (u v : Z) l, drop (2 + length code) (u :: v :: code ++ l) = l) as -> by (intros; cbn; apply drop_app_length).
  unfold tail. rewrite imap_lxor_twice. fold data. rewrite Hs, (proj2 (Z.ltb_ge 64 n)) by lia.
  fold code. by rewrite bytes_eqb_refl.
Qed.

(** C39: an interface that uses access codes accepts a frame only if its flag
    bit is set and its code is the end of the network key's signature of the
    payload, which is handed on with the flag bit clear. *)
Theorem ifac_authentic x signer n data p :
  ifac_enabled x = Some (signer, n) -> 1 <= n <= 64 -> ApplyIFACInbound x data = Some p ->
  Z.land (nth 0 data 0) 0x80 = 0x80 /\
  slice 2 (2 + Z.to_nat n) data = drop (Z.to_nat (64 - n)) (ed_sign signer p) /\
  (exists f h body, p = f :: h :: body /\ 0 <= f < 128) /\
  (length p + Z.to_nat n = length data)%nat.
Proof.
  intros Hx Hn. unfold ApplyIFACInbound. rewrite Hx. destruct (length data <=? 2)%nat; [done|].
  destruct (Z.land _ _ =? 0x80) eqn:Ef; [|done]. apply Z.eqb_eq in Ef. cbn [negb].
  destruct (Z.leb_spec (zlen data) (2 + n)); [done|].
  destruct (HKDF _ _ _ _) as [mask|e|]; [|done..]. cbv zeta.
  set (un := imap _ data). set (p' := _ :: _ :: drop _ un).
  assert (Hs : zlen (ed_sign signer p') = 64) by (unfold zlen; by rewrite ed_sign_length).
  rewrite Hs. destruct (64 <? n); [done|]. destruct (bytes_eqb _ _) eqn:Eb; [|done]. intros [= <-].
  apply bool_decide_eq_true in Eb. split; [done|]. split; [done|]. split.
  - do 3 eexists. split; [reflexivity|]. change 0x7f with (Z.ones 7). rewrite Z.land_ones by lia. apply Z.mod_pos_bound. lia.
  - unfold p'. cbn [length]. rewrite length_drop. unfold un. rewrite length_imap. unfold zlen in *. lia.
Qed.
End IfacFacts.

(** ** Witnesses *)

Module ToyIfac.
Import ToyCrypto ToyCurves.
Definition net : Ifac := SetIFACConfig 16 (mkIFACConfig true [110; 101; 116] [] 0).
Definition signer : bytes := match ifacSigner net with Some s => s | None => [] end.
End ToyIfac.

Section IfacWitnesses.
Import ToyCrypto ToyCurves ToyIfac.

Lemma ifac_roundtrip_witness :
  exists frame, ApplyIFACOutbound net [1; 2; 3; 4] = Ok frame /\
    ApplyIFACInbound net frame = Some [1; 2; 3; 4] /\ length frame = 20%nat.
Proof. apply (ifac_roundtrip net signer 16 1 2 [3; 4]); [vm_compute; reflexivity|lia|lia|done]. Defined.

Lemma ifac_authentic_witness :
  exists frame, ApplyIFACInbound net frame = Some [1; 2; 3; 4] /\
    slice 2 18 frame = drop 48 (ed_sign signer [1; 2; 3; 4]).
Proof.
  exists (match ApplyIFACOutbound net [1; 2; 3; 4] with Ok f => f | _ => [] end). split; [vm_compute; reflexivity|].
  apply (ifac_authentic net signer 16 _ [1; 2; 3; 4]); [vm_compute; reflexivity|lia|vm_compute; reflexivity].
Defined.
End IfacWitnesses.
