(* ===== verification/Routing.v ===== *)
(** * Routing along paths

    Theorems about [Forwarding] and [Announcing]: what one node does with a
    frame addressed to it, and what a line of nodes whose path tables agree
    does with a packet, its proof and an announce. *)

From stdpp Require Import base tactics option list gmap.
From Stdlib Require Import ZArith Lia PrimFloat.
From S2P Require Import Prelude Clock Crypto Packet Channel Buffer InboundQueues Msgpack Resource Identity Link Transport PathRequests Forwarding Announcing.
Local Open Scope Z_scope.
Local Open Scope go_scope.

(** What a frame says that no node on the way changes: the low four bits of
    the flags (destination and packet type), the destination, the context and
    the payload. *)
Record Msg := mkMsg {
  m_nib : Z;
  m_dest : bytes;
  m_ctx : Z;
  m_data : bytes;
}.

Definition m_destType (m : Msg) : Z := Z.shiftr (Z.land (m_nib m) 0x0c) 2.
Definition m_packetType (m : Msg) : Z := Z.land (m_nib m) 3.

(** A frame with flags [f], hop count [h] and transport ID [tid]. *)
Definition frame (f h : Z) (tid : bytes) (m : Msg) : bytes := raw_of f h tid (m_dest m) (m_ctx m) (m_data m).

(** The flags agree with the message and with the presence of a transport ID. *)
Definition flags_for (f : Z) (tid : bytes) (m : Msg) : Prop :=
  Z.land f 15 = m_nib m /\ length tid = if Z.shiftr (Z.land f 0x40) 6 =? 1 then 16%nat else 0%nat.

Section RoutingFacts.
Context `{Sh : Sha256} `{Ci : BlockCipher} `{Cu : Curves}.

Definition hashable (m : Msg) : bytes := m_nib m :: m_dest m ++ m_ctx m :: m_data m.
Definition msg_hash (m : Msg) : bytes := FullHash (hashable m).
Definition msg_truncated (m : Msg) : bytes := TruncatedHash (hashable m).
(** The ID of the link that a link request asks for. *)
Definition msg_linkID (m : Msg) : bytes :=
  TruncatedHash (take (length (hashable m) - (length (m_data m) - Z.to_nat LinkECPubSize)) (hashable m)).

(** A packet that carries [m], received with hop count [h]. *)
Record carries (f h : Z) (tid : bytes) (m : Msg) (rawHops : Z) (p : Packet) : Prop := {
  c_raw : Raw p = frame f rawHops tid m;
  c_flags : Flags p = f;
  c_hops : Hops p = h;
  c_header : HeaderType p = Z.shiftr (Z.land f 0x40) 6;
  c_cf : ContextFlag p = Z.shiftr (Z.land f 0x20) 5;
  c_dt : DestinationType p = m_destType m;
  c_pt : PacketType p = m_packetType m;
  c_tid : TransportID p = tid;
  c_dest : DestinationHash p = m_dest m;
  c_ctx : Context p = m_ctx m;
  c_data : Packet.Data p = m_data m;
  c_hash : PacketHash p = msg_hash m;
  c_for : flags_for f tid m;
}.

Lemma flags_types f tid m :
  flags_for f tid m -> Z.shiftr (Z.land f 0x0c) 2 = m_destType m /\ Z.land f 3 = m_packetType m.
Proof.
  intros [H _]. unfold m_destType, m_packetType. rewrite <- H, <- !Z.land_assoc. done.
Qed.

(** The hop count of a frame received on an interface of the network. *)
Definition plain_iface (i : IfaceInfo) : Prop :=
  spawnedLocalClient i = false /\ connectedToShared i = false.

Lemma parse_carries io f h tid m i :
  length (m_dest m) = 16%nat -> h < 128 -> flags_for f tid m -> plain_iface (io i) ->
  exists p, parse_frame io (frame f h tid m) i = Some p /\ carries f (h + 1) tid m h p.
Proof.
  intros Hd Hh Hf [Hs Hc]. pose proof (flags_types f tid m Hf) as [Hdt Hpt].
  destruct (Unpack_raw f h tid (m_dest m) (m_ctx m) (m_data m) Hd Hh (proj2 Hf))
    as (q & Hu & E1 & E2 & E3 & E4 & E5 & E6 & E7 & E8 & E9 & E10 & E11 & E12 & E13).
  unfold parse_frame, frame. rewrite Hu, Hs, Hc. cbn [orb].
  eexists. split; [reflexivity|]. split; cbn; try done; try congruence.
  by rewrite E13, (proj1 Hf).
Qed.

(** ** Acceptance *)

(** An interface without access codes that carries [n] bytes. *)
Definition open_iface (n : nat) (i : IfaceInfo) : Prop :=
  plain_iface i /\ (forall raw, ifacIn i raw = Some raw) /\
  match hardwareMTU i with Some hw => Z.of_nat n <= hw + ifacSize i | None => True end.

(** A message that travels along paths: no announce, no link proof, addressed
    to a single destination or a link. *)
Definition routable (m : Msg) : Prop :=
  length (m_dest m) = 16%nat /\ m_packetType m <> PacketAnnounce /\
  m_destType m <> DestinationPlain /\ m_destType m <> DestinationGroup /\ m_ctx m <> ContextLrproof.

Definition with_hashes (a b : gmap bytes Z) (t : Transport) : Transport :=
  t <| packetHashes := a |> <| packetHashesPrev := b |>.

Lemma with_hashes_id t : t = with_hashes (packetHashes t) (packetHashesPrev t) t.
Proof. by destruct t. Qed.

Lemma with_hashes_seen x a b t :
  packetHashSeenLocked x (with_hashes a b t) = bool_decide (is_Some (a !! x)) || bool_decide (is_Some (b !! x)).
Proof. done. Qed.

(** The hashes seen in [t'] are those seen in [t], and [h]. *)
Definition only_saw (h : bytes) (t t' : Transport) : Prop :=
  forall x, x <> h -> packetHashSeenLocked x t = false -> packetHashSeenLocked x t' = false.

(** The first copy of a packet passes the duplicate detection, which changes
    nothing but its own memory. *)
Lemma dedup_fresh now p t :
  packetHashSeenLocked (PacketHash p) t = false ->
  exists a b, dedup now p t = (with_hashes a b t, false) /\ only_saw (PacketHash p) t (with_hashes a b t).
Proof.
  intros Hs. unfold dedup. rewrite Hs.
  assert (Hid : exists a b, (t, false) = (with_hashes a b t, false) /\ only_saw (PacketHash p) t (with_hashes a b t)).
  { exists (packetHashes t), (packetHashesPrev t). rewrite <- with_hashes_id. split; [done|]. by intros x _. }
  destruct (_ && _); [done|]. destruct (connectedToSharedInstance t); [done|]. destruct (filter_exempt _); [done|].
  destruct (bool_decide _); [done|]. unfold seenOrRememberPacketHashLocked. rewrite Hs.
  destruct (_ <=? _);
    [exists (<[PacketHash p := now]> ∅), (packetHashes t)
    |exists (<[PacketHash p := now]> (packetHashes t)), (packetHashesPrev t)]; (split; [reflexivity|]); intros x Hx; rewrite with_hashes_seen;
    rewrite !lookup_insert_ne, ?lookup_empty by done; intros H; apply orb_false_iff in H as [H1 H2];
    by rewrite ?H1, ?H2.
Qed.

Lemma frame_length f h tid m : length (frame f h tid m) = (3 + length tid + length (m_dest m) + length (m_data m))%nat.
Proof. apply raw_of_length. Qed.

Lemma filter_passes p t f h tid m r :
  carries f h tid m r p -> routable m -> packetHashSeenLocked (msg_hash m) t = false ->
  (tid = [] \/ tidentity t = Some tid) -> packetFilter p t = (true, false).
Proof.
  intros C (Hd & Ha & Hp & Hg & _) Hs Ht. unfold packetFilter.
  rewrite (c_tid _ _ _ _ _ _ C), (c_pt _ _ _ _ _ _ C), (c_ctx _ _ _ _ _ _ C), (c_dt _ _ _ _ _ _ C), (c_hash _ _ _ _ _ _ C), Hs.
  destruct (connectedToSharedInstance t); [done|].
  assert (negb (length tid =? 0)%nat && negb (m_packetType m =? PacketAnnounce) &&
          match tidentity t with Some h => negb (bytes_eqb tid h) | None => false end = false) as ->.
  { destruct Ht as [->| ->]; [done|]. by rewrite bytes_eqb_refl, andb_false_r. }
  destruct (filter_exempt _); [done|].
  by rewrite (proj2 (Z.eqb_neq _ _) Hp), (proj2 (Z.eqb_neq _ _) Hg).
Qed.

Lemma accept_fresh io now f h tid m i t tc :
  routable m -> 0 <= h < 128 -> flags_for f tid m -> open_iface (length (frame f h tid m)) (io i) ->
  packetHashSeenLocked (msg_hash m) t = false -> (tid = [] \/ tidentity t = Some tid) ->
  exists p c a b, accept io now (frame f h tid m) i tc false t = (with_hashes a b t, [], Some (p, c)) /\
    carries f (h + 1) tid m h p /\ only_saw (msg_hash m) t (with_hashes a b t).
Proof.
  intros Hr Hh Hf (Hpl & Hifac & Hmtu) Hs Ht.
  destruct (parse_carries io f h tid m i) as (p & Hp & C); [apply Hr|lia|done|done|].
  unfold accept. rewrite (proj2 (Nat.eqb_neq _ _)) by (rewrite frame_length; lia). rewrite Hifac.
  assert (match hardwareMTU (io i) with Some hw => hw + ifacSize (io i) <? zlen (frame f h tid m) | None => false end = false) as ->.
  { destruct (hardwareMTU (io i)); [|done]. apply Z.ltb_ge. unfold zlen. lia. }
  rewrite Hp, (filter_passes p t f (h + 1) tid m h) by done. cbn [negb].
  destruct (dedup_fresh now p t) as (a & b & -> & Ho); [by rewrite (c_hash _ _ _ _ _ _ C)|]. cbn [andb].
  do 4 eexists. split; [reflexivity|]. split; [done|]. by rewrite <- (c_hash _ _ _ _ _ _ C).
Qed.

(** ** One relay *)

(** A node that is the next hop [id] for [m] and knows the path [e] out of
    interface [out]. *)
Record relay_node (m : Msg) (id : bytes) (e : PathEntry) (out : Iface) (t : Transport) : Prop := {
  rn_enabled : enabled t = true;
  rn_identity : tidentity t = Some id;
  rn_id : length id = 16%nat;
  rn_delta : localHopsDelta t = 0;
  rn_dest : destinationsMap t !! m_dest m = None;
  rn_link : FindLink (m_dest m) t = None;
  rn_request : pathRequestHash t <> m_dest m;
  rn_path : pathTable t !! m_dest m = Some e;
  rn_out : PInterface e = Some out;
  rn_hops : 1 <= PHops e;
  rn_next : 1 < PHops e -> length (NextHop e) = 16%nat;
}.

(** The flags and the transport ID of the forwarded frame. *)
Definition next_flags (f : Z) (e : PathEntry) : Z := if 1 <? PHops e then f else Z.land f 15.
Definition next_tid (e : PathEntry) : bytes := if 1 <? PHops e then NextHop e else [].

(** What the relay remembers: the link of a link request, the way back of
    another packet. *)
Definition recorded (io : Iface -> IfaceInfo) (now : Z) (m : Msg) (h : Z) (i : Iface) (e : PathEntry) (out : Iface) (t : Transport)
    : Transport :=
  if m_packetType m =? PacketLinkRequest then
    t <| linkTable ::= <[msg_linkID m := mkLinkEntry now (NextHop e) (Some out) (PHops e) i h (m_dest m) false
           (Add now (extraLinkProofTimeout (io i) + Z.max 1 (PHops e) * establishmentTimeoutPerHop))]> |>
  else t <| reverseTable ::= <[msg_truncated m := mkReverse i out now]> |>.

Lemma carries_hashable f h tid m r p :
  length (m_dest m) = 16%nat -> carries f h tid m r p -> GetHashablePart p = Ok (hashable m).
Proof.
  intros Hd C. unfold GetHashablePart. rewrite (c_raw _ _ _ _ _ _ C), (c_header _ _ _ _ _ _ C).
  destruct (c_for _ _ _ _ _ _ C) as [Hn Ht].
  destruct (raw_of_parts f r tid (m_dest m) (m_ctx m) (m_data m) (length tid) 16 eq_refl (eq_sym Hd)) as (_ & _ & _ & _ & H5).
  unfold frame. pose proof (raw_of_length f r tid (m_dest m) (m_ctx m) (m_data m)) as Hl.
  unfold raw_of at 1. change Header2 with 1. change 0x0F with 15. rewrite Hn.
  destruct (_ =? 1); rewrite Ht in *; rewrite (proj2 (Nat.ltb_ge _ _)) by (rewrite Hl; unfold dstLen; lia);
    unfold hashable; by rewrite <- H5.
Qed.

Lemma record_forward_recorded io now p i e out t f h tid m r :
  length (m_dest m) = 16%nat -> carries f h tid m r p ->
  record_forward io now p i e out t = Ok (recorded io now m h i e out t).
Proof.
  intros Hd C. pose proof (carries_hashable f h tid m r p Hd C) as Hh.
  unfold record_forward, recorded, LinkIDFromLR, GetTruncatedHash. rewrite Hh, (c_pt _ _ _ _ _ _ C), (c_data _ _ _ _ _ _ C).
  destruct (_ =? _); [|done]. cbn [mbind res_bind].
  rewrite (proj2 (Nat.ltb_ge _ _)) by (unfold hashable; cbn; rewrite length_app; cbn; lia). cbn [mbind res_bind].
  by rewrite (c_hops _ _ _ _ _ _ C), (c_dest _ _ _ _ _ _ C).
Qed.

Lemma next_flags_for f id m e :
  flags_for f id m -> length id = 16%nat -> (1 < PHops e -> length (NextHop e) = 16%nat) ->
  flags_for (next_flags f e) (next_tid e) m.
Proof.
  intros [Hf Ht] Hid Hn. unfold next_flags, next_tid. destruct (Z.ltb_spec 1 (PHops e)) as [Hm|Hm].
  - split; [done|]. rewrite (Hn Hm). congruence.
  - split; [by rewrite <- Z.land_assoc|]. rewrite <- (Z.land_assoc f 15 0x40). change (Z.land 15 0x40) with 0.
    by rewrite Z.land_0_r.
Qed.

(** The forwarded frame carries the same message. *)
Lemma forwarded_frame p e t f h id m r :
  carries f h id m r p -> length id = 16%nat -> 0 <= h < 256 -> 1 <= PHops e ->
  (1 < PHops e -> length (NextHop e) = 16%nat) ->
  forwarded_raw p e t = frame (next_flags f e) h (next_tid e) m.
Proof.
  intros C Hid Hh H1 Hn. unfold forwarded_raw, next_flags, next_tid.
  rewrite (c_raw _ _ _ _ _ _ C), (c_flags _ _ _ _ _ _ C), (c_hops _ _ _ _ _ _ C).
  destruct (Z.ltb_spec 1 (PHops e)) as [Hm|Hm].
  - specialize (Hn Hm).
    unfold frame, raw_of, with_hops. change dstLen with 16%nat. rewrite (take_ge (NextHop e)) by lia.
    rewrite Hn. cbn [take drop Nat.add app]. rewrite u8_id by (split; lia). do 2 f_equal.
    rewrite firstn_O. cbn [app]. rewrite <- Hid at 1. by rewrite drop_app_length.
  - assert (PHops e = 1) as -> by lia. cbn [Z.eqb Pos.eqb].
    unfold frame, raw_of. change (Z.shiftl Header1 6) with 0. rewrite Z.lor_0_l, u8_id by (split; lia).
    change (dstLen + 2)%nat with (2 + 16)%nat. cbn [drop Nat.add app]. do 2 f_equal. rewrite <- Hid at 1. apply drop_app_length.
Qed.

(** A relay forwards the message to the next hop and remembers where it came
    from. *)
Lemma process_relay io now env f h id m r i e out t p :
  routable m -> 0 <= h < 256 -> carries f h id m r p -> relay_node m id e out t ->
  processInboundPacket io now env p i t =
    Ok (recorded io now m h i e out t, [TSend out (frame (next_flags f e) h (next_tid e) m)]).
Proof.
  intros (Hd & Ha & _) Hh C [R1 R2 R3 R4 R5 R6 R7 R8 R9 R10 R11].
  unfold processInboundPacket, isPathRequestPacket. rewrite (c_dest _ _ _ _ _ _ C), R5, R6.
  assert (bytes_eqb (m_dest m) (pathRequestHash t) = false) as -> by (by apply bool_decide_eq_false).
  rewrite andb_false_r. rewrite bool_decide_eq_false_2 by (by intros [? ?]).
  unfold process_transport. rewrite (c_pt _ _ _ _ _ _ C), (proj2 (Z.eqb_neq _ _) Ha), R1. cbn [negb orb andb].
  assert (insert_transport_id p t = p) as ->.
  { unfold insert_transport_id. by rewrite (c_tid _ _ _ _ _ _ C), R3. }
  unfold is_next_hop. rewrite R2, (c_tid _ _ _ _ _ _ C), R3, bytes_eqb_refl. cbn [Nat.ltb Nat.leb andb].
  unfold forward_path. rewrite (c_dest _ _ _ _ _ _ C), R8, R9, (record_forward_recorded io now p i e out t f h id m r Hd C).
  cbn [mbind res_bind]. unfold mangleForwardedRaw. rewrite R4. cbn [Z.eqb orb].
  by rewrite (forwarded_frame p e t f h id m r C R3 Hh R10 R11).
Qed.

Lemma Inbound_relay io now env f h id m i e out t :
  routable m -> 0 <= h < 128 -> flags_for f id m -> open_iface (length (frame f h id m)) (io i) ->
  packetHashSeenLocked (msg_hash m) t = false -> relay_node m id e out t ->
  exists a b, Inbound io now env (frame f h id m) i t =
    Ok (recorded io now m (h + 1) i e out (with_hashes a b t),
        [TSend out (frame (next_flags f e) (h + 1) (next_tid e) m)]).
Proof.
  intros Hr Hh Hf Hi Hs Hn.
  destruct (accept_fresh io now f h id m i t noTrafficClass Hr Hh Hf Hi Hs) as (p & c & a & b & Ha & C & Ho').
  { right. apply (rn_identity _ _ _ _ _ Hn). }
  exists a, b. unfold Inbound. rewrite Ha.
  rewrite (process_relay io now env f (h + 1) id m h i e out (with_hashes a b t) p Hr) by (first [lia|done|by destruct Hn]).
  done.
Qed.

(** ** A line of nodes *)

(** A node, its interface towards the previous node and the one towards the
    next. *)
Record Node := mkNode {
  n_io : Iface -> IfaceInfo;
  n_now : Z;
  n_env : Env;
  n_in : Iface;
  n_out : Iface;
  n_t : Transport;
}.

(** The journey of a frame: each node receives what the one before sent.  The
    transports afterwards, and the frame the last one sends. *)
Fixpoint relays (raw : bytes) (ns : list Node) : option (list Transport * bytes) :=
  match ns with
  | [] => Some ([], raw)
  | n :: ns =>
      match Inbound (n_io n) (n_now n) (n_env n) raw (n_in n) (n_t n) with
      | Ok (t, [TSend o raw']) =>
          if (o =? n_out n)%nat then match relays raw' ns with Some (ts, r) => Some (t :: ts, r) | None => None end else None
      | _ => None
      end
  end.

Definition hears (m : Msg) (n : Node) : Prop :=
  open_iface (35 + length (m_data m)) (n_io n (n_in n)) /\ packetHashSeenLocked (msg_hash m) (n_t n) = false.

(** The path tables of the nodes agree on the way to the destination of [m],
    which the last of them reaches directly; [tid] is the transport ID the
    first node expects. *)
Inductive route (m : Msg) : bytes -> list Node -> Prop :=
  | route_end : route m [] []
  | route_relay id n e ns : hears m n -> relay_node m id e (n_out n) (n_t n) -> route m (next_tid e) ns ->
      route m id (n :: ns).

(** What a relay keeps of [m]. *)
Definition passed (m : Msg) (n : Node) (t : Transport) : Prop :=
  exists a b h e, t = recorded (n_io n) (n_now n) m h (n_in n) e (n_out n) (with_hashes a b (n_t n)).

Lemma open_iface_mono k n i : (k <= n)%nat -> open_iface n i -> open_iface k i.
Proof. intros H (P & I & M). split; [done|]. split; [done|]. destruct (hardwareMTU i); [lia|done]. Qed.

Lemma frame_fits m f h tid : routable m -> flags_for f tid m -> (length (frame f h tid m) <= 35 + length (m_data m))%nat.
Proof. intros [Hd _] [_ Ht]. rewrite frame_length, Hd, Ht. case_match; lia. Qed.

Lemma Inbound_local io now env f h tid m i t d :
  routable m -> 0 <= h < 128 -> flags_for f tid m -> open_iface (length (frame f h tid m)) (io i) ->
  packetHashSeenLocked (msg_hash m) t = false -> (tid = [] \/ tidentity t = Some tid) ->
  destinationsMap t !! m_dest m = Some d -> pathRequestHash t <> m_dest m ->
  exists a b p, Inbound io now env (frame f h tid m) i t = Ok (with_hashes a b t, [TDeliver (m_dest m) p]) /\
    carries f (h + 1) tid m h p.
Proof.
  intros Hr Hh Hf Hi Hs Ht Hd Hp.
  destruct (accept_fresh io now f h tid m i t noTrafficClass Hr Hh Hf Hi Hs Ht) as (p & c & a & b & Ha & C & Ho').
  exists a, b, p. split; [|done]. unfold Inbound. rewrite Ha. unfold processInboundPacket, isPathRequestPacket.
  rewrite (c_dest _ _ _ _ _ _ C). assert (bytes_eqb (m_dest m) (pathRequestHash (with_hashes a b t)) = false) as ->
    by (by apply bool_decide_eq_false). rewrite andb_false_r.
  rewrite bool_decide_eq_true_2 by (cbn; by rewrite Hd). done.
Qed.

Lemma relays_route m tid ns f h :
  routable m -> route m tid ns -> flags_for f tid m -> 0 <= h -> h + Z.of_nat (length ns) <= 128 ->
  exists ts f', relays (frame f h tid m) ns = Some (ts, frame f' (h + Z.of_nat (length ns)) [] m) /\
    flags_for f' [] m /\ Forall2 (passed m) ns ts.
Proof.
  intros Hr R. revert f h. induction R as [|id n e ns [Hi Hs] Hn R IH]; intros f h Hf Hh Hlen; cbn [relays length].
  - exists [], f. by rewrite Z.add_0_r.
  - cbn [length] in Hlen. pose proof (open_iface_mono _ _ _ (frame_fits m f h _ Hr Hf) Hi) as Hi'.
    destruct (Inbound_relay (n_io n) (n_now n) (n_env n) f h id m (n_in n) e (n_out n) (n_t n)) as (a & b & ->); try done.
    { lia. }
    rewrite Nat.eqb_refl.
    destruct (IH (next_flags f e) (h + 1)) as (ts & f' & -> & Hf' & Hts); [|lia|lia|].
    { apply (next_flags_for f id); [done|apply Hn|apply Hn]. }
    eexists (_ :: ts), f'. split; [do 3 f_equal; lia|]. split; [done|]. constructor; [|done]. by do 4 eexists.
Qed.

(** A packet that follows a route. *)
Lemma route_delivers m tid ns last d f h :
  routable m -> route m tid ns -> hears m last -> destinationsMap (n_t last) !! m_dest m = Some d ->
  pathRequestHash (n_t last) <> m_dest m -> flags_for f tid m -> 0 <= h -> h + Z.of_nat (length ns) < 128 ->
  exists ts raw t p, relays (frame f h tid m) ns = Some (ts, raw) /\
    Inbound (n_io last) (n_now last) (n_env last) raw (n_in last) (n_t last) = Ok (t, [TDeliver (m_dest m) p]) /\
    Packet.Data p = m_data m /\ PacketHash p = msg_hash m /\ Hops p = h + Z.of_nat (length ns) + 1 /\
    Forall2 (passed m) ns ts.
Proof.
  intros Hr R [Hi Hs] Hd Hp Hf Hh Hlen. destruct (relays_route m tid ns f h) as (ts & f' & -> & Hf' & Hts); [done..|lia|].
  set (k := h + Z.of_nat (length ns)) in *.
  destruct (Inbound_local (n_io last) (n_now last) (n_env last) f' k [] m (n_in last) (n_t last) d)
    as (a & b & p & Hin & C); try done.
  { lia. } { eapply open_iface_mono; [|done]. by apply frame_fits. } { by left. }
  do 4 eexists. split; [reflexivity|]. split; [exact Hin|].
  by rewrite (c_data _ _ _ _ _ _ C), (c_hash _ _ _ _ _ _ C), (c_hops _ _ _ _ _ _ C).
Qed.

(** C5: a packet sent towards a destination along relays whose path tables
    agree is delivered at the node that hosts it, with its payload, its packet
    hash and the number of hops travelled, and every relay has recorded it. *)
Theorem delivered_along_path m tid ns last d f h :
  routable m -> route m tid ns -> hears m last -> destinationsMap (n_t last) !! m_dest m = Some d ->
  pathRequestHash (n_t last) <> m_dest m -> flags_for f tid m -> 0 <= h -> h + Z.of_nat (length ns) < 128 ->
  exists ts raw t p, relays (frame f h tid m) ns = Some (ts, raw) /\
    Inbound (n_io last) (n_now last) (n_env last) raw (n_in last) (n_t last) = Ok (t, [TDeliver (m_dest m) p]) /\
    Packet.Data p = m_data m /\ PacketHash p = msg_hash m /\ Hops p = h + Z.of_nat (length ns) + 1 /\
    Forall2 (passed m) ns ts.
Proof. apply route_delivers. Qed.

(** ** The way back *)

(** A relay that passed a packet with truncated hash [m_dest m] from interface
    [back] to interface [out]. *)
Record back_node (m : Msg) (back out : Iface) (io : Iface -> IfaceInfo) (t : Transport) : Prop := {
  bn_enabled : enabled t = true;
  bn_delta : localHopsDelta t = 0;
  bn_dest : destinationsMap t !! m_dest m = None;
  bn_link : FindLink (m_dest m) t = None;
  bn_path : pathTable t !! m_dest m = None;
  bn_table : linkTable t !! m_dest m = None;
  bn_clients : Forall (fun c => spawnedLocalClient (io c) = false) (ifaces t);
  bn_reverse : exists at_, reverseTable t !! m_dest m = Some (mkReverse back out at_);
}.

Definition is_proof (m : Msg) : Prop := routable m /\ m_packetType m = PacketProof.

Lemma find_none {A} (f : A -> bool) l : Forall (fun x => f x = false) l -> List.find f l = None.
Proof. induction 1 as [|x l Hx _ IH]; [done|]. cbn. by rewrite Hx. Qed.

(** A proof that no local table claims reaches [process_proof]. *)
Lemma process_reaches_proof io now env f h m r i t p :
  is_proof m -> carries f h [] m r p -> enabled t = true -> destinationsMap t !! m_dest m = None ->
  FindLink (m_dest m) t = None -> pathTable t !! m_dest m = None -> linkTable t !! m_dest m = None ->
  processInboundPacket io now env p i t = process_proof io now env p i t.
Proof.
  intros [(Hd & Ha & _) Hp] C He Hdm Hfl Hpt Hlt.
  unfold processInboundPacket, isPathRequestPacket. rewrite (c_pt _ _ _ _ _ _ C), Hp. cbn [Z.eqb Pos.eqb andb PacketProof PacketData].
  rewrite (c_dest _ _ _ _ _ _ C), Hdm, Hfl. rewrite bool_decide_eq_false_2 by (by intros [? ?]).
  unfold process_transport. rewrite (c_pt _ _ _ _ _ _ C), Hp, He. cbn [Z.eqb Pos.eqb andb orb negb PacketProof PacketAnnounce].
  assert (insert_transport_id p t = p) as ->.
  { unfold insert_transport_id, isForLocalClient. by rewrite (c_dest _ _ _ _ _ _ C), Hpt, andb_false_r. }
  assert (is_next_hop p t = false) as ->.
  { unfold is_next_hop. rewrite (c_tid _ _ _ _ _ _ C). by destruct (tidentity t). }
  unfold forward_link. rewrite (c_dest _ _ _ _ _ _ C), Hlt.
  assert ((if negb (PacketType p =? PacketLinkRequest) && negb (Context p =? ContextLrproof)
           then None : option (Transport * list tr_event) else None) = None) as -> by (by destruct (_ && _)).
  unfold process_rest, broadcast_events. rewrite (c_pt _ _ _ _ _ _ C), Hp.
  cbn [Z.eqb Pos.eqb negb PacketProof PacketAnnounce]. rewrite !andb_false_r.
  destruct (process_proof io now env p i t) as [[t' ev]|e|]; done.
Qed.

Lemma with_hops_frame h f r tid m : 0 <= h < 256 -> with_hops h (frame f r tid m) = frame f h tid m.
Proof. intros Hh. unfold frame, raw_of, with_hops. by rewrite u8_id by (split; lia). Qed.

Lemma Inbound_back io now env f h m i back t :
  is_proof m -> 0 <= h < 128 -> flags_for f [] m -> open_iface (length (frame f h [] m)) (io i) ->
  packetHashSeenLocked (msg_hash m) t = false -> back_node m back i io t ->
  exists a b, Inbound io now env (frame f h [] m) i t = Ok (with_hashes a b t, [TSend back (frame f (h + 1) [] m)]).
Proof.
  intros Hm Hh Hf Hi Hs [B1 B2 B3 B4 B5 B6 B7 [at_ B8]].
  destruct (accept_fresh io now f h [] m i t noTrafficClass (proj1 Hm) Hh Hf Hi Hs) as (p & c & a & b & Ha & C & Ho'); [by left|].
  exists a, b. unfold Inbound. rewrite Ha.
  rewrite (process_reaches_proof io now env f (h + 1) m h i (with_hashes a b t) p) by done.
  unfold process_proof. rewrite (c_ctx _ _ _ _ _ _ C).
  rewrite (proj2 (Z.eqb_neq (m_ctx m) ContextLrproof)) by apply (proj1 Hm).
  rewrite find_none by (cbn; eapply Forall_impl; [exact B7|]; intros x Hx; cbn in Hx; by rewrite Hx).
  rewrite (c_dest _ _ _ _ _ _ C). cbn [reverseTable with_hashes].
  change (reverseTable (with_hashes a b t)) with (reverseTable t). rewrite B8. cbn [mbind res_bind ReceivedInterface].
  unfold forwardedHopByteLocked. destruct Hi as [[-> _] _]. cbn [negb orb].
  by rewrite (c_hops _ _ _ _ _ _ C), (c_raw _ _ _ _ _ _ C), with_hops_frame by lia.
Qed.

Lemma relays_back m ns f h :
  is_proof m -> Forall (fun n => hears m n /\ back_node m (n_out n) (n_in n) (n_io n) (n_t n)) ns ->
  flags_for f [] m -> 0 <= h -> h + Z.of_nat (length ns) <= 128 ->
  exists ts, relays (frame f h [] m) ns = Some (ts, frame f (h + Z.of_nat (length ns)) [] m).
Proof.
  intros Hm Hns Hf. revert h. induction Hns as [|n ns [[Hi Hs] Hb] _ IH]; intros h Hh Hlen; cbn [relays length].
  - exists []. by rewrite Z.add_0_r.
  - cbn [length] in Hlen.
    destruct (Inbound_back (n_io n) (n_now n) (n_env n) f h m (n_in n) (n_out n) (n_t n)) as (a & b & ->); try done.
    { lia. } { eapply open_iface_mono; [|done]. by apply frame_fits; [apply Hm|]. }
    rewrite Nat.eqb_refl. destruct (IH (h + 1)) as (ts & ->); [lia|lia|]. eexists. do 3 f_equal. lia.
Qed.

(** Exactly the receipts that a proof proves leave the list. *)
Lemma match_receipts_one p cap now rs1 r rs2 r' ev :
  ValidateProofPacket r (Packet.Data p) cap now = Ok (r', true, ev) ->
  Forall (fun x => ValidateProofPacket x (Packet.Data p) cap now = Ok (x, false, [])) (rs1 ++ rs2) ->
  match_receipts [] p cap now (rs1 ++ r :: rs2) = Ok (rs1 ++ rs2, [TReceipt ev]).
Proof.
  intros Hr Ho.
  assert (Hskip : forall l, Forall (fun x => ValidateProofPacket x (Packet.Data p) cap now = Ok (x, false, [])) l ->
            match_receipts [] p cap now l = Ok (l, [])).
  { induction 1 as [|x l Hx _ IH]; [done|]. cbn. rewrite Hx. cbn. by rewrite IH. }
  apply Forall_app in Ho as [H1 H2]. induction H1 as [|x l Hx _ IH]; cbn.
  - rewrite Hr. cbn. by rewrite Hskip.
  - rewrite Hx. cbn. by rewrite IH.
Qed.

(** The return of a relay: the frame comes from the interface it left by. *)
Definition turn (n : Node) (t : Transport) : Node := mkNode (n_io n) (n_now n) (n_env n) (n_out n) (n_in n) t.

(** What a relay needs to carry the proof [m] back: the interface towards the
    destination works, and no local table claims the proof. *)
Definition returns (m : Msg) (n : Node) (t : Transport) : Prop :=
  hears m (turn n t) /\ enabled t = true /\ localHopsDelta t = 0 /\ destinationsMap t !! m_dest m = None /\
  FindLink (m_dest m) t = None /\ pathTable t !! m_dest m = None /\ linkTable t !! m_dest m = None /\
  Forall (fun c => spawnedLocalClient (n_io n c) = false) (ifaces t).

Lemma returns_back pm m n t :
  m_packetType m <> PacketLinkRequest -> m_dest pm = msg_truncated m -> passed m n t -> returns pm n t ->
  hears pm (turn n t) /\ back_node pm (n_in n) (n_out n) (n_io n) t.
Proof.
  intros Hk Hd (a & b & h & e & ->) (Hh & R1 & R2 & R3 & R4 & R5 & R6 & R7). split; [done|].
  split; try done. unfold recorded. rewrite (proj2 (Z.eqb_neq _ _) Hk). exists (n_now n). cbn. rewrite Hd. apply lookup_insert_eq.
Qed.

(** C29: the proof of a packet that was relayed returns along the interfaces it
    came by, and concludes the receipt that waits for it at the sender. *)
Theorem proof_returns m pm ns ts f h o out rs1 r rs2 r' ev :
  m_packetType m <> PacketLinkRequest -> is_proof pm -> m_dest pm = msg_truncated m ->
  m_ctx pm <> ContextLinkProof -> flags_for f [] pm -> 0 <= h -> h + Z.of_nat (length ns) < 128 ->
  Forall2 (fun n t => passed m n t /\ returns pm n t) ns ts ->
  returns pm (mkNode (n_io o) (n_now o) (n_env o) out out (n_t o)) (n_t o) ->
  reverseTable (n_t o) !! m_dest pm = None ->
  receipts (n_t o) = rs1 ++ r :: rs2 ->
  ValidateProofPacket r (m_data pm) (length (m_data pm) + env_spare (n_env o)) (UnixSeconds (n_now o)) = Ok (r', true, ev) ->
  Forall (fun x => ValidateProofPacket x (m_data pm) (length (m_data pm) + env_spare (n_env o)) (UnixSeconds (n_now o))
                   = Ok (x, false, [])) (rs1 ++ rs2) ->
  exists ts' raw t', relays (frame f h [] pm) (rev (zip_with turn ns ts)) = Some (ts', raw) /\
    Inbound (n_io o) (n_now o) (n_env o) raw out (n_t o) = Ok (t', [TReceipt ev]) /\ receipts t' = rs1 ++ rs2.
Proof.
  intros Hk Hm Hd Hc Hf Hh Hlen Hns (Ho & O1 & O2 & O3 & O4 & O5 & O6 & O7) Ov Hrs Hr Hoth.
  assert (Hz : length (rev (zip_with turn ns ts)) = length ns).
  { rewrite length_rev, length_zip_with. apply Forall2_length in Hns. lia. }
  destruct (relays_back pm (rev (zip_with turn ns ts)) f h) as (ts' & Hrel); [done| |done|done|lia|].
  { apply Forall_rev, Forall_forall. intros n Hn. apply elem_of_lookup_zip_with in Hn as (k & x & y & -> & Hx & Hy).
    destruct (Forall2_lookup_lr _ _ _ _ _ _ Hns Hx Hy) as [Hp Hr']. exact (returns_back pm m x y Hk Hd Hp Hr'). }
  rewrite Hz in Hrel. exists ts'. set (k := h + Z.of_nat (length ns)) in *. destruct Ho as [Ho1 Ho2].
  destruct (accept_fresh (n_io o) (n_now o) f k [] pm out (n_t o) noTrafficClass) as (p & c & a & b & Ha & C & Ho'); try done.
  { apply Hm. } { lia. } { eapply open_iface_mono; [|exact Ho1]. by apply frame_fits; [apply Hm|]. } { by left. }
  do 2 eexists. split; [exact Hrel|]. unfold Inbound. rewrite Ha.
  rewrite (process_reaches_proof (n_io o) (n_now o) (n_env o) f (k + 1) pm k out (with_hashes a b (n_t o)) p) by done.
  unfold process_proof. rewrite (c_ctx _ _ _ _ _ _ C), (c_dest _ _ _ _ _ _ C).
  rewrite (proj2 (Z.eqb_neq (m_ctx pm) ContextLrproof)) by apply (proj1 Hm). rewrite (proj2 (Z.eqb_neq _ _) Hc). cbn [andb].
  rewrite find_none by (cbn; eapply Forall_impl; [exact O7|]; intros x Hx; cbn in Hx; by rewrite Hx).
  change (reverseTable (with_hashes a b (n_t o))) with (reverseTable (n_t o)). rewrite Ov.
  change (receipts (with_hashes a b (n_t o))) with (receipts (n_t o)). rewrite Hrs, (c_data _ _ _ _ _ _ C).
  rewrite (match_receipts_one p _ _ rs1 r rs2 r' ev) by (by rewrite (c_data _ _ _ _ _ _ C)).
  cbn [mbind res_bind app]. done.
Qed.
End RoutingFacts.

(** ** Witnesses *)

(** Transport nodes with two interfaces, 0 towards the sender and 1 towards the
    destination. *)
Module ToyNet.
Import ToyCrypto ToyCurves.
Definition iface : IfaceInfo :=
  mkIface 0 1 0 true true false false false false [] None None None true None false false false false None 0 None []
    (fun raw => Some raw) (fun raw => Some raw).
Definition io : Iface -> IfaceInfo := fun _ => iface.
Definition env : Env := mkEnv rnd rnd 0 (fun _ => None) true id 0.
Definition name (b : Z) : bytes := replicate 16 b.
Definition blank (id : bytes) : Transport :=
  mkTransport (Some id) true false true 0 [0; 1]%nat [9] ∅ [] [] [] ∅ ∅ 0 ∅ ∅ ∅ ∅ ∅ ∅ ∅ ∅ ∅ ∅ ∅ ∅ ∅ [].
Definition path (next : bytes) (hops : Z) : PathEntry := mkPath 0 next hops (10 ^ 20) [] (Some 1%nat) [] [] false 0 [].
Definition dest : bytes := name 7.
Definition here : DestinationT := mkDestination None 0 0 [] [] dest [] [] [] 0 false 0 None [] 0 0 None false 0 None.
Definition node (t : Transport) : Node := mkNode io (10 ^ 20) env 0 1 t.
(** A data packet, and the proof of it. *)
Definition hello : Msg := mkMsg 0 dest 0 [104; 105].
Definition first : Node := node (blank (name 1) <| pathTable := {[ dest := path (name 2) 2 ]} |>).
Definition second : Node := node (blank (name 2) <| pathTable := {[ dest := path dest 1 ]} |>).
Definition host : Node := node (blank (name 3) <| destinationsMap := {[ dest := here ]} |>).
Definition peer : PacketDestination :=
  {| GetHash := dest; GetType := 0; HasTransport := true; DEncrypt := fun pt => Ok pt;
     Impl := DDestination None (Some (fun _ _ => true)) |}.
Definition waiting : PacketReceipt := mkReceipt (msg_hash hello) (msg_truncated hello) true 0 10 false ReceiptSent (Some peer) 0 false true.
Definition proof : Msg := mkMsg 3 (msg_truncated hello) 0 (replicate 64 5).
Definition after (n : Node) (e : PathEntry) : Transport := recorded (n_io n) (n_now n) hello 1 (n_in n) e (n_out n) (with_hashes ∅ ∅ (n_t n)).
Definition origin : Node := node (blank (name 4) <| receipts := [waiting] |>).

(** Facts about closed nodes, by evaluation. *)
Ltac net_facts :=
  repeat match goal with
  | |- _ /\ _ => split
  | |- relay_node _ _ _ _ _ => constructor
  | |- hears _ _ => unfold hears, open_iface, plain_iface
  | |- routable _ => unfold routable
  | |- is_proof _ => unfold is_proof
  | |- flags_for _ _ _ => unfold flags_for
  | |- returns _ _ _ => unfold returns
  | |- passed _ _ (after _ ?e) => exists ∅, ∅, 1, e; reflexivity
  | |- Forall _ _ => vm_compute; repeat constructor
  | |- Forall2 _ _ _ => constructor
  end;
  try first [vm_compute; reflexivity | vm_compute; discriminate | vm_compute; lia | done].
End ToyNet.

Section RoutingWitnesses.
Import ToyCrypto ToyCurves ToyNet.

Lemma hello_route : route hello (name 1) [first; second].
Proof.
  apply (route_relay hello (name 1) first (path (name 2) 2)); [net_facts..|].
  apply (route_relay hello (name 2) second (path dest 1)); [net_facts..|]. constructor.
Qed.

Lemma delivered_along_path_witness :
  exists ts raw t p, relays (frame 0x50 0 (name 1) hello) [first; second] = Some (ts, raw) /\
    Inbound (n_io host) (n_now host) (n_env host) raw (n_in host) (n_t host) = Ok (t, [TDeliver (m_dest hello) p]) /\
    Packet.Data p = [104; 105] /\ Hops p = 3.
Proof.
  destruct (delivered_along_path hello (name 1) [first; second] host here 0x50 0) as (ts & raw & t & p & H1 & H2 & H3 & _ & H5 & _);
    [net_facts|apply hello_route|net_facts..|]. exists ts, raw, t, p.
  split; [exact H1|]. split; [exact H2|]. split; [exact H3|exact H5].
Defined.

Lemma proof_returns_witness :
  exists ts raw t', relays (frame 3 0 [] proof) (rev (zip_with turn [first; second]
      [after first (path (name 2) 2); after second (path dest 1)])) = Some (ts, raw) /\
    Inbound (n_io origin) (n_now origin) (n_env origin) raw 1 (n_t origin) = Ok (t', [TReceipt [DeliveryFired]]) /\ receipts t' = [] ++ [].
Proof.
  eapply (proof_returns hello proof [first; second] [after first (path (name 2) 2); after second (path dest 1)] 3 0 origin 1
    [] waiting [] _ [DeliveryFired]).
  all: net_facts.
Defined.
End RoutingWitnesses.
