(* ===== verification/Propagation.v ===== *)
(** * The propagation of announces

    Theorems about how announces fill the path tables: what a node learns from
    one announce, what it rebroadcasts, and that an announce which travels
    along a line of nodes leaves behind the path tables that [Routing] needs to
    bring packets back to the announced destination. *)

From stdpp Require Import base tactics option list gmap.
From Stdlib Require Import ZArith Lia PrimFloat.
From S2P Require Import Prelude Clock Crypto Packet Channel Buffer InboundQueues Msgpack Resource Identity Link Transport PathRequests Forwarding Announcing Routing.
Local Open Scope Z_scope.
Local Open Scope go_scope.

Section PropagationFacts.
Context `{Sh : Sha256} {ShL : Sha256Laws} `{Ci : BlockCipher} `{Cu : Curves}.

(** The message of an announce of a single destination. *)
Definition is_announce (m : Msg) : Prop :=
  length (m_dest m) = 16%nat /\ m_nib m = 1 /\ m_ctx m = ContextNone.

(** What the validation of an announce looks at. *)
Definition bare (cf : Z) (m : Msg) : Packet :=
  zeroPacket <| PacketType := m_packetType m |> <| ContextFlag := cf |> <| DestinationHash := m_dest m |>
             <| Packet.Data := m_data m |> <| PacketHash := msg_hash m |>.

Definition authentic (cf : Z) (m : Msg) : Prop := exists effects, ValidateAnnounce (bare cf m) = (true, effects).

Lemma ValidateAnnounce_carries f h tid m r p :
  carries f h tid m r p -> ValidateAnnounce p = ValidateAnnounce (bare (Z.shiftr (Z.land f 0x20) 5) m).
Proof.
  intros C. unfold ValidateAnnounce, announce_min, split_announce.
  rewrite (c_pt _ _ _ _ _ _ C), (c_data _ _ _ _ _ _ C), (c_cf _ _ _ _ _ _ C), (c_dest _ _ _ _ _ _ C), (c_hash _ _ _ _ _ _ C).
  done.
Qed.

(** ** What a node learns *)

(** The identity of an announced destination can be recalled. *)
Definition recalls (dest : bytes) (t : Transport) : Prop :=
  exists k i, knownDestinations t !! dest = Some k /\ known_identity k = Some i.

Lemma recalls_recall dest t : recalls dest t -> exists i, recallLocked dest t = Ok (Some i).
Proof. intros (k & i & Hk & Hi). unfold recallLocked. rewrite Hk, Hi. by exists i. Qed.

Definition with_known (kd : gmap bytes KnownDestination) (kr : gmap bytes bytes) (t : Transport) : Transport :=
  t <| knownDestinations := kd |> <| knownRatchets := kr |>.

Lemma with_known_id t : t = with_known (knownDestinations t) (knownRatchets t) t.
Proof. by destruct t. Qed.

Lemma apply_announce_learns cf m effects t :
  ValidateAnnounce (bare cf m) = (true, effects) ->
  exists kd kr, apply_announce effects t = with_known kd kr t /\ recalls (m_dest m) (with_known kd kr t).
Proof.
  unfold ValidateAnnounce. destruct (negb _); [done|]. destruct (_ <? _)%nat; [done|].
  set (a := split_announce (bare cf m)). destruct (LoadPublicKey (a_publicKey a) zeroIdentity) as [i|e|] eqn:Hl; [|done..].
  clearbody a. destruct (negb _); [done|]. destruct (negb _); [done|]. intros H. apply (f_equal snd) in H. cbn [snd] in H.
  subst effects. change (DestinationHash (bare cf m)) with (m_dest m).
  set (k := mkKnown (PacketHash (bare cf m)) (a_publicKey a) (a_appData a)
              match knownDestinations t !! m_dest m with Some k => k_use k | None => 0 end).
  set (kd := <[m_dest m := k]> (knownDestinations t)).
  assert (Hrec : forall kr, recalls (m_dest m) (with_known kd kr t)).
  { intros kr. exists k, (i <| AppData := a_appData a |>). split; [apply lookup_insert_eq|].
    unfold known_identity, k. cbn [k_publicKey k_appData]. by rewrite Hl. }
  unfold apply_announce. destruct (0 <? length (a_ratchet a))%nat; cbn [foldl app].
  - unfold TSetRatchet. destruct (_ || _); eexists kd, _; (split; [reflexivity|apply Hrec]).
  - exists kd, (knownRatchets t). split; [by destruct t|apply Hrec].
Qed.

Lemma used_known now dest t :
  recalls dest t -> exists kd, usedDestinationDataLocked now dest t = with_known kd (knownRatchets t) t /\
    recalls dest (with_known kd (knownRatchets t) t).
Proof.
  intros (k & i & Hk & Hi). unfold usedDestinationDataLocked. rewrite Hk. destruct (k_use k <? 0).
  - exists (knownDestinations t). rewrite <- with_known_id. split; [done|]. by exists k, i.
  - exists (<[dest := k <| k_use := now |>]> (knownDestinations t)). split; [by destruct t|].
    exists (k <| k_use := now |>), i. split; [apply lookup_insert_eq|done].
Qed.

(** A node for which the announced destination is new, and that neither holds
    nor limits the announces of interface [i]. *)
Record listens (m : Msg) (io : Iface -> IfaceInfo) (i : Iface) (t : Transport) : Prop := {
  ls_dest : destinationsMap t !! m_dest m = None;
  ls_path : pathTable t !! m_dest m = None;
  ls_announce : announceTable t !! m_dest m = None;
  ls_limit : ingressLimit (io i) = false;
  ls_rate : rateTarget (io i) = None;
  ls_client : spawnedLocalClient (io i) = false;
}.

(** The next hop an announce teaches: who rebroadcast it, or the destination
    itself. *)
Definition teacher (tid : bytes) (m : Msg) : bytes := if (0 <? length tid)%nat then tid else m_dest m.

Definition taught_path (io : Iface -> IfaceInfo) (now : Z) (f r h : Z) (tid : bytes) (m : Msg) (i : Iface) : PathEntry :=
  mkPath now (teacher tid m) h (Add now (pathExpiryForInterface (io i))) (option_list (random_blob (bare 0 m))) (Some i)
    (frame f r tid m) (msg_hash m) false 0 (interfaceHash (io i)).

(** The tables after a new announce. *)
Definition learned (io : Iface -> IfaceInfo) (now delay : Z) (f r h : Z) (tid : bytes) (m : Msg) (i : Iface)
    (kd : gmap bytes KnownDestination) (kr : gmap bytes bytes) (t : Transport) : Transport :=
  with_known kd kr t
    <| pathTable := <[m_dest m := taught_path io now f r h tid m i]> (pathTable t) |>
    <| inflightPathRequests := delete (m_dest m) (inflightPathRequests t) |>
    <| announceTable := if enabled t then <[m_dest m := mkAnnounceEntry (frame f h tid m) i h (Add now delay) 0 0]> (announceTable t)
                        else announceTable t |>.

Lemma update_path_new io now p i t f h tid m r :
  carries f h tid m r p -> length (m_dest m) = 16%nat -> pathTable t !! m_dest m = None ->
  update_path io now p i t =
    Ok (Some (t <| pathTable := <[m_dest m := taught_path io now f r h tid m i]> (pathTable t) |>
                <| inflightPathRequests := delete (m_dest m) (inflightPathRequests t) |>, true)).
Proof.
  intros C Hd Hp. unfold update_path. rewrite (c_dest _ _ _ _ _ _ C), Hp. unfold nextHopFromAnnounce, PGetHash.
  rewrite (c_tid _ _ _ _ _ _ C), (c_dest _ _ _ _ _ _ C), (carries_hashable f h tid m r p Hd C).
  assert (random_blob p = random_blob (bare 0 m)) as -> by (unfold random_blob; by rewrite (c_data _ _ _ _ _ _ C)).
  unfold learned_path. rewrite (c_hops _ _ _ _ _ _ C), (c_raw _ _ _ _ _ _ C). unfold taught_path, teacher.
  destruct (0 <? length tid)%nat; [done|]. by rewrite Hd.
Qed.

Lemma handleAnnounce_new io now delay p i t f h tid m r :
  carries f h tid m r p -> is_announce m -> 0 <= h < 256 -> authentic (Z.shiftr (Z.land f 0x20) 5) m -> listens m io i t ->
  exists kd kr ev, handleAnnounce io now delay p i t = (learned io now delay f r h tid m i kd kr t, ev) /\
    recalls (m_dest m) (with_known kd kr t).
Proof.
  intros C (Hd & _ & Hc) Hh [eff Hv] [L2 L3 L4 L5 L6 L7]. unfold handleAnnounce.
  rewrite (ValidateAnnounce_carries f h tid m r p C), Hv.
  destruct (apply_announce_learns _ m eff t Hv) as (kd & kr & -> & Hrec).
  rewrite (c_dest _ _ _ _ _ _ C). rewrite bool_decide_eq_false_2 by (cbn; rewrite L2; by intros [? ?]).
  assert (shouldHoldAnnounce io p i (with_known kd kr t) = false) as ->.
  { unfold shouldHoldAnnounce. by rewrite L5, andb_false_r. }
  assert (note_rebroadcast now p (with_known kd kr t) = with_known kd kr t) as ->.
  { unfold note_rebroadcast. rewrite (c_dest _ _ _ _ _ _ C). cbn [announceTable with_known].
    change (announceTable (with_known kd kr t)) with (announceTable t). rewrite L4. by destruct (_ && _). }
  rewrite (update_path_new io now p i (with_known kd kr t) f h tid m r C Hd L3). cbn [negb].
  set (t1 := with_known kd kr t <| pathTable := _ |> <| inflightPathRequests := _ |>).
  assert (Hu : exists kd' kr', (if bool_decide (is_Some (pathRequests t1 !! m_dest m)) then usedDestinationDataLocked now (m_dest m) t1 else t1)
            = with_known kd' kr' t1 /\ recalls (m_dest m) (with_known kd' kr' t1)).
  { destruct (bool_decide _); [|exists kd, kr; by destruct t]. destruct (used_known now (m_dest m) t1) as (kd' & -> & H); [done|].
    by do 2 eexists. }
  destruct Hu as (kd' & kr' & -> & Hrec'). exists kd', kr'. eexists. split; [|done]. f_equal.
  unfold queue_rebroadcast, check_rate. rewrite L7, L6, (c_ctx _ _ _ _ _ _ C), Hc, (c_dest _ _ _ _ _ _ C).
  change (enabled (with_known kd' kr' t1)) with (enabled t). unfold learned.
  destruct (enabled t) eqn:He; cbn [orb andb negb Z.eqb ContextNone ContextPathResponse]; [|by destruct t].
  change (announceTable (with_known kd' kr' t1)) with (announceTable t). rewrite L4.
  rewrite (c_hops _ _ _ _ _ _ C), (c_raw _ _ _ _ _ _ C), with_hops_frame by done. by destruct t.
Qed.

Lemma accept_announce io now f h tid m i t tc :
  is_announce m -> 0 <= h < 128 -> flags_for f tid m -> open_iface (length (frame f h tid m)) (io i) ->
  packetHashSeenLocked (msg_hash m) t = false ->
  exists p c a b, accept io now (frame f h tid m) i tc false t = (with_hashes a b t, [], Some (p, c)) /\
    carries f (h + 1) tid m h p /\ only_saw (msg_hash m) t (with_hashes a b t).
Proof.
  intros (Hd & Hn & Hc) Hh Hf (Hpl & Hifac & Hmtu) Hs.
  destruct (parse_carries io f h tid m i) as (p & Hp & C); [done|lia|done|done|].
  unfold accept. rewrite (proj2 (Nat.eqb_neq _ _)) by (rewrite frame_length; lia). rewrite Hifac.
  assert (match hardwareMTU (io i) with Some hw => hw + ifacSize (io i) <? zlen (frame f h tid m) | None => false end = false) as ->.
  { destruct (hardwareMTU (io i)); [|done]. apply Z.ltb_ge. unfold zlen. lia. }
  rewrite Hp.
  assert (packetFilter p t = (true, false)) as ->.
  { unfold packetFilter. rewrite (c_pt _ _ _ _ _ _ C), (c_ctx _ _ _ _ _ _ C), (c_dt _ _ _ _ _ _ C), (c_hash _ _ _ _ _ _ C), Hs, Hc.
    unfold m_packetType, m_destType. rewrite Hn. change (Z.land 1 3) with 1. change (Z.shiftr (Z.land 1 12) 2) with 0.
    change (1 =? PacketAnnounce) with true. rewrite andb_false_r. by destruct (connectedToSharedInstance t). }
  cbn [negb]. destruct (dedup_fresh now p t) as (a & b & -> & Ho); [by rewrite (c_hash _ _ _ _ _ _ C)|]. cbn [andb].
  do 4 eexists. split; [reflexivity|]. split; [done|]. by rewrite <- (c_hash _ _ _ _ _ _ C).
Qed.

(** A node that hears a new announce learns the path to its destination. *)
Lemma Inbound_announce io now env f h tid m i t :
  is_announce m -> 0 <= h < 128 -> flags_for f tid m -> authentic (Z.shiftr (Z.land f 0x20) 5) m ->
  open_iface (length (frame f h tid m)) (io i) -> packetHashSeenLocked (msg_hash m) t = false ->
  listens m io i t -> FindLink (m_dest m) t = None ->
  exists a b kd kr ev,
    Inbound io now env (frame f h tid m) i t =
      Ok (learned io now (env_delay env) f h (h + 1) tid m i kd kr (with_hashes a b t), ev) /\
    recalls (m_dest m) (with_known kd kr t) /\ only_saw (msg_hash m) t (with_hashes a b t).
Proof.
  intros Hm Hh Hf Hv Hi Hs L Hl.
  destruct (accept_announce io now f h tid m i t noTrafficClass Hm Hh Hf Hi Hs) as (p & c & a & b & Ha & C & Ho).
  destruct (handleAnnounce_new io now (env_delay env) p i (with_hashes a b t) f (h + 1) tid m h C Hm)
    as (kd & kr & ev & Hh' & Hr); [lia|done|by destruct L|].
  exists a, b, kd, kr, ev. split; [|done]. unfold Inbound. rewrite Ha.
  destruct Hm as (Hd & Hn & Hc). assert (Hpt : PacketType p = PacketAnnounce).
  { rewrite (c_pt _ _ _ _ _ _ C). unfold m_packetType. by rewrite Hn. }
  unfold processInboundPacket, isPathRequestPacket. rewrite Hpt. cbn [Z.eqb Pos.eqb PacketAnnounce PacketData andb].
  rewrite (c_dest _ _ _ _ _ _ C).
  rewrite bool_decide_eq_false_2 by (change (destinationsMap (with_hashes a b t)) with (destinationsMap t);
    rewrite (ls_dest _ _ _ _ L); by intros [? ?]).
  change (FindLink (m_dest m) (with_hashes a b t)) with (FindLink (m_dest m) t). rewrite Hl.
  unfold process_transport. rewrite Hpt. cbn [Z.eqb Pos.eqb PacketAnnounce negb andb]. unfold process_rest.
  rewrite Hpt. cbn [Z.eqb Pos.eqb PacketAnnounce PacketProof]. unfold process_announce.
  rewrite Hh', (c_ctx _ _ _ _ _ _ C), Hc. done.
Qed.

(** ** What a node rebroadcasts *)

(** The rebroadcast leaves on interface [o] at once. *)
Definition eager (io : Iface -> IfaceInfo) (now : Z) (from o : Iface) (hops : Z) (t : Transport) : Prop :=
  up (io o) = true /\ isOut (io o) = true /\
  match shouldTransmitAnnounce io o (Some from) false hops with
  | announceBlock => False
  | announceDirect => True
  | announceCapped => bitrate (io o) <= 0 \/ (q_queue (queue_state o t) = [] /\ allowedAt (queue_state o t) < now)
  end.

Definition with_queues (q : gmap Iface announceQueueState) (t : Transport) : Transport := t <| announceQueues := q |>.

Lemma queueOrSend_shape io now o dest raw hops t :
  exists q r, queueOrSendAnnounceLocked io now o dest raw hops t = (with_queues q t, r) /\
    (forall j, j <> o -> q !! j = announceQueues t !! j) /\ (forall raw', r = Some raw' -> raw' = raw).
Proof.
  unfold queueOrSendAnnounceLocked. destruct (_ <=? 0); [|destruct (_ && _); [|destruct (_ <=? _)]];
    eexists _, _; (split; [reflexivity|]); (split; [intros j Hj; by apply lookup_insert_ne|by intros raw' [= <-]]).
Qed.

Lemma queueOrSend_eager io now o dest raw hops t :
  bitrate (io o) <= 0 \/ (q_queue (queue_state o t) = [] /\ allowedAt (queue_state o t) < now) ->
  (queueOrSendAnnounceLocked io now o dest raw hops t).2 = Some raw.
Proof.
  intros H. unfold queueOrSendAnnounceLocked. destruct (Z.leb_spec (bitrate (io o)) 0); [done|].
  destruct H as [H|[-> H]]; [lia|]. cbn [length Nat.eqb andb]. unfold After. by rewrite (proj2 (Z.ltb_lt _ _) H).
Qed.

(** The jobs only change the announce queues, and include the one for an eager
    interface. *)
Lemma rebroadcast_on_eager io now dest e x t jobs :
  exists q js, rebroadcast_on io now dest e false (t, jobs) x = (with_queues q t, jobs ++ js) /\
    (forall j, j <> x -> q !! j = announceQueues t !! j) /\ Forall (fun j => j_raw j = PacketRaw e) js /\
    (PacketRaw e <> [] -> eager io now (SourceInterface e) x (AHops e) t -> mkJob x (PacketRaw e) (AHops e) ∈ js).
Proof.
  unfold rebroadcast_on, eager.
  assert (Hsame : forall (P : Prop), (P -> False) -> exists q js, (t, jobs) = (with_queues q t, jobs ++ js) /\
            (forall j, j <> x -> q !! j = announceQueues t !! j) /\ Forall (fun j => j_raw j = PacketRaw e) js /\
            (PacketRaw e <> [] -> P -> mkJob x (PacketRaw e) (AHops e) ∈ js)).
  { intros P HP. exists (announceQueues t), []. rewrite app_nil_r. split; [by destruct t|]. split; [done|]. split; [done|].
    intros _ H. by destruct (HP H). }
  destruct (up (io x)); cbn [negb orb]; [|apply Hsame; by intros [? _]].
  destruct (isOut (io x)); cbn [negb]; [|apply Hsame; by intros (_ & ? & _)].
  destruct (shouldTransmitAnnounce _ _ _ _ _).
  - apply Hsame. by intros (_ & _ & ?).
  - eexists (announceQueues t), [_]. split; [by destruct t|]. split; [done|]. split; [by constructor|].
    intros _ _. by apply list_elem_of_singleton.
  - destruct (queueOrSend_shape io now x dest (PacketRaw e) (AHops e) t) as (q & r & Hq & Hne & Hsame').
    pose proof (queueOrSend_eager io now x dest (PacketRaw e) (AHops e) t) as He. rewrite Hq in He |- *. cbn [snd] in He.
    destruct r as [raw|].
    + exists q, (if (0 <? length raw)%nat then [mkJob x raw (AHops e)] else []).
      split; [by destruct (_ <? _)%nat; rewrite ?app_nil_r|].
      split; [done|]. split; [destruct (_ <? _)%nat; constructor; by auto|]. intros Hne' (_ & _ & H). specialize (He H). injection He as ->.
      destruct (PacketRaw e); [done|]. cbn. by apply list_elem_of_singleton.
    + exists q, []. rewrite app_nil_r. split; [done|]. split; [done|]. split; [done|]. intros _ (_ & _ & H). by specialize (He H).
Qed.

Lemma rebroadcast_jobs_eager io now dest e l t jobs :
  exists q jobs', foldl (rebroadcast_on io now dest e false) (t, jobs) l = (with_queues q t, jobs ++ jobs') /\
    Forall (fun j => j_raw j = PacketRaw e) jobs' /\
    (forall o, o ∈ l -> PacketRaw e <> [] -> eager io now (SourceInterface e) o (AHops e) t ->
       mkJob o (PacketRaw e) (AHops e) ∈ jobs').
Proof.
  revert t jobs. induction l as [|x l IH]; intros t jobs; cbn [foldl].
  - exists (announceQueues t), []. rewrite app_nil_r. split; [by destruct t|]. split; [done|]. intros o Ho. by apply elem_of_nil in Ho.
  - pose proof (rebroadcast_on_eager io now dest e x t jobs) as Hstep.
    destruct Hstep as (q & js & -> & Hne & Hraw & Hin). destruct (IH (with_queues q t) (jobs ++ js)) as (q' & js' & -> & Hraw' & Hin').
    exists q', (js ++ js'). rewrite app_assoc. split; [by destruct t|]. split; [by apply Forall_app|]. intros o Ho Hr He. apply elem_of_app.
    destruct (decide (o = x)) as [->|Hox]; [left; auto|right]. apply elem_of_cons in Ho as [->|Ho]; [done|].
    apply Hin'; [done|done|]. destruct He as (H1 & H2 & H3). split; [done|]. split; [done|].
    unfold queue_state in *. change (announceQueues (with_queues q t)) with q. by rewrite Hne.
Qed.

Definition reframed_flags (f : Z) : Z :=
  packFlags Header2 (Z.shiftr (Z.land f 0x20) 5) TransportForward DestinationSingle PacketAnnounce.

Lemma context_bit f : 0 <= Z.shiftr (Z.land f 0x20) 5 <= 1.
Proof.
  rewrite Z.shiftr_land. change (Z.shiftr 0x20 5) with (Z.ones 1). rewrite Z.land_ones by lia.
  pose proof (Z.mod_pos_bound (Z.shiftr f 5) (2 ^ 1)). lia.
Qed.

Lemma reframed_flags_for f id m :
  m_nib m = 1 -> length id = 16%nat ->
  flags_for (reframed_flags f) id m /\ Z.shiftr (Z.land (reframed_flags f) 0x20) 5 = Z.shiftr (Z.land f 0x20) 5.
Proof.
  intros Hn Hi. unfold reframed_flags, flags_for. rewrite Hn, Hi. pose proof (context_bit f) as H.
  set (c := Z.shiftr (Z.land f 0x20) 5) in *. assert (c = 0 \/ c = 1) as [-> | ->] by lia; done.
Qed.

(** A rebroadcast names this node as the next hop. *)
Lemma reframe_frame f h tid m id t :
  is_announce m -> flags_for f tid m -> 0 <= h < 128 -> tidentity t = Some id ->
  reframeAnnounceForTransport (frame f h tid m) t = frame (reframed_flags f) h id m.
Proof.
  intros (Hd & Hn & Hc) Hf Hh Ht. unfold reframeAnnounceForTransport. rewrite Ht.
  pose proof (flags_types f tid m Hf) as [Hdt Hpt].
  destruct (Unpack_raw f h tid (m_dest m) (m_ctx m) (m_data m) Hd) as
    (q & Hu & E1 & E2 & E3 & E4 & E5 & E6 & E7 & E8 & E9 & E10 & E11 & E12 & E13); [lia|apply Hf|].
  unfold frame at 1. rewrite Hu, E8, Hpt. unfold m_packetType. rewrite Hn. change (Z.land 1 3 =? PacketAnnounce) with true.
  unfold header2_frame, frame, raw_of, reframed_flags. rewrite E3, E5, E7, E8, E10, E11, E12, Hpt, Hdt.
  unfold m_packetType, m_destType. rewrite Hn, Hc. rewrite u8_id by (split; lia). done.
Qed.

Lemma insert_job_perm j l : insert_job j l ≡ₚ j :: l.
Proof. induction l as [|k l IH]; cbn; [done|]. destruct (_ <=? _); [done|]. rewrite IH. constructor. Qed.

Lemma sort_jobs_perm l : sort_jobs l ≡ₚ l.
Proof. induction l as [|j l IH]; cbn; [done|]. by rewrite insert_job_perm, IH. Qed.

(** The rebroadcast of an announce that is due: the frame leaves on every eager
    interface, and nothing else leaves there. *)
Lemma rebroadcast_node io now delays t e f h tid m id :
  is_announce m -> flags_for f tid m -> 0 <= h < 128 -> tidentity t = Some id ->
  announceTable t !! m_dest m = Some e -> PacketRaw e = frame f h tid m -> AHops e = h -> Retries e = 0 ->
  NextRebroadcastAt e <= now -> recalls (m_dest m) t -> destinationsMap t !! m_dest m = None ->
  exists q ev, processAnnounceTable io now delays [m_dest m] t =
      Ok (with_queues q t <| announceTable := <[m_dest m := e <| Retries := 1 |>
            <| NextRebroadcastAt := Add now (pathfinderGrace + delays (m_dest m)) |>]> (announceTable t) |>, ev) /\
    forall o, (forall raw, TSend o raw ∈ ev -> raw = frame (reframed_flags f) h id m) /\
      (o ∈ ifaces t -> eager io now (SourceInterface e) o h t -> TSend o (frame (reframed_flags f) h id m) ∈ ev).
Proof.
  intros Hm Hf Hh Hid He Hraw Hah Hret Hdue Hrec Hdest.
  unfold processAnnounceTable. cbn [rebroadcast_all]. unfold rebroadcast_entry. rewrite He.
  unfold Before. rewrite (proj2 (Z.ltb_ge _ _)) by lia. rewrite Hret. cbn [rebroadcast_done].
  change (rebroadcast_done 0) with false. destruct (recalls_recall (m_dest m) t Hrec) as (ident & ->).
  cbn [mbind res_bind]. rewrite Hdest. rewrite bool_decide_eq_false_2 by (by intros [? ?]).
  unfold rebroadcast_jobs. destruct (rebroadcast_jobs_eager io now (m_dest m) e (ifaces t) t []) as (q & jobs & -> & Hall & Hin).
  cbn [app Retries]. change (Retries (e <| Retries ::= Z.succ |> <| NextRebroadcastAt := Add now (pathfinderGrace + delays (m_dest m)) |>))
    with (Z.succ (Retries e)). rewrite Hret. change (rebroadcast_done (Z.succ 0)) with false. cbn [mbind res_bind]. rewrite app_nil_r.
  eexists q, _. split.
  { f_equal. f_equal. destruct e. cbn in Hret. subst. reflexivity. }
  set (t' := with_queues q t <| announceTable ::= _ |>).
  assert (Hsend : forall j, j ∈ sort_jobs jobs -> sendRebroadcast (j_iface j) (j_raw j) t' = [TSend (j_iface j) (frame (reframed_flags f) h id m)]).
  { intros j Hj. rewrite sort_jobs_perm in Hj. rewrite Forall_forall in Hall. rewrite (Hall j Hj), Hraw. unfold sendRebroadcast.
    rewrite (proj2 (Nat.eqb_neq _ _)) by (rewrite frame_length; lia). by rewrite (reframe_frame f h tid m id t'). }
  unfold handleOutgoingAnnounces. intros o. split.
  - intros raw Hr. apply list_elem_of_join in Hr as (l & Hr & Hl). apply list_elem_of_fmap in Hl as (j & -> & Hj).
    rewrite Hsend in Hr by done. apply list_elem_of_singleton in Hr. by injection Hr as -> ->.
  - intros Ho Heager. apply list_elem_of_join. exists [TSend o (frame (reframed_flags f) h id m)]. split; [by apply list_elem_of_singleton|].
    apply list_elem_of_fmap. exists (mkJob o (PacketRaw e) (AHops e)).
    assert (Hj : mkJob o (PacketRaw e) (AHops e) ∈ sort_jobs jobs).
    { rewrite sort_jobs_perm. apply Hin; [done| |by rewrite Hah]. rewrite Hraw. intros E. by apply (f_equal length) in E. }
    split; [|done]. by rewrite (Hsend _ Hj).
Qed.

(** ** A line of nodes *)

(** What an interface was sent. *)
Definition sent_on (o : Iface) (ev : list tr_event) : list bytes :=
  omap (fun e => match e with TSend j raw => if (j =? o)%nat then Some raw else None | _ => None end) ev.

(** A node hears an announce on its side towards the destination, and at
    [later] rebroadcasts it on the other. *)
Definition announce_hop (dest raw : bytes) (n : Node) (later : Z) : option (Transport * bytes) :=
  match Inbound (n_io n) (n_now n) (n_env n) raw (n_out n) (n_t n) with
  | Ok (t, _) =>
      match processAnnounceTable (n_io n) later (fun _ => 0) [dest] t with
      | Ok (t, ev) => match sent_on (n_in n) ev with raw :: _ => Some (t, raw) | [] => None end
      | _ => None
      end
  | _ => None
  end.

Fixpoint spread (dest raw : bytes) (ns : list (Node * Z)) : option (list Transport * bytes) :=
  match ns with
  | [] => Some ([], raw)
  | (n, later) :: ns =>
      match announce_hop dest raw n later with
      | Some (t, raw) => match spread dest raw ns with Some (ts, r) => Some (t :: ts, r) | None => None end
      | None => None
      end
  end.

(** A node that takes part: it hears the announce [am] and rebroadcasts it, and
    it can later carry the message [m]. *)
Record takes_part (am m : Msg) (n : Node) (later : Z) : Prop := {
  tp_enabled : enabled (n_t n) = true;
  tp_listens : listens am (n_io n) (n_out n) (n_t n);
  tp_out : open_iface (35 + length (m_data am)) (n_io n (n_out n));
  tp_new : packetHashSeenLocked (msg_hash am) (n_t n) = false;
  tp_link : FindLink (m_dest am) (n_t n) = None;
  tp_identity : exists id, tidentity (n_t n) = Some id /\ length id = 16%nat;
  tp_later : n_now n + env_delay (n_env n) <= later;
  tp_iface : n_in n ∈ ifaces (n_t n);
  tp_eager : forall h, eager (n_io n) later (n_out n) (n_in n) h (n_t n);
  tp_delta : localHopsDelta (n_t n) = 0;
  tp_request : pathRequestHash (n_t n) <> m_dest m;
  tp_in : open_iface (35 + length (m_data m)) (n_io n (n_in n));
  tp_unseen : packetHashSeenLocked (msg_hash m) (n_t n) = false;
}.

Definition with_transport (n : Node) (t : Transport) : Node := mkNode (n_io n) (n_now n) (n_env n) (n_in n) (n_out n) t.

Lemma announce_fits am f h tid :
  is_announce am -> flags_for f tid am -> (length (frame f h tid am) <= 35 + length (m_data am))%nat.
Proof. intros (Hd & _) [_ Ht]. rewrite frame_length, Hd, Ht. case_match; lia. Qed.

(** The transport ID of an announce after [h] hops. *)
Definition heard_from (h : Z) (tid : bytes) : Prop := (h = 0 /\ tid = []) \/ (1 <= h /\ length tid = 16%nat).

(** One node of the line: it passes the announce on under its own name, and has
    become a relay for the announced destination. *)
Lemma announce_hop_ok am m n later f h tid :
  is_announce am -> m_dest m = m_dest am -> msg_hash m <> msg_hash am ->
  flags_for f tid am -> authentic (Z.shiftr (Z.land f 0x20) 5) am -> heard_from h tid -> h + 1 < 128 ->
  takes_part am m n later ->
  exists t id e, announce_hop (m_dest am) (frame f h tid am) n later = Some (t, frame (reframed_flags f) (h + 1) id am) /\
    length id = 16%nat /\ hears m (with_transport n t) /\ relay_node m id e (n_out n) t /\ next_tid e = tid.
Proof.
  intros Hm Hd Hne Hf Hv Hfrom Hh [T0 T1 T2 T3 T4 (id & T5 & T6) T7 T8 T9 T10 T11 T12 T13].
  assert (H0 : 0 <= h) by (destruct Hfrom; lia).
  destruct (Inbound_announce (n_io n) (n_now n) (n_env n) f h tid am (n_out n) (n_t n))
    as (a & b & kd & kr & ev & Hin & Hrec & Hsaw); try done.
  { lia. } { eapply open_iface_mono; [|done]. by apply announce_fits. }
  set (t1 := learned _ _ _ _ _ _ _ _ _ _ _ _) in Hin.
  destruct (rebroadcast_node (n_io n) later (fun _ => 0) t1
              (mkAnnounceEntry (frame f (h + 1) tid am) (n_out n) (h + 1) (Add (n_now n) (env_delay (n_env n))) 0 0)
              f (h + 1) tid am id) as (q & ev' & Hp & Hsend); try done.
  { lia. } { unfold t1, learned. change (enabled (with_hashes a b (n_t n))) with (enabled (n_t n)). rewrite T0. apply lookup_insert_eq. }
  { apply T1. }
  set (t2 := with_queues q t1 <| announceTable := _ |>) in Hp.
  set (e := taught_path (n_io n) (n_now n) f h (h + 1) tid am (n_out n)).
  exists t2, id, e. split_and!.
  - unfold announce_hop. rewrite Hin, Hp. destruct (Hsend (n_in n)) as [Hall Hmem].
    assert (Hs : forall raw, raw ∈ sent_on (n_in n) ev' <-> TSend (n_in n) raw ∈ ev').
    { intros raw. unfold sent_on. rewrite list_elem_of_omap. split.
      - intros (x & Hx & E). destruct x; try done. destruct (Nat.eqb_spec i (n_in n)) as [->|]; [|done]. by injection E as ->.
      - intros Hx. eexists. split; [exact Hx|]. cbn. by rewrite Nat.eqb_refl. }
    assert (Hx : TSend (n_in n) (frame (reframed_flags f) (h + 1) id am) ∈ ev') by (apply Hmem; [done|apply T9]).
    apply Hs in Hx. destruct (sent_on (n_in n) ev') as [|raw l] eqn:El; [by apply elem_of_nil in Hx|].
    rewrite (Hall raw); [done|]. apply Hs. left.
  - done.
  - split; [done|]. apply Hsaw; done.
  - split; try done.
    + change (destinationsMap t2) with (destinationsMap (n_t n)). rewrite Hd. apply T1.
    + change (FindLink (m_dest m) t2) with (FindLink (m_dest m) (n_t n)). by rewrite Hd.
    + change (pathTable t2) with (<[m_dest am := e]> (pathTable (n_t n))). rewrite Hd. apply lookup_insert_eq.
    + cbn. lia.
    + cbn. intros _. unfold teacher. destruct (_ <? _)%nat eqn:E; [|apply Hm]. destruct Hfrom as [[_ ->]|[_ H]]; done.
  - unfold next_tid, e. cbn [PHops taught_path NextHop]. unfold teacher.
    destruct Hfrom as [[-> ->]|[H Hl]]; [done|]. rewrite (proj2 (Z.ltb_lt _ _)) by lia. by rewrite Hl.
Qed.

Lemma spread_route am m ns f h tid acc :
  is_announce am -> m_dest m = m_dest am -> msg_hash m <> msg_hash am ->
  Forall (fun nl => takes_part am m nl.1 nl.2) ns ->
  flags_for f tid am -> authentic (Z.shiftr (Z.land f 0x20) 5) am -> heard_from h tid ->
  h + Z.of_nat (length ns) < 128 -> route m tid acc ->
  exists ts f' tid', spread (m_dest am) (frame f h tid am) ns = Some (ts, frame f' (h + Z.of_nat (length ns)) tid' am) /\
    flags_for f' tid' am /\ Z.shiftr (Z.land f' 0x20) 5 = Z.shiftr (Z.land f 0x20) 5 /\
    heard_from (h + Z.of_nat (length ns)) tid' /\ length ts = length ns /\
    route m tid' (rev (zip_with with_transport (map fst ns) ts) ++ acc).
Proof.
  intros Hm Hd Hne Hns. revert f h tid acc. induction Hns as [|[n later] ns Hn _ IH]; intros f h tid acc Hf Hv Hfrom Hlen R.
  - exists [], f, tid. cbn. by rewrite Z.add_0_r.
  - cbn [length fst snd] in Hlen, Hn. cbn [spread].
    destruct (announce_hop_ok am m n later f h tid) as (t & id & e & -> & Hid & Hh & Hr & He); [done..|lia|done|].
    destruct (reframed_flags_for f id am (proj1 (proj2 Hm)) Hid) as [Hf' Hcf].
    assert (Hfrom' : heard_from (h + 1) id) by (right; destruct Hfrom; lia).
    destruct (IH (reframed_flags f) (h + 1) id (with_transport n t :: acc)) as (ts & f' & tid' & -> & Hf2 & Hcf2 & Hfr2 & Hl & R');
      [done|by rewrite Hcf|done|lia| |].
    { apply (route_relay m id (with_transport n t) e acc); [done..|by rewrite He]. }
    exists (t :: ts), f', tid'. cbn [length map zip_with rev fst].
    replace (h + Z.of_nat (S (length ns))) with (h + 1 + Z.of_nat (length ns)) by lia.
    split; [done|]. split; [done|]. split; [by rewrite Hcf2|]. split; [done|]. split; [lia|]. by rewrite <- app_assoc.
Qed.

(** An announce that spreads along a line of nodes leaves path tables that
    route packets for its destination back along the line, and reaches the end
    with the number of nodes passed as its hop count. *)
Theorem announce_builds_route am m ns f :
  is_announce am -> m_dest m = m_dest am -> msg_hash m <> msg_hash am ->
  Forall (fun nl => takes_part am m nl.1 nl.2) ns ->
  flags_for f [] am -> authentic (Z.shiftr (Z.land f 0x20) 5) am -> Z.of_nat (length ns) < 128 ->
  exists ts f' tid, spread (m_dest am) (frame f 0 [] am) ns = Some (ts, frame f' (Z.of_nat (length ns)) tid am) /\
    flags_for f' tid am /\ length ts = length ns /\ route m tid (rev (zip_with with_transport (map fst ns) ts)).
Proof.
  intros Hm Hd Hne Hns Hf Hv Hlen. destruct (spread_route am m ns f 0 [] []) as (ts & f' & tid & H1 & H2 & _ & _ & H3 & H4);
    [done..|by left|done|constructor|]. exists ts, f', tid. by rewrite app_nil_r in H4.
Qed.

(** ** Sending *)

Lemma header2_flags f c tid m :
  Z.land f 15 = m_nib m -> 0 <= c <= 1 -> length tid = 16%nat ->
  flags_for (packFlags Header2 c TransportForward (m_destType m) (m_packetType m)) tid m.
Proof.
  intros Hn Hc Ht. assert (H : 0 <= m_nib m < 16).
  { rewrite <- Hn. change 15 with (Z.ones 4). rewrite Z.land_ones by lia. by apply Z.mod_pos_bound. }
  unfold flags_for, m_destType, m_packetType. rewrite Ht. clear Hn Ht. destruct m as [n d x l]. cbn [m_nib] in *.
  assert (c = 0 \/ c = 1) as [-> | ->] by lia;
    (destruct n as [|n|n]; [done| |lia]; do 4 (destruct n as [n|n|]; try done); lia).
Qed.

(** The first frame of a packet: with a path of several hops, a transport
    header for the next hop is inserted. *)
Lemma outbound_first_frame io now link p t f m e out :
  carries f 0 [] m 0 p -> routable m -> m_destType m = DestinationSingle -> 
  destinationsMap t !! m_dest m = None -> pathTable t !! m_dest m = Some e -> PInterface e = Some out ->
  1 <= PHops e -> (1 < PHops e -> length (NextHop e) = 16%nat) -> localHopsDelta t = 0 -> connectedToSharedInstance t = false ->
  (forall raw, ifacOut (io out) raw = Some raw) ->
  exists p' t' f', outbound_packed io now None link p t = (p', t', [TSend out (frame f' 0 (next_tid e) m)], Ok tt) /\
    flags_for f' (next_tid e) m.
Proof.
  intros C Hr Hs Hd Hp Ho Hh Hn Hdelta Hsh Hif. unfold outbound_packed, unicast, usable_path.
  rewrite (c_dest _ _ _ _ _ _ C), (c_dt _ _ _ _ _ _ C), (c_pt _ _ _ _ _ _ C), (c_header _ _ _ _ _ _ C), Hd, Hp, Ho, Hs.
  rewrite bool_decide_eq_false_2 by (by intros [? ?]). cbn [andb Z.eqb DestinationSingle DestinationLink Pos.eqb DestinationPlain DestinationGroup negb].
  destruct Hr as (Hd16 & Ha & _). rewrite (proj2 (Z.eqb_neq _ _) Ha). cbn [negb andb].
  destruct (c_for _ _ _ _ _ _ C) as [Hnib Htid]. destruct (Z.eqb_spec (Z.shiftr (Z.land f 0x40) 6) 1) as [|Hhd]; [done|].
  change Header2 with 1. rewrite (proj2 (Z.eqb_neq _ _) Hhd), Hif.
  destruct (mark_sent io now link p t) as [p' t']. exists p', t'.
  assert (Hdl : shouldApplyDelta io p out t = false) by (unfold shouldApplyDelta; rewrite Hdelta; cbn; by rewrite !andb_false_r).
  unfold path_frame, insert_header2, insertHopByte, next_tid. rewrite Hsh, Hdl, (c_raw _ _ _ _ _ _ C), andb_false_r. cbn [andb].
  destruct (Z.ltb_spec 1 (PHops e)) as [Hm|Hm].
  - rewrite (Hn Hm). change (16 =? dstLen)%nat with true. cbn [andb].
    rewrite (c_cf _ _ _ _ _ _ C), (c_dt _ _ _ _ _ _ C), (c_pt _ _ _ _ _ _ C), Hs. eexists. split; [reflexivity|].
    rewrite <- Hs. apply (header2_flags f); [done|apply context_bit|auto].
  - exists f. cbn [andb]. split; [done|apply C].
Qed.

(** C1: once an announce has spread along a line of nodes to a sender, a packet
    the sender addresses to the announced destination travels the line and is
    delivered at the node that hosts it. *)
Theorem announced_destination_reachable am m ns s last d f fp link p :
  is_announce am -> m_dest m = m_dest am -> msg_hash m <> msg_hash am ->
  Forall (fun nl => takes_part am m nl.1 nl.2) ns ->
  flags_for f [] am -> authentic (Z.shiftr (Z.land f 0x20) 5) am -> Z.of_nat (length ns) < 127 ->
  listens am (n_io s) (n_out s) (n_t s) -> open_iface (35 + length (m_data am)) (n_io s (n_out s)) ->
  packetHashSeenLocked (msg_hash am) (n_t s) = false -> FindLink (m_dest am) (n_t s) = None ->
  localHopsDelta (n_t s) = 0 -> connectedToSharedInstance (n_t s) = false -> (forall raw, ifacOut (n_io s (n_out s)) raw = Some raw) ->
  routable m -> m_destType m = DestinationSingle -> carries fp 0 [] m 0 p -> Packed p = true ->
  hears m last -> destinationsMap (n_t last) !! m_dest m = Some d -> pathRequestHash (n_t last) <> m_dest m ->
  exists ts raw ts0 ev0 p' t' raw0 ts' raw1 t'' q,
    spread (m_dest am) (frame f 0 [] am) ns = Some (ts, raw) /\
    Inbound (n_io s) (n_now s) (n_env s) raw (n_out s) (n_t s) = Ok (ts0, ev0) /\
    Outbound (n_io s) (n_now s) None link p ts0 = (p', t', [TSend (n_out s) raw0], Ok tt) /\
    relays raw0 (rev (zip_with with_transport (map fst ns) ts)) = Some (ts', raw1) /\
    Inbound (n_io last) (n_now last) (n_env last) raw1 (n_in last) (n_t last) = Ok (t'', [TDeliver (m_dest m) q]) /\
    Packet.Data q = m_data m /\ PacketHash q = PacketHash p /\ Hops q = Z.of_nat (length ns) + 1.
Proof.
  intros Hm Hd Hne Hns Hf Hv Hlen Ls Os Us Fs Ds Ss Is Hr Hsg C Hpk Hl Hld Hlp.
  destruct (spread_route am m ns f 0 [] []) as (ts & f' & tid & H1 & H2 & H3 & Hfrom & H4 & R); [done..|by left|lia|constructor|].
  rewrite Z.add_0_l in H1, Hfrom. rewrite app_nil_r in R. set (k := Z.of_nat (length ns)) in *.
  destruct (Inbound_announce (n_io s) (n_now s) (n_env s) f' k tid am (n_out s) (n_t s))
    as (a & b & kd & kr & ev & Hin & _ & _); try done.
  { lia. } { by rewrite H3. } { eapply open_iface_mono; [|done]. by apply announce_fits. }
  set (t1 := learned _ _ _ _ _ _ _ _ _ _ _ _) in Hin.
  set (e := taught_path (n_io s) (n_now s) f' k (k + 1) tid am (n_out s)).
  assert (Htid : next_tid e = tid).
  { unfold next_tid, e. cbn [PHops taught_path NextHop]. unfold teacher.
    destruct Hfrom as [[-> ->]|[H Hl']]; [done|]. rewrite (proj2 (Z.ltb_lt _ _)) by lia. by rewrite Hl'. }
  destruct (outbound_first_frame (n_io s) (n_now s) link p t1 fp m e (n_out s)) as (p' & t' & f1 & Hout & Hf1); try done.
  { change (destinationsMap t1) with (destinationsMap (n_t s)). rewrite Hd. apply Ls. }
  { change (pathTable t1) with (<[m_dest am := e]> (pathTable (n_t s))). rewrite Hd. apply lookup_insert_eq. }
  { cbn. lia. }
  { cbn. intros Hk. unfold teacher. destruct Hfrom as [[? _]|[_ H]]; [lia|by rewrite H]. }
  rewrite Htid in Hout, Hf1.
  destruct (route_delivers m tid (rev (zip_with with_transport (map fst ns) ts)) last d f1 0)
    as (ts' & raw1 & t'' & q & Hrel & Hdel & Hdata & Hhash & Hhops & _); try done.
  { rewrite length_rev, length_zip_with, length_map, H4. lia. }
  exists ts, (frame f' k tid am), t1, ev, p', t', (frame f1 0 tid m), ts', raw1, t'', q.
  split; [done|]. split; [done|]. split.
  { unfold Outbound. rewrite (c_hops _ _ _ _ _ _ C), Hpk. exact Hout. }
  split; [done|]. split; [done|]. split; [done|]. split; [by rewrite Hhash, (c_hash _ _ _ _ _ _ C)|].
  rewrite Hhops, length_rev, length_zip_with, length_map, H4, Nat.min_id. lia.
Qed.
End PropagationFacts.

(** ** Witnesses *)

Module ToyAnnounce.
Import ToyCrypto ToyCurves ToyNet.
Definition flags : Z := Eval vm_compute in nth 0 (Raw ToyIdentity.announce) 0.
Definition am : Msg := Eval vm_compute in mkMsg 1 (DHash ToyIdentity.home) 0 (Packet.Data ToyIdentity.heard).
Definition m : Msg := mkMsg 0 (m_dest am) 0 [104; 105].
Definition relay1 : Node := node (blank (name 2)).
Definition relay2 : Node := node (blank (name 1)).
Definition line : list (Node * Z) := [(relay1, 10 ^ 20); (relay2, 10 ^ 20)].
Definition sender : Node := node (blank (name 5) <| enabled := false |>).
Definition owner : Node := node (blank (name 3) <| destinationsMap := {[ m_dest am := here ]} |>).
Definition packet : Packet :=
  zeroPacket <| Raw := frame 0 0 [] m |> <| DestinationHash := m_dest m |> <| Packet.Data := m_data m |>
             <| PacketHash := msg_hash m |> <| Packed := true |>.

Lemma eager_here t now h : eager io now 1 0 h t.
Proof.
  split; [done|]. split; [done|].
  change (shouldTransmitAnnounce io 0 (Some 1%nat) false h) with (if 0 <? h then announceCapped else announceDirect).
  destruct (0 <? h); [|done]. left. done.
Qed.

Ltac announce_facts :=
  repeat match goal with
  | |- Forall _ line => constructor
  | |- Forall _ (_ :: _) => constructor
  | |- Forall _ [] => constructor
  | |- takes_part _ _ _ _ => constructor
  | |- listens _ _ _ _ => constructor
  | |- is_announce _ => unfold is_announce
  | |- open_iface _ _ => unfold open_iface, plain_iface
  | |- exists id, tidentity _ = Some id /\ _ => eexists
  | |- authentic _ _ => eexists; vm_compute; reflexivity
  | |- forall h, eager _ _ _ _ h _ => apply eager_here
  | |- _ ∈ ifaces _ => constructor
  | |- carries _ _ _ _ _ _ => constructor
  | |- _ => progress net_facts
  end.
End ToyAnnounce.

Section PropagationWitnesses.
Import ToyCrypto ToyCurves ToyNet ToyAnnounce.

Lemma announce_builds_route_witness :
  exists ts f tid, spread (m_dest am) (frame flags 0 [] am) line = Some (ts, frame f 2 tid am) /\
    flags_for f tid am /\ length ts = 2%nat /\ route m tid (rev (zip_with with_transport (map fst line) ts)).
Proof.
  apply (announce_builds_route am m line flags); announce_facts.
Defined.

Lemma announced_destination_reachable_witness :
  exists ts raw ts0 ev0 p' t' raw0 ts' raw1 t'' q,
    spread (m_dest am) (frame flags 0 [] am) line = Some (ts, raw) /\
    Inbound (n_io sender) (n_now sender) (n_env sender) raw (n_out sender) (n_t sender) = Ok (ts0, ev0) /\
    Outbound (n_io sender) (n_now sender) None None packet ts0 = (p', t', [TSend (n_out sender) raw0], Ok tt) /\
    relays raw0 (rev (zip_with with_transport (map fst line) ts)) = Some (ts', raw1) /\
    Inbound (n_io owner) (n_now owner) (n_env owner) raw1 (n_in owner) (n_t owner) = Ok (t'', [TDeliver (m_dest m) q]) /\
    Packet.Data q = m_data m /\ PacketHash q = PacketHash packet /\ Hops q = Z.of_nat (length line) + 1.
Proof.
  apply (announced_destination_reachable am m line sender owner here flags 0 None packet); announce_facts.
Defined.
End PropagationWitnesses.
