(* ===== verification/IngressControl.v ===== *)
(** * Ingress and egress control

    Models the announce and path request limits of an interface,
    [rns/interfaces/base.go]: the frequency samples, the burst state machines,
    the announces held while a burst lasts and their release, and the
    interface jobs of [rns/transport.go] that drive them.  The transport asks
    an interface through [ingressLimit], [ingressLimitPr] and [egressLimitPr]
    of its [IfaceInfo], and its events [TReceivedAnnounce], [THold] and
    [TReleaseHeld] are the calls modelled here.

    Where a map is iterated, the order of its keys is an argument. *)

From stdpp Require Import base tactics option list gmap sorting.
From Stdlib Require Import ZArith Lia PrimFloat.
From S2P Require Import Prelude Clock Packet Transport.
Local Open Scope Z_scope.
Local Open Scope go_scope.

Definition IAFreqSamples : Z := 48.
Definition OAFreqSamples : Z := 48.
Definition IPFreqSamples : Z := 48.
Definition OPFreqSamples : Z := 48.
Definition ARFreqDecay : float := 10%float.
Definition PRFreqDecay : float := 10%float.
Definition MaxHeldAnnounces : Z := 256.
Definition ICNewTime : float := 7200%float.
Definition ICBurstFreqNew : float := 3%float.
Definition ICBurstFreq : float := 10%float.
Definition ICPrBurstFreqNew : float := 3%float.
Definition ICPrBurstFreq : float := 8%float.
Definition ICBurstHold : float := 15%float.
Definition ICBurstPenalty : float := 15%float.
Definition ICHeldReleaseInterval : float := 5%float.
Definition ICDequeMinSample : Z := 2.
Definition ICBurstMinSamples : Z := 6.
Definition ECPrFreq : float := 5%float.
Definition EgressControlDefault : bool := false.

Record heldAnnounce := mkHeld {
  h_raw : bytes;
  h_recv : Iface;
  h_hops : Z;
  h_destHash : bytes;
}.

(** The configuration of the limits. *)
Record IngressConfig := mkIngressConfig {
  ingressControl : bool;
  icMaxHeldAnnounces : Z;
  icBurstHold : float;
  icBurstFreqNew : float;
  icBurstFreq : float;
  icPrBurstFreqNew : float;
  icPrBurstFreq : float;
  icNewTime : float;
  icBurstPenalty : float;
  icHeldReleaseInterval : float;
  ecPrFreq : float;
  egressControl : bool;
  announceRateTarget : option Z;
  announceRateGrace : option Z;
  announceRatePenalty : option Z;
}.

(** The part of a [BaseInterface] that the limits use. *)
Record BaseInterface := mkBase {
  created : Z;
  config : IngressConfig;
  iaFreqDeque : list Z;
  oaFreqDeque : list Z;
  ipFreqDeque : list Z;
  opFreqDeque : list Z;
  announceRxBytes : Z;
  announceTxBytes : Z;
  announceRxCount : Z;
  announceTxCount : Z;
  prRxBytes : Z;
  prTxBytes : Z;
  prRxCount : Z;
  prTxCount : Z;
  icBurstActive : bool;
  icBurstActivated : Z;
  icBurstCount : Z;
  icHeldRelease : Z;
  heldAnnounces : gmap bytes heldAnnounce;
  icPrBurstActive : bool;
  icPrBurstActivated : Z;
  icPrBurstCount : Z;
}.
#[global] Instance eta_BaseInterface : Eta BaseInterface := fun b =>
  mkBase (created b) (config b) (iaFreqDeque b) (oaFreqDeque b) (ipFreqDeque b) (opFreqDeque b)
    (announceRxBytes b) (announceTxBytes b) (announceRxCount b) (announceTxCount b) (prRxBytes b) (prTxBytes b)
    (prRxCount b) (prTxCount b) (icBurstActive b) (icBurstActivated b) (icBurstCount b) (icHeldRelease b)
    (heldAnnounces b) (icPrBurstActive b) (icPrBurstActivated b) (icPrBurstCount b).

Definition NewBaseInterface (now : Z) : BaseInterface :=
  mkBase now
    (mkIngressConfig true MaxHeldAnnounces ICBurstHold ICBurstFreqNew ICBurstFreq ICPrBurstFreqNew ICPrBurstFreq ICNewTime
       ICBurstPenalty ICHeldReleaseInterval ECPrFreq EgressControlDefault None None None)
    [] [] [] [] 0 0 0 0 0 0 0 0 false 0 0 0 ∅ false 0 0.

Definition copyIngressEgressFrom (parent b : BaseInterface) : BaseInterface := b <| config := config parent |>.

(** ** Samples *)

Definition appendFreqSample (deque : list Z) (now max : Z) : list Z :=
  let deque := deque ++ [now] in
  if max <? zlen deque then drop (Z.to_nat (zlen deque - max)) deque else deque.

Definition receivedAnnounceAtSize (now size : Z) (b : BaseInterface) : BaseInterface :=
  b <| iaFreqDeque ::= fun d => appendFreqSample d now IAFreqSamples |> <| announceRxCount ::= fun n => u64 (n + 1) |>
    <| announceRxBytes ::= fun n => u64 (n + Z.max size 0) |>.
Definition sentAnnounceAtSize (now size : Z) (b : BaseInterface) : BaseInterface :=
  b <| oaFreqDeque ::= fun d => appendFreqSample d now OAFreqSamples |> <| announceTxCount ::= fun n => u64 (n + 1) |>
    <| announceTxBytes ::= fun n => u64 (n + Z.max size 0) |>.
Definition receivedPathRequestAtSize (now size : Z) (b : BaseInterface) : BaseInterface :=
  b <| ipFreqDeque ::= fun d => appendFreqSample d now IPFreqSamples |> <| prRxCount ::= fun n => u64 (n + 1) |>
    <| prRxBytes ::= fun n => u64 (n + Z.max size 0) |>.
Definition sentPathRequestAtSize (now size : Z) (b : BaseInterface) : BaseInterface :=
  b <| opFreqDeque ::= fun d => appendFreqSample d now OPFreqSamples |> <| prTxCount ::= fun n => u64 (n + 1) |>
    <| prTxBytes ::= fun n => u64 (n + Z.max size 0) |>.

(** The sample of an interface is also one of the interface that spawned it. *)
Definition with_parent (record : BaseInterface -> BaseInterface) (b : BaseInterface) (parent : option BaseInterface)
    : BaseInterface * option BaseInterface := (record b, option_map record parent).

(** ** Frequencies *)

(** The frequency of the samples in Hz, and the samples after the oldest one
    aged. *)
Definition frequency (min : Z) (decay : float) (now : Z) (deque : list Z) : list Z * float :=
  match deque with
  | oldest :: rest =>
      if negb (min <? zlen deque) then (deque, 0%float)
      else
        let span := Seconds (Sub now oldest) in
        (if PrimFloat.ltb decay span then rest else deque,
         if PrimFloat.leb span 0 then 0%float else (float_of_Z (zlen deque) / span)%float)
  | [] => (deque, 0%float)
  end.

Definition incomingAnnounceFrequencyAtLocked (now : Z) (b : BaseInterface) : BaseInterface * float :=
  let '(d, hz) := frequency ICDequeMinSample ARFreqDecay now (iaFreqDeque b) in (b <| iaFreqDeque := d |>, hz).
Definition outgoingAnnounceFrequencyAtLocked (now : Z) (b : BaseInterface) : BaseInterface * float :=
  let '(d, hz) := frequency 1 ARFreqDecay now (oaFreqDeque b) in (b <| oaFreqDeque := d |>, hz).
Definition incomingPrFrequencyAtLocked (now : Z) (b : BaseInterface) : BaseInterface * float :=
  let '(d, hz) := frequency ICDequeMinSample PRFreqDecay now (ipFreqDeque b) in (b <| ipFreqDeque := d |>, hz).
Definition outgoingPrFrequencyAtLocked (now : Z) (b : BaseInterface) : BaseInterface * float :=
  let '(d, hz) := frequency 1 PRFreqDecay now (opFreqDeque b) in (b <| opFreqDeque := d |>, hz).

Definition ageAt (now : Z) (b : BaseInterface) : float := Seconds (Sub now (created b)).

(** [time.Duration(s) * time.Second]. *)
Definition whole_seconds (s : float) : Z := i64 (Duration_of_float s * Second).

(** ** Bursts *)

Definition announce_threshold (now : Z) (b : BaseInterface) : float :=
  if PrimFloat.leb (icNewTime (config b)) (ageAt now b) then icBurstFreq (config b) else icBurstFreqNew (config b).
Definition pr_threshold (now : Z) (b : BaseInterface) : float :=
  if PrimFloat.leb (icNewTime (config b)) (ageAt now b) then icPrBurstFreq (config b) else icPrBurstFreqNew (config b).

Definition shouldIngressLimitAt (now : Z) (b : BaseInterface) : BaseInterface * bool :=
  if negb (ingressControl (config b)) then (b, false)
  else
    let threshold := announce_threshold now b in
    let '(b, iaFreq) := incomingAnnounceFrequencyAtLocked now b in
    if icBurstActive b then
      (if PrimFloat.ltb iaFreq threshold && After now (Add (icBurstActivated b) (whole_seconds (icBurstHold (config b)))) &&
          (ICDequeMinSample <=? zlen (iaFreqDeque b))
       then b <| icBurstActive := false |> else b, true)
    else if PrimFloat.ltb threshold iaFreq then
      (b <| icBurstActive := true |> <| icBurstActivated := now |> <| icBurstCount ::= fun n => i64 (n + 1) |>
         <| icHeldRelease := Add now (whole_seconds (icBurstPenalty (config b))) |>, true)
    else (b, false).

Definition shouldIngressLimitPrAt (now : Z) (b : BaseInterface) : BaseInterface * bool :=
  if negb (ingressControl (config b)) then (b, false)
  else
    let threshold := pr_threshold now b in
    let '(b, ipFreq) := incomingPrFrequencyAtLocked now b in
    if icPrBurstActive b then
      (if PrimFloat.ltb ipFreq threshold && After now (Add (icPrBurstActivated b) (whole_seconds (icBurstHold (config b))))
       then b <| icPrBurstActive := false |> else b, true)
    else if PrimFloat.ltb threshold ipFreq then
      (b <| icPrBurstActive := true |> <| icPrBurstActivated := now |> <| icPrBurstCount ::= fun n => i64 (n + 1) |>, true)
    else (b, false).

Definition shouldEgressLimitPrAt (now : Z) (b : BaseInterface) : BaseInterface * bool :=
  if negb (egressControl (config b)) then (b, false)
  else
    let '(b, opFreq) := outgoingPrFrequencyAtLocked now b in
    (b, PrimFloat.ltb (ecPrFreq (config b)) opFreq && (ICBurstMinSamples <=? zlen (opFreqDeque b))).

(** ** Held announces *)

Definition HoldAnnounce (raw : bytes) (recv : Iface) (hops : Z) (destHash : bytes) (b : BaseInterface) : BaseInterface :=
  if PathfinderM - 1 <=? hops then b
  else if bool_decide (is_Some (heldAnnounces b !! destHash)) ||
          (Z.of_nat (base.size (heldAnnounces b)) <? icMaxHeldAnnounces (config b))
  then b <| heldAnnounces ::= <[destHash := mkHeld raw recv hops destHash]> |>
  else b.

Definition ReleaseHeldAnnounce (destHash : bytes) (b : BaseInterface) : BaseInterface * option (bytes * Iface) :=
  match heldAnnounces b !! destHash with
  | Some h => (b <| heldAnnounces ::= delete destHash |>, Some (h_raw h, h_recv h))
  | None => (b, None)
  end.

Definition ClearHeldAnnounces (b : BaseInterface) : BaseInterface := b <| heldAnnounces := ∅ |>.

(** The held announce with the fewest hops, the first one in the order. *)
Definition fewer_hops (held : gmap bytes heldAnnounce) (sel : option (bytes * heldAnnounce)) (key : bytes)
    : option (bytes * heldAnnounce) :=
  match held !! key with
  | None => sel
  | Some h => match sel with
              | Some (_, m) => if h_hops h <? h_hops m then Some (key, h) else sel
              | None => Some (key, h)
              end
  end.
Definition select_held (order : list bytes) (held : gmap bytes heldAnnounce) : option (bytes * heldAnnounce) :=
  foldl (fewer_hops held) None order.

Definition processHeldAnnouncesAt (now : Z) (order : gmap bytes heldAnnounce -> list bytes) (b : BaseInterface)
    : BaseInterface * option (bytes * Iface) :=
  if (base.size (heldAnnounces b) =? 0)%nat || negb (After now (icHeldRelease b)) then (b, None)
  else
    let threshold := announce_threshold now b in
    let '(b, iaFreq) := incomingAnnounceFrequencyAtLocked now b in
    if PrimFloat.leb threshold iaFreq then (b, None)
    else match select_held (order (heldAnnounces b)) (heldAnnounces b) with
         | None => (b, None)
         | Some (key, h) =>
             (b <| icHeldRelease := Add now (whole_seconds (icHeldReleaseInterval (config b))) |>
                <| heldAnnounces ::= delete key |>, Some (h_raw h, h_recv h))
         end.

(** The interface jobs: the frames that are handed to the transport again, with
    the interfaces they arrived on. *)
Definition interface_job (now : Z) (order : gmap bytes heldAnnounce -> list bytes) (b : BaseInterface)
    : BaseInterface * option (bytes * Iface) :=
  let b := (shouldIngressLimitAt now b).1 in
  let b := (shouldIngressLimitPrAt now b).1 in
  processHeldAnnouncesAt now order b.

Definition runInterfaceJobs (now : Z) (order : gmap bytes heldAnnounce -> list bytes) (l : list BaseInterface)
    : list BaseInterface * list (bytes * Iface) :=
  let r := map (interface_job now order) l in (map fst r, omap snd r).

(** ** The invariant *)

(** Frames and jobs at an interface, and the time they happen. *)
Inductive ingress_step (b : BaseInterface) : Z -> BaseInterface -> Prop :=
  | is_received now size : ingress_step b now (receivedAnnounceAtSize now size b)
  | is_sent now size : ingress_step b now (sentAnnounceAtSize now size b)
  | is_received_pr now size : ingress_step b now (receivedPathRequestAtSize now size b)
  | is_sent_pr now size : ingress_step b now (sentPathRequestAtSize now size b)
  | is_announce_frequency now : ingress_step b now (outgoingAnnounceFrequencyAtLocked now b).1
  | is_incoming_frequency now : ingress_step b now (incomingAnnounceFrequencyAtLocked now b).1
  | is_limit now : ingress_step b now (shouldIngressLimitAt now b).1
  | is_limit_pr now : ingress_step b now (shouldIngressLimitPrAt now b).1
  | is_egress_pr now : ingress_step b now (shouldEgressLimitPrAt now b).1
  | is_hold now raw recv hops dest : ingress_step b now (HoldAnnounce raw recv hops dest b)
  | is_release now dest : ingress_step b now (ReleaseHeldAnnounce dest b).1
  | is_clear now : ingress_step b now (ClearHeldAnnounces b)
  | is_process now order : ingress_step b now (processHeldAnnouncesAt now order b).1.

(** A history, with the times of its steps. *)
Inductive ingress_run (b0 : BaseInterface) : list Z -> BaseInterface -> Prop :=
  | ir_start : ingress_run b0 [] b0
  | ir_step nows b now b' : ingress_run b0 nows b -> ingress_step b now b' -> ingress_run b0 (nows ++ [now]) b'.

(** No threshold is negative, samples are bounded, a burst has samples, and the held announces are
    bounded and may still travel. *)
Record ingress_ok (b : BaseInterface) : Prop := {
  ok_thresholds : PrimFloat.ltb (icBurstFreq (config b)) 0 = false /\ PrimFloat.ltb (icBurstFreqNew (config b)) 0 = false;
  ok_ia : zlen (iaFreqDeque b) <= IAFreqSamples;
  ok_oa : zlen (oaFreqDeque b) <= OAFreqSamples;
  ok_ip : zlen (ipFreqDeque b) <= IPFreqSamples;
  ok_op : zlen (opFreqDeque b) <= OPFreqSamples;
  ok_burst : icBurstActive b = true -> ICDequeMinSample <= zlen (iaFreqDeque b);
  ok_held : Z.of_nat (base.size (heldAnnounces b)) <= Z.max 0 (icMaxHeldAnnounces (config b));
  ok_hops : forall dest h, heldAnnounces b !! dest = Some h -> h_hops h < PathfinderM - 1;
}.

Lemma appendFreqSample_length deque now max : 0 <= max -> zlen deque <= max -> zlen (appendFreqSample deque now max) <= max.
Proof.
  intros H0 H. unfold appendFreqSample, zlen in *. rewrite length_app. cbn [length].
  destruct (Z.ltb_spec max (Z.of_nat (length deque + 1))) as [Hl|Hl]; [|rewrite length_app; cbn; lia].
  rewrite length_drop, length_app. cbn [length]. lia.
Qed.

Lemma appendFreqSample_grows deque now max : 2 <= max -> 2 <= zlen deque -> 2 <= zlen (appendFreqSample deque now max).
Proof.
  intros H0 H. unfold appendFreqSample, zlen in *. rewrite length_app. cbn [length].
  destruct (Z.ltb_spec max (Z.of_nat (length deque + 1))) as [Hl|Hl]; [|rewrite length_app; cbn; lia].
  rewrite length_drop, length_app. cbn [length]. lia.
Qed.

(** Measuring drops at most one sample, and only beyond the minimum. *)
Lemma frequency_deque min decay now deque d hz :
  frequency min decay now deque = (d, hz) -> d = deque \/ (min < zlen deque /\ exists o, deque = o :: d).
Proof.
  unfold frequency. destruct deque as [|o rest]; [intros [= <- _]; by left|].
  destruct (Z.ltb_spec min (zlen (o :: rest))) as [Hm|Hm]; cbn [negb]; [|intros [= <- _]; by left].
  intros [= <- _]. destruct (PrimFloat.ltb decay _); [right; split; [done|by exists o]|by left].
Qed.

Lemma frequency_length min decay now deque d hz :
  frequency min decay now deque = (d, hz) -> zlen d <= zlen deque /\ (min <= zlen deque -> min <= zlen d).
Proof.
  intros H. destruct (frequency_deque _ _ _ _ _ _ H) as [->|(Hm & o & ->)]; [lia|]. unfold zlen in *. cbn [length] in *. lia.
Qed.

(** Few samples measure nothing. *)
Lemma frequency_few min decay now deque : zlen deque <= min -> frequency min decay now deque = (deque, 0%float).
Proof.
  intros H. unfold frequency. destruct deque as [|o rest]; [done|]. by rewrite (proj2 (Z.ltb_ge min _)) by exact H.
Qed.

Lemma incoming_eq now b d hz :
  frequency ICDequeMinSample ARFreqDecay now (iaFreqDeque b) = (d, hz) ->
  incomingAnnounceFrequencyAtLocked now b = (b <| iaFreqDeque := d |>, hz).
Proof. unfold incomingAnnounceFrequencyAtLocked. by intros ->. Qed.

Lemma ok_incoming now b : ingress_ok b -> ingress_ok (incomingAnnounceFrequencyAtLocked now b).1.
Proof.
  intros [O0 O1 O2 O3 O4 O5 O6 O7]. destruct (frequency ICDequeMinSample ARFreqDecay now (iaFreqDeque b)) as [d hz] eqn:Hf.
  rewrite (incoming_eq now b d hz Hf). destruct (frequency_length _ _ _ _ _ _ Hf) as [L1 L2]. split; try done; [exact (Z.le_trans _ _ _ L1 O1)|]. intros Ha. exact (L2 (O5 Ha)).
Qed.

Lemma measured_ok measure (b : BaseInterface) d :
  (measure = (fun b => b <| oaFreqDeque := d |>) /\ zlen d <= zlen (oaFreqDeque b)) \/
  (measure = (fun b => b <| ipFreqDeque := d |>) /\ zlen d <= zlen (ipFreqDeque b)) \/
  (measure = (fun b => b <| opFreqDeque := d |>) /\ zlen d <= zlen (opFreqDeque b)) ->
  ingress_ok b -> ingress_ok (measure b).
Proof. intros [[-> H]|[[-> H]|[-> H]]] [O0 O1 O2 O3 O4 O5 O6 O7]; split; try done; by eapply Z.le_trans. Qed.


(** A burst begins only with samples. *)
Lemma burst_samples now b :
  PrimFloat.ltb (announce_threshold now b) 0 = false ->
  PrimFloat.ltb (announce_threshold now b) (incomingAnnounceFrequencyAtLocked now b).2 = true ->
  ICDequeMinSample <= zlen (iaFreqDeque (incomingAnnounceFrequencyAtLocked now b).1).
Proof.
  intros H0 H1. destruct (Z.le_gt_cases (zlen (iaFreqDeque b)) ICDequeMinSample) as [Hl|Hl].
  - rewrite (incoming_eq now b _ _ (frequency_few _ _ _ _ Hl)) in H1. cbn [snd] in H1. congruence.
  - destruct (frequency ICDequeMinSample ARFreqDecay now (iaFreqDeque b)) as [d hz] eqn:Hf.
    rewrite (incoming_eq now b d hz Hf). cbn [fst]. apply (frequency_length _ _ _ _ _ _ Hf). lia.
Qed.

Lemma ok_limit now b : ingress_ok b -> ingress_ok (shouldIngressLimitAt now b).1.
Proof.
  intros Hok. unfold shouldIngressLimitAt. destruct (negb _); [done|]. pose proof (ok_incoming now b Hok) as H1.
  pose proof (burst_samples now b) as Hs. unfold announce_threshold in Hs at 1.
  assert (Ht : PrimFloat.ltb (announce_threshold now b) 0 = false) by (unfold announce_threshold; case_match; apply (ok_thresholds b Hok)).
  specialize (Hs Ht). destruct (incomingAnnounceFrequencyAtLocked now b) as [b1 hz]. cbn [fst snd] in *.
  destruct H1 as [O0 O1 O2 O3 O4 O5 O6 O7].
  destruct (icBurstActive b1) eqn:Ha; [destruct (_ && _)|destruct (PrimFloat.ltb _ hz)]; cbn [fst]; split; try done.
  - intros _. by apply O5.
  - by rewrite Ha.
Qed.

Lemma ok_limit_pr now b : ingress_ok b -> ingress_ok (shouldIngressLimitPrAt now b).1.
Proof.
  intros Hok. unfold shouldIngressLimitPrAt, incomingPrFrequencyAtLocked. destruct (negb _); [done|].
  destruct (frequency _ _ _ _) as [d hz] eqn:Hf. destruct (frequency_length _ _ _ _ _ _ Hf) as [L1 _].
  assert (H1 : ingress_ok (b <| ipFreqDeque := d |>)) by (apply (measured_ok (fun b => b <| ipFreqDeque := d |>) b d); auto).
  set (b1 := b <| ipFreqDeque := d |>) in *. clearbody b1. destruct H1 as [O0 O1 O2 O3 O4 O5 O6 O7].
  destruct (icPrBurstActive b1); [destruct (_ && _)|destruct (PrimFloat.ltb (pr_threshold now b) hz)]; cbn [fst]; by split.
Qed.

Lemma ok_hold raw recv hops dest b : ingress_ok b -> ingress_ok (HoldAnnounce raw recv hops dest b).
Proof.
  intros [O0 O1 O2 O3 O4 O5 O6 O7]. unfold HoldAnnounce. destruct (Z.leb_spec (PathfinderM - 1) hops) as [|Hh]; [by split|].
  destruct (bool_decide _ || _) eqn:Hc; [|by split]. split; try done.
  - change (Z.of_nat (base.size (<[dest := mkHeld raw recv hops dest]> (heldAnnounces b))) <= Z.max 0 (icMaxHeldAnnounces (config b))).
    destruct (heldAnnounces b !! dest) as [h|] eqn:Hd.
    + by rewrite map_size_insert_Some by (by rewrite Hd).
    + rewrite map_size_insert_None by done. apply orb_true_iff in Hc as [Hc|Hc%Z.ltb_lt]; [|lia].
      by apply bool_decide_eq_true in Hc as [? ?].
  - intros k h Hk. change (<[dest := mkHeld raw recv hops dest]> (heldAnnounces b) !! k = Some h) in Hk.
    destruct (decide (k = dest)) as [->|Hn].
    + rewrite lookup_insert_eq in Hk. injection Hk as <-. done.
    + rewrite lookup_insert_ne in Hk by done. by eapply O7.
Qed.

Lemma ok_less b r m : m ⊆ heldAnnounces b -> ingress_ok b -> ingress_ok (b <| icHeldRelease := r |> <| heldAnnounces := m |>).
Proof.
  intros Hs [O0 O1 O2 O3 O4 O5 O6 O7]. split; try done.
  - change (Z.of_nat (base.size m) <= Z.max 0 (icMaxHeldAnnounces (config b))). pose proof (map_subseteq_size _ _ Hs). lia.
  - intros k h Hk. apply (O7 k h). by eapply lookup_weaken.
Qed.

Lemma ok_process now order b : ingress_ok b -> ingress_ok (processHeldAnnouncesAt now order b).1.
Proof.
  intros Hok. unfold processHeldAnnouncesAt. destruct (_ || _); [done|]. pose proof (ok_incoming now b Hok) as H1.
  destruct (incomingAnnounceFrequencyAtLocked now b) as [b1 hz]. cbn [fst] in H1. destruct (PrimFloat.leb _ _); [done|].
  destruct (select_held _ _) as [[k h]|]; [|done]. apply (ok_less b1); [apply delete_subseteq|done].
Qed.

Lemma ingress_step_ok b now b' : ingress_step b now b' -> ingress_ok b -> ingress_ok b'.
Proof.
  intros H Hok. pose proof Hok as [O0 O1 O2 O3 O4 O5 O6 O7]. destruct H.
  - split; try done; [by apply appendFreqSample_length|]. intros Ha. by apply appendFreqSample_grows; [|apply O5].
  - split; try done. by apply appendFreqSample_length.
  - split; try done. by apply appendFreqSample_length.
  - split; try done. by apply appendFreqSample_length.
  - unfold outgoingAnnounceFrequencyAtLocked. destruct (frequency _ _ _ _) as [d hz] eqn:Hf.
    destruct (frequency_length _ _ _ _ _ _ Hf) as [L1 _]. apply (measured_ok (fun b => b <| oaFreqDeque := d |>) b d); auto.
  - by apply ok_incoming.
  - by apply ok_limit.
  - by apply ok_limit_pr.
  - unfold shouldEgressLimitPrAt, outgoingPrFrequencyAtLocked. destruct (negb _); [done|].
    destruct (frequency _ _ _ _) as [d hz] eqn:Hf. destruct (frequency_length _ _ _ _ _ _ Hf) as [L1 _].
    apply (measured_ok (fun b => b <| opFreqDeque := d |>) b d); auto.
  - by apply ok_hold.
  - unfold ReleaseHeldAnnounce. destruct (heldAnnounces b !! dest); [|done].
    apply (ok_less b (icHeldRelease b)); [apply delete_subseteq|done].
  - apply (ok_less b (icHeldRelease b)); [apply map_empty_subseteq|done].
  - by apply ok_process.
Qed.

(** C38: whatever an interface is exposed to, it keeps at most 48 samples of
    each kind and at most [icMaxHeldAnnounces] announces, each with hops left
    to travel, and a burst always has the samples it needs to end. *)
Theorem ingress_bounded b0 nows b : ingress_ok b0 -> ingress_run b0 nows b -> ingress_ok b.
Proof. intros H0 R. induction R as [|nows b now b' R IH Hs]; [done|]. by eapply ingress_step_ok. Qed.

(** ** Bursts *)

(** What a burst is about. *)
Definition burst (b : BaseInterface) : bool * Z * IngressConfig := (icBurstActive b, icBurstActivated b, config b).

Lemma burst_incoming now b : burst (incomingAnnounceFrequencyAtLocked now b).1 = burst b.
Proof. unfold incomingAnnounceFrequencyAtLocked. by destruct (frequency _ _ _ _). Qed.

Lemma burst_limit now b :
  icBurstActive b = true -> After now (Add (icBurstActivated b) (whole_seconds (icBurstHold (config b)))) = false ->
  burst (shouldIngressLimitAt now b).1 = burst b.
Proof.
  intros Ha Hn. unfold shouldIngressLimitAt. destruct (negb _); [done|]. pose proof (burst_incoming now b) as Hb.
  destruct (incomingAnnounceFrequencyAtLocked now b) as [b1 hz]. cbn [fst] in Hb. unfold burst in Hb. injection Hb as B1 B2 B3.
  rewrite B1, Ha, B2, B3, Hn, andb_false_r. cbn [andb fst]. unfold burst. congruence.
Qed.

Lemma step_burst b now b' :
  ingress_step b now b' -> icBurstActive b = true ->
  After now (Add (icBurstActivated b) (whole_seconds (icBurstHold (config b)))) = false -> burst b' = burst b.
Proof.
  intros H Ha Hn. destruct H; try done.
  - unfold outgoingAnnounceFrequencyAtLocked. by destruct (frequency _ _ _ _).
  - apply burst_incoming.
  - by apply burst_limit.
  - unfold shouldIngressLimitPrAt, incomingPrFrequencyAtLocked. destruct (negb _); [done|]. destruct (frequency _ _ _ _) as [d hz].
    set (b1 := b <| ipFreqDeque := d |>). change (burst b) with (burst b1). clearbody b1. by repeat case_match.
  - unfold shouldEgressLimitPrAt, outgoingPrFrequencyAtLocked. destruct (negb _); [done|]. by destruct (frequency _ _ _ _).
  - unfold HoldAnnounce. by repeat case_match.
  - unfold ReleaseHeldAnnounce. by case_match.
  - unfold processHeldAnnouncesAt. destruct (_ || _); [done|]. pose proof (burst_incoming now b) as Hb.
    destruct (incomingAnnounceFrequencyAtLocked now b) as [b1 hz]. cbn [fst] in Hb. by repeat case_match.
Qed.

(** A burst lasts: until [icBurstHold] seconds after it began, whatever
    arrives, is sent, held or released, announces stay limited. *)
Theorem burst_holds b0 nows b now :
  ingress_run b0 nows b -> ingressControl (config b0) = true -> icBurstActive b0 = true ->
  Forall (fun n => n <= Add (icBurstActivated b0) (whole_seconds (icBurstHold (config b0)))) nows ->
  (shouldIngressLimitAt now b).2 = true.
Proof.
  intros R Hc Ha Hn. assert (Hb : burst b = burst b0).
  { induction R as [|nows b n b' R IH Hs]; [done|]. apply Forall_app in Hn as [Hn1 Hn2]. inversion_clear Hn2 as [|? ? Hn3 _].
    specialize (IH Hn1). unfold burst in IH. injection IH as B1 B2 B3.
    rewrite (step_burst b n b' Hs); [unfold burst; congruence|congruence|]. rewrite B2, B3. unfold After. apply Z.ltb_ge. exact Hn3. }
  unfold burst in Hb. injection Hb as B1 B2 B3. unfold shouldIngressLimitAt. rewrite B3, Hc. cbn [negb].
  pose proof (burst_incoming now b) as Hi. destruct (incomingAnnounceFrequencyAtLocked now b) as [b1 hz]. cbn [fst] in Hi.
  unfold burst in Hi. injection Hi as I1 I2 I3. by rewrite I1, B1, Ha.
Qed.

Definition positive (f : float) : Prop := PrimFloat.ltb 0 f = true /\ PrimFloat.leb f 0 = false.
Definition thresholds_positive (b : BaseInterface) : Prop := positive (icBurstFreq (config b)) /\ positive (icBurstFreqNew (config b)).

Lemma threshold_positive now b : thresholds_positive b -> positive (announce_threshold now b).
Proof. intros [H1 H2]. unfold announce_threshold. by case_match. Qed.

(** Repeated interface jobs, as far as the burst is concerned. *)
Definition checks (nows : list Z) (b : BaseInterface) : BaseInterface := foldl (fun b now => (shouldIngressLimitAt now b).1) b nows.

(** All samples have aged at [now]. *)
Definition aged (now : Z) (b : BaseInterface) : Prop :=
  Forall (fun s => PrimFloat.ltb ARFreqDecay (Seconds (Sub now s)) = true) (iaFreqDeque b).

(** One check of a burst that may end: it ends, or loses a sample. *)
Lemma check_burst now b :
  ingress_ok b -> ingressControl (config b) = true -> thresholds_positive b -> icBurstActive b = true ->
  After now (Add (icBurstActivated b) (whole_seconds (icBurstHold (config b)))) = true -> aged now b ->
  icBurstActive (shouldIngressLimitAt now b).1 = false \/
  (exists o, iaFreqDeque b = o :: iaFreqDeque (shouldIngressLimitAt now b).1 /\ burst (shouldIngressLimitAt now b).1 = burst b).
Proof.
  intros Hok Hc Hp Ha Hn Hg. pose proof (ok_burst b Hok Ha) as Hl. destruct (threshold_positive now b Hp) as [Hpos _].
  unfold shouldIngressLimitAt. rewrite Hc. cbn [negb]. destruct (Z.le_gt_cases (zlen (iaFreqDeque b)) ICDequeMinSample) as [Hs|Hs].
  - rewrite (incoming_eq now b _ _ (frequency_few _ _ _ _ Hs)). left.
    change (icBurstActive (b <| iaFreqDeque := iaFreqDeque b |>)) with (icBurstActive b). rewrite Ha, Hpos.
    change (icBurstActivated (b <| iaFreqDeque := iaFreqDeque b |>)) with (icBurstActivated b).
    change (config (b <| iaFreqDeque := iaFreqDeque b |>)) with (config b). rewrite Hn.
    change (iaFreqDeque (b <| iaFreqDeque := iaFreqDeque b |>)) with (iaFreqDeque b). by rewrite (proj2 (Z.leb_le _ _) Hl).
  - destruct (frequency ICDequeMinSample ARFreqDecay now (iaFreqDeque b)) as [d hz] eqn:Hf.
    assert (Hd : exists o, iaFreqDeque b = o :: d).
    { unfold aged in Hg. unfold frequency in Hf. destruct (iaFreqDeque b) as [|o rest]; [unfold zlen, ICDequeMinSample in Hs; cbn in Hs; lia|].
      rewrite (proj2 (Z.ltb_lt _ _) Hs) in Hf. cbn [negb] in Hf. apply Forall_cons in Hg as [Ho _]. rewrite Ho in Hf.
      injection Hf as <- _. by exists o. }
    rewrite (incoming_eq now b d hz Hf). change (icBurstActive (b <| iaFreqDeque := d |>)) with (icBurstActive b). rewrite Ha.
    destruct (_ && _); [by left|]. right. destruct Hd as [o Ho]. by exists o.
Qed.

(** A burst ends: when nothing more is received, the hold time is over and
    the samples have aged, some one of the next checks ends it, at the latest
    when two samples are left. *)
Theorem burst_subsides nows b :
  ingress_ok b -> ingressControl (config b) = true -> thresholds_positive b -> icBurstActive b = true ->
  zlen (iaFreqDeque b) - 1 <= zlen nows ->
  Forall (fun now => After now (Add (icBurstActivated b) (whole_seconds (icBurstHold (config b)))) = true /\ aged now b) nows ->
  exists k, (k <= length nows)%nat /\ icBurstActive (checks (take k nows) b) = false.
Proof.
  revert b. induction nows as [|now nows IH]; intros b Hok Hc Hp Ha Hlen Hall.
  - pose proof (ok_burst b Hok Ha). unfold ICDequeMinSample, zlen in *. cbn [length] in Hlen. lia.
  - apply Forall_cons in Hall as [[Hn Hg] Hall]. destruct (check_burst now b Hok Hc Hp Ha Hn Hg) as [He|(o & Ho & Hb)].
    + exists 1%nat. split; [cbn; lia|]. destruct nows; exact He.
    + pose proof (ok_limit now b Hok) as Hok'. change (checks (take 0 nows)) with (fun b : BaseInterface => b).
      set (b' := (shouldIngressLimitAt now b).1) in *. unfold burst in Hb. injection Hb as B1 B2 B3.
      destruct (IH b') as (k & Hk & He); [done|by rewrite B3|unfold thresholds_positive; by rewrite B3|congruence| | |].
      * rewrite Ho in Hlen. unfold zlen in *. cbn [length] in Hlen. lia.
      * rewrite B2, B3. eapply Forall_impl; [exact Hall|]. intros n [H1 H2]. split; [done|]. unfold aged in H2. rewrite Ho in H2.
        by apply Forall_cons in H2 as [_ H2].
      * exists (S k). split; [cbn; lia|]. exact He.
Qed.

(** ** Release *)

Lemma select_held_foldl held order acc :
  (forall k h, acc = Some (k, h) -> held !! k = Some h) ->
  let sel := foldl (fewer_hops held) acc order in
  (forall k h, sel = Some (k, h) -> held !! k = Some h) /\
  (is_Some acc -> is_Some sel) /\ (forall k h, k ∈ order -> held !! k = Some h -> is_Some sel) /\
  (forall k h k' h', sel = Some (k, h) -> (acc = Some (k', h') \/ (k' ∈ order /\ held !! k' = Some h')) -> h_hops h <= h_hops h').
Proof.
  revert acc. induction order as [|key order IH]; intros acc Hacc; cbn [foldl].
  - split; [done|]. split; [done|]. split; [by intros k h Hk%elem_of_nil|].
    intros k h k' h' E [E'|[Hk _]]; [rewrite E in E'; injection E' as <- <-; lia|by apply elem_of_nil in Hk].
  - set (acc' := fewer_hops held acc key).
    assert (H1 : forall k h, acc' = Some (k, h) -> held !! k = Some h).
    { unfold acc', fewer_hops. intros k h. destruct (held !! key) as [x|] eqn:Hx; [|apply Hacc].
      destruct acc as [[k0 m]|]; [case_match|]; intros [= <- <-]; auto. }
    assert (H2 : is_Some acc -> is_Some acc').
    { unfold acc', fewer_hops. intros [[k m] ->]. destruct (held !! key); [|done]. case_match; by eexists. }
    assert (H3 : forall h, held !! key = Some h -> is_Some acc').
    { unfold acc', fewer_hops. intros h ->. destruct acc as [[k m]|]; [case_match|]; by eexists. }
    assert (H4 : forall k h k' h', acc' = Some (k, h) -> (acc = Some (k', h') \/ (k' = key /\ held !! k' = Some h')) -> h_hops h <= h_hops h').
    { unfold acc', fewer_hops. intros k h k' h' E Hc. destruct (held !! key) as [x|] eqn:Hx.
      - destruct acc as [[k0 m]|].
        + destruct (Z.ltb_spec (h_hops x) (h_hops m)) as [Hl|Hl]; injection E as <- <-;
            (destruct Hc as [[= <- <-]|[-> Hk]]; [lia|rewrite Hx in Hk; injection Hk as <-; lia]).
        + injection E as <- <-. destruct Hc as [|[-> Hk]]; [done|]. rewrite Hx in Hk. injection Hk as <-. lia.
      - destruct Hc as [->|[-> Hk]]; [injection E as <- <-; lia|congruence]. }
    clearbody acc'. destruct (IH acc' H1) as (I1 & I2 & I3 & I4). split; [done|]. split; [auto|]. split.
    + intros k h Hk Hh. apply elem_of_cons in Hk as [->|Hk]; [apply I2; eauto|eauto].
    + intros k h k' h' Hs Hc. assert (Hk : acc = Some (k', h') \/ (k' = key /\ held !! k' = Some h') -> h_hops h <= h_hops h').
      { intros Hc'. assert (is_Some acc') as [[ka ha] Ea] by (destruct Hc' as [E|[-> E]]; [apply H2; by rewrite E|by eapply H3]).
        pose proof (H4 ka ha k' h' Ea Hc'). pose proof (I4 k h ka ha Hs (or_introl Ea)). lia. }
      destruct Hc as [E|[Hin Hh]]; [apply Hk; by left|]. apply elem_of_cons in Hin as [->|Hin]; [apply Hk; by right|].
      apply (I4 k h k' h' Hs). by right.
Qed.

(** The order of a map's iteration: every key. *)
Definition iterates (order : gmap bytes heldAnnounce -> list bytes) : Prop := forall m k, k ∈ order m <-> is_Some (m !! k).

Lemma select_held_min order m :
  iterates order -> m <> ∅ ->
  exists k h, select_held (order m) m = Some (k, h) /\ m !! k = Some h /\ forall k' h', m !! k' = Some h' -> h_hops h <= h_hops h'.
Proof.
  intros Ho Hm. destruct (select_held_foldl m (order m) None) as (S1 & _ & S3 & S4); [done|]. fold (select_held (order m) m) in S1, S3, S4.
  destruct (map_choose m Hm) as (k0 & h0 & H0). destruct (S3 k0 h0) as [[k h] E]; [apply Ho; by rewrite H0|done|].
  exists k, h. split; [done|]. split; [by apply S1|]. intros k' h' H'. apply (S4 k h k' h' E). right. split; [apply Ho; by rewrite H'|done].
Qed.

(** The gate of an interface job: the release time has passed and announces
    arrive less often than the threshold, as measured by the job itself. *)
Definition job_open (now : Z) (b : BaseInterface) : bool :=
  let b := (shouldIngressLimitPrAt now (shouldIngressLimitAt now b).1).1 in
  After now (icHeldRelease b) && negb (PrimFloat.leb (announce_threshold now b) (incomingAnnounceFrequencyAtLocked now b).2).

(** Interface jobs and, in between, whatever else happens at the interface as
    long as no announce is held or taken out by hand; an announce that a job
    released is received again and counted by [is_received].  The run has what
    the jobs handed to the transport and the number of open jobs. *)
Inductive held_run (order : gmap bytes heldAnnounce -> list bytes) (b0 : BaseInterface)
    : list (bytes * Iface) -> nat -> BaseInterface -> Prop :=
  | hr_start : held_run order b0 [] 0 b0
  | hr_step rs n b now b' : held_run order b0 rs n b -> ingress_step b now b' -> heldAnnounces b' = heldAnnounces b ->
      held_run order b0 rs n b'
  | hr_job rs n b now b' r : held_run order b0 rs n b -> interface_job now order b = (b', r) ->
      held_run order b0 (rs ++ option_list r) (n + if job_open now b then 1 else 0) b'.

Lemma held_limit now b : heldAnnounces (shouldIngressLimitAt now b).1 = heldAnnounces b.
Proof. unfold shouldIngressLimitAt, incomingAnnounceFrequencyAtLocked. by repeat (case_match; simplify_eq). Qed.

Lemma held_limit_pr now b : heldAnnounces (shouldIngressLimitPrAt now b).1 = heldAnnounces b.
Proof. unfold shouldIngressLimitPrAt, incomingPrFrequencyAtLocked. by repeat (case_match; simplify_eq). Qed.

(** A job releases the held announce with the fewest hops, or none. *)
Lemma job_releases now order b b' r :
  iterates order -> interface_job now order b = (b', r) ->
  (r = None /\ heldAnnounces b' = heldAnnounces b /\ (job_open now b = true -> heldAnnounces b = ∅)) \/
  (job_open now b = true /\ exists k h, r = Some (h_raw h, h_recv h) /\ heldAnnounces b !! k = Some h /\
     heldAnnounces b' = delete k (heldAnnounces b) /\ forall k' h', heldAnnounces b !! k' = Some h' -> h_hops h <= h_hops h').
Proof.
  intros Ho. unfold interface_job, job_open. pose proof (held_limit now b) as H1.
  pose proof (held_limit_pr now (shouldIngressLimitAt now b).1) as H2. rewrite H1 in H2.
  set (b2 := (shouldIngressLimitPrAt now _).1) in *. clearbody b2. rewrite <- H2. clear H1 H2. unfold processHeldAnnouncesAt.
  destruct (Nat.eqb_spec (base.size (heldAnnounces b2)) 0) as [E|E]; cbn [orb].
  { apply map_size_empty_inv in E. intros [= <- <-]. by left. }
  apply map_size_non_empty_iff in E. destruct (After now (icHeldRelease b2)); cbn [negb andb]; [|intros [= <- <-]; by left].
  unfold incomingAnnounceFrequencyAtLocked. destruct (frequency _ _ _ _) as [d hz]. cbn [snd].
  destruct (PrimFloat.leb _ hz); cbn [negb]; [intros [= <- <-]; by left|].
  change (heldAnnounces (b2 <| iaFreqDeque := d |>)) with (heldAnnounces b2).
  destruct (select_held_min order _ Ho E) as (k & h & -> & Hk & Hmin). intros [= <- <-]. right. split; [done|]. by exists k, h.
Qed.

Lemma Sorted_snoc (l : list Z) x : Sorted Z.le l -> Forall (fun y => y <= x) l -> Sorted Z.le (l ++ [x]).
Proof.
  induction l as [|y l IH]; intros Hs Hf; cbn; [by repeat constructor|]. apply Sorted_inv in Hs as [Hs Hy].
  apply Forall_cons in Hf as [Hyx Hf]. constructor; [auto|]. destruct l as [|z l]; [by constructor|]. constructor. by inversion Hy.
Qed.

(** One more job of a run. *)
Lemma held_job order b0 hs n b now b' r :
  iterates order -> interface_job now order b = (b', r) ->
  length hs = Nat.min n (base.size (heldAnnounces b0)) ->
  hs ++ (map_to_list (heldAnnounces b)).*2 ≡ₚ (map_to_list (heldAnnounces b0)).*2 -> Sorted Z.le (map h_hops hs) ->
  Forall (fun h => forall k h', heldAnnounces b !! k = Some h' -> h_hops h <= h_hops h') hs ->
  exists hs', map (fun h => (h_raw h, h_recv h)) hs ++ option_list r = map (fun h => (h_raw h, h_recv h)) hs' /\
    length hs' = Nat.min (n + if job_open now b then 1 else 0) (base.size (heldAnnounces b0)) /\
    hs' ++ (map_to_list (heldAnnounces b')).*2 ≡ₚ (map_to_list (heldAnnounces b0)).*2 /\ Sorted Z.le (map h_hops hs') /\
    Forall (fun h => forall k h', heldAnnounces b' !! k = Some h' -> h_hops h <= h_hops h') hs'.
Proof.
  intros Ho J Hl Hp Hs Hf. pose proof (Permutation_length Hp) as Hlen. rewrite length_app, !length_fmap, !length_map_to_list in Hlen.
  destruct (job_releases now order b b' r Ho J) as [(-> & E & He)|(Hopen & k & h & -> & Hk & E & Hmin)].
  - exists hs. rewrite E, app_nil_r. split; [done|]. split; [|done]. destruct (job_open now b) eqn:Hj; [|by rewrite Nat.add_0_r].
    rewrite (He eq_refl), map_size_empty in Hlen. lia.
  - exists (hs ++ [h]). rewrite Hopen, E, !map_app. split; [done|].
    assert (base.size (heldAnnounces b) <> 0%nat) as Hne.
    { apply map_size_non_empty_iff. intros Hn. by rewrite Hn, lookup_empty in Hk. }
    split; [rewrite length_app; cbn [length]; lia|]. split.
    { rewrite <- app_assoc. cbn [app]. rewrite <- Hp. apply Permutation_app_head.
      pose proof (fmap_Permutation snd _ _ (map_to_list_delete _ _ _ Hk)) as Hd. exact Hd. }
    split.
    + apply Sorted_snoc; [done|]. apply Forall_fmap. eapply Forall_impl; [exact Hf|]. intros x Hx. cbn. by eapply Hx.
    + apply Forall_app. split.
      * eapply Forall_impl; [exact Hf|]. intros x Hx k' h' Hh. apply lookup_delete_Some in Hh as [_ Hh]. by eapply Hx.
      * constructor; [|constructor]. intros k' h' Hh. apply lookup_delete_Some in Hh as [_ Hh]. by eapply Hmin.
Qed.

(** A quiet interface has open jobs: at most two samples are no frequency. *)
Lemma quiet_open now b :
  zlen (iaFreqDeque b) <= ICDequeMinSample -> thresholds_positive b -> After now (icHeldRelease b) = true -> job_open now b = true.
Proof.
  intros Hq Hp Hn. unfold job_open.
  assert (forall b', iaFreqDeque b' = iaFreqDeque b -> icHeldRelease b' = icHeldRelease b -> config b' = config b ->
    created b' = created b ->
    After now (icHeldRelease b') && negb (PrimFloat.leb (announce_threshold now b') (incomingAnnounceFrequencyAtLocked now b').2) = true) as K.
  { intros b' E1 E2 E3 E4. rewrite E2, Hn. unfold incomingAnnounceFrequencyAtLocked. rewrite E1, (frequency_few _ _ _ _ Hq). cbn [snd].
    assert (thresholds_positive b') as Hp' by (unfold thresholds_positive; by rewrite E3).
    by destruct (threshold_positive now b' Hp') as [_ ->]. }
  assert (let b1 := (shouldIngressLimitAt now b).1 in iaFreqDeque b1 = iaFreqDeque b /\ icHeldRelease b1 = icHeldRelease b /\
    config b1 = config b /\ created b1 = created b) as (L1 & L2 & L3 & L4).
  { unfold shouldIngressLimitAt. destruct (negb _); [done|]. rewrite (incoming_eq now b _ _ (frequency_few _ _ _ _ Hq)).
    destruct (icBurstActive _); [by case_match|]. destruct (threshold_positive now b Hp) as [Hlt _].
    by rewrite (float_ltb_asym _ _ Hlt). }
  set (b1 := (shouldIngressLimitAt now b).1) in *. clearbody b1.
  apply K; unfold shouldIngressLimitPrAt, incomingPrFrequencyAtLocked; by repeat (case_match; simplify_eq).
Qed.

(** C37: held announces are not lost.  Over any run of interface jobs, with
    anything received in between (the announces the jobs release among it) as
    long as no further announce is held, each job whose gate is open hands the
    held announce with the fewest hops to the transport, and no other job hands
    over anything: after [n] open jobs exactly the [n] held announces with the
    fewest hops were handed over, in the order of their hops and each once, all
    of them once there were as many open jobs as announces.  The gate is open
    whenever the release time has passed and at most two announces are in the
    interface's sample, so in particular when nothing is received. *)
Theorem held_announces_released order b0 rs n b :
  iterates order -> held_run order b0 rs n b ->
  (exists hs, rs = map (fun h => (h_raw h, h_recv h)) hs /\ length hs = Nat.min n (base.size (heldAnnounces b0)) /\
     hs ++ (map_to_list (heldAnnounces b)).*2 ≡ₚ (map_to_list (heldAnnounces b0)).*2 /\ Sorted Z.le (map h_hops hs) /\
     Forall (fun h => forall k h', heldAnnounces b !! k = Some h' -> h_hops h <= h_hops h') hs) /\
  ((base.size (heldAnnounces b0) <= n)%nat -> heldAnnounces b = ∅) /\
  (forall now, zlen (iaFreqDeque b) <= ICDequeMinSample -> thresholds_positive b -> After now (icHeldRelease b) = true ->
     job_open now b = true).
Proof.
  intros Ho R.
  assert (exists hs, rs = map (fun h => (h_raw h, h_recv h)) hs /\ length hs = Nat.min n (base.size (heldAnnounces b0)) /\
     hs ++ (map_to_list (heldAnnounces b)).*2 ≡ₚ (map_to_list (heldAnnounces b0)).*2 /\ Sorted Z.le (map h_hops hs) /\
     Forall (fun h => forall k h', heldAnnounces b !! k = Some h' -> h_hops h <= h_hops h') hs) as H.
  { induction R as [|rs n b now b' R IH St E|rs n b now b' r R IH J].
    - exists []. cbn. split_and!; [done..|constructor|constructor].
    - by rewrite E.
    - destruct IH as (hs & -> & Hl & Hp & Hs & Hf). apply (held_job order b0 hs n b now b' r); done. }
  split; [done|]. split; [|intros now; apply quiet_open].
  destruct H as (hs & _ & Hl & Hp & _). intros Hn. apply map_size_empty_inv.
  apply Permutation_length in Hp. rewrite length_app, !length_fmap, !length_map_to_list in Hp. lia.
Qed.

(** ** Witnesses *)

Module ToyIngress.
Definition t0 : Z := 10 ^ 18.
Definition fresh : BaseInterface := NewBaseInterface t0.
Definition tick (k : Z) : Z := t0 + k * 10 ^ 8.
Definition flood (l : list Z) : BaseInterface := foldl (fun b k => receivedAnnounceAtSize (tick k) 200 b) fresh l.
Definition flooded : BaseInterface := flood [1; 2; 3; 4].
Definition bursting : BaseInterface := (shouldIngressLimitAt (tick 5) flooded).1.
Definition holding : BaseInterface := HoldAnnounce [1] 0 5 [7] bursting.
Definition waiting : BaseInterface := HoldAnnounce [2] 1 2 [8] (HoldAnnounce [1] 0 5 [7] fresh).
Definition keys (m : gmap bytes heldAnnounce) : list bytes := (map_to_list m).*1.

Lemma keys_iterate : iterates keys.
Proof.
  intros m k. unfold keys. rewrite list_elem_of_fmap. split.
  - intros ([k' h] & -> & H%elem_of_map_to_list). by exists h.
  - intros [h H]. exists (k, h). split; [done|]. by apply elem_of_map_to_list.
Qed.

Lemma fresh_ok : ingress_ok fresh.
Proof. by split. Qed.

Lemma fresh_positive : thresholds_positive fresh.
Proof. by repeat split. Qed.

Lemma bursting_run : ingress_run fresh ((((([] ++ [tick 1]) ++ [tick 2]) ++ [tick 3]) ++ [tick 4]) ++ [tick 5]) bursting.
Proof.
  apply (ir_step _ _ flooded (tick 5)); [|exact (is_limit flooded (tick 5))].
  apply (ir_step _ _ (flood [1; 2; 3]) (tick 4)); [|exact (is_received (flood [1; 2; 3]) (tick 4) 200)].
  apply (ir_step _ _ (flood [1; 2]) (tick 3)); [|exact (is_received (flood [1; 2]) (tick 3) 200)].
  apply (ir_step _ _ (flood [1]) (tick 2)); [|exact (is_received (flood [1]) (tick 2) 200)].
  apply (ir_step _ _ fresh (tick 1)); [|exact (is_received fresh (tick 1) 200)]. apply ir_start.
Qed.

Lemma bursting_ok : ingress_ok bursting.
Proof.
  apply ok_limit. do 4 (eapply (ingress_step_ok _ _ _ (is_received _ _ _))). apply fresh_ok.
Qed.
End ToyIngress.

Section IngressWitnesses.
Import ToyIngress.

Lemma ingress_bounded_witness : ingress_ok bursting /\ icBurstActive bursting = true.
Proof. split; [|vm_compute; reflexivity]. eapply (ingress_bounded fresh); [apply fresh_ok|apply bursting_run]. Defined.

Lemma burst_holds_witness : (shouldIngressLimitAt (tick 100) holding).2 = true.
Proof.
  apply (burst_holds bursting ([] ++ [tick 7]) holding); [|vm_compute; reflexivity..|].
  - eapply ir_step; [apply ir_start|]. apply is_hold.
  - constructor; [vm_compute; discriminate|constructor].
Defined.

Lemma burst_subsides_witness :
  exists k, (k <= 3)%nat /\ icBurstActive (checks (take k [tick 1000; tick 1001; tick 1002]) bursting) = false.
Proof.
  apply (burst_subsides [tick 1000; tick 1001; tick 1002] bursting).
  - apply bursting_ok.
  - vm_compute. reflexivity.
  - exact fresh_positive.
  - vm_compute. reflexivity.
  - vm_compute. discriminate.
  - assert (H : forall now, now ∈ [tick 1000; tick 1001; tick 1002] ->
      After now (Add (icBurstActivated bursting) (whole_seconds (icBurstHold (config bursting)))) = true /\ aged now bursting).
    { intros now [->|[->|[->|[]%elem_of_nil]%elem_of_cons]%elem_of_cons]%elem_of_cons;
        (split; [vm_compute; reflexivity|]; unfold aged; replace (iaFreqDeque bursting) with [tick 1; tick 2; tick 3; tick 4]
          by (vm_compute; reflexivity); repeat (apply Forall_cons_2; [vm_compute; reflexivity|]); apply Forall_nil_2). }
    apply Forall_forall. exact H.
Defined.

(** Two jobs release both announces, the first of which is received again
    in between. *)
Lemma held_announces_released_witness :
  let again := receivedAnnounceAtSize (tick 2) 200 (interface_job (tick 1) keys waiting).1 in
  let b := (interface_job (tick 100) keys again).1 in
  held_run keys waiting [([2], 1%nat); ([1], 0%nat)] 2 b /\ heldAnnounces b = ∅ /\
  exists hs, [([2], 1%nat); ([1], 0%nat)] = map (fun h => (h_raw h, h_recv h)) hs /\ Sorted Z.le (map h_hops hs).
Proof.
  intros again b.
  assert (held_run keys waiting [([2], 1%nat); ([1], 0%nat)] 2 b) as R.
  { change [([2], 1%nat); ([1], 0%nat)] with (([] ++ option_list (Some ([2], 1%nat))) ++ option_list (Some ([1], 0%nat))).
    assert (job_open (tick 1) waiting = true) as O1 by (vm_compute; reflexivity).
    assert (job_open (tick 100) again = true) as O2 by (vm_compute; reflexivity).
    assert (2%nat = (0 + (if job_open (tick 1) waiting then 1 else 0) + (if job_open (tick 100) again then 1 else 0))%nat) as ->
      by (rewrite O1, O2; reflexivity).
    apply (hr_job keys waiting _ _ again (tick 100) b); [|vm_compute; reflexivity].
    apply (hr_step keys waiting _ _ (interface_job (tick 1) keys waiting).1 (tick 2)); [|apply is_received|vm_compute; reflexivity].
    apply (hr_job keys waiting [] 0 waiting (tick 1)); [apply hr_start|vm_compute; reflexivity]. }
  split; [exact R|].
  destruct (held_announces_released keys waiting _ 2 b keys_iterate R) as ((hs & E & _ & _ & Hs & _) & He & _).
  split; [apply He; vm_compute; lia|]. exists hs. split; [exact E|exact Hs].
Defined.
End IngressWitnesses.
