(* ===== verification/TransportEffects.v ===== *)
(** * What the transport does to its tables

    The effect of every operation of the transport on the memory of packet
    hashes, the link table and the path table, and the histories of a
    transport: frames that arrive, interleaved with sending, registering and
    the periodic jobs. *)

From stdpp Require Import base tactics option list gmap.
From Stdlib Require Import ZArith Lia PrimFloat.
From S2P Require Import Prelude Clock Crypto Packet Channel Buffer InboundQueues Msgpack Resource Identity Link Transport PathRequests Forwarding Announcing Routing.
Local Open Scope Z_scope.
Local Open Scope go_scope.

Section Effects.
Context `{Sh : Sha256} `{Ci : BlockCipher} `{Cu : Curves}.

(** ** What the operations leave alone *)

(** The memory of packet hashes and the link table. *)
Definition guarded (t : Transport) : gmap bytes Z * gmap bytes Z * Z * gmap bytes LinkEntry :=
  (packetHashes t, packetHashesPrev t, packetHashRotateAt t, linkTable t).

(** These and the paths. *)
Definition core (t : Transport) : gmap bytes Z * gmap bytes Z * Z * gmap bytes LinkEntry * gmap bytes PathEntry :=
  (guarded t, pathTable t).

Lemma core_guarded t t' : core t' = core t -> guarded t' = guarded t.
Proof. unfold core. congruence. Qed.

Lemma core_known now dest t : core (usedDestinationDataLocked now dest t) = core t.
Proof. unfold usedDestinationDataLocked. by repeat case_match. Qed.

Lemma core_apply_announce effects t : core (apply_announce effects t) = core t.
Proof.
  unfold apply_announce. revert t. induction effects as [|e l IH]; intros t; [done|]. cbn [foldl]. rewrite IH.
  destruct e; [done|]. unfold TSetRatchet. by case_match.
Qed.

Lemma core_note_rebroadcast now p t : core (note_rebroadcast now p t) = core t.
Proof. unfold note_rebroadcast. by repeat case_match. Qed.

Lemma guarded_update_path io now p i t t' b : update_path io now p i t = Ok (Some (t', b)) -> guarded t' = guarded t.
Proof.
  unfold update_path. intros H. destruct (pathTable t !! DestinationHash p) as [e|].
  - destruct (should_replace io now p i e); [|by simplify_eq]. destruct (nextHopFromAnnounce p); [|done].
    destruct (PGetHash p); cbn in H; by simplify_eq.
  - destruct (nextHopFromAnnounce p); [|done]. destruct (PGetHash p); cbn in H; by simplify_eq.
Qed.

Lemma core_queue_rebroadcast io now delay p i t : core (queue_rebroadcast io now delay p i t) = core t.
Proof.
  unfold queue_rebroadcast. case_match; [|done]. assert (core (check_rate io now i (DestinationHash p) t).1 = core t) as Hr.
  { unfold check_rate. by repeat case_match. }
  destruct (check_rate io now i (DestinationHash p) t) as [t1 b]. cbn [fst] in Hr. rewrite <- Hr. by repeat case_match.
Qed.

Lemma guarded_handleAnnounce io now delay p i t : guarded (handleAnnounce io now delay p i t).1 = guarded t.
Proof.
  unfold handleAnnounce. destruct (ValidateAnnounce p) as [[] eff]; [|done].
  rewrite <- (core_guarded _ _ (core_apply_announce eff t)). set (t1 := apply_announce eff t). clearbody t1.
  destruct (bool_decide _); [done|]. destruct (shouldHoldAnnounce io p i t1); [done|].
  rewrite <- (core_guarded _ _ (core_note_rebroadcast now p t1)). set (t2 := note_rebroadcast now p t1). clearbody t2.
  destruct (update_path io now p i t2) as [[[t3 added]|]| |] eqn:Hu; try done.
  rewrite <- (guarded_update_path io now p i t2 t3 added Hu). destruct added; [|done]. cbn [negb fst].
  rewrite (core_guarded _ _ (core_queue_rebroadcast io now delay p i _)). case_match; [apply core_guarded, core_known|done].
Qed.

Lemma guarded_process_announce io now env p i t : guarded (process_announce io now env p i t).1 = guarded t.
Proof.
  unfold process_announce. pose proof (guarded_handleAnnounce io now (env_delay env) p i t) as H.
  destruct (handleAnnounce io now (env_delay env) p i t) as [t1 ev]. cbn [fst] in H.
  destruct (_ =? _); [|done]. destruct (forwardPathResponseToRequesters io p i t1) as [ev' []]; done.
Qed.

Lemma core_answer_local io now env d i t t' ev : answer_local io now env d i t = Ok (t', ev) -> core t' = core t.
Proof.
  unfold answer_local. destruct (buildAnnouncePacket _ _ _ _ _ _ _ _ _ _ _) as [[[d' disk] eff] r].
  pose proof (core_apply_announce eff (t <| destinationsMap ::= <[DHash d := d']> |>)) as H.
  change (core (t <| destinationsMap ::= <[DHash d := d']> |>)) with (core t) in H.
  set (t1 := apply_announce _ _) in *. clearbody t1. intros E.
  destruct r as [p|e|]; [|congruence|done]. destruct (Packet.Pack _) as [p' [[]|e|]]; congruence.
Qed.

Lemma core_answer_cached io now data h e i t t' ev : answer_cached io now data h e i t = Ok (t', ev) -> core t' = core t.
Proof.
  unfold answer_cached. case_match; [by intros [= <- <-]|]. destruct (Packet.Unpack _) as [c [[]|er|]]; [|by intros [= <- <-]|done].
  case_match; intros [= <- <-]; [done|apply core_known].
Qed.

Lemma core_handlePathRequest io now env data i t t' ev b :
  handlePathRequest io now env data i t = Ok (t', ev, b) -> core t' = core t.
Proof.
  unfold handlePathRequest. case_match; [by intros [= <- _ _]|]. case_match; [by intros [= <- _ _]|].
  case_match; [by intros [= <- _ _]|].
  set (t1 := cullDiscoveryPRTagsLocked _). assert (core t1 = core t) as <-.
  { unfold t1, cullDiscoveryPRTagsLocked. by case_match. }
  clearbody t1. case_match; [by intros [= <- _ _]|].
  set (t2 := t1 <| inflightPathRequests ::= _ |>). change (core t1) with (core t2). clearbody t2.
  destruct (destinationsMap t2 !! take dstLen data) as [d|].
  - destruct (answer_local io now env d i t2) as [[t3 ev3]|er|] eqn:Ha; cbn; try done. intros [= <- _ _].
    by apply core_answer_local in Ha.
  - set (t3 := match _ with Some e => _ | None => t2 end).
    assert (core t3 = core t2) as <- by (unfold t3; repeat case_match; rewrite ?core_known; done).
    destruct (if connectedToSharedInstance t2 then None else pathTable t2 !! take dstLen data) as [e|]; [|by intros [= <- _ _]].
    clearbody t3. destruct (tidentity t3) as [h|]; [|by intros [= <- _ _]]. case_match; [|by intros [= <- _ _]].
    destruct (answer_cached io now data h e i t3) as [[t4 ev4]|er|] eqn:Ha; cbn; try done. intros [= <- _ _].
    by apply core_answer_cached in Ha.
Qed.

Lemma core_forwardPathRequest io now env data i t : core (forwardPathRequest io now env data i t).1 = core t.
Proof.
  unfold forwardPathRequest. case_match; [done|]. case_match; [done|].
  destruct (search_for_unknown (io i)) as [search modes]. case_match; [done|]. by repeat case_match.
Qed.

Lemma core_process_path_request io now env p i t t' ev :
  process_path_request io now env p i t = Ok (t', ev) -> core t' = core t.
Proof.
  unfold process_path_request. intros H.
  destruct (handlePathRequest io now env (Packet.Data p) i t) as [[[t1 ev1] b]|e|] eqn:Hh; cbn in H; try done.
  apply core_handlePathRequest in Hh. destruct b; [congruence|].
  pose proof (core_forwardPathRequest io now env (Packet.Data p) i t1) as Hf.
  destruct (forwardPathRequest io now env (Packet.Data p) i t1) as [t2 ev2]. cbn [fst] in Hf. congruence.
Qed.

(** ** What processing a packet does to the hashes and the links *)

Definition hashes (t : Transport) : gmap bytes Z * gmap bytes Z * Z :=
  (packetHashes t, packetHashesPrev t, packetHashRotateAt t).

Definition is_lrproof (p : Packet) : Prop := PacketType p = PacketProof /\ Context p = ContextLrproof.

(** A proof of the link [e] that arrived where the link request left. *)
Definition proves (t : Transport) (p : Packet) (i : Iface) (id : bytes) (e : LinkEntry) : Prop :=
  is_lrproof p /\ DestinationHash p = id /\ LOutboundInterface e = Some i /\
  validateRelayLinkProofLocked p (LDestinationHash e) t = Ok true.

(** The same link: where it goes and where its ends are. *)
Definition same_link (e e' : LinkEntry) : Prop :=
  LDestinationHash e' = LDestinationHash e /\ LOutboundInterface e' = LOutboundInterface e /\
  LReceivedInterface e' = LReceivedInterface e.

(** Links become valid by proofs only. *)
Definition links_step (t : Transport) (p : Packet) (i : Iface) (t' : Transport) : Prop :=
  forall id e', linkTable t' !! id = Some e' -> Validated e' = true ->
    (exists e, linkTable t !! id = Some e /\ same_link e e' /\ Validated e = true) \/ proves t p i id e'.

Definition hashes_step (t : Transport) (p : Packet) (t' : Transport) : Prop :=
  hashes t' = hashes t \/ (is_lrproof p /\ hashes t' = hashes (ForgetPacketHash (PacketHash p) t)).

(** The route of a path: all but its length and its responsiveness. *)
Definition same_route (e e' : PathEntry) : Prop :=
  NextHop e' = NextHop e /\ PInterface e' = PInterface e /\ PPacket e' = PPacket e /\ Expires e' = Expires e /\
  RandomBlobs e' = RandomBlobs e.

(** The announce [p] that arrived on [i] teaches the path [e] to [d]. *)
Definition teaches (p : Packet) (i : Iface) (d : bytes) (e : PathEntry) : Prop :=
  PacketType p = PacketAnnounce /\ DestinationHash p = d /\ (ValidateAnnounce p).1 = true /\
  nextHopFromAnnounce p = Some (NextHop e) /\ PInterface e = Some i /\ PPacket e = Raw p /\ PHops e = Hops p.

(** What the announce found: no path, or one it may replace. *)
Definition supersedes (io : Iface -> IfaceInfo) (now : Z) (t : Transport) (p : Packet) (i : Iface) (d : bytes) (e' : PathEntry) : Prop :=
  match pathTable t !! d with
  | None => RandomBlobs e' = option_list (random_blob p)
  | Some e => should_replace io now p i e = true /\ RandomBlobs e' = add_blob (random_blob p) (RandomBlobs e)
  end.

(** Paths are learned from announces only; a proof may correct a length. *)
Definition paths_step (io : Iface -> IfaceInfo) (now : Z) (t : Transport) (p : Packet) (i : Iface) (t' : Transport) : Prop :=
  (forall d, is_Some (pathTable t !! d) -> is_Some (pathTable t' !! d)) /\
  (forall d e', pathTable t' !! d = Some e' ->
    (exists e, pathTable t !! d = Some e /\ same_route e e' /\
       (PHops e' = PHops e \/ (PacketType p = PacketProof /\ PHops e' = Hops p))) \/
    (teaches p i d e' /\ supersedes io now t p i d e')).

Definition effect_ok (io : Iface -> IfaceInfo) (now : Z) (t : Transport) (p : Packet) (i : Iface) (t' : Transport) : Prop :=
  hashes_step t p t' /\ links_step t p i t' /\ paths_step io now t p i t'.

Lemma links_same t p i t' : linkTable t' = linkTable t -> links_step t p i t'.
Proof. intros H id e' He Hv. rewrite H in He. left. by exists e'. Qed.

Lemma paths_same io now t p i t' : pathTable t' = pathTable t -> paths_step io now t p i t'.
Proof.
  intros H. split; [by rewrite H|]. intros d e' He. rewrite H in He. left. exists e'. split; [done|]. split; [done|by left].
Qed.

(** A proof corrects the length of one path. *)
Lemma paths_hops io now t p i t' d :
  PacketType p = PacketProof -> pathTable t' = alter (fun e => e <| PHops := Hops p |>) d (pathTable t) ->
  paths_step io now t p i t'.
Proof.
  intros Hp H. split; [intros k; rewrite H; by rewrite lookup_alter_is_Some|].
  intros k e' He. rewrite H in He. left. destruct (decide (k = d)) as [->|Hk].
  - rewrite lookup_alter_eq in He. apply fmap_Some in He as (e & He & ->). exists e. split; [done|]. split; [done|by right].
  - rewrite lookup_alter_ne in He by done. exists e'. split; [done|]. split; [done|by left].
Qed.

Lemma core_effect io now t p i t' : core t' = core t -> effect_ok io now t p i t'.
Proof.
  unfold core, guarded. intros [= H1 H2 H3 H4 H5]. split; [left; unfold hashes; congruence|]. split; [by apply links_same|by apply paths_same].
Qed.

(** An effect seen from, and followed by, a step that keeps the core. *)
Lemma paths_step_core io now t1 t p i t' : core t1 = core t -> paths_step io now t1 p i t' -> paths_step io now t p i t'.
Proof.
  unfold core. intros [= H1 H2 H3 H4 H5] H. unfold paths_step, supersedes in *. by rewrite H5 in H.
Qed.

Lemma effect_core io now t p i t2 t' : core t' = core t2 -> effect_ok io now t p i t2 -> effect_ok io now t p i t'.
Proof.
  unfold core, guarded. intros [= H1 H2 H3 H4 H5] (Hh & Hl & Hp). split; [|split].
  - assert (hashes t' = hashes t2) as E by (unfold hashes; congruence). unfold hashes_step. rewrite E. exact Hh.
  - intros id e. rewrite H4. apply Hl.
  - unfold paths_step. by rewrite H5.
Qed.

(** Replacing an entry by one that is not valid, or as valid as before. *)
Lemma links_insert t p i t' id e' :
  linkTable t' = <[id := e']> (linkTable t) ->
  (Validated e' = true -> (exists e, linkTable t !! id = Some e /\ same_link e e' /\ Validated e = true) \/ proves t p i id e') ->
  links_step t p i t'.
Proof.
  intros H Hv k x Hx Hxv. rewrite H in Hx. destruct (decide (k = id)) as [->|Hk].
  - rewrite lookup_insert_eq in Hx. injection Hx as <-. auto.
  - rewrite lookup_insert_ne in Hx by done. left. by exists x.
Qed.

Lemma record_forward_effect io now p i e out t t' :
  record_forward io now p i e out t = Ok t' -> effect_ok io now t p i t'.
Proof.
  unfold record_forward. destruct (_ =? _).
  - destruct (LinkIDFromLR p) as [id|er|]; cbn; try done. intros [= <-]. split; [by left|].
    split; [by eapply links_insert|by apply paths_same].
  - destruct (GetTruncatedHash p) as [h|er|]; cbn; try done. intros [= <-]. by apply core_effect.
Qed.

Lemma forward_path_effect io now p i t t' ev : forward_path io now p i t = Some (Ok (t', ev)) -> effect_ok io now t p i t'.
Proof.
  unfold forward_path. destruct (pathTable t !! DestinationHash p) as [e|]; [|done].
  destruct (PInterface e) as [out|]; [|intros [= <- _]; by apply core_effect].
  destruct (record_forward io now p i e out t) as [t1|er|] eqn:Hr; cbn; try done. intros [= <- _]. by eapply record_forward_effect.
Qed.

Lemma forward_link_effect io now p i t t' ev : forward_link io now p i t = Some (t', ev) -> effect_ok io now t p i t'.
Proof.
  unfold forward_link. destruct (negb _ && negb _); [|done]. destruct (linkTable t !! DestinationHash p) as [e|] eqn:He; [|done].
  destruct (Validated e) eqn:Hv; cbn [negb]; [|intros [= <- _]; by apply core_effect].
  destruct (link_direction p i e) as [out|]; [|done]. intros [= <- _]. split; [by left|]. split; [|by apply paths_same].
  eapply links_insert; [reflexivity|]. intros _. left. by exists e.
Qed.

Lemma deliver_proof_effect io now p i l t : PacketType p = PacketProof -> effect_ok io now t p i (deliver_proof p l t).1.
Proof.
  intros Hp. unfold deliver_proof. destruct (_ && _); cbn [fst]; [|by apply core_effect].
  destruct (destination l) as [d|]; [|by apply core_effect]. split; [by left|]. split; [by apply links_same|by eapply paths_hops].
Qed.

(** Whose signature is checked does not depend on the tables. *)
Lemma validateRelay_tables p d t lt pt :
  validateRelayLinkProofLocked p d (t <| linkTable := lt |> <| pathTable := pt |>) = validateRelayLinkProofLocked p d t.
Proof. done. Qed.

Lemma rebalance_entry_inv p e t e1 t1 :
  rebalance_entry p e t = Ok (Some (e1, t1)) ->
  (e1 = e /\ t1 = t) \/
  (Validated e = false /\ e1 = e <| RemainingHops := Hops p |> /\
   t1 = t <| linkTable := <[DestinationHash p := e1]> (linkTable t) |>
          <| pathTable := alter (fun pe => pe <| PHops := Hops p |>) (LDestinationHash e) (pathTable t) |>).
Proof.
  unfold rebalance_entry. destruct (negb (Hops p =? RemainingHops e) && allowLinkPathRebalance t && negb (Validated e)) eqn:Hc.
  - apply andb_true_iff in Hc as [_ Hv]. apply negb_true_iff in Hv.
    destruct (validateRelayLinkProofLocked p (LDestinationHash e) t) as [[]|er|]; cbn; try done.
    intros [= <- <-]. by right.
  - intros [= <- <-]. by left.
Qed.

Lemma relayLinkProof_effect io now p i t t' ev :
  is_lrproof p -> relayLinkProof io now p i t = Some (Ok (t', ev)) -> effect_ok io now t p i t'.
Proof.
  intros Hp. unfold relayLinkProof. destruct (linkTable t !! DestinationHash p) as [e|] eqn:He; [|done].
  assert (Hforget : effect_ok io now t p i (ForgetPacketHash (PacketHash p) t))
    by (split; [by right|split; [by apply links_same|by apply paths_same]]).
  destruct (bool_decide (Some i = LOutboundInterface e)) eqn:Hi; cbn [negb]; [|by intros [= <- _]].
  apply bool_decide_eq_true in Hi.
  destruct (rebalance_entry p e t) as [[[e1 t1]|]|er|] eqn:Hb; cbn; try done; [|by intros [= <- _]].
  pose proof (rebalance_entry_inv p e t e1 t1 Hb) as Hinv.
  assert (Hsl : same_link e e1 /\ Validated e1 = Validated e) by (by destruct Hinv as [[-> _]|(_ & -> & _)]).
  assert (H1 : effect_ok io now t p i t1 /\ linkTable t1 = <[DestinationHash p := e1]> (linkTable t) /\
               validateRelayLinkProofLocked p (LDestinationHash e1) t1 = validateRelayLinkProofLocked p (LDestinationHash e1) t /\
               hashes t1 = hashes t).
  { destruct Hinv as [[-> ->]|(Hv & -> & ->)].
    - split; [by apply core_effect|]. split; [by rewrite insert_id|done].
    - split; [|done]. split; [by left|]. split; [eapply links_insert; [reflexivity|]; cbn; congruence|].
      by eapply paths_hops; [apply Hp|]. }
  destruct H1 as (Hok & Hlt & Hval & Hh). clear Hb Hinv.
  destruct (Hops p =? RemainingHops e1); cbn [negb].
  2:{ intros [= <- _]. split; [right; split; [done|]|].
      - unfold hashes in Hh |- *. injection Hh as E1 E2 E3. cbn. by rewrite E1, E2, E3.
      - exact (proj2 Hok). }
  rewrite Hval. destruct (validateRelayLinkProofLocked p (LDestinationHash e1) t) as [[]|er|] eqn:Hval'; cbn [mbind res_bind negb]; try done;
    [|by intros [= <- _]].
  set (t2 := t1 <| linkTable ::= <[DestinationHash p := e1 <| Validated := true |>]> |>).
  assert (H2 : effect_ok io now t p i t2).
  { split; [by left|]. split; [|exact (proj2 (proj2 Hok))].
    intros k x Hx Hxv. change (linkTable t2) with (<[DestinationHash p := e1 <| Validated := true |>]> (linkTable t1)) in Hx.
    rewrite Hlt in Hx. destruct (decide (k = DestinationHash p)) as [->|Hk].
    - rewrite lookup_insert_eq in Hx. injection Hx as <-. right. split; [done|]. split; [done|]. cbn.
      destruct Hsl as [(_ & Ho & _) _]. split; [congruence|done].
    - rewrite !lookup_insert_ne in Hx by done. left. by exists x. }
  clearbody t2. intros [= <- _]. destruct (connectedToSharedInstance _); [done|].
  exact (effect_core _ _ _ _ _ _ _ (core_known now (LDestinationHash e1) t2) H2).
Qed.

Lemma process_proof_effect io now env p i t t' ev :
  PacketType p = PacketProof -> process_proof io now env p i t = Ok (t', ev) -> effect_ok io now t p i t'.
Proof.
  intros Hpt. unfold process_proof. destruct (Z.eqb_spec (Context p) ContextLrproof) as [Hc|Hc].
  - destruct (relayLinkProof io now p i t) as [r|] eqn:Hr.
    + intros ->. eapply relayLinkProof_effect; [by split|exact Hr].
    + destruct (FindLink (DestinationHash p) t) as [l|]; intros [= H _].
      * rewrite <- H. exact (deliver_proof_effect io now p i l t Hpt).
      * rewrite <- H. by apply core_effect.
  - destruct (List.find _ _); [intros [= <- _]; by apply core_effect|].
    destruct (reverseTable t !! DestinationHash p); [intros [= <- _]; by apply core_effect|].
    destruct (match_receipts _ _ _ _ _) as [[kept evs]|er|]; cbn; try done. intros [= <- _]. by apply core_effect.
Qed.

Lemma update_path_inv io now p i t t' b :
  PacketType p = PacketAnnounce -> (ValidateAnnounce p).1 = true -> update_path io now p i t = Ok (Some (t', b)) ->
  paths_step io now t p i t'.
Proof.
  intros Hp Hv Hu.
  assert (Hi : forall blobs nextHop h, nextHopFromAnnounce p = Some nextHop ->
    supersedes io now t p i (DestinationHash p) (learned_path io now p i nextHop h blobs) ->
    pathTable t' = <[DestinationHash p := learned_path io now p i nextHop h blobs]> (pathTable t) -> paths_step io now t p i t').
  { intros blobs nextHop h Hn Hs Ht. split; [intros d Hd; rewrite Ht; apply lookup_insert_is_Some'; by right|].
    intros d e' He. rewrite Ht in He. destruct (decide (d = DestinationHash p)) as [->|Hd].
    - rewrite lookup_insert_eq in He. injection He as <-. right. done.
    - rewrite lookup_insert_ne in He by done. left. exists e'. split; [done|]. split; [done|by left]. }
  revert Hu. unfold update_path. destruct (pathTable t !! DestinationHash p) as [e|] eqn:He.
  - destruct (should_replace io now p i e) eqn:Hr; [|intros [= <- _]; by apply paths_same].
    destruct (nextHopFromAnnounce p) as [n|] eqn:Hn; [|done]. destruct (PGetHash p) as [h|er|]; cbn [mbind res_bind]; try done.
    intros [= <- _]. eapply Hi; [done| |reflexivity]. unfold supersedes. by rewrite He.
  - destruct (nextHopFromAnnounce p) as [n|] eqn:Hn; [|done]. destruct (PGetHash p) as [h|er|]; cbn [mbind res_bind]; try done.
    intros [= <- _]. eapply Hi; [done| |reflexivity]. unfold supersedes. by rewrite He.
Qed.

Lemma handleAnnounce_paths io now delay p i t :
  PacketType p = PacketAnnounce -> paths_step io now t p i (handleAnnounce io now delay p i t).1.
Proof.
  intros Hp. unfold handleAnnounce. destruct (ValidateAnnounce p) as [[] eff] eqn:Hv; [|by apply paths_same].
  assert (Hv1 : (ValidateAnnounce p).1 = true) by (by rewrite Hv).
  pose proof (core_apply_announce eff t) as H1. set (t1 := apply_announce eff t) in *. clearbody t1.
  apply (paths_step_core io now t1); [done|]. destruct (bool_decide _); [by apply paths_same|].
  destruct (shouldHoldAnnounce io p i t1); [by apply paths_same|].
  pose proof (core_note_rebroadcast now p t1) as H2. set (t2 := note_rebroadcast now p t1) in *. clearbody t2.
  apply (paths_step_core io now t2); [done|].
  destruct (update_path io now p i t2) as [[[t3 added]|]| |] eqn:Hu; try (by apply paths_same).
  pose proof (update_path_inv io now p i t2 t3 added Hp Hv1 Hu) as H3. destruct added; [|done]. cbn [negb fst].
  pose proof (core_queue_rebroadcast io now delay p i) as Hq. unfold core in Hq. 
  match goal with |- context [queue_rebroadcast _ _ _ _ _ ?x] => specialize (Hq x); assert (Hx : pathTable x = pathTable t3) end.
  { case_match; [|done]. pose proof (core_known now (DestinationHash p) t3) as Hk. unfold core in Hk. congruence. }
  unfold paths_step. by rewrite (f_equal snd Hq : pathTable _ = _), Hx.
Qed.

Lemma process_announce_effect io now env p i t :
  PacketType p = PacketAnnounce -> effect_ok io now t p i (process_announce io now env p i t).1.
Proof.
  intros Hp. pose proof (guarded_process_announce io now env p i t) as Hg. split; [|split].
  - left. unfold guarded, hashes in *. congruence.
  - apply links_same. unfold guarded in Hg. congruence.
  - pose proof (handleAnnounce_paths io now (env_delay env) p i t Hp) as Ha. unfold process_announce.
    destruct (handleAnnounce io now (env_delay env) p i t) as [t1 ev]. cbn [fst] in Ha.
    destruct (_ =? _); [|done]. by destruct (forwardPathResponseToRequesters io p i t1) as [ev' []].
Qed.

Lemma process_rest_effect io now env p i t t' ev :
  process_rest io now env p i t = Ok (t', ev) -> effect_ok io now t p i t'.
Proof.
  unfold process_rest. destruct (Z.eqb_spec (PacketType p) PacketProof) as [Hp|_].
  - destruct (process_proof io now env p i t) as [[t1 ev1]|er|] eqn:Hr; cbn; try done. intros [= <- _].
    by eapply process_proof_effect.
  - destruct (Z.eqb_spec (PacketType p) PacketAnnounce) as [Hp|_].
    + intros [= H]. pose proof (process_announce_effect io now env p i t Hp) as Ha. by rewrite H in Ha.
    + intros [= <- _]. by apply core_effect.
Qed.

(** An inserted transport ID does not matter to what is not an announce. *)
Lemma effect_insert io now t p i t' :
  PacketType p <> PacketAnnounce -> effect_ok io now t (insert_transport_id p t) i t' -> effect_ok io now t p i t'.
Proof.
  intros Hp. unfold insert_transport_id. destruct (_ && _); [|done]. destruct (tidentity t); [|done].
  intros (H1 & H2 & H3). split; [done|]. split; [done|]. split; [apply H3|].
  intros d e He. destruct (proj2 H3 d e He) as [H|[[H _] _]]; [by left|done].
Qed.

Lemma process_effect io now env p i t t' ev :
  processInboundPacket io now env p i t = Ok (t', ev) -> effect_ok io now t p i t'.
Proof.
  assert (Htr : process_transport io now env p i t = Ok (t', ev) -> effect_ok io now t p i t').
  { unfold process_transport. destruct (Z.eqb_spec (PacketType p) PacketAnnounce) as [|Hna]; cbn [negb andb]; [apply process_rest_effect|].
    destruct (enabled t || _ || _ || _); [|apply process_rest_effect]. intros H. apply effect_insert; [done|].
    set (q := insert_transport_id p t) in *. clearbody q.
    destruct (if is_next_hop q t then forward_path io now q i t else None) as [r|] eqn:Hf.
    - subst r. destruct (is_next_hop q t); [|done]. by eapply forward_path_effect.
    - destruct (forward_link io now q i t) as [[t1 ev1]|] eqn:Hl.
      + injection H as <- <-. by eapply forward_link_effect.
      + by eapply process_rest_effect. }
  unfold processInboundPacket. destruct (isPathRequestPacket p t).
  { intros H. apply core_effect. by eapply core_process_path_request. }
  destruct (bool_decide _); [intros [= <- _]; by apply core_effect|].
  destruct (FindLink (DestinationHash p) t) as [l|]; [|done].
  destruct ((Context p =? ContextLrproof) && (PacketType p =? PacketProof)) eqn:Hc.
  { apply andb_true_iff in Hc as [_ Hc%Z.eqb_eq]. intros [= H _]. rewrite <- H. exact (deliver_proof_effect io now p i l t Hc). }
  destruct (negb _); [intros [= <- _]; by apply core_effect|done].
Qed.

(** ** Arrivals *)

(** A frame that arrives. *)
Record Arrival := mkArrival {
  a_io : Iface -> IfaceInfo;
  a_now : Z;
  a_env : Env;
  a_raw : bytes;
  a_iface : Iface;
}.

Definition arrive (a : Arrival) (t : Transport) : tr_result := Inbound (a_io a) (a_now a) (a_env a) (a_raw a) (a_iface a) t.

Fixpoint arrive_all (l : list Arrival) (t : Transport) : res pkt_err Transport :=
  match l with
  | [] => Ok t
  | a :: l => '(t, _) ← arrive a t; arrive_all l t
  end.

(** The packet in a frame, behind the access code. *)
Definition packet_in (a : Arrival) (p : Packet) : Prop :=
  exists raw, ifacIn (a_io a (a_iface a)) (a_raw a) = Some raw /\ parse_frame (a_io a) raw (a_iface a) = Some p.

(** A frame that is parsed has one of the two layouts. *)
Lemma parse_frame_inv io raw i p :
  parse_frame io raw i = Some p ->
  exists f h tid dst ctx data, raw = raw_of f h tid dst ctx data /\ length dst = 16%nat /\
    (tid = [] \/ length tid = 16%nat) /\ h < 128 /\ Raw p = raw /\ Flags p = f /\ TransportID p = tid /\ DestinationHash p = dst /\
    Hops p = (if spawnedLocalClient (io i) || connectedToShared (io i) then h else h + 1).
Proof.
  unfold parse_frame. intros Hp. destruct (Packet.Unpack (NewPacketFromRaw raw)) as [q r] eqn:Hu.
  assert (r = Ok tt) as -> by (destruct r as [[]|e|]; [reflexivity|discriminate Hp|discriminate Hp]).
  destruct (Unpack_ok_layout raw q Hu) as (f & h & tid & dst & ctx & data & Hraw & Hd & Hh & Ht).
  exists f, h, tid, dst, ctx, data. rewrite Hraw in Hu.
  destruct (Unpack_raw f h tid dst ctx data Hd Hh Ht) as (q' & E & Er & Ef & Eh & _ & _ & _ & _ & _ & Et & Ed & _).
  assert (q' = q) as -> by congruence. clear Hu E. apply (inj Some) in Hp. subst p.
  assert (Htid : tid = [] \/ length tid = 16%nat) by (destruct (_ =? 1); [by right|left; by apply nil_length_inv]).
  destruct (spawnedLocalClient (io i) || connectedToShared (io i)).
  - split_and!; try assumption. exact (eq_trans Er (eq_sym Hraw)).
  - split_and!; try assumption; [exact (eq_trans Er (eq_sym Hraw))|]. exact (f_equal (fun x => x + 1) Eh).
Qed.

(** A packet that the duplicate detection is about: no link proof, no context
    of its own, no announce of a single destination, not of a link carried
    here. *)
Definition deduplicated (p : Packet) (t : Transport) : Prop :=
  ~ is_lrproof p /\ connectedToSharedInstance t = false /\ filter_exempt (Context p) = false /\
  linkTable t !! DestinationHash p = None /\ ~ (PacketType p = PacketAnnounce /\ DestinationType p = DestinationSingle).

Lemma dedup_deduplicated now p t :
  deduplicated p t -> dedup now p t = seenOrRememberPacketHashLocked (PacketHash p) now t.
Proof.
  intros (Hl & Hs & He & Ht & _). unfold dedup. rewrite Hs, He, Ht.
  assert ((PacketType p =? PacketProof) && (Context p =? ContextLrproof) = false) as ->.
  { apply not_true_is_false. intros [H1%Z.eqb_eq H2%Z.eqb_eq]%andb_true_iff. by apply Hl. }
  by rewrite bool_decide_eq_false_2 by (by intros [? ?]).
Qed.

(** Accepting a frame remembers at most one hash. *)
Lemma accept_inv a tc t t1 ev o :
  accept (a_io a) (a_now a) (a_raw a) (a_iface a) tc false t = (t1, ev, o) ->
  (t1 = t \/ exists x, t1 = (seenOrRememberPacketHashLocked x (a_now a) t).1) /\
  (forall p c, o = Some (p, c) -> packet_in a p /\ t1 = (dedup (a_now a) p t).1 /\
     ((dedup (a_now a) p t).2 = false \/ (PacketType p = PacketAnnounce /\ DestinationType p = DestinationSingle))).
Proof.
  unfold accept. destruct (_ =? 0)%nat; [intros [= <- _ <-]; by split; [left|]|].
  destruct (ifacIn (a_io a (a_iface a)) (a_raw a)) as [raw|] eqn:Hi; [|intros [= <- _ <-]; by split; [left|]].
  match goal with |- context [if ?b then (t, [TViolation _], None) else _] => destruct b end;
    [intros [= <- _ <-]; by split; [left|]|].
  destruct (parse_frame (a_io a) raw (a_iface a)) as [p|] eqn:Hp; [|intros [= <- _ <-]; by split; [left|]].
  destruct (packetFilter p t) as [[] v]; cbn [negb]; [|intros [= <- _ <-]; by split; [left|]].
  assert (Hd : (dedup (a_now a) p t).1 = t \/ exists x, (dedup (a_now a) p t).1 = (seenOrRememberPacketHashLocked x (a_now a) t).1).
  { unfold dedup. repeat case_match; try (by left). right. by eexists. }
  destruct (dedup (a_now a) p t) as [t2 dup] eqn:Ed. cbn [fst snd] in Hd.
  destruct (dup && negb ((PacketType p =? PacketAnnounce) && (DestinationType p =? DestinationSingle))) eqn:Hc;
    [intros [= <- _ <-]; by split|]. intros [= <- _ <-]. split; [done|]. intros p' c [= <- _]. rewrite Ed. cbn [fst snd].
  split; [by exists raw|]. split; [done|]. destruct dup; [right|by left]. cbn [andb] in Hc. apply negb_false_iff in Hc.
  apply andb_true_iff in Hc as [H1%Z.eqb_eq H2%Z.eqb_eq]. done.
Qed.

Lemma arrive_inv a t t' ev :
  arrive a t = Ok (t', ev) ->
  exists t1 o, accept (a_io a) (a_now a) (a_raw a) (a_iface a) noTrafficClass false t = (t1, o.1, o.2) /\
    match o.2 with
    | None => t' = t1
    | Some (p, _) => exists ev', processInboundPacket (a_io a) (a_now a) (a_env a) p (a_iface a) t1 = Ok (t', ev')
    end.
Proof.
  unfold arrive, Inbound. destruct (accept _ _ _ _ _ _ _) as [[t1 ev1] [[p c]|]].
  - destruct (processInboundPacket _ _ _ _ _ _) as [[t2 ev2]|er|] eqn:Hp; cbn; try done. intros [= <- _].
    exists t1, (ev1, Some (p, c)). split; [done|]. by exists ev2.
  - intros [= <- _]. by exists t1, (ev1, None).
Qed.

(** ** The other operations *)

(** Sending and the periodic jobs add no link, and leave the destinations whose
    identities proofs are checked against. *)
Inductive other_step : Transport -> Transport -> Prop :=
  | os_outbound io now att link p t p' t' ev r : Outbound io now att link p t = (p', t', ev, r) -> other_step t t'
  | os_request io now env dest t t' ev r : RequestPath io now env dest t = (t', ev, r) -> other_step t t'
  | os_announces io now delays order t t' ev : processAnnounceTable io now delays order t = Ok (t', ev) -> other_step t t'
  | os_queue io now i t : other_step t (processAnnounceQueue io now i t).1
  | os_drop t : other_step t (DropAnnounceQueues t).1
  | os_receipts now t : other_step t (processReceipts now t).1
  | os_pending now t : other_step t (processPendingLinks now t).1
  | os_tables io now order t : other_step t (cullStaleTransportTables io now order t).1
  | os_paths io now t : other_step t (cullExpiredPaths io now t)
  | os_requests io now t : other_step t (cullPathRequests io now t)
  | os_mark b state dest t : other_step t (mark_path b state dest t)
  | os_expire dest t : other_step t (ExpirePath dest t)
  | os_invalidate dest t : other_step t (InvalidatePath dest t).1
  | os_via_interface i t : other_step t (InvalidatePathsViaInterface i t).1
  | os_via_next_hop h t : other_step t (InvalidatePathsViaNextHop h t).1
  | os_destination d t : other_step t (RegisterDestination d t)
  | os_link l t : other_step t (RegisterLink l t)
  | os_activate k t : other_step t (ActivateLink k t)
  | os_interface io i t : other_step t (RegisterInterface io i t)
  | os_remove io i t : other_step t (RemoveInterface io i t)
  | os_reprune t : other_step t (ReprunePathsAfterInterfaces t).

(** A path that stays, of which only the interface may be found. *)
Definition same_path (e e' : PathEntry) : Prop :=
  NextHop e' = NextHop e /\ PPacket e' = PPacket e /\ Expires e' = Expires e /\ RandomBlobs e' = RandomBlobs e /\
  PHops e' = PHops e /\ (PInterface e' = PInterface e \/ PInterface e = None).

(** Hashes are kept, links are not added, and paths stay on their routes. *)
Definition settled (t t' : Transport) : Prop :=
  hashes t' = hashes t /\
  (forall id e, linkTable t' !! id = Some e -> linkTable t !! id = Some e) /\
  (forall d e', pathTable t' !! d = Some e' -> exists e, pathTable t !! d = Some e /\ same_path e e').

Definition tables (t : Transport) : gmap bytes Z * gmap bytes Z * Z * gmap bytes LinkEntry * gmap bytes PathEntry :=
  (hashes t, linkTable t, pathTable t).

Lemma settled_same t t' : tables t' = tables t -> settled t t'.
Proof.
  unfold tables. intros [= H0 H1 H2 H3 H4]. split; [unfold hashes; congruence|]. split; [by rewrite H3|]. rewrite H4.
  intros d e' He. exists e'. split; [done|]. repeat split. by left.
Qed.

Lemma settled_refl t : settled t t.
Proof. by apply settled_same. Qed.

Lemma settled_trans t1 t2 t3 : settled t1 t2 -> settled t2 t3 -> settled t1 t3.
Proof.
  intros (H1' & L1 & P1) (H2' & L2 & P2). split; [congruence|]. split; [auto|]. intros d e3 H3. destruct (P2 d e3 H3) as (e2 & H2 & (A1 & A2 & A3 & A4 & A5 & A6)).
  destruct (P1 d e2 H2) as (e1 & H1 & (B1 & B2 & B3 & B4 & B5 & B6)). exists e1. unfold same_path. split_and!; try congruence.
  destruct A6 as [->|E], B6 as [<-|?]; auto.
Qed.

(** Removing paths, marking a path. *)
Lemma settled_less t t' : hashes t' = hashes t -> linkTable t' = linkTable t -> pathTable t' ⊆ pathTable t -> settled t t'.
Proof.
  intros Hh Hl Hp. split; [done|]. split; [by rewrite Hl|]. intros d e He. exists e. split; [by eapply lookup_weaken|]. repeat split. by left.
Qed.

Lemma settled_mark b state dest t : settled t (mark_path b state dest t).
Proof.
  split; [done|]. split; [done|]. intros d e' He. change (pathTable (mark_path b state dest t)) with
    (alter (fun e => e <| Unresponsive := b |> <| ResponsiveState := state |>) dest (pathTable t)) in He.
  destruct (decide (d = dest)) as [->|Hd].
  - rewrite lookup_alter_eq in He. apply fmap_Some in He as (e & He & ->). exists e. split; [done|]. repeat split. by left.
  - rewrite lookup_alter_ne in He by done. exists e'. split; [done|]. repeat split. by left.
Qed.

(** An entry finds its interface. *)
Lemma settled_resolve io t : settled t (resolvePathInterfacesLocked io t).
Proof.
  split; [done|]. split; [done|]. intros d e' He.
  change (pathTable (resolvePathInterfacesLocked io t)) with (attach io t <$> pathTable t) in He.
  rewrite lookup_fmap in He. apply fmap_Some in He as (e & He & ->). exists e. split; [done|]. unfold attach.
  destruct (PInterface e) as [i|] eqn:Ei; [|destruct (findInterfaceByHash _ _ _)]; repeat split; cbn; rewrite ?Ei; auto.
Qed.

Lemma settled_prune t : settled t (prunePathEntriesWithoutInterfaceLocked t).
Proof.
  unfold prunePathEntriesWithoutInterfaceLocked. case_match; [apply settled_refl|].
  apply settled_less; [done..|]. apply map_filter_subseteq.
Qed.

Lemma settled_expire dest t : settled t (ExpirePath dest t).
Proof. apply settled_less; [done..|]. apply delete_subseteq. Qed.

Lemma settled_kept drop t : kept drop t (pathTable t) ⊆ pathTable t.
Proof. apply map_filter_subseteq. Qed.

Lemma foldl_invariant {A B} (P : A -> Prop) (f : A -> B -> A) l x :
  P x -> (forall y b, P y -> P (f y b)) -> P (foldl f x l).
Proof. revert x. induction l as [|b l IH]; intros x Hx Hf; cbn; [done|]. apply IH; auto. Qed.

Lemma tables_queueOrSend io now i dest raw hops t :
  tables (queueOrSendAnnounceLocked io now i dest raw hops t).1 = tables t.
Proof. unfold queueOrSendAnnounceLocked. by repeat case_match. Qed.

Lemma tables_broadcast_on io now p i t : tables (broadcast_on io now p i t).1 = tables t.
Proof.
  unfold broadcast_on. destruct (isOut (io i)); cbn [negb]; [|done]. destruct (PacketType p =? PacketAnnounce); cbn [negb]; [|done].
  destruct (shouldTransmitAnnounce _ _ _ _ _); [done..|].
  pose proof (tables_queueOrSend io now i (DestinationHash p) (Raw p) (Hops p) t) as Hq.
  destruct (queueOrSendAnnounceLocked _ _ _ _ _ _ _) as [y r]. cbn [fst] in Hq. by case_match.
Qed.

Lemma tables_broadcast io now p t : tables (broadcast io now p t).1 = tables t.
Proof.
  unfold broadcast. apply (foldl_invariant (fun x => tables x.1 = tables t)); [done|]. intros [y ev] i Hy. cbn [fst] in Hy.
  pose proof (tables_broadcast_on io now p i y) as Hb. destruct (broadcast_on io now p i y) as [y' ev']. cbn [fst] in Hb |- *.
  by rewrite Hb.
Qed.

Lemma tables_mark_sent io now link p t : tables (mark_sent io now link p t).2 = tables t.
Proof. unfold mark_sent. by repeat case_match. Qed.

Lemma tables_outbound io now att link p t p' t' ev r :
  Outbound io now att link p t = (p', t', ev, r) -> tables t' = tables t.
Proof.
  unfold Outbound. destruct (_ <? _); [by intros [= _ <- _ _]|]. destruct (if Packed p then _ else _) as [q [[]|e|]];
    [|by intros [= _ <- _ _]..]. unfold outbound_packed. destruct (unicast q t); [by intros [= _ <- _ _]|].
  pose proof (tables_mark_sent io now link q t) as Hm. destruct (mark_sent io now link q t) as [q1 t1]. cbn [snd] in Hm.
  set (a := match att with Some i => Some i | None => _ end). clearbody a.
  destruct a as [i|]; [destruct (negb _); by intros [= _ <- _ _]|].
  destruct (usable_path q t) as [[e i]|]; [destruct (_ =? _); [by intros [= _ <- _ _]|]; destruct (ifacOut _ _); by intros [= _ <- _ _]|].
  pose proof (tables_broadcast io now q t) as Hb. destruct (broadcast io now q t) as [t2 ev2]. cbn [fst] in Hb.
  destruct (_ =? 0)%nat; [by intros [= _ <- _ _]|].
  pose proof (tables_mark_sent io now link q t2) as Hm2. destruct (mark_sent io now link q t2) as [q3 t3]. cbn [snd] in Hm2.
  intros [= _ <- _ _]. by rewrite Hm2.
Qed.

Lemma tables_rebroadcast_jobs io now dest e local t : tables (rebroadcast_jobs io now dest e local t).1 = tables t.
Proof.
  unfold rebroadcast_jobs. apply (foldl_invariant (fun x => tables x.1 = tables t)); [done|]. intros [y js] o Hy.
  cbn [fst] in Hy. pose proof (tables_queueOrSend io now o dest (PacketRaw e) (AHops e) y) as Hq. unfold rebroadcast_on.
  destruct (_ || _); [done|]. destruct (shouldTransmitAnnounce _ _ _ _ _); [done..|].
  destruct (queueOrSendAnnounceLocked _ _ _ _ _ _ _) as [y' [raw|]]; cbn [fst] in Hq |- *; by rewrite Hq.
Qed.

Lemma tables_rebroadcast io now delay dest t t' jobs :
  rebroadcast_entry io now delay dest t = Ok (t', jobs) -> tables t' = tables t.
Proof.
  unfold rebroadcast_entry. destruct (announceTable t !! dest) as [e|]; [|by intros [= <- _]].
  destruct (Before _ _); [by intros [= <- _]|]. destruct (rebroadcast_done _); [by intros [= <- _]|].
  destruct (recallLocked dest t) as [[i|]|er|]; cbn; try done; [|by intros [= <- _]].
  set (local := bool_decide _). pose proof (tables_rebroadcast_jobs io now dest e local t) as Hj.
  destruct (rebroadcast_jobs io now dest e local t) as [t1 js]. cbn [fst] in Hj. intros [= <- _]. by case_match.
Qed.

Lemma tables_rebroadcast_all io now delays order t t' jobs :
  rebroadcast_all io now delays order t = Ok (t', jobs) -> tables t' = tables t.
Proof.
  revert t jobs. induction order as [|d order IH]; intros t jobs; cbn; [by intros [= <- _]|].
  destruct (rebroadcast_entry io now (delays d) d t) as [[t1 j1]|er|] eqn:H1; cbn; try done.
  destruct (rebroadcast_all io now delays order t1) as [[t2 j2]|er|] eqn:H2; cbn; try done. intros [= <- _].
  apply tables_rebroadcast in H1. apply IH in H2. by rewrite H2.
Qed.

Lemma settled_tables t1 t2 t' : settled t1 t2 -> tables t' = tables t2 -> settled t1 t'.
Proof. intros H E. eapply settled_trans; [exact H|by apply settled_same]. Qed.

Lemma settled_rediscover io now e t : settled t (rediscover io now e t).1.
Proof.
  unfold rediscover. set (r := match pathTable t !! LDestinationHash e with Some _ => _ | None => _ end).
  assert (Hr : settled t r.1).
  { unfold r. destruct (pathTable t !! LDestinationHash e); [|apply settled_refl]. destruct (negb _); [|apply settled_refl].
    unfold mark_dead. destruct (_ && _); [apply settled_mark|apply settled_refl]. }
  destruct r as [t1 []]; cbn [fst] in Hr |- *; [|done].
  destruct (negb _); cbn [fst]; [eapply settled_trans; [exact Hr|]|by apply (settled_tables t t1)].
  eapply settled_trans; [|apply settled_expire]. by apply settled_same.
Qed.

Lemma settled_cull_link io now id t : settled t (cull_link io now id t).1.
Proof.
  unfold cull_link. destruct (linkTable t !! id) as [e|]; [|apply settled_refl].
  set (g := t <| linkTable ::= delete id |>).
  assert (Hg : settled t g).
  { split; [done|]. split; [|intros d e' He; exists e'; split; [done|]; repeat split; by left]. intros k x Hx. change (linkTable g) with (delete id (linkTable t)) in Hx.
    by apply lookup_delete_Some in Hx as [_ ?]. }
  destruct (Validated e); [destruct (_ || _); [exact Hg|apply settled_refl]|]. destruct (_ && _); [|apply settled_refl].
  pose proof (settled_rediscover io now e g) as Hr. destruct (rediscover io now e g) as [t1 ask]. cbn [fst] in Hr |- *.
  by eapply settled_trans.
Qed.

Lemma settled_pending now l t : settled t (pending_closed now l t).1.
Proof.
  unfold pending_closed. destruct (destination l) as [d|]; [|apply settled_refl]. destruct (_ =? _); [|apply settled_refl].
  set (t1 := if enabled t then _ else _).
  assert (H1 : settled t t1) by (unfold t1; destruct (enabled t); [apply settled_mark|apply settled_expire]).
  clearbody t1. destruct (_ && _); [|done]. by apply (settled_tables t t1).
Qed.

Lemma settled_pending_all now t : settled t (processPendingLinks now t).1.
Proof.
  unfold processPendingLinks.
  match goal with |- context [foldl ?f ?x ?l] => assert (Hf : settled t (foldl f x l).1) end.
  { apply (foldl_invariant (fun x => settled t x.1)); [apply settled_refl|]. intros [y ev] l Hy. cbn [fst] in Hy.
    destruct (_ =? _); [|done]. pose proof (settled_pending now l y) as Hc. destruct (pending_closed now l y) as [y' ev'].
    cbn [fst] in Hc |- *. by eapply settled_trans. }
  destruct (foldl _ _ _) as [t1 ev]. cbn [fst] in Hf |- *. by apply (settled_tables t t1).
Qed.

Lemma settled_cull io now order t : settled t (cullStaleTransportTables io now order t).1.
Proof.
  unfold cullStaleTransportTables. apply (foldl_invariant (fun x => settled t x.1)); [by apply settled_same|].
  intros [y ev] id Hy. cbn [fst] in Hy. pose proof (settled_cull_link io now id y) as Hc.
  destruct (cull_link io now id y) as [y' ev']. cbn [fst] in Hc |- *. by eapply settled_trans.
Qed.

Lemma other_step_settled t t' : other_step t t' -> settled t t'.
Proof.
  destruct 1 as [io now att link p t p' t' ev r H|io now env dest t t' ev r H|io now delays order t t' ev H|io now i t|t|now t|now t
                |io now order t|io now t|io now t|b state dest t|dest t|dest t|i t|h t|d t|l t|k t|io i t|io i t|t]; try by apply settled_same.
  - apply settled_same. by eapply tables_outbound.
  - apply settled_same. unfold RequestPath, RequestPath_prepare in H. destruct (env_rnd env _); try (by injection H as <- _ _).
    destruct (path_request_packet env _) as [p|]; [|by injection H as <- _ _].
    destruct (Outbound io now None None p _) as [[[p' t1] ev1] r1] eqn:Ho. apply tables_outbound in Ho. injection H as <- _ _. exact Ho.
  - apply settled_same. unfold processAnnounceTable in H.
    destruct (rebroadcast_all io now delays order t) as [[t1 js]|er|] eqn:Hr; cbn in H; try done. injection H as <- _.
    by eapply tables_rebroadcast_all.
  - apply settled_same. unfold processAnnounceQueue. by repeat case_match.
  - apply settled_pending_all.
  - apply settled_cull.
  - apply settled_less; [done..|apply settled_kept].
  - apply settled_mark.
  - apply settled_expire.
  - apply settled_less; [done..|apply delete_subseteq].
  - apply settled_less; [done..|apply settled_kept].
  - apply settled_less; [done..|apply settled_kept].
  - apply settled_same. unfold RegisterDestination. by case_match.
  - apply settled_same. unfold ActivateLink. by case_match.
  - unfold RegisterInterface. case_match; [apply settled_refl|].
    eapply settled_trans; [|apply settled_resolve]. by apply settled_same.
  - unfold RemoveInterface. case_match; [|apply settled_refl].
    eapply settled_trans; [|apply settled_resolve]. by apply settled_same.
  - apply settled_prune.
Qed.

(** ** Histories *)

(** The packet of a frame is processed: at once, or, when the inbound queues
    are in use, after it was accepted, whatever happened in between. *)
Definition processes (a : Arrival) (t t' : Transport) : Prop :=
  (exists ev, arrive a t = Ok (t', ev)) \/
  (exists p ev, packet_in a p /\ processInboundPacket (a_io a) (a_now a) (a_env a) p (a_iface a) t = Ok (t', ev)).

(** The frames that were processed, with the state they were processed in.  A
    frame may also only be accepted, to be processed later in any order. *)
Inductive run (t0 : Transport) : list (Arrival * Transport) -> Transport -> Prop :=
  | run_start : run t0 [] t0
  | run_frame l t a t' : run t0 l t -> processes a t t' -> run t0 (l ++ [(a, t)]) t'
  | run_accept l t a tc t' ev o : run t0 l t ->
      accept (a_io a) (a_now a) (a_raw a) (a_iface a) tc false t = (t', ev, o) -> run t0 l t'
  | run_other l t t' : run t0 l t -> other_step t t' -> run t0 l t'.

Lemma run_arrive t0 l t a t' ev : run t0 l t -> arrive a t = Ok (t', ev) -> run t0 (l ++ [(a, t)]) t'.
Proof. intros R Ha. apply run_frame; [done|]. left. by exists ev. Qed.
End Effects.
