(* ===== verification/TransportSafety.v ===== *)
(** * Safety of the transport

    Theorems about every history of the transport: duplicates are suppressed
    for a window of packets and the memory of hashes is bounded, a transported
    link carries traffic only after a proof signed by its destination, paths
    stem from authentic announces, and replayed announces change nothing. *)

From stdpp Require Import base tactics option list gmap.
From Stdlib Require Import ZArith Lia PrimFloat.
From S2P Require Import Prelude Clock Crypto Packet Channel Buffer InboundQueues Msgpack Resource Identity Link Transport PathRequests Forwarding Announcing Routing TransportEffects.
Local Open Scope Z_scope.
Local Open Scope go_scope.

Section SafetyFacts.
Context `{Sh : Sha256} `{Ci : BlockCipher} `{Cu : Curves}.

(** ** The duplicate window *)

(** The hash [h] stays known for at least [n] more remembered hashes. *)
Definition alive (h : bytes) (n : Z) (t : Transport) : Prop :=
  0 < rotate_at t /\
  ((is_Some (packetHashes t !! h) /\ n <= rotate_at t) \/
   (is_Some (packetHashesPrev t !! h) /\ Z.of_nat (base.size (packetHashes t)) + n <= rotate_at t)).

Lemma alive_seen h n t : alive h n t -> packetHashSeenLocked h t = true.
Proof.
  intros [_ [[H _]|[H _]]]; unfold packetHashSeenLocked; rewrite (bool_decide_eq_true_2 _ H); [done|apply orb_true_r].
Qed.

Lemma alive_weaken h n k t : k <= n -> alive h n t -> alive h k t.
Proof. intros Hk [Hr [[H1 H2]|[H1 H2]]]; (split; [done|]); [left|right]; (split; [done|lia]). Qed.

Lemma rotate_pos t : 0 < rotate_at t.
Proof. unfold rotate_at, packetHashRotateDefault. case_match eqn:E; [done|]. apply Z.leb_gt in E. lia. Qed.

Lemma alive_with h n a b t :
  alive h n (with_hashes a b t) <->
  0 < rotate_at t /\ ((is_Some (a !! h) /\ n <= rotate_at t) \/ (is_Some (b !! h) /\ Z.of_nat (base.size a) + n <= rotate_at t)).
Proof. done. Qed.

(** Remembering a new hash, with and without a rotation. *)
Lemma remember_new h now t :
  packetHashSeenLocked h t = false ->
  (seenOrRememberPacketHashLocked h now t).1 =
  if rotate_at t <=? Z.of_nat (base.size (packetHashes t)) then with_hashes (<[h := now]> ∅) (packetHashes t) t
  else with_hashes (<[h := now]> (packetHashes t)) (packetHashesPrev t) t.
Proof. intros Hs. unfold seenOrRememberPacketHashLocked. rewrite Hs. cbn [fst]. case_match; by destruct t. Qed.

Lemma unseen_current h t : packetHashSeenLocked h t = false -> packetHashes t !! h = None.
Proof.
  unfold packetHashSeenLocked. intros Hs. apply orb_false_iff in Hs as [Hs _]. apply bool_decide_eq_false in Hs.
  by apply eq_None_not_Some.
Qed.

Lemma remember_alive h now t :
  packetHashSeenLocked h t = false -> alive h (rotate_at t) (seenOrRememberPacketHashLocked h now t).1.
Proof.
  intros Hs. rewrite remember_new by done. pose proof (rotate_pos t).
  case_match; apply alive_with; (split; [done|]); left; rewrite lookup_insert_eq; (split; [by eexists|lia]).
Qed.

(** Another hash uses up one of the [n]. *)
Lemma alive_step h n x now t :
  1 <= n -> alive h n t -> alive h (n - 1) (seenOrRememberPacketHashLocked x now t).1.
Proof.
  intros Hn Ha. pose proof Ha as [Hr Hc].
  destruct (packetHashSeenLocked x t) eqn:Hs.
  { unfold seenOrRememberPacketHashLocked. rewrite Hs. apply (alive_weaken h n); [lia|done]. }
  rewrite remember_new by done. pose proof (unseen_current x t Hs) as Hx.
  destruct (Z.leb_spec (rotate_at t) (Z.of_nat (base.size (packetHashes t)))) as [Hrot|Hrot]; apply alive_with; (split; [done|]).
  - right. destruct Hc as [[H1 H2]|[_ H2]]; [|lia]. split; [done|].
    rewrite map_size_insert_None by apply lookup_empty. rewrite map_size_empty. lia.
  - destruct Hc as [[H1 H2]|[H1 H2]]; [left|right].
    + split; [|lia]. destruct (decide (h = x)) as [->|]; [rewrite lookup_insert_eq; by eexists|by rewrite lookup_insert_ne].
    + split; [done|]. rewrite map_size_insert_None by done. lia.
Qed.

Lemma alive_hashes h n t t' : hashes t' = hashes t -> alive h n t -> alive h n t'.
Proof. unfold hashes, alive, rotate_at. intros [= -> -> ->]. done. Qed.

Lemma alive_forget h n x t : h <> x -> alive h n t -> alive h n (ForgetPacketHash x t).
Proof.
  intros Hx [Hr Hc]. change (alive h n (with_hashes (delete x (packetHashes t)) (delete x (packetHashesPrev t)) t)).
  apply alive_with. split; [done|]. rewrite !lookup_delete_ne by done.
  destruct Hc as [Hc|[H1 H2]]; [by left|]. right. split; [done|].
  rewrite map_size_delete. destruct (packetHashes t !! x); unfold id; lia.
Qed.

(** A frame that is no link proof with hash [h] uses up at most one place of
    the window of [h]. *)
Lemma arrive_alive a h n t t' ev :
  arrive a t = Ok (t', ev) -> (forall p, packet_in a p -> is_lrproof p -> PacketHash p <> h) ->
  1 <= n -> alive h n t -> alive h (n - 1) t'.
Proof.
  intros Ha Hno Hn Hal. apply arrive_inv in Ha as (t1 & [ev1 o] & Hacc & Hpr). cbn [fst snd] in Hacc, Hpr.
  destruct (accept_inv a _ t t1 ev1 o Hacc) as [Ht1 Ho].
  assert (H1 : alive h (n - 1) t1).
  { destruct Ht1 as [->|[x ->]]; [apply (alive_weaken h n); [lia|done]|by apply alive_step]. }
  destruct o as [[p c]|]; [|by subst t']. destruct Hpr as (ev' & Hp). destruct (Ho p c eq_refl) as [Hin _].
  destruct (process_effect _ _ _ _ _ _ _ _ Hp) as [[Hh|[Hl Hh]] _]; [by eapply alive_hashes|].
  apply (alive_hashes h (n - 1) (ForgetPacketHash (PacketHash p) t1)); [done|]. apply alive_forget; [|done].
  intros ->. by apply (Hno p Hin Hl).
Qed.

Lemma accept_known a p t tc :
  packet_in a p -> deduplicated p t -> packetHashSeenLocked (PacketHash p) t = true ->
  (accept (a_io a) (a_now a) (a_raw a) (a_iface a) tc false t).2 = None.
Proof.
  intros (raw & Hi & Hp) Hd Hs. destruct (accept _ _ _ _ _ _ _) as [[t1 ev] o] eqn:Hacc. cbn [snd].
  destruct o as [[p' c]|]; [|done]. destruct (accept_inv a tc t t1 ev _ Hacc) as [_ Ho].
  destruct (Ho p' c eq_refl) as ((raw' & Hi' & Hp') & _ & Hdup). rewrite Hi in Hi'. injection Hi' as <-.
  rewrite Hp in Hp'. injection Hp' as <-. rewrite dedup_deduplicated in Hdup by done.
  unfold seenOrRememberPacketHashLocked in Hdup. rewrite Hs in Hdup. cbn [snd] in Hdup.
  destruct Hdup as [|Hx]; [done|]. by destruct Hd as (_ & _ & _ & _ & H).
Qed.

(** C13: once a packet that is subject to duplicate detection has been
    processed, a copy of it (on any interface, with any hop count or transport
    ID) is dropped as long as at most [rotate_at] frames came in between, none
    of them a link proof with the same hash.  Not subject to it
    ([deduplicated]) are link proofs, keepalives, resource, cache and channel
    packets, packets of links carried here and announces of single
    destinations, nor anything at a client of a shared instance: the code never
    drops those as duplicates. *)
Theorem duplicate_suppressed a p t t1 ev1 l t2 b p' :
  packet_in a p -> deduplicated p t -> packetHashSeenLocked (PacketHash p) t = false ->
  arrive a t = Ok (t1, ev1) -> (accept (a_io a) (a_now a) (a_raw a) (a_iface a) noTrafficClass false t).2 <> None ->
  arrive_all l t1 = Ok t2 -> zlen l <= rotate_at t ->
  Forall (fun c => forall q, packet_in c q -> is_lrproof q -> PacketHash q <> PacketHash p) l ->
  packet_in b p' -> PacketHash p' = PacketHash p -> deduplicated p' t2 ->
  (accept (a_io b) (a_now b) (a_raw b) (a_iface b) noTrafficClass false t2).2 = None.
Proof.
  intros Hin Hd Hnew Ha Hacc Hl Hlen Hno Hb Hh Hd'. apply (accept_known b p'); [done..|]. rewrite Hh.
  assert (H1 : alive (PacketHash p) (rotate_at t) t1).
  { apply arrive_inv in Ha as (t0 & [ev o] & Hacc' & Hpr). cbn [fst snd] in Hacc', Hpr. rewrite Hacc' in Hacc. cbn [snd] in Hacc.
    destruct o as [[q c]|]; [|done]. destruct (accept_inv a _ t t0 ev _ Hacc') as [_ Ho].
    destruct (Ho q c eq_refl) as (Hq & Ht0 & _). destruct Hin as (raw & Hi & Hp). destruct Hq as (raw' & Hi' & Hp').
    rewrite Hi in Hi'. injection Hi' as <-. rewrite Hp in Hp'. injection Hp' as <-.
    rewrite dedup_deduplicated in Ht0 by done. subst t0.
    pose proof (remember_alive (PacketHash p) (a_now a) t Hnew) as Hal. destruct Hpr as (ev' & Hpr).
    destruct (process_effect _ _ _ _ _ _ _ _ Hpr) as [[Hs|[Hlr _]] _]; [by eapply alive_hashes|]. by destruct Hd as [? _]. }
  clear Hd' Ha Hacc Hnew Hd Hin. set (h := PacketHash p) in *. clearbody h.
  apply (alive_seen h (rotate_at t - zlen l)).
  revert t1 Hl H1 Hlen. generalize (rotate_at t). intros n. revert n.
  induction Hno as [|c l Hc _ IH]; intros n t1 Hl H1 Hlen; cbn [arrive_all] in Hl.
  - injection Hl as <-. apply (alive_weaken h n); [unfold zlen in *; lia|done].
  - destruct (arrive c t1) as [[t3 ev3]|er|] eqn:Hc3; cbn in Hl; try done.
    unfold zlen in *. cbn [length] in Hlen |- *. replace (n - Z.of_nat (S (length l))) with (n - 1 - Z.of_nat (length l)) by lia.
    apply (IH (n - 1) t3 Hl); [|lia]. apply (arrive_alive c h n t1 t3 ev3); [done..|lia|done].
Qed.

(** ** Transported links *)

(** A proof of the link [id] with entry [e] arrived: from the side of the
    destination, signed by the identity known for it. *)
Definition proved_by (l : list (Arrival * Transport)) (id : bytes) (e : LinkEntry) : Prop :=
  exists a t p, (a, t) ∈ l /\ packet_in a p /\ proves t p (a_iface a) id e.

Lemma proves_hashes t x y p i id e : proves (with_hashes x y t) p i id e <-> proves t p i id e.
Proof. done. Qed.

Lemma accept_hashes a tc t t1 ev o :
  accept (a_io a) (a_now a) (a_raw a) (a_iface a) tc false t = (t1, ev, o) -> exists x y, t1 = with_hashes x y t.
Proof.
  intros H. destruct (accept_inv a tc t t1 ev o H) as [[->|[h ->]] _].
  - do 2 eexists. apply with_hashes_id.
  - destruct (packetHashSeenLocked h t) eqn:Hs; [unfold seenOrRememberPacketHashLocked; rewrite Hs; do 2 eexists; apply with_hashes_id|].
    rewrite remember_new by done. case_match; by do 2 eexists.
Qed.

Lemma processes_links a t t' :
  processes a t t' -> forall id e', linkTable t' !! id = Some e' -> Validated e' = true ->
    (exists e, linkTable t !! id = Some e /\ same_link e e' /\ Validated e = true) \/
    (exists p, packet_in a p /\ proves t p (a_iface a) id e').
Proof.
  intros [[ev Ha]|(p & ev & Hin & Hp)] id e' He Hv.
  - apply arrive_inv in Ha as (t1 & [ev1 o] & Hacc & Hpr). cbn [fst snd] in Hacc, Hpr.
    destruct (accept_inv a _ t t1 ev1 o Hacc) as [_ Ho]. destruct (accept_hashes a _ t t1 ev1 o Hacc) as (x & y & ->).
    destruct o as [[p c]|]; [|subst t'; left; by exists e']. destruct Hpr as (ev' & Hp). destruct (Ho p c eq_refl) as [Hin _].
    destruct (proj1 (proj2 (process_effect _ _ _ _ _ _ _ _ Hp)) id e' He Hv) as [H|H]; [by left|]. right. exists p. split; [done|].
    exact (proj1 (proves_hashes t x y p (a_iface a) id e') H).
  - destruct (proj1 (proj2 (process_effect _ _ _ _ _ _ _ _ Hp)) id e' He Hv) as [H|H]; [by left|]. right. by exists p.
Qed.

Lemma run_proved t0 l t :
  (forall id e, linkTable t0 !! id = Some e -> Validated e = false) -> run t0 l t ->
  forall id e, linkTable t !! id = Some e -> Validated e = true -> proved_by l id e.
Proof.
  intros H0 R. induction R as [|l t a t' R IH Ha|l t a tc t' ev o R IH Ha|l t t' R IH Ho]; intros id e He Hv.
  - rewrite (H0 id e He) in Hv. done.
  - destruct (processes_links a t t' Ha id e He Hv) as [(e0 & He0 & (S1 & S2 & S3) & Hv0)|(p & Hin & Hp)].
    + destruct (IH id e0 He0 Hv0) as (b & tb & p & Hb & Hin & (P1 & P2 & P3 & P4)). exists b, tb, p.
      split; [apply elem_of_app; by left|]. split; [done|]. split; [done|]. split; [done|]. rewrite S1, S2. done.
    + exists a, t, p. split; [apply elem_of_app; right; by apply list_elem_of_singleton|done].
  - destruct (accept_hashes a tc t t' ev o Ha) as (x & y & ->). by apply IH.
  - apply IH; [|done]. by apply (proj1 (proj2 (other_step_settled t t' Ho))).
Qed.

(** C8: whatever arrived and whatever was done, a packet of a transported link
    is forwarded only after a proof of that link arrived from the interface the
    link request left by, with a signature that verifies under the identity
    known for the requested destination. *)
Theorem link_traffic_needs_proof t0 l t io now p i t' out raw :
  (forall id e, linkTable t0 !! id = Some e -> Validated e = false) -> run t0 l t ->
  forward_link io now p i t = Some (t', [TSend out raw]) ->
  exists e, linkTable t !! DestinationHash p = Some e /\ proved_by l (DestinationHash p) e /\
    link_direction p i e = Some out.
Proof.
  intros H0 R. unfold forward_link. destruct (negb _ && negb _); [|done].
  destruct (linkTable t !! DestinationHash p) as [e|] eqn:He; [|done].
  destruct (Validated e) eqn:Hv; [|done]. cbn [negb]. destruct (link_direction p i e) as [o|] eqn:Hd; [|done].
  intros [= _ <- _]. exists e. split; [done|]. split; [|done]. by apply (run_proved t0 l t H0 R).
Qed.

(** ** The memory of hashes *)

Definition memory_ok (t : Transport) : Prop :=
  Z.of_nat (base.size (packetHashes t)) <= rotate_at t /\ Z.of_nat (base.size (packetHashesPrev t)) <= rotate_at t.

Lemma memory_hashes t t' : hashes t' = hashes t -> memory_ok t -> memory_ok t'.
Proof. unfold hashes, memory_ok, rotate_at. intros [= -> -> ->]. done. Qed.

Lemma memory_forget h t : memory_ok t -> memory_ok (ForgetPacketHash h t).
Proof.
  intros [H1 H2]. assert (Hd : forall m : gmap bytes Z, (base.size (delete h m) <= base.size m)%nat).
  { intros m. rewrite map_size_delete. case_match; unfold id; lia. }
  pose proof (Hd (packetHashes t)). pose proof (Hd (packetHashesPrev t)).
  change (Z.of_nat (base.size (delete h (packetHashes t))) <= rotate_at t /\
          Z.of_nat (base.size (delete h (packetHashesPrev t))) <= rotate_at t). lia.
Qed.

Lemma memory_remember h now t : memory_ok t -> memory_ok (seenOrRememberPacketHashLocked h now t).1.
Proof.
  intros [H1 H2]. destruct (packetHashSeenLocked h t) eqn:Hs; [unfold seenOrRememberPacketHashLocked; by rewrite Hs|].
  rewrite remember_new by done. pose proof (rotate_pos t) as Hr. pose proof (unseen_current h t Hs) as Hn.
  destruct (Z.leb_spec (rotate_at t) (Z.of_nat (base.size (packetHashes t)))) as [Hf|Hf]; unfold memory_ok.
  - change (Z.of_nat (base.size (<[h := now]> (∅ : gmap bytes Z))) <= rotate_at t /\ Z.of_nat (base.size (packetHashes t)) <= rotate_at t).
    rewrite map_size_insert_None by apply lookup_empty. rewrite map_size_empty. split; lia.
  - change (Z.of_nat (base.size (<[h := now]> (packetHashes t))) <= rotate_at t /\ Z.of_nat (base.size (packetHashesPrev t)) <= rotate_at t).
    rewrite map_size_insert_None by done. lia.
Qed.

(** Whatever arrives, the two generations of remembered packet hashes hold
    at most [rotate_at] hashes each (50000 by default). *)
Theorem hash_memory_bounded t0 l t : memory_ok t0 -> run t0 l t -> memory_ok t.
Proof.
  assert (forall a tc t t1 ev o, accept (a_io a) (a_now a) (a_raw a) (a_iface a) tc false t = (t1, ev, o) ->
    memory_ok t -> memory_ok t1) as Hacc.
  { intros a tc s s1 ev o H Hs. destruct (accept_inv a tc s s1 ev o H) as [[->|[x ->]] _]; [done|by apply memory_remember]. }
  assert (forall a p s s' ev, processInboundPacket (a_io a) (a_now a) (a_env a) p (a_iface a) s = Ok (s', ev) ->
    memory_ok s -> memory_ok s') as Hpr.
  { intros a p s s' ev Hp Hs. destruct (process_effect _ _ _ _ _ _ _ _ Hp) as [[Hh|[_ Hh]] _]; [by eapply memory_hashes|].
    eapply memory_hashes; [exact Hh|by apply memory_forget]. }
  intros H0 R. induction R as [|l t a t' R IH Ha|l t a tc t' ev o R IH Ha|l t t' R IH Ho]; [done| |by eapply Hacc|].
  - destruct Ha as [[ev Ha]|(p & ev & _ & Hp)]; [|by eapply Hpr].
    apply arrive_inv in Ha as (t1 & [ev1 o] & Ha & Hp). cbn [fst snd] in Ha, Hp. pose proof (Hacc _ _ _ _ _ _ Ha IH) as H1.
    destruct o as [[p c]|]; [|by subst t']. destruct Hp as (ev' & Hp). by eapply Hpr.
  - eapply memory_hashes; [apply (other_step_settled t t' Ho)|done].
Qed.

(** ** Routes *)

(** Where a path comes from after a frame was processed. *)
Definition paths_from (a : Arrival) (t t' : Transport) : Prop :=
  forall d e', pathTable t' !! d = Some e' ->
    (exists e, pathTable t !! d = Some e /\ same_route e e' /\
       (PHops e' = PHops e \/ exists p, packet_in a p /\ PacketType p = PacketProof /\ PHops e' = Hops p)) \/
    (exists p, packet_in a p /\ teaches p (a_iface a) d e' /\ supersedes (a_io a) (a_now a) t p (a_iface a) d e').

Lemma process_paths a p t t' ev :
  packet_in a p -> processInboundPacket (a_io a) (a_now a) (a_env a) p (a_iface a) t = Ok (t', ev) -> paths_from a t t'.
Proof.
  intros Hin Hp d e' He.
  destruct (proj2 (proj2 (proj2 (process_effect _ _ _ _ _ _ _ _ Hp))) d e' He) as [(e & H1 & H2 & [H3|[H3 H4]])|[H1 H2]].
  - left. exists e. split; [done|]. split; [done|by left].
  - left. exists e. split; [done|]. split; [done|]. right. by exists p.
  - right. by exists p.
Qed.

Lemma arrive_paths a t t' ev : arrive a t = Ok (t', ev) -> paths_from a t t'.
Proof.
  intros Ha. apply arrive_inv in Ha as (t1 & [ev1 o] & Hacc & Hpr). cbn [fst snd] in Hacc, Hpr.
  destruct (accept_inv a _ t t1 ev1 o Hacc) as [_ Ho]. destruct (accept_hashes a _ t t1 ev1 o Hacc) as (x & y & ->).
  destruct o as [[p c]|]; [|subst t'; intros d e' He; left; exists e'; split; [done|]; split; [done|by left]].
  destruct Hpr as (ev' & Hp). destruct (Ho p c eq_refl) as [Hin _].
  exact (process_paths a p (with_hashes x y t) t' ev' Hin Hp).
Qed.

Lemma processes_paths a t t' : processes a t t' -> paths_from a t t'.
Proof. intros [[ev Ha]|(p & ev & Hin & Hp)]; [by eapply arrive_paths|by eapply process_paths]. Qed.

Lemma arrive_keeps_paths a t t' ev d : arrive a t = Ok (t', ev) -> is_Some (pathTable t !! d) -> is_Some (pathTable t' !! d).
Proof.
  intros Ha Hd. apply arrive_inv in Ha as (t1 & [ev1 o] & Hacc & Hpr). cbn [fst snd] in Hacc, Hpr.
  destruct (accept_hashes a _ t t1 ev1 o Hacc) as (x & y & ->). destruct o as [[p c]|]; [|by subst t'].
  destruct Hpr as (ev' & Hp). by apply (proj1 (proj2 (proj2 (process_effect _ _ _ _ _ _ _ _ Hp)))).
Qed.

(** The shape of a received packet. *)
Lemma packet_in_shape a p :
  packet_in a p -> length (DestinationHash p) = 16%nat /\ (TransportID p = [] \/ length (TransportID p) = 16%nat) /\ Hops p <= 128.
Proof.
  intros (raw & _ & Hp). destruct (parse_frame_inv _ _ _ _ Hp) as (f & h & tid & dst & ctx & data & _ & Hd & Ht & Hh & _ & _ & -> & -> & ->).
  split; [exact Hd|]. split; [exact Ht|]. destruct (_ || _); lia.
Qed.

Lemma next_hop_length a p n : packet_in a p -> nextHopFromAnnounce p = Some n -> length n = 16%nat.
Proof.
  intros Hp. destruct (packet_in_shape a p Hp) as (Hd & Ht & _). unfold nextHopFromAnnounce.
  destruct (Nat.ltb_spec 0 (length (TransportID p))) as [Hl|_].
  - intros [= <-]. destruct Ht as [Ht|]; [|done]. rewrite Ht in Hl. cbn in Hl. lia.
  - case_match; [|done]. by intros [= <-].
Qed.

Lemma random_blob_length p b : random_blob p = Some b -> length b = 10%nat.
Proof.
  unfold random_blob. generalize blobStart. intros start. destruct (Nat.leb_spec (start + 10) (length (Packet.Data p))) as [Hl|]; [|done].
  intros [= <-]. unfold slice. rewrite length_take, length_drop. lia.
Qed.

Lemma containsBlob_spec blobs b : containsBlob blobs b = true <-> b ∈ blobs.
Proof.
  unfold containsBlob. rewrite existsb_exists. split.
  - intros (x & Hx & E). apply bytes_eqb_eq in E as ->. by apply list_elem_of_In.
  - intros Hb. exists b. split; [by apply list_elem_of_In|]. apply bytes_eqb_refl.
Qed.

(** An authentic announce of [d] arrived where the path [e] leads. *)
Definition announced (l : list (Arrival * Transport)) (d : bytes) (e : PathEntry) : Prop :=
  exists a t p, (a, t) ∈ l /\ packet_in a p /\ PacketType p = PacketAnnounce /\ DestinationHash p = d /\
    (ValidateAnnounce p).1 = true /\ nextHopFromAnnounce p = Some (NextHop e) /\ PInterface e = Some (a_iface a) /\
    PPacket e = Raw p.

Lemma announced_same l d e e' :
  NextHop e' = NextHop e -> PInterface e' = PInterface e -> PPacket e' = PPacket e -> announced l d e -> announced l d e'.
Proof. unfold announced. intros -> -> ->. done. Qed.

(** C7: a transport that started without paths, and loaded none from disk
    ([PathStore] is about those), has a path only when an authentic announce
    of its destination arrived: the path leads to the interface and the
    neighbour the announce came from. *)
Theorem routes_announced t0 l t :
  pathTable t0 = ∅ -> run t0 l t -> forall d e, pathTable t !! d = Some e -> announced l d e.
Proof.
  intros H0 R. induction R as [|l t a t' R IH Ha|l t a tc t' ev o R IH Ha|l t t' R IH Ho]; intros d e' He.
  - rewrite H0 in He. by rewrite lookup_empty in He.
  - destruct (processes_paths a t t' Ha d e' He) as [(e & H1 & (S1 & S2 & S3 & _) & _)|(p & Hin & (T1 & T2 & T3 & T4 & T5 & T6 & _) & _)].
    + destruct (announced_same l d e e' S1 S2 S3 (IH d e H1)) as (b & tb & p & Hb & H). exists b, tb, p.
      split; [apply elem_of_app; by left|done].
    + exists a, t, p. split; [apply elem_of_app; right; by apply list_elem_of_singleton|done].
  - destruct (accept_hashes a tc t t' ev o Ha) as (x & y & ->). by apply IH.
  - destruct (proj2 (proj2 (other_step_settled t t' Ho)) d e' He) as (e & H1 & (S1 & S2 & _ & _ & _ & S3)).
    pose proof (IH d e H1) as Hann. apply (announced_same l d e); [done| |done..].
    destruct S3 as [?|E]; [done|]. destruct Hann as (? & ? & ? & _ & _ & _ & _ & _ & _ & Ei & _). congruence.
Qed.

(** An announce that tells nothing new about the path [e]: its blob is known or
    it is not newer than the newest announce of the path. *)
Definition stale (now : Z) (p : Packet) (e : PathEntry) : Prop :=
  match random_blob p with Some b => b ∈ RandomBlobs e | None => True end \/
  announceEmissionFromPacket p <= timebaseFromRandomBlobs now (RandomBlobs e).

Lemma stale_not_replaced io now p i e :
  stale now p e -> Unresponsive e = false -> Before now (Expires e) = true ->
  (forall j, PInterface e = Some j -> gravity (io i) <= gravity (io j)) -> should_replace io now p i e = false.
Proof.
  intros Hst Hu Hx Hg. unfold should_replace. rewrite Hu, Hx. cbn [negb orb].
  set (new := match random_blob p with Some b => _ | None => false end).
  set (tb := timebaseFromRandomBlobs now (RandomBlobs e)) in *. set (em := announceEmissionFromPacket p) in *.
  assert (Hnew : new && (tb <? em) = false).
  { unfold new. destruct Hst as [Hb|Ht]; [|apply andb_false_iff; right; apply Z.ltb_ge; exact Ht].
    destruct (random_blob p); [|done]. apply containsBlob_spec in Hb. by rewrite Hb. }
  assert (Hgr : match PInterface e with Some j => gravity (io j) <? gravity (io i) | None => false end = false).
  { destruct (PInterface e); [|done]. apply Z.ltb_ge. by apply Hg. }
  rewrite Hnew, Hgr. clearbody new. destruct (Hops p <=? PHops e); [by destruct (em =? tb)|].
  destruct (tb <? em); [by destruct new|by destruct (em =? tb)].
Qed.

(** C25: an announce heard before, or older than what is known, moves no path
    that is in use: while the path is responsive and not expired and the frame
    comes from no interface that is preferred, the path stays on its route,
    whatever hop count the announce claims. *)
Theorem stale_announce_ignored a t t' ev d e :
  arrive a t = Ok (t', ev) -> pathTable t !! d = Some e ->
  Unresponsive e = false -> Before (a_now a) (Expires e) = true ->
  (forall j, PInterface e = Some j -> gravity (a_io a (a_iface a)) <= gravity (a_io a j)) ->
  (forall p, packet_in a p -> PacketType p = PacketAnnounce -> DestinationHash p = d -> stale (a_now a) p e) ->
  exists e', pathTable t' !! d = Some e' /\ same_route e e' /\
    (PHops e' = PHops e \/ exists p, packet_in a p /\ PacketType p = PacketProof /\ PHops e' = Hops p).
Proof.
  intros Ha He Hu Hx Hg Hst. destruct (arrive_keeps_paths a t t' ev d Ha) as [e' He']; [by rewrite He|]. exists e'. split; [done|].
  destruct (arrive_paths a t t' ev Ha d e' He') as [(e0 & H1 & H2 & H3)|(p & Hin & (T1 & T2 & _) & Hs)].
  - rewrite He in H1. by injection H1 as <-.
  - exfalso. unfold supersedes in Hs. rewrite He in Hs. destruct Hs as [Hr _].
    rewrite (stale_not_replaced (a_io a) (a_now a) p (a_iface a) e) in Hr; [done| |done..]. by apply Hst.
Qed.
End SafetyFacts.

(** ** Witnesses *)

Module ToyHistory.
Import ToyCrypto ToyCurves ToyNet.
Definition at_iface (raw : bytes) (i : Iface) : Arrival := mkArrival io (10 ^ 20) env raw i.
Definition state (r : tr_result) (t : Transport) : Transport := match r with Ok (t, _) => t | _ => t end.
Definition parsed (a : Arrival) : Packet := default zeroPacket (parse_frame (a_io a) (a_raw a) (a_iface a)).
(** The same packet twice, the second time over another relay. *)
Definition once : Arrival := at_iface (frame 0x50 0 (name 1) hello) 0.
Definition again : Arrival := at_iface (frame 0x50 5 (name 1) hello) 1.
Definition other : Arrival := at_iface (frame 0x50 0 (name 1) (mkMsg 0 dest 0 [1])) 0.
(** A relay that knows the identity of the destination, a link request, its
    proof and a packet of the link. *)
Definition relay : Transport :=
  n_t second <| knownDestinations := {[ dest := mkKnown [] (GetPublicKey ToyIdentity.alice) [] 0 ]} |>.
Definition request : Arrival := at_iface (frame 0x52 0 (name 2) (mkMsg 2 dest 0 (replicate 64 8))) 0.
Definition link : bytes := Eval vm_compute in match LinkIDFromLR (parsed request) with Ok id => id | _ => [] end.
Definition prf : bytes :=
  Eval vm_compute in ed_sign (ToyIdentity.seed 4) (link ++ replicate 32 6 ++ slice 32 64 (GetPublicKey ToyIdentity.alice)) ++ replicate 32 6.
Definition accepted : Arrival := at_iface (frame 15 0 [] (mkMsg 15 link ContextLrproof prf)) 1.
Definition traffic : Arrival := at_iface (frame 12 0 [] (mkMsg 12 link 0 [1; 2; 3])) 0.
Definition requested : Transport := Eval vm_compute in state (arrive request relay) relay.
Definition linked : Transport := Eval vm_compute in state (arrive accepted requested) requested.
Definition heard_once : Transport := Eval vm_compute in state (arrive once (n_t first)) (n_t first).
Definition heard_other : Transport := Eval vm_compute in state (arrive other heard_once) heard_once.
Definition sent (r : tr_result) : list tr_event := match r with Ok (_, ev) => ev | _ => [] end.
(** An announce, and the same announce again on another interface with a lower
    hop count. *)
Definition frame_of_announce : bytes := Eval vm_compute in Raw ToyIdentity.announce.
Definition told : Arrival := at_iface (with_hops 5 frame_of_announce) 0.
Definition replayed : Arrival := at_iface (with_hops 0 frame_of_announce) 1.
Definition informed : Transport := Eval vm_compute in state (arrive told (blank (name 2))) (blank (name 2)).
Definition unmoved : Transport := Eval vm_compute in state (arrive replayed informed) informed.
Definition home : bytes := Eval vm_compute in DHash ToyIdentity.home.
Definition way : PathEntry := Eval vm_compute in default (path [] 0) (pathTable informed !! home).

(** Facts about closed histories, by evaluation. *)
Ltac history_fact := first [vm_compute; reflexivity | vm_compute; discriminate | vm_compute; lia].
End ToyHistory.

Section SafetyWitnesses.
Import ToyCrypto ToyCurves ToyNet ToyHistory.

Lemma duplicate_suppressed_witness :
  arrive once (n_t first) = Ok (heard_once, sent (arrive once (n_t first))) /\ arrive_all [other] heard_once = Ok heard_other /\
  (accept io (10 ^ 20) (a_raw again) 1 noTrafficClass false heard_other).2 = None.
Proof.
  split; [history_fact|]. split; [history_fact|].
  apply (duplicate_suppressed once (parsed once) (n_t first) heard_once (sent (arrive once (n_t first))) [other] heard_other again
    (parsed again)).
  - exists (a_raw once). split; history_fact.
  - unfold deduplicated, is_lrproof. repeat split; try history_fact; intros [H _]; by vm_compute in H.
  - history_fact.
  - history_fact.
  - history_fact.
  - history_fact.
  - history_fact.
  - constructor; [|constructor]. intros q (raw & [= <-] & Hq) _. vm_compute in Hq. injection Hq as <-. history_fact.
  - exists (a_raw again). split; history_fact.
  - history_fact.
  - unfold deduplicated, is_lrproof. repeat split; try history_fact; intros [H _]; by vm_compute in H.
Defined.

Lemma link_traffic_needs_proof_witness :
  exists e, linkTable linked !! link = Some e /\ proved_by [(request, relay); (accepted, requested)] link e /\
    link_direction (parsed traffic) 0 e = Some 1%nat.
Proof.
  apply (link_traffic_needs_proof relay [(request, relay); (accepted, requested)] linked io (10 ^ 20) (parsed traffic) 0
    (state (arrive traffic linked) linked) 1 (with_hops 1 (a_raw traffic))).
  - intros id e H. vm_compute in H. discriminate.
  - change [(request, relay); (accepted, requested)] with (([] ++ [(request, relay)]) ++ [(accepted, requested)]).
    eapply run_arrive; [eapply run_arrive; [apply run_start|]|]; history_fact.
  - history_fact.
Defined.

Lemma hash_memory_bounded_witness : memory_ok linked.
Proof.
  apply (hash_memory_bounded relay (([] ++ [(request, relay)]) ++ [(accepted, requested)])); [split; history_fact|].
  eapply run_arrive; [eapply run_arrive; [apply run_start|]|]; history_fact.
Defined.

Lemma told_run : run (blank (name 2)) ([] ++ [(told, blank (name 2))]) informed.
Proof. eapply run_arrive; [apply run_start|history_fact]. Qed.

Lemma routes_announced_witness : announced ([] ++ [(told, blank (name 2))]) home way.
Proof. apply (routes_announced (blank (name 2)) _ informed); [history_fact|apply told_run|history_fact]. Defined.

Lemma stale_announce_ignored_witness :
  exists e', pathTable unmoved !! home = Some e' /\ same_route way e' /\
    (PHops e' = PHops way \/ exists p, packet_in replayed p /\ PacketType p = PacketProof /\ PHops e' = Hops p).
Proof.
  apply (stale_announce_ignored replayed informed unmoved (sent (arrive replayed informed)) home way); [history_fact..| |].
  - intros j _. history_fact.
  - intros p (raw & Hr & Hp) _ _. change (Some (a_raw replayed) = Some raw) in Hr. apply (inj Some) in Hr. subst raw. vm_compute in Hp. injection Hp as <-. left. vm_compute. constructor.
Defined.
End SafetyWitnesses.
