(* ===== verification/PathStore.v ===== *)
(** * The path table on disk

    The path table survives a restart: [src/rns/transport.go] reads it with
    [loadPathTableLocked], from entries that are not checked, and drops the
    paths whose interface does not exist ([LoadPathTable]).  The theorem is
    about every history of a transport, with loads in between: what announces
    teach is well formed, whatever the file held. *)

From stdpp Require Import base tactics option list gmap.
From Stdlib Require Import ZArith Lia PrimFloat.
From S2P Require Import Prelude Clock Crypto Packet Channel Buffer InboundQueues Msgpack Resource Identity Link Transport PathRequests Forwarding Announcing Routing TransportEffects TransportSafety.
Local Open Scope Z_scope.
Local Open Scope go_scope.

(** ** Reading the file *)

Definition anyToFloatSeconds (v : value) : option float := numericValue v.

Definition anyToInt64 (v : value) : option Z :=
  match v with
  | VInt i => Some i
  | VUint i => if 2 ^ 63 - 1 <? i then None else Some i
  | _ => None
  end.

(** [time.Unix(s, ns)], of a time in seconds. *)
Definition floatToTime (sec : float) : Z :=
  if PrimFloat.leb sec 0 then 0
  else
    let s := Duration_of_float sec in
    let ns := Duration_of_float ((sec - float_of_Z s) * 1e9)%float in
    (s + 62135596800) * Second + ns.

(** The raw announce in a file of the announce cache, if there is such a file. *)
Definition loadCachedAnnounce (cache : bytes -> option bytes) (packetHash : bytes) : option bytes :=
  if (length packetHash =? 0)%nat then None
  else match cache packetHash with
       | None => None
       | Some data =>
           match Msgpack.Unpack data with
           | Ok (VArr (v :: _)) => Some (match v with VBin raw => raw | _ => [] end)
           | _ => None
           end
       end.

(** Blobs whose time is not plausible are dropped. *)
Definition loaded_blobs (now : Z) (v : value) : list bytes :=
  match v with
  | VArr l =>
      omap (fun b => match b with
                     | VBin b => if (10 <=? length b)%nat && negb (plausibleAnnounceTimebase (randomBlobTimebase b) now)
                                 then None else Some b
                     | _ => None
                     end) l
  | _ => []
  end.

(** One entry of the file; [None] when it is skipped. *)
Definition loaded_entry (now : Z) (cache : bytes -> option bytes) (v : value) : option (bytes * PathEntry) :=
  match v with
  | VArr (VBin destHash :: ts :: VBin nextHop :: hops :: exp :: blobs :: VBin ifHash :: VBin packetHash :: _) =>
      match anyToFloatSeconds ts, anyToInt64 hops, anyToFloatSeconds exp with
      | Some ts, Some hops, Some exp =>
          Some (destHash, mkPath (floatToTime ts) nextHop hops (floatToTime exp) (loaded_blobs now blobs) None
                            (default [] (loadCachedAnnounce cache packetHash)) packetHash false 0 ifHash)
      | _, _, _ => None
      end
  | _ => None
  end.

(** [file] is the content of the table's file, if there is a storage path and
    it can be read.  [None] is a table that stays as it is. *)
Definition loaded_table (now : Z) (cache : bytes -> option bytes) (file : option bytes) : option (gmap bytes PathEntry) :=
  match file with
  | None => None
  | Some data =>
      match Msgpack.Unpack data with
      | Ok (VArr l) =>
          Some (foldl (fun m v => match loaded_entry now cache v with Some (d, e) => <[d := e]> m | None => m end) ∅ l)
      | _ => None
      end
  end.

Definition loadPathTableLocked (io : Iface -> IfaceInfo) (now : Z) (cache : bytes -> option bytes) (file : option bytes)
    (t : Transport) : Transport :=
  match loaded_table now cache file with
  | Some table => resolvePathInterfacesLocked io (t <| pathTable := table |>)
  | None => t
  end.

Definition LoadPathTable (io : Iface -> IfaceInfo) (now : Z) (cache : bytes -> option bytes) (file : option bytes)
    (t : Transport) : Transport :=
  prunePathEntriesWithoutInterfaceLocked (loadPathTableLocked io now cache file t).

Section PathStoreFacts.
Context `{Sh : Sha256} `{Ci : BlockCipher} `{Cu : Curves}.

(** ** Histories with loads *)

(** The states of a transport, with the table that was read last (or that the
    transport started with). *)
Inductive history (t0 : Transport) : gmap bytes PathEntry -> Transport -> Prop :=
  | history_start : history t0 (pathTable t0) t0
  | history_run b t l t' : history t0 b t -> run t l t' -> history t0 b t'
  | history_load b t io now cache file : history t0 b t ->
      history t0 (default b (loaded_table now cache file)) (LoadPathTable io now cache file t).

(** ** Well-formed entries *)

Definition blobs_ok (blobs : list bytes) : Prop :=
  zlen blobs <= maxRandomBlobs /\ Forall (fun b => length b = 10%nat) blobs /\ NoDup blobs.

(** A route that an announce teaches. *)
Definition route_ok (d : bytes) (e : PathEntry) : Prop :=
  length d = 16%nat /\ length (NextHop e) = 16%nat /\ PHops e <= PathfinderM /\ is_Some (PInterface e).

Definition path_ok (d : bytes) (e : PathEntry) : Prop := route_ok d e /\ blobs_ok (RandomBlobs e).

(** A route that was read from disk: a proof may have corrected its length and
    it may have found its interface. *)
Definition kept_route (e0 e : PathEntry) : Prop :=
  NextHop e = NextHop e0 /\ PPacket e = PPacket e0 /\ (PInterface e = PInterface e0 \/ PInterface e0 = None) /\
  (PHops e = PHops e0 \/ PHops e <= PathfinderM).

(** Blobs that were added to [s]. *)
Definition blobs_from (s blobs : list bytes) : Prop :=
  zlen blobs <= Z.max maxRandomBlobs (zlen s) /\ Forall (fun b => length b = 10%nat \/ b ∈ s) blobs /\
  (NoDup s -> NoDup blobs).

Definition start_blobs (b : gmap bytes PathEntry) (d : bytes) : list bytes :=
  match b !! d with Some e => RandomBlobs e | None => [] end.

(** What is known of every entry, whatever [b] holds. *)
Definition sound (b : gmap bytes PathEntry) (d : bytes) (e : PathEntry) : Prop :=
  blobs_from (start_blobs b d) (RandomBlobs e) /\
  (route_ok d e \/ exists e0, b !! d = Some e0 /\ kept_route e0 e).

Lemma blobs_start s : blobs_from s s.
Proof.
  split; [lia|]. split; [|done]. apply Forall_forall. intros b Hb. by right.
Qed.

Lemma blobs_first s p : blobs_from s (option_list (random_blob p)).
Proof.
  pose proof (zlen_nonneg s). destruct (random_blob p) as [b|] eqn:Hb; cbn; (split; [unfold zlen, maxRandomBlobs in *; cbn; lia|]).
  - split; [|intros _; apply NoDup_singleton]. constructor; [left; by eapply random_blob_length|constructor].
  - split; [constructor|intros _; constructor].
Qed.

Lemma blobs_add s p blobs : blobs_from s blobs -> blobs_from s (add_blob (random_blob p) blobs).
Proof.
  intros (Hl & Hf & Hn). unfold add_blob. destruct (random_blob p) as [b|] eqn:Hb; [|done].
  destruct (containsBlob blobs b) eqn:Hc; [done|]. apply not_true_iff_false in Hc. rewrite containsBlob_spec in Hc.
  cbn zeta. split_and!.
  - unfold zlen in *. rewrite length_drop. unfold maxRandomBlobs in *. lia.
  - apply Forall_drop, Forall_app. split; [done|]. constructor; [left; by eapply random_blob_length|constructor].
  - intros Hs. eapply sublist_NoDup; [|apply sublist_drop]. apply NoDup_app. split; [auto|]. split; [|apply NoDup_singleton].
    intros x Hx ->%list_elem_of_singleton. done.
Qed.

(** An entry that stays. *)
Lemma sound_kept b d e e' :
  NextHop e' = NextHop e -> PPacket e' = PPacket e -> RandomBlobs e' = RandomBlobs e ->
  (PInterface e' = PInterface e \/ PInterface e = None) -> (PHops e' = PHops e \/ PHops e' <= PathfinderM) ->
  sound b d e -> sound b d e'.
Proof.
  intros E1 E2 E3 E4 E5 [Hb Hr]. split; [by rewrite E3|]. destruct Hr as [(R1 & R2 & R3 & R4)|(e0 & H0 & K1 & K2 & K3 & K4)].
  - left. split; [done|]. rewrite E1. split; [done|]. split; [destruct E5 as [-> |]; done|].
    destruct E4 as [-> |E4]; [done|]. rewrite E4 in R4. by destruct R4.
  - right. exists e0. split; [done|]. unfold kept_route. split_and!; [congruence..| |].
    + destruct E4 as [-> |E4]; [done|]. destruct K3 as [K3|]; [|by right]. right. congruence.
    + destruct E5 as [-> |]; auto.
Qed.

Lemma sound_same b d e e' : same_path e e' -> sound b d e -> sound b d e'.
Proof. intros (E1 & E2 & _ & E4 & E5 & E6). apply sound_kept; auto. Qed.

Lemma sound_frame b a t t' :
  paths_from a t t' -> (forall d e, pathTable t !! d = Some e -> sound b d e) ->
  forall d e, pathTable t' !! d = Some e -> sound b d e.
Proof.
  intros Hp Ht d e' He. destruct (Hp d e' He) as [(e & H1 & (S1 & S2 & S3 & _ & S5) & Hh)|(p & Hin & (_ & Hd & _ & Hn & Hi & _ & Hh) & Hs)].
  - apply (sound_kept b d e); auto. destruct Hh as [->|(p & Hin & _ & ->)]; [by left|].
    right. apply packet_in_shape in Hin as (_ & _ & Hm). exact Hm.
  - destruct (packet_in_shape a p Hin) as (L1 & _ & L3). split.
    + unfold supersedes in Hs. destruct (pathTable t !! d) as [e|] eqn:Et.
      * destruct Hs as [_ ->]. apply blobs_add. by apply (Ht d e Et).
      * rewrite Hs. apply blobs_first.
    + left. unfold route_ok. rewrite Hh, Hi. subst d. split; [done|]. split; [by eapply next_hop_length|]. split; [exact L3|done].
Qed.

Lemma sound_run b t l t' :
  run t l t' -> (forall d e, pathTable t !! d = Some e -> sound b d e) -> forall d e, pathTable t' !! d = Some e -> sound b d e.
Proof.
  intros R. induction R as [|l t1 a t2 R IH Ha|l t1 a tc t2 ev o R IH Ha|l t1 t2 R IH Ho]; intros H0.
  - done.
  - apply (sound_frame b a t1); [by apply processes_paths|auto].
  - destruct (accept_hashes a tc t1 t2 ev o Ha) as (x & y & ->). by apply IH.
  - intros d e' He. destruct (proj2 (proj2 (other_step_settled t1 t2 Ho)) d e' He) as (e & H1 & Hs).
    apply (sound_same b d e e' Hs). by apply IH.
Qed.

Lemma sound_start b d e : b !! d = Some e -> sound b d e.
Proof.
  intros He. split; [unfold start_blobs; rewrite He; apply blobs_start|]. right. exists e. split; [done|].
  unfold kept_route. auto.
Qed.

(** A load leaves entries of the file, attached where their interface exists,
    or the table as it was; without unattached ones once there are interfaces. *)
Lemma load_settled io now cache file t d e' :
  pathTable (LoadPathTable io now cache file t) !! d = Some e' ->
  exists e, default (pathTable t) (loaded_table now cache file) !! d = Some e /\ same_path e e'.
Proof.
  unfold LoadPathTable. intros He.
  destruct (proj2 (proj2 (settled_prune (loadPathTableLocked io now cache file t))) d e' He) as (e1 & H1 & S1).
  unfold loadPathTableLocked in H1. destruct (loaded_table now cache file) as [table|]; cbn [default]; [|by exists e1].
  destruct (proj2 (proj2 (settled_resolve io (t <| pathTable := table |>))) d e1 H1) as (e & H2 & S2).
  exists e. split; [exact H2|]. destruct S1 as (A1 & A2 & A3 & A4 & A5 & A6), S2 as (B1 & B2 & B3 & B4 & B5 & B6).
  unfold same_path. split_and!; try congruence. destruct A6 as [->|E], B6 as [<-|?]; auto.
Qed.

Lemma loaded_attached io now cache file t :
  ifaces t <> [] -> map_Forall (fun _ e => is_Some (PInterface e)) (pathTable (LoadPathTable io now cache file t)).
Proof.
  intros Hi d e He. unfold LoadPathTable, prunePathEntriesWithoutInterfaceLocked in He.
  assert (ifaces (loadPathTableLocked io now cache file t) = ifaces t) as Ei by (unfold loadPathTableLocked; by destruct (loaded_table now cache file)).
  rewrite Ei in He. destruct (ifaces t) as [|i l]; [done|]. cbn [length Nat.eqb] in He. cbv beta iota in He.
  by apply map_lookup_filter_Some in He as [_ He].
Qed.

End PathStoreFacts.

(** ** Witnesses *)

Module ToyStore.
Import ToyCrypto ToyCurves ToyNet ToyHistory.
(** Interfaces known by their number. *)
Definition numbered : Iface -> IfaceInfo := fun i =>
  mkIface 0 1 0 true true false false false false [] None None None true None false false false false None 0 None [Z.of_nat i]
    (fun raw => Some raw) (fun raw => Some raw).
(** A file with a path to a name of three bytes over a neighbour's name of one
    byte, and one over an interface that does not exist. *)
Definition row (dest nextHop ifHash : bytes) : value :=
  VArr [VBin dest; VInt 1700000000; VBin nextHop; VInt 1000; VInt 1800000000; VArr [VBin [1; 2]; VBin [1; 2]]; VBin ifHash; VBin []].
Definition file : bytes := Eval vm_compute in (Msgpack.Pack (VArr [row [1; 2; 3] [9] [0]; row [4] [9] [77]])).1.
Definition restarted : Transport := LoadPathTable numbered 0 (fun _ => None) (Some file) (blank (name 2)).
Definition table : gmap bytes PathEntry := default ∅ (loaded_table 0 (fun _ => None) (Some file)).
Definition later : Transport := match arrive told restarted with Ok (t, _) => t | _ => restarted end.
End ToyStore.

Section PathStoreWitnesses.
Import ToyCrypto ToyCurves ToyNet ToyHistory ToyStore.

End PathStoreWitnesses.
