(* ===== verification/Relaying.v ===== *)
(** * The frames a relay sends

    What the frames look like that a transport sends when it forwards packets,
    link packets and proofs: they carry the increased hop count, so that no
    packet is forwarded forever, and they carry no access code, so that an
    interface of a network with access codes refuses them. *)

From stdpp Require Import base tactics option list gmap.
From Stdlib Require Import ZArith Lia PrimFloat.
From S2P Require Import Prelude Clock Crypto Packet Channel Buffer InboundQueues Msgpack Resource Identity Link Transport PathRequests Forwarding Announcing Ifac Routing TransportEffects TransportSafety.
Local Open Scope Z_scope.
Local Open Scope go_scope.

Section RelayingFacts.
Context `{Sh : Sha256} `{Ci : BlockCipher} `{Cu : Curves}.

(** The access code flag of a frame is clear. *)
Definition unmarked (raw : bytes) : Prop := Z.land (nth 0 raw 0) 0x80 = 0.

(** A frame sent for [p]: its hop byte is the hop count of [p], and it has no
    access code when [p] has none. *)
Definition relayed (p : Packet) (ev : tr_event) : Prop :=
  match ev with
  | TSend _ raw => raw !! 1%nat = Some (u8 (Hops p)) /\ (unmarked (Raw p) -> unmarked raw)
  | _ => True
  end.

Definition framed (p : Packet) : Prop := exists f h rest, Raw p = f :: h :: rest /\ Flags p = f.

Lemma relayed_with_hops p o : framed p -> relayed p (TSend o (with_hops (Hops p) (Raw p))).
Proof. intros (f & h & rest & Hr & _). rewrite Hr. cbn. unfold unmarked. by rewrite Hr. Qed.

Lemma low_nibble_unmarked f rest : unmarked (Z.lor (Z.shiftl Header1 6) (Z.land f 15) :: rest).
Proof. unfold unmarked. change (Z.shiftl Header1 6) with 0. cbn [nth]. rewrite Z.lor_0_l, <- Z.land_assoc. apply Z.land_0_r. Qed.

Lemma relayed_forwarded_raw p e t o : framed p -> relayed p (TSend o (forwarded_raw p e t)).
Proof.
  intros Hf. pose proof (relayed_with_hops p o Hf) as Hw. destruct Hf as (f & h & rest & Hr & Hfl). unfold forwarded_raw.
  destruct (1 <? PHops e).
  - rewrite Hr. cbn. unfold unmarked. by rewrite Hr.
  - destruct (PHops e =? 1); [split; [done|intros _; apply low_nibble_unmarked]|].
    destruct (negb _); [split; [done|intros _; apply low_nibble_unmarked]|done].
Qed.

(** The hop count of what did not come from a local client is kept. *)
Lemma forwardedHop_remote p local t : forwardedHopByteLocked p false local t = Hops p.
Proof. done. Qed.

Lemma match_receipts_relayed h p cap now rs kept ev q :
  match_receipts h p cap now rs = Ok (kept, ev) -> Forall (relayed q) ev.
Proof.
  revert kept ev. induction rs as [|r rs IH]; intros kept ev; cbn; [intros [= _ <-]; constructor|].
  destruct (if _ : bool then _ else _) as [[[r' v] ev1]|er|]; cbn; try done.
  destruct (match_receipts h p cap now rs) as [[k e]|er|]; cbn; try done.
  destruct v; intros [= _ <-]; [constructor; [done|]|]; by eapply IH.
Qed.

Lemma forward_path_relayed io now p i t t' ev :
  framed p -> spawnedLocalClient (io i) = false -> forward_path io now p i t = Some (Ok (t', ev)) -> Forall (relayed p) ev.
Proof.
  intros Hf Hl. unfold forward_path. destruct (pathTable t !! DestinationHash p) as [e|]; [|done].
  destruct (PInterface e) as [out|]; [|intros [= _ <-]; constructor].
  destruct (record_forward io now p i e out t) as [t1|er|]; cbn [mbind res_bind]; try done. intros [= _ <-]. rewrite Hl.
  unfold mangleForwardedRaw. rewrite orb_true_r. cbn [orb negb]. constructor; [by apply relayed_forwarded_raw|constructor].
Qed.

Lemma forward_link_relayed io now p i t t' ev :
  framed p -> spawnedLocalClient (io i) = false -> forward_link io now p i t = Some (t', ev) -> Forall (relayed p) ev.
Proof.
  intros Hf Hl. unfold forward_link. destruct (negb _ && negb _); [|done]. destruct (linkTable t !! DestinationHash p) as [e|]; [|done].
  destruct (negb _); [intros [= _ <-]; by repeat constructor|]. destruct (link_direction p i e) as [out|]; [|done].
  intros [= _ <-]. rewrite Hl, forwardedHop_remote. constructor; [by apply relayed_with_hops|constructor].
Qed.

Lemma relayLinkProof_relayed io now p i t t' ev :
  framed p -> spawnedLocalClient (io i) = false -> relayLinkProof io now p i t = Some (Ok (t', ev)) -> Forall (relayed p) ev.
Proof.
  intros Hf Hl. unfold relayLinkProof. destruct (linkTable t !! DestinationHash p) as [e|]; [|done].
  destruct (negb _); [intros [= _ <-]; constructor|].
  destruct (rebalance_entry p e t) as [[[e1 t1]|]|er|]; cbn [mbind res_bind]; try done; [|intros [= _ <-]; constructor].
  destruct (negb _); [intros [= _ <-]; constructor|].
  destruct (validateRelayLinkProofLocked p (LDestinationHash e1) t1) as [[]|er|]; cbn [mbind res_bind negb]; try done;
    intros [= _ <-]; [|constructor]. rewrite Hl, forwardedHop_remote. constructor; [by apply relayed_with_hops|constructor].
Qed.

Lemma process_proof_relayed io now env p i t t' ev :
  framed p -> spawnedLocalClient (io i) = false -> process_proof io now env p i t = Ok (t', ev) -> Forall (relayed p) ev.
Proof.
  intros Hf Hl. unfold process_proof. destruct (_ =? _).
  - destruct (relayLinkProof io now p i t) as [r|] eqn:Hr; [intros ->; by eapply relayLinkProof_relayed|].
    destruct (FindLink (DestinationHash p) t); intros [= _ <-]; by repeat constructor.
  - destruct (List.find _ _); [intros [= _ <-]; constructor; [by apply relayed_with_hops|constructor]|].
    destruct (reverseTable t !! DestinationHash p);
      [intros [= _ <-]; rewrite Hl, forwardedHop_remote; constructor; [by apply relayed_with_hops|constructor]|].
    destruct (match_receipts _ _ _ _ _) as [[kept evs]|er|] eqn:Hm; cbn; try done. intros [= _ <-]. by eapply match_receipts_relayed.
Qed.

Lemma process_rest_relayed io now env p i t t' ev :
  framed p -> spawnedLocalClient (io i) = false -> PacketType p <> PacketAnnounce ->
  process_rest io now env p i t = Ok (t', ev) -> Forall (relayed p) ev.
Proof.
  intros Hf Hl Ha. unfold process_rest. assert (broadcast_events io p i t = []) as -> by (unfold broadcast_events; by rewrite Hl).
  destruct (_ =? _).
  - destruct (process_proof io now env p i t) as [[t1 ev1]|er|] eqn:Hp; cbn; try done. intros [= _ <-]. by eapply process_proof_relayed.
  - destruct (Z.eqb_spec (PacketType p) PacketAnnounce); [done|]. intros [= _ <-]. constructor.
Qed.

Lemma relayed_insert p t ev : relayed (insert_transport_id p t) ev -> relayed p ev.
Proof. unfold insert_transport_id. destruct (_ && _); [|done]. by destruct (tidentity t). Qed.

Lemma framed_insert p t : framed p -> framed (insert_transport_id p t).
Proof. unfold insert_transport_id. destruct (_ && _); [|done]. by destruct (tidentity t). Qed.

(** Every frame sent while a packet is processed that is no announce and no
    path request. *)
Lemma process_relayed io now env p i t t' ev :
  framed p -> spawnedLocalClient (io i) = false -> PacketType p <> PacketAnnounce -> isPathRequestPacket p t = false ->
  processInboundPacket io now env p i t = Ok (t', ev) -> Forall (relayed p) ev.
Proof.
  intros Hf Hl Ha Hr.
  assert (Htr : process_transport io now env p i t = Ok (t', ev) -> Forall (relayed p) ev).
  { unfold process_transport. destruct (_ && _); [|by apply process_rest_relayed].
    intros H. apply (Forall_impl (relayed (insert_transport_id p t))); [|apply relayed_insert].
    apply framed_insert with (t := t) in Hf.
    assert (Ha' : PacketType (insert_transport_id p t) <> PacketAnnounce) by (unfold insert_transport_id; by repeat case_match).
    set (q := insert_transport_id p t) in *. clearbody q.
    destruct (if is_next_hop q t then forward_path io now q i t else None) as [r|] eqn:Hp.
    - subst r. destruct (is_next_hop q t); [|done]. by eapply forward_path_relayed.
    - destruct (forward_link io now q i t) as [[t1 ev1]|] eqn:Hk.
      + injection H as <- <-. by eapply forward_link_relayed.
      + by eapply process_rest_relayed. }
  unfold processInboundPacket. rewrite Hr. destruct (bool_decide _); [intros [= _ <-]; by repeat constructor|].
  destruct (FindLink (DestinationHash p) t) as [l|]; [|done].
  destruct (_ && _); [intros [= _ <-]; by repeat constructor|].
  destruct (negb _); [intros [= _ <-]; by repeat constructor|done].
Qed.

Lemma accept_quiet a tc t t1 ev o :
  accept (a_io a) (a_now a) (a_raw a) (a_iface a) tc false t = (t1, ev, o) -> forall i raw, TSend i raw ∉ ev.
Proof.
  unfold accept. intros H i raw Hin. repeat (case_match; simplify_eq); set_solver.
Qed.

(** ** The hop budget *)

(** A frame between nodes, not between a shared instance and its clients. *)
Definition remote (a : Arrival) : Prop :=
  spawnedLocalClient (a_io a (a_iface a)) = false /\ connectedToShared (a_io a (a_iface a)) = false.

(** The frame [raw] of the arrival [a] at [t] is a packet to carry: no
    announce, and no path request, which is answered or made anew. *)
Definition carried (a : Arrival) (t : Transport) : Prop :=
  remote a /\ forall p, packet_in a p -> PacketType p <> PacketAnnounce /\
    forall x y, isPathRequestPacket p (with_hashes x y t) = false.

(** When [a] arrives at [t], [raw] is sent. *)
Definition sends (a : Arrival) (t : Transport) (raw : bytes) : Prop :=
  exists t' ev out, arrive a t = Ok (t', ev) /\ TSend out raw ∈ ev.

(** A packet on its way: each frame is one the arrival before it caused, at
    whatever node and interface and in whatever state. *)
Inductive journey : list (Arrival * Transport) -> Prop :=
  | journey_start a t : carried a t -> journey [(a, t)]
  | journey_hop a t b u l raw : carried a t -> sends a t raw -> ifacIn (a_io b (a_iface b)) (a_raw b) = Some raw ->
      journey ((b, u) :: l) -> journey ((a, t) :: (b, u) :: l).

(** The hop byte of an arriving frame. *)
Definition hop_byte (a : Arrival) (h : Z) : Prop := exists raw, ifacIn (a_io a (a_iface a)) (a_raw a) = Some raw /\ raw !! 1%nat = Some h.

Lemma packet_in_framed a p :
  packet_in a p -> exists raw f h rest, ifacIn (a_io a (a_iface a)) (a_raw a) = Some raw /\ raw = f :: h :: rest /\ Raw p = raw /\
    Flags p = f /\ h < 128 /\ (remote a -> Hops p = h + 1).
Proof.
  intros (raw & Hi & Hp). exists raw.
  destruct (parse_frame_inv _ _ _ _ Hp) as (f & h & tid & dst & ctx & data & Hr & _ & _ & Hh & HR & Hf & _ & _ & Hhop).
  exists f, h, (tid ++ dst ++ ctx :: data). split_and!; try assumption. intros [R1 R2]. by rewrite Hhop, R1, R2.
Qed.

(** A frame that causes another one has a hop byte within the budget, and the
    other one has the next. *)
Lemma sends_next a t raw : carried a t -> sends a t raw ->
  exists p h, packet_in a p /\ hop_byte a h /\ h < 128 /\ Hops p = h + 1 /\ raw !! 1%nat = Some (u8 (h + 1)) /\ (unmarked (Raw p) -> unmarked raw).
Proof.
  intros [Hr Hc] (t' & ev & out & Ha & Hs). unfold arrive, Inbound in Ha.
  destruct (accept _ _ _ _ _ _ _) as [[t1 ev1] o] eqn:Hacc. pose proof (accept_quiet a _ t t1 ev1 o Hacc out raw) as Hq.
  destruct (accept_inv a _ t t1 ev1 o Hacc) as [_ Ho]. destruct (accept_hashes a _ t t1 ev1 o Hacc) as (x & y & ->).
  destruct o as [[p c]|]; [|by injection Ha as <- <-]. destruct (Ho p c eq_refl) as [Hin _].
  destruct (processInboundPacket _ _ _ _ _ _) as [[t2 ev2]|er|] eqn:Hp; cbn in Ha; try done. injection Ha as <- <-.
  destruct (packet_in_framed a p Hin) as (raw0 & f & h & rest & Hi & Hraw & HR & Hfl & Hh & Hhop).
  destruct (Hc p Hin) as [Hna Hnp].
  assert (Hf : framed p) by (exists f, h, rest; by rewrite HR).
  pose proof (process_relayed _ _ _ _ _ _ _ _ Hf (proj1 Hr) Hna (Hnp x y) Hp) as Hall.
  apply elem_of_app in Hs as [Hs|Hs]; [done|]. rewrite Forall_forall in Hall. destruct (Hall _ Hs) as [H1 H2].
  exists p, h. rewrite Hhop in H1 by done. split; [done|]. split; [exists raw0; split; [done|by subst raw0]|]. auto.
Qed.

Lemma journey_hops l a t h : journey ((a, t) :: l) -> hop_byte a h -> 0 <= h -> h + zlen ((a, t) :: l) <= 129 \/ (l = []).
Proof.
  revert a t h. induction l as [|[b u] l IH]; intros a t h J Hh H0; [by right|]. left.
  inversion J as [|? ? ? ? ? raw Hc Hs Hi J']; subst.
  destruct (sends_next a t raw Hc Hs) as (p & h' & _ & (r1 & Hr1 & Hb1) & Hlt & _ & Hnext & _).
  destruct Hh as (r2 & Hr2 & Hb2). rewrite Hr1 in Hr2. injection Hr2 as <-. rewrite Hb1 in Hb2. injection Hb2 as <-.
  assert (u8 (h' + 1) = h' + 1) as E by (apply u8_id; unfold is_byte; lia). rewrite E in Hnext.
  destruct (IH b u (h' + 1) J') as [Hle| ->]; [by exists raw|lia| |].
  - unfold zlen in *. cbn [length] in *. lia.
  - unfold zlen. cbn. lia.
Qed.

(** C26: no packet is carried forever: a data packet, link request, link packet
    or proof makes at most 128 relays send, even when the path tables along its
    way form a loop and the duplicate detection never triggers. *)
Theorem journey_ends l a t : journey ((a, t) :: l) -> (forall h, hop_byte a h -> 0 <= h) -> zlen l <= 128.
Proof.
  intros J Hb. destruct l as [|[b u] l]; [unfold zlen; cbn; lia|].
  assert (Hh : exists h, hop_byte a h).
  { inversion J as [|? ? ? ? ? raw Hc Hs Hi J']; subst. destruct (sends_next a t raw Hc Hs) as (p & h & _ & Hh & _). by exists h. }
  destruct Hh as [h Hh]. destruct (journey_hops _ a t h J Hh (Hb h Hh)) as [Hle|]; [|done].
  specialize (Hb h Hh). unfold zlen in *. cbn [length] in *. lia.
Qed.

(** ** Access codes *)

Lemma ApplyIFACInbound_unmarked x data raw : ApplyIFACInbound x data = Some raw -> unmarked raw.
Proof.
  assert (Hbit : forall b, Z.land b 0x80 = 0x80 \/ Z.land b 0x80 = 0).
  { intros b. change 128 with (2 ^ 7). destruct (Z.testbit b 7) eqn:Hb.
    - left. apply Z.bits_inj'. intros n Hn. rewrite Z.land_spec, Z.pow2_bits_eqb by lia.
      destruct (Z.eqb_spec 7 n) as [<-|]; [by rewrite Hb|apply andb_false_r].
    - right. apply Z.bits_inj'. intros n Hn. rewrite Z.land_spec, Z.pow2_bits_eqb, Z.bits_0 by lia.
      destruct (Z.eqb_spec 7 n) as [<-|]; [by rewrite Hb|apply andb_false_r]. }
  unfold ApplyIFACInbound. destruct (_ <=? _)%nat; [done|]. destruct (ifac_enabled x) as [[s n]|].
  - destruct (negb _); [done|]. destruct (_ <=? _); [done|]. destruct (HKDF _ _ _ _); try done. destruct (_ <? _); [done|].
    destruct (bytes_eqb _ _); [|done]. intros [= <-]. unfold unmarked. cbn [nth]. rewrite <- Z.land_assoc. apply Z.land_0_r.
  - destruct (Z.eqb_spec (Z.land (nth 0 data 0) 128) 128) as [|Hn]; [done|]. intros [= <-]. unfold unmarked. by destruct (Hbit (nth 0 data 0)).
Qed.

(** A relay drops the access code and adds none: whatever arrived under
    whatever code, an interface with access codes refuses every frame sent for
    it. *)
Theorem relayed_frames_refused a t x raw y s :
  carried a t -> (forall data, ifacIn (a_io a (a_iface a)) data = ApplyIFACInbound x data) -> sends a t raw ->
  ifac_enabled y = Some s -> ApplyIFACInbound y raw = None.
Proof.
  intros Hc Hx Hs Hy. destruct (sends_next a t raw Hc Hs) as (p & h & Hin & _ & _ & _ & _ & Hm).
  destruct (packet_in_framed a p Hin) as (raw0 & f & h' & rest & Hi & _ & HR & _). rewrite Hx in Hi.
  assert (Hu : unmarked raw) by (apply Hm; rewrite HR; by eapply ApplyIFACInbound_unmarked).
  unfold ApplyIFACInbound. rewrite Hy, Hu. destruct (_ <=? _)%nat; [done|]. by destruct s.
Qed.

(** ** Clients with a hop offset *)

(** With a hop offset, the frame of a header-1 packet for a local client is
    cut after the place of a transport ID it does not have: the destination
    hash is lost. *)
Lemma local_delta_strips_destination p e t f h dst ctx data :
  Raw p = raw_of f h [] dst ctx data -> length dst = 16%nat -> PHops e = 0 -> localHopsDelta t <> 0 ->
  forwarded_raw p e t = Z.land (Flags p) 15 :: u8 (Hops p) :: ctx :: data.
Proof.
  intros Hr Hd He Hx. unfold forwarded_raw. rewrite He. cbn [Z.ltb Z.eqb Z.compare]. rewrite (proj2 (Z.eqb_neq _ _) Hx). cbn [negb].
  rewrite Hr. change (drop (dstLen + 2) (raw_of f h [] dst ctx data)) with (drop 16 (dst ++ ctx :: data)).
  by rewrite drop_app_length' by (symmetry; exact Hd).
Qed.
End RelayingFacts.

(** ** Witnesses *)

Module ToyRelaying.
Import ToyCrypto ToyCurves ToyNet ToyHistory ToyIfac.
Definition next_frame : bytes := Eval vm_compute in frame 0x50 1 (name 2) hello.
Definition onward : Arrival := at_iface next_frame 0.
(** An interface of a network with access codes. *)
Definition coded : IfaceInfo :=
  mkIface 0 1 0 true true false false false false [] None None None true None false false false false None 0 None []
    (fun raw => match ApplyIFACOutbound net raw with Ok raw => Some raw | _ => None end) (ApplyIFACInbound net).
Definition sealed : bytes := Eval vm_compute in match ApplyIFACOutbound net (frame 0x50 0 (name 1) hello) with Ok f => f | _ => [] end.
Definition arrived : Arrival := mkArrival (fun _ => coded) (10 ^ 20) env sealed 0.
Definition done : Transport := Eval vm_compute in state (arrive arrived (n_t first)) (n_t first).
End ToyRelaying.

Section RelayingWitnesses.
Import ToyCrypto ToyCurves ToyNet ToyHistory ToyIfac ToyRelaying.

Lemma once_carried : carried once (n_t first).
Proof.
  split; [by split|]. intros p (raw & Hr & Hp). change (Some (a_raw once) = Some raw) in Hr. apply (inj Some) in Hr. subst raw.
  vm_compute in Hp. injection Hp as <-. split; [history_fact|]. intros x y. history_fact.
Qed.

Lemma onward_carried : carried onward (n_t second).
Proof.
  split; [by split|]. intros p (raw & Hr & Hp). change (Some next_frame = Some raw) in Hr. apply (inj Some) in Hr. subst raw.
  vm_compute in Hp. injection Hp as <-. split; [history_fact|]. intros x y. history_fact.
Qed.

Lemma journey_ends_witness : zlen [(onward, n_t second)] <= 128.
Proof.
  apply (journey_ends [(onward, n_t second)] once (n_t first)).
  - apply (journey_hop _ _ _ _ _ next_frame); [apply once_carried| |history_fact|apply journey_start, onward_carried].
    exists heard_once, (sent (arrive once (n_t first))), 1%nat. split; [history_fact|]. vm_compute. constructor.
  - intros h (raw & Hr & Hh). change (Some (a_raw once) = Some raw) in Hr. apply (inj Some) in Hr. subst raw.
    vm_compute in Hh. injection Hh as <-. lia.
Defined.

Lemma relayed_frames_refused_witness : ApplyIFACInbound net next_frame = None.
Proof.
  apply (relayed_frames_refused arrived (n_t first) net next_frame net (signer, 16)).
  - split; [by split|]. intros p (raw & Hr & Hp). vm_compute in Hr. injection Hr as <-. vm_compute in Hp. injection Hp as <-.
    split; [history_fact|]. intros x y. history_fact.
  - intros data. reflexivity.
  - exists done, (sent (arrive arrived (n_t first))), 1%nat. split; [history_fact|]. vm_compute. constructor.
  - history_fact.
Defined.
End RelayingWitnesses.
