(* ===== verification/LxmfStamps.v ===== *)
(** * LXMF stamps

    Models [lxmf/stamper.go]: the workblock a stamp is computed over, the value
    of a stamp, the search for one and its parallel variant.

    The SHA-256 state of the Go standard library is what was written to it so
    far; saving and restoring it is an interface ([HashState]).  A context is
    what each of its checks answers.  The search is a loop that need not end:
    it runs on fuel, [None] meaning that it is still searching.  The parallel
    search is a step relation over its workers, the result channel and the
    collecting loop. *)

From stdpp Require Import base tactics option list relations.
From Stdlib Require Import ZArith Lia.
From S2P Require Import Prelude Crypto Packet Msgpack.
Local Open Scope Z_scope.
Local Open Scope go_scope.

Inductive stamp_err :=
  | ErrMaterialRequired
  | ErrContext
  | ErrPackRound (n : Z) (e : mp_err)
  | ErrDeriveRound (n : Z) (e : crypto_err)
  | ErrTargetCost (cost : Z)
  | ErrStampRandom (e : crypto_err)
  | ErrNoWorker.

(** Whether the [n]-th check of the context finds it canceled. *)
Definition ctx : Type := nat -> bool.
Definition Background : ctx := fun _ => false.

Definition StampSize : nat := 32.
Definition WorkblockExpandRounds : Z := 3000.
Definition WorkblockExpandRoundsPN : Z := 1000.
Definition WorkblockExpandRoundsPeering : Z := 25.

(** [h.MarshalBinary] of a SHA-256 state that has been given [w], and
    [h.UnmarshalBinary], which yields what the restored state had been given. *)
Class HashState := {
  hash_marshal : bytes -> option bytes;
  hash_unmarshal : bytes -> option bytes;
}.
(** A saved state that can be restored is restored unchanged. *)
Class HashStateLaws `{HashState} := {
  hash_restored w s w' : hash_marshal w = Some s -> hash_unmarshal s = Some w' -> w' = w;
}.

Section Stamps.
Context `{Sha256}.

(** ** The workblock *)

(** The rounds [n .. n + rounds - 1]. *)
Fixpoint expand_rounds (c : ctx) (material : bytes) (n rounds : nat) : res stamp_err bytes :=
  match rounds with
  | O => Ok []
  | S rounds' =>
      if c n then Err ErrContext
      else match Msgpack.Pack (VInt (Z.of_nat n)) with
           | (_, Some e) => Err (ErrPackRound (Z.of_nat n) e)
           | (nPacked, None) =>
               let salt := FullHash (material ++ nPacked) in
               part ← map_err (ErrDeriveRound (Z.of_nat n)) (HKDF 256 material salt []);
               rest ← expand_rounds c material (S n) rounds';
               Ok (part ++ rest)
           end
  end.

Definition StampWorkblockWithContext (c : ctx) (material : bytes) (expandRounds : Z)
    : res stamp_err bytes :=
  if zlen material =? 0 then Err ErrMaterialRequired
  else
    let expandRounds := if expandRounds <=? 0 then WorkblockExpandRounds else expandRounds in
    expand_rounds c material 0 (Z.to_nat expandRounds).

Definition StampWorkblock (material : bytes) (expandRounds : Z) : res stamp_err bytes :=
  StampWorkblockWithContext Background material expandRounds.

(** ** The value of a stamp *)

(** [bits.LeadingZeros8]. *)
Definition LeadingZeros8 (b : Z) : Z := if b =? 0 then 8 else 7 - Z.log2 b.

Fixpoint leadingZeroBits (data : bytes) : Z :=
  match data with
  | [] => 0
  | b :: data' => if b =? 0 then 8 + leadingZeroBits data' else LeadingZeros8 b
  end.

Definition StampValue (workblock stamp : bytes) : Z := leadingZeroBits (FullHash (workblock ++ stamp)).

Definition StampValid (stamp : bytes) (targetCost : Z) (workblock : bytes) : bool :=
  if targetCost <=? 0 then true
  else if 256 <? targetCost then false
  else targetCost <=? StampValue workblock stamp.

Definition ValidatePeeringKey (peeringID peeringKey : bytes) (targetCost : Z) : bool :=
  if (zlen peeringID =? 0) || (zlen peeringKey =? 0) then false
  else match StampWorkblock peeringID WorkblockExpandRoundsPeering with
       | Ok workblock => StampValid peeringKey targetCost workblock
       | _ => false
       end.

(** ** The search *)

Record midstate := mkMidstate { ms_state : bytes; ms_workblock : bytes }.

Definition workblockMidstate `{HashState} (workblock : bytes) : option midstate :=
  if zlen workblock <? 128 then None
  else match hash_marshal workblock with
       | None => None
       | Some state => Some (mkMidstate state workblock)
       end.

Definition hashWithMidstate `{HashState} (ms : midstate) (suffix : bytes) : bytes :=
  match hash_unmarshal (ms_state ms) with
  | None => SHA256 (ms_workblock ms ++ suffix)
  | Some written => SHA256 (written ++ suffix)
  end.

(** [candidate[j]++] until a byte does not wrap around. *)
Fixpoint next_candidate (candidate : bytes) : bytes :=
  match candidate with
  | [] => []
  | b :: rest =>
      let b' := u8 (b + 1) in
      if b' =? 0 then b' :: next_candidate rest else b' :: rest
  end.

(** Stamp (nil is [None]), value, rounds and error. *)
Definition gen_result : Type := option bytes * Z * Z * option stamp_err.

(** The loop: the context's checks continue at [k]. *)
Fixpoint search (fuel : nat) (c : ctx) (k : nat) (hash : bytes -> bytes) (targetCost : Z)
    (candidate : bytes) (rounds : Z) : option gen_result :=
  match fuel with
  | O => None
  | S fuel' =>
      if c k then Some (None, 0, rounds, Some ErrContext)
      else
        let rounds := rounds + 1 in
        let val := leadingZeroBits (hash candidate) in
        if targetCost <=? val then Some (Some candidate, val, rounds, None)
        else search fuel' c (S k) hash targetCost (next_candidate candidate) rounds
  end.

(** The hash of a candidate, by the midstate if there is one. *)
Definition candidate_hash `{HashState} (workblock candidate : bytes) : bytes :=
  match workblockMidstate workblock with
  | Some ms => hashWithMidstate ms candidate
  | None => SHA256 (workblock ++ candidate)
  end.

Definition rounds_of (expandRounds : Z) : nat :=
  Z.to_nat (if expandRounds <=? 0 then WorkblockExpandRounds else expandRounds).

Definition GenerateStampWithContext `{HashState} (fuel : nat) (c : ctx) (rnd : random_source)
    (material : bytes) (targetCost expandRounds : Z) : option gen_result :=
  if targetCost <? 0 then Some (None, 0, 0, None)
  else if 256 <? targetCost then Some (None, 0, 0, Some (ErrTargetCost targetCost))
  else match StampWorkblockWithContext c material expandRounds with
       | Err e => Some (None, 0, 0, Some e)
       | Panic => None
       | Ok workblock =>
           match rnd StampSize with
           | Ok candidate =>
               search fuel c (rounds_of expandRounds) (candidate_hash workblock) targetCost candidate 0
           | Err e => Some (None, 0, 0, Some (ErrStampRandom e))
           | Panic => None
           end
       end.

Definition GenerateStamp `{HashState} (fuel : nat) (rnd : random_source) (material : bytes)
    (targetCost expandRounds : Z) : option gen_result :=
  GenerateStampWithContext fuel Background rnd material targetCost expandRounds.

(** ** The parallel search *)

(** A worker before it drew its candidate, before it looks at the stop
    channel, while it tries a candidate, and after its only send. *)
Inductive worker :=
  | Starting
  | Polling (candidate : bytes) (localRounds : Z)
  | Trying (candidate : bytes) (localRounds : Z)
  | Exited.

Record pstate := mkPstate {
  p_workers : list worker;
  p_results : list (option bytes * Z);
  p_stopped : bool;
  p_panicked : bool;
  p_received : nat;
  p_stamp : option bytes;
  p_total : Z;
}.
#[global] Instance eta_pstate : Eta pstate := fun s =>
  mkPstate (p_workers s) (p_results s) (p_stopped s) (p_panicked s) (p_received s) (p_stamp s) (p_total s).

Definition clamp_workers (workers : Z) : Z :=
  let workers := if workers <? 1 then 1 else workers in
  if 64 <? workers then 64 else workers.

Definition parallel_start (workers : Z) : pstate :=
  mkPstate (replicate (Z.to_nat (clamp_workers workers)) Starting) [] false false 0 None 0.

(** A worker sends its result and ends; the channel holds one result per
    worker. *)
Definition send_result (i : nat) (r : option bytes * Z) (s : pstate) : pstate :=
  s <| p_workers := <[i := Exited]> (p_workers s) |> <| p_results := p_results s ++ [r] |>.
Definition can_send (s : pstate) : Prop := (length (p_results s) < length (p_workers s))%nat.

Definition close_stop (s : pstate) : pstate :=
  if p_stopped s then s <| p_panicked := true |> else s <| p_stopped := true |>.

Definition receive_result (r : option bytes * Z) (rest : list (option bytes * Z)) (s : pstate) : pstate :=
  let s := s <| p_results := rest |> <| p_received := S (p_received s) |>
             <| p_total := p_total s + r.2 |> in
  match p_stamp s, r.1 with
  | None, Some stamp => close_stop (s <| p_stamp := Some stamp |>)
  | _, _ => s
  end.

Inductive pstep (hash : bytes -> bytes) (targetCost : Z) : pstate -> pstate -> Prop :=
  | ps_random_failed i s :
      p_workers s !! i = Some Starting -> can_send s ->
      pstep hash targetCost s (send_result i (None, 0) s)
  | ps_random i s candidate :
      p_workers s !! i = Some Starting -> length candidate = StampSize ->
      pstep hash targetCost s (s <| p_workers := <[i := Polling candidate 0]> (p_workers s) |>)
  | ps_stopped i s candidate n :
      p_workers s !! i = Some (Polling candidate n) -> p_stopped s = true -> can_send s ->
      pstep hash targetCost s (send_result i (None, n) s)
  | ps_go_on i s candidate n :
      p_workers s !! i = Some (Polling candidate n) -> p_stopped s = false ->
      pstep hash targetCost s (s <| p_workers := <[i := Trying candidate (n + 1)]> (p_workers s) |>)
  | ps_found i s candidate n :
      p_workers s !! i = Some (Trying candidate n) ->
      targetCost <= leadingZeroBits (hash candidate) -> can_send s ->
      pstep hash targetCost s (send_result i (Some candidate, n) s)
  | ps_next i s candidate n :
      p_workers s !! i = Some (Trying candidate n) ->
      leadingZeroBits (hash candidate) < targetCost ->
      pstep hash targetCost s (s <| p_workers := <[i := Polling (next_candidate candidate) n]> (p_workers s) |>)
  | ps_receive s r rest :
      (p_received s < length (p_workers s))%nat -> p_results s = r :: rest ->
      pstep hash targetCost s (receive_result r rest s).

(** The collecting loop has ended and every worker has. *)
Definition parallel_done (s : pstate) : Prop :=
  p_received s = length (p_workers s) /\ Forall (fun w => w = Exited) (p_workers s).

(** What the call returns then. *)
Definition parallel_result (workblock : bytes) (s : pstate) : gen_result :=
  match p_stamp s with
  | None => (None, 0, p_total s, Some ErrNoWorker)
  | Some stamp => (Some stamp, StampValue workblock stamp, p_total s, None)
  end.

(** [GenerateStampParallel]: what it can return. *)
Inductive GenerateStampParallel `{HashState} (material : bytes) (targetCost expandRounds workers : Z)
    : gen_result -> Prop :=
  | gp_negative : targetCost < 0 ->
      GenerateStampParallel material targetCost expandRounds workers (None, 0, 0, None)
  | gp_cost : 256 < targetCost ->
      GenerateStampParallel material targetCost expandRounds workers
        (None, 0, 0, Some (ErrTargetCost targetCost))
  | gp_workblock e : 0 <= targetCost <= 256 -> StampWorkblock material expandRounds = Err e ->
      GenerateStampParallel material targetCost expandRounds workers (None, 0, 0, Some e)
  | gp_search workblock s : 0 <= targetCost <= 256 -> StampWorkblock material expandRounds = Ok workblock ->
      rtc (pstep (candidate_hash workblock) targetCost) (parallel_start workers) s -> parallel_done s ->
      GenerateStampParallel material targetCost expandRounds workers (parallel_result workblock s).

End Stamps.

(** ** Candidates as numbers *)

(** The number a candidate counts with: little-endian. *)
Fixpoint le_val (l : bytes) : Z :=
  match l with [] => 0 | b :: l' => b + 256 * le_val l' end.

Lemma le_val_bound l : bytes_ok l -> 0 <= le_val l < 256 ^ zlen l.
Proof.
  induction 1 as [|b l Hb Hl IH]; cbn [le_val]; [done|]. unfold is_byte in Hb.
  rewrite zlen_cons, Z.pow_add_r by (pose proof (zlen_nonneg l); lia). lia.
Qed.

Lemma le_val_inj l k :
  bytes_ok l -> bytes_ok k -> length l = length k -> le_val l = le_val k -> l = k.
Proof.
  intros Hl. induction Hl as [|b l Hb Hl IH] in k |- *; intros Hk Hn He; [by destruct k|].
  destruct Hk as [|c k Hc Hk]; [done|]. cbn in Hn, He. unfold is_byte in *.
  assert (b = c) as -> by lia. f_equal. apply IH; [done|lia|lia].
Qed.

Lemma next_candidate_length c : length (next_candidate c) = length c.
Proof. induction c as [|b c IH]; cbn; [done|]. destruct (_ =? 0); cbn; lia. Qed.

Lemma next_candidate_ok c : bytes_ok c -> bytes_ok (next_candidate c).
Proof.
  induction 1 as [|b c Hb Hc IH]; cbn; [constructor|].
  destruct (_ =? 0); constructor; try done; apply u8_is_byte.
Qed.

Lemma next_candidate_val c :
  bytes_ok c -> le_val (next_candidate c) = (le_val c + 1) mod 256 ^ zlen c.
Proof.
  induction 1 as [|b c Hb Hc IH]; cbn [le_val next_candidate]; [done|].
  pose proof (le_val_bound c Hc) as Hv.
  rewrite zlen_cons, Z.pow_add_r by (pose proof (zlen_nonneg c); lia). change (256 ^ 1) with 256.
  unfold is_byte in Hb. unfold u8. change (2 ^ 8) with 256. destruct (Z.eq_dec b 255) as [->|Hne].
  - cbn [le_val]. change ((255 + 1) mod 256 =? 0) with true. cbv iota. cbn [le_val]. rewrite IH.
    change ((255 + 1) mod 256) with 0.
    replace (255 + 256 * le_val c + 1) with (256 * (le_val c + 1)) by lia.
    rewrite Z.mul_mod_distr_l by lia. lia.
  - rewrite (Z.mod_small (b + 1)) by lia. destruct (Z.eqb_spec (b + 1) 0); [lia|]. cbn [le_val].
    rewrite Z.mod_small; lia.
Qed.

(** The candidate after [n] steps. *)
Lemma nth_candidate n c :
  bytes_ok c ->
  let c' := Nat.iter n next_candidate c in
  bytes_ok c' /\ length c' = length c /\ le_val c' = (le_val c + Z.of_nat n) mod 256 ^ zlen c.
Proof.
  intros Hc. induction n as [|n (IH1 & IH2 & IH3)]; cbn zeta in *.
  - cbn. split_and!; [done..|]. rewrite Z.add_0_r, Z.mod_small; [done|by apply le_val_bound].
  - rewrite Nat.iter_succ. split_and!.
    + by apply next_candidate_ok.
    + by rewrite next_candidate_length.
    + rewrite next_candidate_val by done. unfold zlen at 1. rewrite IH2. fold (zlen c).
      rewrite IH3, Z.add_mod_idemp_l by (apply Z.pow_nonzero; [lia|apply zlen_nonneg]).
      f_equal. lia.
Qed.

(** Every candidate comes up within one turn of the counter. *)
Lemma candidate_reached c s :
  bytes_ok c -> bytes_ok s -> length s = length c ->
  exists n, Nat.iter n next_candidate c = s /\ Z.of_nat n < 256 ^ zlen c.
Proof.
  intros Hc Hs Hl. assert (0 < 256 ^ zlen c) as Hp by (apply Z.pow_pos_nonneg; [lia|apply zlen_nonneg]).
  pose proof (Z.mod_pos_bound (le_val s - le_val c) _ Hp) as Hm.
  exists (Z.to_nat ((le_val s - le_val c) mod 256 ^ zlen c)). split; [|lia].
  destruct (nth_candidate (Z.to_nat ((le_val s - le_val c) mod 256 ^ zlen c)) c Hc) as (H1 & H2 & H3).
  apply le_val_inj; [done|done|lia|]. rewrite H3, Z2Nat.id by lia.
  rewrite Z.add_mod_idemp_r by lia. replace (le_val c + (le_val s - le_val c)) with (le_val s) by lia.
  apply Z.mod_small. pose proof (le_val_bound s Hs) as Hb. unfold zlen in *. by rewrite Hl in Hb.
Qed.

(** ** What the value of a stamp says *)

(** A hash has [c] leading zero bits when, read as a number, it is below two
    to the number of the remaining bits. *)
Lemma leadingZeroBits_spec h c :
  bytes_ok h -> 0 <= c <= 8 * zlen h -> (c <= leadingZeroBits h <-> be_dec h < 2 ^ (8 * zlen h - c)).
Proof.
  intros Hh. induction Hh as [|b h Hb Hh IH] in c |- *; intros Hc.
  - unfold zlen in *. cbn in *. assert (c = 0) as -> by lia. cbn. lia.
  - pose proof (zlen_nonneg h) as Hn. rewrite zlen_cons in *. unfold is_byte in Hb.
    unfold be_dec, be_dec_from. cbn [fold_left]. rewrite shift_or_byte by (lia || done).
    fold (be_dec_from (0 * 256 + b) h). rewrite be_dec_from_arith by (lia || done).
    fold (be_dec h). pose proof (be_dec_bound h Hh) as Hd.
    assert (256 ^ zlen h = 2 ^ (8 * zlen h)) as E by (rewrite Z.pow_mul_r by lia; done).
    cbn [leadingZeroBits]. destruct (Z.eqb_spec b 0) as [->|Hne].
    + replace (0 * 256 + 0) with 0 by lia. rewrite Z.mul_0_l, Z.add_0_l.
      destruct (Z.le_gt_cases c 8) as [H8|H8].
      * assert (2 ^ (8 * zlen h) <= 2 ^ (8 * (1 + zlen h) - c)) by (apply Z.pow_le_mono_r; lia).
        assert (0 <= leadingZeroBits h) by (apply IH; [lia|]; replace (8 * zlen h - 0) with (8 * zlen h) by lia; lia).
        lia.
      * replace (8 * (1 + zlen h) - c) with (8 * zlen h - (c - 8)) by lia.
        rewrite <- IH by lia. lia.
    + unfold LeadingZeros8. rewrite (proj2 (Z.eqb_neq b 0)) by done.
      rewrite E in *. replace (0 * 256 + b) with b by lia.
      pose proof (Z.log2_spec b ltac:(lia)) as [L1 L2]. pose proof (Z.log2_nonneg b).
      destruct (Z.le_gt_cases c 8) as [H8|H8].
      * replace (8 * (1 + zlen h) - c) with ((8 - c) + 8 * zlen h) by lia.
        rewrite Z.pow_add_r by lia. split; intros Hx.
        -- assert (2 ^ Z.succ (Z.log2 b) <= 2 ^ (8 - c)) by (apply Z.pow_le_mono_r; lia). nia.
        -- assert (b < 2 ^ (8 - c)) as Hlt by nia.
           apply Z.log2_lt_pow2 in Hlt; lia.
      * split; [lia|]. intros Hx. exfalso.
        assert (2 ^ (8 * (1 + zlen h) - c) <= 2 ^ (8 * zlen h)) by (apply Z.pow_le_mono_r; lia). nia.
Qed.

(** ** The search finds stamps *)

Section StampFacts.
Context `{Sh : Sha256} {ShL : Sha256Laws} `{Hs : HashState} {HsL : HashStateLaws}.

(** The midstate is an optimisation only. *)
Lemma candidate_hash_spec workblock candidate :
  candidate_hash workblock candidate = FullHash (workblock ++ candidate).
Proof.
  unfold candidate_hash, workblockMidstate. destruct (_ <? _); [done|].
  destruct (hash_marshal workblock) as [state|] eqn:E; [|done].
  unfold hashWithMidstate. cbn [ms_state ms_workblock].
  destruct (hash_unmarshal state) as [w|] eqn:E'; [|done].
  by rewrite (hash_restored _ _ _ E E').
Qed.

Lemma expand_rounds_ok material n rounds :
  material <> [] ->
  exists wb, expand_rounds Background material n rounds = Ok wb /\ zlen wb = 256 * Z.of_nat rounds.
Proof.
  intros Hm. induction rounds as [|rounds IH] in n |- *; [by exists []|]. cbn [expand_rounds Background].
  change (Pack (VInt (Z.of_nat n))) with (packInt (Z.of_nat n), @None mp_err). cbv iota beta.
  destruct (HKDF_size 256 material (FullHash (material ++ packInt (Z.of_nat n))) []) as (k & -> & Hk);
    [lia|done|].
  destruct (IH (S n)) as (wb & E & Hl). exists (k ++ wb). cbn [map_err mbind res_bind].
  rewrite E. cbn. split; [done|]. rewrite zlen_app. lia.
Qed.

Lemma StampWorkblock_ok material expandRounds :
  material <> [] ->
  exists wb, StampWorkblock material expandRounds = Ok wb /\
    zlen wb = 256 * Z.of_nat (rounds_of expandRounds).
Proof.
  intros Hm. unfold StampWorkblock, StampWorkblockWithContext, rounds_of.
  destruct (Z.eqb_spec (zlen material) 0) as [E|_]; [by destruct material|].
  by apply expand_rounds_ok.
Qed.

(** A candidate good enough among the first [n + 1] ends the search there at
    the latest. *)
Lemma search_finds n k hash cost c rounds :
  cost <= leadingZeroBits (hash (Nat.iter n next_candidate c)) ->
  exists m, (m <= n)%nat /\
    let s := Nat.iter m next_candidate c in
    search (S n) Background k hash cost c rounds =
      Some (Some s, leadingZeroBits (hash s), rounds + Z.of_nat m + 1, None) /\
    cost <= leadingZeroBits (hash s).
Proof.
  induction n as [|n IH] in k, c, rounds |- *; intros Hn.
  - exists O. split; [lia|]. cbn in *. rewrite (proj2 (Z.leb_le _ _)) by done.
    by rewrite Z.add_0_r.
  - rewrite Nat.iter_succ_r in Hn. remember (S n) as n1 eqn:En. cbn [search Background].
    destruct (Z.leb_spec cost (leadingZeroBits (hash c))) as [Hle|Hlt].
    + exists O. split; [lia|]. cbn. by rewrite Z.add_0_r.
    + subst n1. destruct (IH (S k) (next_candidate c) (rounds + 1) Hn) as (m & Hm & E & Hv).
      exists (S m). split; [lia|]. cbn zeta. rewrite Nat.iter_succ_r. split; [|done].
      rewrite E. by replace (rounds + 1 + Z.of_nat m + 1) with (rounds + Z.of_nat (S m) + 1) by lia.
Qed.

Lemma search_sound fuel c k hash cost cand rounds stamp v r e :
  search fuel c k hash cost cand rounds = Some (Some stamp, v, r, e) ->
  e = None /\ v = leadingZeroBits (hash stamp) /\ cost <= v /\ length stamp = length cand.
Proof.
  induction fuel as [|fuel IH] in k, cand, rounds |- *; cbn [search]; [done|].
  destruct (c k); [done|]. destruct (Z.leb_spec cost (leadingZeroBits (hash cand))) as [Hle|Hlt].
  - intros [= <- <- <- <-]. done.
  - intros Hx%IH. by rewrite next_candidate_length in Hx.
Qed.

Lemma StampValid_value stamp cost wb :
  cost <= 256 -> cost <= StampValue wb stamp -> StampValid stamp cost wb = true.
Proof. intros H1 H2. unfold StampValid. zcase. Qed.

(** C22: if any 32-byte stamp is worth the target cost, the search ends, after
    at most one turn of its 256-bit counter, with a stamp of 32 bytes that is
    valid for that cost; the value it reports is the value of that stamp,
    although it was computed from the saved hash state. *)
Theorem GenerateStamp_finds rnd material cost expandRounds candidate workblock s :
  0 <= cost <= 256 -> StampWorkblock material expandRounds = Ok workblock ->
  rnd StampSize = Ok candidate -> length candidate = StampSize -> bytes_ok candidate ->
  length s = StampSize -> bytes_ok s -> cost <= StampValue workblock s ->
  exists fuel stamp rounds,
    GenerateStamp fuel rnd material cost expandRounds =
      Some (Some stamp, StampValue workblock stamp, rounds, None) /\
    length stamp = StampSize /\ StampValid stamp cost workblock = true /\ 1 <= rounds <= 2 ^ 256.
Proof.
  intros Hc Hw Hr Hl Hok Hls Hoks Hv.
  destruct (candidate_reached candidate s) as (n & En & Hn); [done|done|lia|].
  destruct (search_finds n (rounds_of expandRounds) (candidate_hash workblock) cost candidate 0)
    as (m & Hm & E & Hv').
  { rewrite En, candidate_hash_spec. exact Hv. }
  cbn zeta in E, Hv'. set (stamp := Nat.iter m next_candidate candidate) in *.
  rewrite candidate_hash_spec in E, Hv'. exists (S n), stamp, (0 + Z.of_nat m + 1). split_and!.
  - unfold GenerateStamp, GenerateStampWithContext.
    rewrite (proj2 (Z.ltb_ge cost 0)), (proj2 (Z.ltb_ge 256 cost)) by lia.
    unfold StampWorkblock in Hw. rewrite Hw, Hr. exact E.
  - destruct (nth_candidate m candidate Hok) as (_ & H2 & _). unfold stamp. lia.
  - apply StampValid_value; [lia|done].
  - lia.
  - replace (256 ^ zlen candidate) with (2 ^ 256) in Hn by (unfold zlen; by rewrite Hl). lia.
Qed.

(** Whatever the context does, a stamp that is returned is valid, and without
    one there is an error or the cost was negative. *)
Theorem GenerateStamp_outcome fuel c rnd material cost expandRounds st v r e :
  (forall b, rnd StampSize = Ok b -> length b = StampSize) ->
  GenerateStampWithContext fuel c rnd material cost expandRounds = Some (st, v, r, e) ->
  match st with
  | Some stamp =>
      e = None /\ length stamp = StampSize /\
      exists wb, StampWorkblockWithContext c material expandRounds = Ok wb /\
        v = StampValue wb stamp /\ StampValid stamp cost wb = true
  | None => v = 0 /\ (e = None -> cost < 0)
  end.
Proof.
  intros Hr. unfold GenerateStampWithContext.
  destruct (Z.ltb_spec cost 0); [intros [= <- <- <- <-]; done|].
  destruct (Z.ltb_spec 256 cost); [intros [= <- <- <- <-]; done|].
  destruct (StampWorkblockWithContext c material expandRounds) as [wb|e'|] eqn:Ew;
    [|intros [= <- <- <- <-]; done|done].
  destruct (rnd StampSize) as [cand|e'|] eqn:Er; [|intros [= <- <- <- <-]; done|done].
  destruct st as [stamp|]; intros E.
  - apply search_sound in E as (-> & -> & Hv & Hl). rewrite candidate_hash_spec in *.
    rewrite (Hr _ eq_refl) in Hl. split_and!; [done..|]. exists wb.
    split_and!; [done..|]. by apply StampValid_value.
  - clear -E. revert E. generalize (rounds_of expandRounds) as k, cand, 0 at 1.
    induction fuel as [|fuel IH]; intros k cand' r'; cbn [search]; [done|].
    destruct (c k); [by intros [= <- <- <-]|].
    destruct (_ <=? _); [done|]. apply IH.
Qed.
End StampFacts.

(** ** The parallel search *)

Section ParallelFacts.
Context (hash : bytes -> bytes) (cost : Z).

Definition good_stamp (stamp : bytes) : Prop :=
  length stamp = StampSize /\ cost <= leadingZeroBits (hash stamp).

Definition exits (w : worker) : nat := match w with Exited => 1 | _ => 0 end.
Definition worker_ok (w : worker) : Prop :=
  match w with Polling c _ | Trying c _ => length c = StampSize | _ => True end.

(** Every worker sends once, before it exits; the stop channel is closed with
    the first stamp; before that, only workers that drew no candidate report
    without a stamp. *)
Record pinv (n : nat) (s : pstate) : Prop := {
  pi_workers : length (p_workers s) = n;
  pi_sound : p_panicked s = false;
  pi_sends : sum_list_with exits (p_workers s) = (length (p_results s) + p_received s)%nat;
  pi_stop : p_stopped s = bool_decide (is_Some (p_stamp s));
  pi_stamp : forall stamp, p_stamp s = Some stamp -> good_stamp stamp;
  pi_good : Forall (fun r => forall stamp, r.1 = Some stamp -> good_stamp stamp) (p_results s);
  pi_candidates : Forall worker_ok (p_workers s);
  pi_idle : p_stamp s = None -> p_total s = 0 /\ Forall (fun r => r.1 = None -> r.2 = 0) (p_results s);
}.

Lemma sum_insert (f : worker -> nat) l i x y :
  l !! i = Some x -> (sum_list_with f (<[i:=y]> l) + f x = sum_list_with f l + f y)%nat.
Proof.
  induction l as [|z l IH] in i |- *; [done|]. destruct i as [|i]; csimpl.
  - intros [= ->]. lia.
  - intros E. specialize (IH _ E). lia.
Qed.

Lemma exits_le l : (sum_list_with exits l <= length l)%nat.
Proof. induction l as [|w l IH]; cbn; [lia|]. destruct w; cbn; lia. Qed.

Lemma pinv_start workers : pinv (Z.to_nat (clamp_workers workers)) (parallel_start workers).
Proof.
  split; cbn; try done.
  - apply length_replicate.
  - by induction (Z.to_nat _).
  - by apply Forall_replicate.
Qed.

(** A worker moves on without sending. *)
Lemma pinv_move n i s w w' :
  pinv n s -> p_workers s !! i = Some w -> exits w = O -> exits w' = O -> worker_ok w' ->
  pinv n (s <| p_workers := <[i := w']> (p_workers s) |>).
Proof.
  intros I Hi Hw Hw' Hok. destruct I. split; cbn; try done.
  - by rewrite length_insert.
  - pose proof (sum_insert exits _ _ _ w' Hi). lia.
  - by apply Forall_insert.
Qed.

(** A worker sends its result and exits. *)
Lemma pinv_send n i s w r :
  pinv n s -> p_workers s !! i = Some w -> exits w = O ->
  (forall stamp, r.1 = Some stamp -> good_stamp stamp) ->
  (p_stamp s = None -> r.1 = None -> r.2 = 0) ->
  pinv n (send_result i r s).
Proof.
  intros I Hi Hw Hg Hidle. destruct I. split; cbn; try done.
  - by rewrite length_insert.
  - pose proof (sum_insert exits _ _ _ Exited Hi) as Hs. rewrite length_app. cbn in *. lia.
  - apply Forall_app. split; [done|]. by constructor.
  - by apply Forall_insert.
  - intros Hn. destruct (pi_idle0 Hn) as [Ht Hr]. split; [done|]. apply Forall_app. split; [done|].
    constructor; [auto|constructor].
Qed.

Lemma pinv_receive n s r rest :
  pinv n s -> p_results s = r :: rest -> pinv n (receive_result r rest s).
Proof.
  intros I Er. destruct I. rewrite Er in *. apply Forall_cons in pi_good0 as [Hr Hrest].
  unfold receive_result. cbn [p_stamp modify]. destruct r as [o k].
  change (p_stamp (_ <| p_total := _ |>)) with (p_stamp s). cbn in pi_sends0, Hr.
  destruct (p_stamp s) as [stamp|] eqn:Es; [|destruct o as [stamp|]].
  - split; cbn; rewrite ?Es; try done. lia.
  - unfold close_stop. cbn. rewrite pi_stop0. cbn. split; cbn; try done. lia.
  - destruct (pi_idle0 eq_refl) as [Ht [Hk Hi]%Forall_cons]. cbn in Hk.
    split; cbn; rewrite ?Es; try done; [lia|]. intros _. split; [|done]. rewrite Ht, Hk; done.
Qed.

Lemma pinv_step n s s' : pinv n s -> pstep hash cost s s' -> pinv n s'.
Proof.
  intros I Hs. pose proof I as [? ? ? Hst ? ? Hc ?]. destruct Hs as
    [i s Hi _|i s c Hi Hl|i s c k Hi Hstop _|i s c k Hi _|i s c k Hi Hg _|i s c k Hi _|s r rest _ Hr].
  - by eapply pinv_send.
  - by eapply pinv_move.
  - eapply pinv_send; [done..|]. cbn. intros Hn. rewrite Hst, Hn in Hstop. done.
  - eapply pinv_move; [done..|]. eapply Forall_lookup_1 in Hc; [|exact Hi]. exact Hc.
  - eapply pinv_send; [done..| |done]. cbn. intros ? [= <-]. split; [|done].
    eapply Forall_lookup_1 in Hc; [|exact Hi]. exact Hc.
  - eapply pinv_move; [done..|]. cbn. rewrite next_candidate_length.
    eapply Forall_lookup_1 in Hc; [|exact Hi]. exact Hc.
  - by apply pinv_receive.
Qed.

Lemma pinv_reachable workers s :
  rtc (pstep hash cost) (parallel_start workers) s -> pinv (Z.to_nat (clamp_workers workers)) s.
Proof.
  intros Hr. eapply (rtc_ind_r (pinv _) _ (pinv_start workers)); [|exact Hr].
  intros s1 s2 _ Hs I. by eapply pinv_step.
Qed.

Lemma all_exited l : sum_list_with exits l = length l -> Forall (fun w => w = Exited) l.
Proof.
  induction l as [|w l IH]; cbn; [constructor|]. pose proof (exits_le l). destruct w; cbn; try lia.
  intros E. constructor; [done|]. apply IH. lia.
Qed.

Lemma some_alive l : (sum_list_with exits l < length l)%nat -> exists i w, l !! i = Some w /\ w <> Exited.
Proof.
  induction l as [|w l IH]; cbn; [lia|]. destruct w; try (intros _; by exists O; eexists).
  cbn. intros Hl. destruct IH as (i & w & Hi & Hw); [lia|]. by exists (S i), w.
Qed.

Lemma alive_steps s i w :
  p_workers s !! i = Some w -> w <> Exited -> can_send s -> exists s', pstep hash cost s s'.
Proof.
  intros Hi Hw Hc. destruct w as [|c k|c k|].
  - eexists. by apply ps_random_failed with (i := i).
  - destruct (p_stopped s) eqn:E; eexists; [by eapply ps_stopped|by eapply ps_go_on].
  - destruct (Z.le_gt_cases cost (leadingZeroBits (hash c))); eexists; [by eapply ps_found|by eapply ps_next].
  - done.
Qed.

Lemma parallel_progress n s : pinv n s -> parallel_done s \/ exists s', pstep hash cost s s'.
Proof.
  intros I. destruct I. destruct (p_results s) as [|r rest] eqn:Er.
  - destruct (Nat.lt_ge_cases (sum_list_with exits (p_workers s)) (length (p_workers s))) as [Hlt|Hge].
    + right. destruct (some_alive _ Hlt) as (i & w & Hi & Hw). eapply alive_steps; [done..|].
      unfold can_send. rewrite Er. cbn. apply lookup_lt_Some in Hi. lia.
    + left. pose proof (exits_le (p_workers s)). cbn in pi_sends0.
      split; [lia|]. apply all_exited. lia.
  - right. eexists. eapply ps_receive; [|done].
    pose proof (exits_le (p_workers s)). cbn in pi_sends0. lia.
Qed.
End ParallelFacts.

(** C23: however the workers of a parallel search interleave, the search never
    closes its stop channel twice, never gets stuck before every worker has
    reported, and returns a stamp of the target cost together with its value;
    it fails only if no worker ever had a candidate. *)
Theorem parallel_search_safe `{Sh : Sha256} `{Hs : HashState} {HsL : HashStateLaws}
    material cost expandRounds workers workblock s :
  0 <= cost <= 256 -> StampWorkblock material expandRounds = Ok workblock ->
  rtc (pstep (candidate_hash workblock) cost) (parallel_start workers) s ->
  p_panicked s = false /\
  (parallel_done s \/ exists s', pstep (candidate_hash workblock) cost s s') /\
  (parallel_done s ->
    GenerateStampParallel material cost expandRounds workers (parallel_result workblock s) /\
    (parallel_result workblock s = (None, 0, 0, Some ErrNoWorker) \/
     exists stamp rounds, parallel_result workblock s = (Some stamp, StampValue workblock stamp, rounds, None) /\
       length stamp = StampSize /\ StampValid stamp cost workblock = true)).
Proof.
  intros Hc Hw Hr. pose proof (pinv_reachable _ _ _ _ Hr) as I. split_and!.
  - apply I.
  - by eapply parallel_progress.
  - intros Hd. split; [by apply gp_search|]. unfold parallel_result.
    destruct (p_stamp s) as [stamp|] eqn:Es.
    + right. exists stamp, (p_total s). split; [done|]. destruct (pi_stamp _ _ _ _ I _ Es) as [Hl Hg].
      split; [done|]. apply StampValid_value; [lia|]. by rewrite candidate_hash_spec in Hg.
    + left. by destruct (pi_idle _ _ _ _ I Es) as [-> _].
Qed.

(** ** Witnesses *)

Module ToyStamps.
#[export] Instance toy_hash_state : HashState := {| hash_marshal := Some; hash_unmarshal := Some |}.
#[export] Instance toy_hash_state_laws : HashStateLaws.
Proof. split. by intros w s w' [= ->] [= ->]. Qed.

Definition material : bytes := [4].
Definition workblock `{Sha256} : bytes :=
  match StampWorkblock material 1 with Ok wb => wb | _ => [] end.
End ToyStamps.

Section StampWitnesses.
Import ToyCrypto ToyStamps.

Lemma toy_workblock : StampWorkblock material 1 = Ok workblock.
Proof. vm_compute. reflexivity. Qed.

Lemma GenerateStamp_finds_witness :
  exists fuel stamp rounds,
    GenerateStamp fuel rnd material 2 1 = Some (Some stamp, StampValue workblock stamp, rounds, None) /\
    length stamp = StampSize /\ StampValid stamp 2 workblock = true /\ 1 <= rounds <= 2 ^ 256.
Proof.
  apply (GenerateStamp_finds rnd material 2 1 (replicate 32 9) workblock (replicate 32 5)).
  - lia.
  - exact toy_workblock.
  - reflexivity.
  - reflexivity.
  - apply bytes_ok_replicate. unfold is_byte. lia.
  - reflexivity.
  - apply bytes_ok_replicate. unfold is_byte. lia.
  - apply Z.leb_le. vm_compute. reflexivity.
Defined.

(** One worker that finds its first candidate good enough. *)
Definition toy_found : pstate := receive_result (Some (replicate 32 9), 1) []
  (send_result 0 (Some (replicate 32 9), 1)
     (mkPstate [Trying (replicate 32 9) 1] [] false false 0 None 0)).

Lemma toy_search : rtc (pstep (candidate_hash workblock) 2) (parallel_start 1) toy_found.
Proof.
  eapply rtc_l; [by apply (ps_random _ _ 0 _ (replicate 32 9))|].
  eapply rtc_l; [by apply (ps_go_on _ _ 0 _ (replicate 32 9) 0)|].
  eapply rtc_l.
  { apply (ps_found _ _ 0 _ (replicate 32 9) 1); [reflexivity| |by apply Nat.ltb_lt].
    apply Z.leb_le. vm_compute. reflexivity. }
  apply rtc_once. apply ps_receive; [by apply Nat.ltb_lt|reflexivity].
Qed.

Lemma parallel_search_safe_witness :
  exists stamp rounds,
    GenerateStampParallel material 2 1 1 (Some stamp, StampValue workblock stamp, rounds, None) /\
    StampValid stamp 2 workblock = true.
Proof.
  destruct (parallel_search_safe material 2 1 1 workblock toy_found) as (_ & _ & Hd).
  - lia.
  - exact toy_workblock.
  - exact toy_search.
  - destruct Hd as [Hg [E|(stamp & rounds & E & _ & Hv)]].
    + split; [reflexivity|]. repeat constructor.
    + exfalso. discriminate E.
    + exists stamp, rounds. rewrite <- E. split; [exact Hg|exact Hv].
Defined.
End StampWitnesses.
