(* ===== verification/LxmfTickets.v ===== *)
(** * LXMF delivery tickets

    Models [lxmf/tickets.go]: the store of the tickets a node has issued, which
    let their holders deliver messages without a stamp, and of the tickets it
    was given.

    Instants are nanoseconds since the epoch, as [UnixNano] gives them, and
    the seconds computed from them float64 values; a Go map is a [gmap], and
    the order in which one is iterated over an argument. *)

From stdpp Require Import base tactics option list gmap.
From Stdlib Require Import ZArith Lia Floats.
From S2P Require Import Prelude Clock Crypto Packet.
Local Open Scope Z_scope.
Local Open Scope go_scope.

Definition TicketLength : nat := Z.to_nat (TruncatedHashLength / 8).
Definition DefaultTicketExpirySeconds : float := 1814400%float. (* 21 * 24 * 60 * 60 *)
Definition DefaultTicketGraceSeconds : float := 432000%float. (* 5 * 24 * 60 * 60 *)
Definition DefaultTicketRenewSeconds : float := 1209600%float. (* 14 * 24 * 60 * 60 *)
Definition DefaultTicketIntervalSeconds : float := 86400%float. (* 1 * 24 * 60 * 60 *)

Record TicketEntry := mkTicketEntry { Expires : float; Ticket : bytes }.

Record TicketStore := mkTicketStore {
  lastDeliveries : gmap bytes float;
  ts_inbound : gmap bytes (gmap bytes TicketEntry);
  ts_outbound : gmap bytes TicketEntry;
}.
#[global] Instance eta_TicketStore : Eta TicketStore := fun s =>
  mkTicketStore (lastDeliveries s) (ts_inbound s) (ts_outbound s).

Definition NewTicketStore : TicketStore := mkTicketStore ∅ ∅ ∅.

(** [float64(t.UnixNano()) / 1e9]. *)
Definition unix_seconds (t : Z) : float := (float_of_Z t / 1e9)%float.

Definition MarkDelivery (destinationHash : bytes) (at_ : Z) (s : TicketStore) : TicketStore :=
  s <| lastDeliveries := <[destinationHash := unix_seconds at_]> (lastDeliveries s) |>.

(** A map's entries in the order of one iteration. *)
Definition iteration : Type := list (bytes * TicketEntry) -> list (bytes * TicketEntry).

(** Whether a ticket lasts beyond the renewal threshold. *)
Definition needs_no_renewal (nowSeconds : float) (e : bytes * TicketEntry) : bool :=
  PrimFloat.ltb DefaultTicketRenewSeconds (Expires e.2 - nowSeconds)%float.

(** The new ticket, once no other is good enough. *)
Definition issue_ticket (rnd : random_source) (destinationHash : bytes) (expires : float) (s : TicketStore)
    : TicketStore * option TicketEntry :=
  match rnd TicketLength with
  | Ok ticket =>
      let entry := mkTicketEntry expires ticket in
      let tickets := default ∅ (ts_inbound s !! destinationHash) in
      (s <| ts_inbound := <[destinationHash := <[ticket := entry]> tickets]> (ts_inbound s) |>, Some entry)
  | _ => (s, None)
  end.

Definition GenerateInboundTicket (order : iteration) (rnd : random_source) (destinationHash : bytes) (now : Z)
    (expirySeconds : float) (s : TicketStore) : TicketStore * option TicketEntry :=
  let nowSeconds := unix_seconds now in
  let expirySeconds := if PrimFloat.leb expirySeconds 0 then DefaultTicketExpirySeconds else expirySeconds in
  let recent := match lastDeliveries s !! destinationHash with
                | Some lastDelivery => PrimFloat.ltb (nowSeconds - lastDelivery)%float DefaultTicketIntervalSeconds
                | None => false
                end in
  if recent then (s, None)
  else match ts_inbound s !! destinationHash with
       | Some existing =>
           match List.find (needs_no_renewal nowSeconds) (order (map_to_list existing)) with
           | Some e => (s, Some e.2)
           | None => issue_ticket rnd destinationHash (nowSeconds + expirySeconds)%float s
           end
       | None =>
           issue_ticket rnd destinationHash (nowSeconds + expirySeconds)%float
             (s <| ts_inbound := <[destinationHash := ∅]> (ts_inbound s) |>)
       end.

Definition RememberOutboundTicket (destinationHash : bytes) (entry : TicketEntry) (s : TicketStore) : TicketStore :=
  s <| ts_outbound := <[destinationHash := entry]> (ts_outbound s) |>.

Definition CleanAvailableTickets (nowSeconds grace : float) (s : TicketStore) : TicketStore :=
  s <| ts_outbound := filter (fun x => PrimFloat.ltb (Expires x.2) nowSeconds = false) (ts_outbound s) |>
    <| ts_inbound := (fun tickets : gmap bytes TicketEntry =>
         filter (fun x => PrimFloat.ltb (Expires x.2 + grace)%float nowSeconds = false) tickets) <$> ts_inbound s |>.

Definition OutboundTicket (destinationHash : bytes) (now : Z) (s : TicketStore) : option bytes :=
  match ts_outbound s !! destinationHash with
  | None => None
  | Some entry => if PrimFloat.leb (Expires entry) (unix_seconds now) then None else Some (Ticket entry)
  end.

Definition OutboundTicketExpiry (destinationHash : bytes) (now : Z) (s : TicketStore) : float :=
  match ts_outbound s !! destinationHash with
  | None => 0
  | Some entry => if PrimFloat.leb (Expires entry) (unix_seconds now) then 0 else Expires entry
  end%float.

Definition InboundTickets (order : iteration) (destinationHash : bytes) (now : Z) (s : TicketStore)
    : list bytes :=
  match ts_inbound s !! destinationHash with
  | None => []
  | Some entries =>
      map (fun e => Ticket e.2)
        (List.filter (fun e => PrimFloat.ltb (unix_seconds now) (Expires e.2)) (order (map_to_list entries)))
  end.

(** ** Histories of a store *)

Inductive ticket_op :=
  | OpMarkDelivery (destinationHash : bytes) (at_ : Z)
  | OpGenerate (order : iteration) (rnd : random_source) (destinationHash : bytes) (now : Z) (expirySeconds : float)
  | OpRemember (destinationHash : bytes) (entry : TicketEntry)
  | OpClean (nowSeconds grace : float).

Definition run_op (s : TicketStore) (op : ticket_op) : TicketStore :=
  match op with
  | OpMarkDelivery d t => MarkDelivery d t s
  | OpGenerate order rnd d now expiry => (GenerateInboundTicket order rnd d now expiry s).1
  | OpRemember d e => RememberOutboundTicket d e s
  | OpClean now grace => CleanAvailableTickets now grace s
  end.

Definition run_ops (ops : list ticket_op) (s : TicketStore) : TicketStore := fold_left run_op ops s.

(** ** Facts *)

(** Every ticket is stored under itself and has the length of a ticket. *)
Definition store_ok (s : TicketStore) : Prop :=
  forall d m k e, ts_inbound s !! d = Some m -> m !! k = Some e -> Ticket e = k /\ length k = TicketLength.

Definition holds_ticket (s : TicketStore) (d : bytes) (e : TicketEntry) : Prop :=
  exists m, ts_inbound s !! d = Some m /\ m !! Ticket e = Some e.

Definition draws_tickets (rnd : random_source) : Prop :=
  forall t, rnd TicketLength = Ok t -> length t = TicketLength.

Definition iterates (order : iteration) : Prop := forall l, order l ≡ₚ l.

(** A random source used by an operation gives as many bytes as asked for, and
    an iteration visits every entry once. *)
Definition op_ok (op : ticket_op) : Prop :=
  match op with OpGenerate order rnd _ _ _ => iterates order /\ draws_tickets rnd | _ => True end.

(** An operation that neither draws the ticket [e] again nor reaps it. *)
Definition op_spares (e : TicketEntry) (op : ticket_op) : Prop :=
  match op with
  | OpGenerate _ rnd _ _ _ => rnd TicketLength <> Ok (Ticket e)
  | OpClean now grace => PrimFloat.ltb (Expires e + grace)%float now = false
  | _ => True
  end.

Lemma issue_ticket_spec rnd d expires s :
  draws_tickets rnd -> store_ok s ->
  store_ok (issue_ticket rnd d expires s).1 /\
  (forall e, (issue_ticket rnd d expires s).2 = Some e ->
     Expires e = expires /\ rnd TicketLength = Ok (Ticket e) /\ holds_ticket (issue_ticket rnd d expires s).1 d e) /\
  (forall d' e, rnd TicketLength <> Ok (Ticket e) -> holds_ticket s d' e ->
     holds_ticket (issue_ticket rnd d expires s).1 d' e).
Proof.
  intros Hd Hs. unfold issue_ticket. destruct (rnd TicketLength) as [t|err|] eqn:Et; [|done..]. cbn [fst snd].
  split_and!.
  - intros d' m k e. cbn. destruct (decide (d' = d)) as [->|Hne].
    + rewrite lookup_insert_eq. intros [= <-]. destruct (decide (k = t)) as [->|Hk].
      * rewrite lookup_insert_eq. intros [= <-]. split; [done|by apply Hd].
      * rewrite lookup_insert_ne by done. destruct (ts_inbound s !! d) as [m|] eqn:E; [by apply (Hs d)|].
        cbn. by rewrite lookup_empty.
    + rewrite lookup_insert_ne by done. apply Hs.
  - intros e [= <-]. split_and!; [done..|]. eexists. cbn. rewrite lookup_insert_eq. split; [done|]. apply lookup_insert_eq.
  - intros d' e Hne (m & Hm & He). unfold holds_ticket. cbn. destruct (decide (d' = d)) as [->|Hdd].
    + rewrite lookup_insert_eq. eexists. split; [done|]. rewrite Hm. cbn.
      rewrite lookup_insert_ne by congruence. done.
    + rewrite lookup_insert_ne by done. by exists m.
Qed.

(** What a request for a ticket can give: nothing, a ticket stored before that
    lasts beyond the renewal threshold, or a new one. *)
Lemma GenerateInboundTicket_spec order rnd d now expiry s :
  iterates order -> draws_tickets rnd -> store_ok s ->
  let r := GenerateInboundTicket order rnd d now expiry s in
  store_ok r.1 /\ (forall e, r.2 = Some e -> holds_ticket r.1 d e) /\
  (forall d' e, rnd TicketLength <> Ok (Ticket e) -> holds_ticket s d' e -> holds_ticket r.1 d' e).
Proof.
  intros Ho Hd Hs. cbv zeta. unfold GenerateInboundTicket.
  destruct (match lastDeliveries s !! d with Some _ => _ | None => _ end); [by split_and!|].
  destruct (ts_inbound s !! d) as [m|] eqn:Em.
  - destruct (List.find _ _) as [[k e]|] eqn:Ef.
    + cbn. split_and!; [done| |done]. intros e' [= <-]. apply List.find_some in Ef as [Hin _].
      apply list_elem_of_In in Hin. rewrite (Ho _ : _ ≡ₚ _) in Hin. apply elem_of_map_to_list in Hin.
      destruct (Hs d m k e Em Hin) as [<- _]. by exists m.
    + destruct (issue_ticket_spec rnd d (unix_seconds now +
        (if PrimFloat.leb expiry 0 then DefaultTicketExpirySeconds else expiry))%float s Hd Hs) as (H1 & H2 & H3).
      split_and!; [done| |done]. intros e He. by apply H2.
  - set (s' := s <| ts_inbound := <[d := ∅]> (ts_inbound s) |>).
    assert (store_ok s') as Hs'.
    { intros d' m k e. cbn. destruct (decide (d' = d)) as [->|Hne].
      - rewrite lookup_insert_eq. intros [= <-]. by rewrite lookup_empty.
      - rewrite lookup_insert_ne by done. apply Hs. }
    destruct (issue_ticket_spec rnd d (unix_seconds now +
        (if PrimFloat.leb expiry 0 then DefaultTicketExpirySeconds else expiry))%float s' Hd Hs') as (H1 & H2 & H3).
    split_and!; [done| |]; [intros e He; by apply H2|].
    intros d' e Hne (m & Hm & He). apply H3; [done|]. exists m. cbn.
    rewrite lookup_insert_ne by congruence. done.
Qed.

Lemma run_op_ok op s : op_ok op -> store_ok s -> store_ok (run_op s op).
Proof.
  intros Hop Hs. destruct op as [d t|order rnd d now expiry|d e|now grace]; cbn; try done.
  - destruct Hop. by apply GenerateInboundTicket_spec.
  - intros d m k e. cbn. rewrite lookup_fmap. destruct (ts_inbound s !! d) as [m'|] eqn:E; [|done].
    intros [= <-]. intros [Hk _]%map_lookup_filter_Some. by apply (Hs d m').
Qed.

Lemma run_op_holds op s d e :
  op_ok op -> op_spares e op -> store_ok s -> holds_ticket s d e -> holds_ticket (run_op s op) d e.
Proof.
  intros Hop Hsp Hs Hh. destruct op as [d' t|order rnd d' now expiry|d' e'|now grace]; cbn; try done.
  - destruct Hop as [Ho Hd]. by apply (GenerateInboundTicket_spec order rnd d' now expiry s Ho Hd Hs).
  - destruct Hh as (m & Hm & He). eexists. cbn. rewrite lookup_fmap, Hm. split; [done|].
    apply map_lookup_filter_Some. done.
Qed.

(** An issued ticket stays in the store through every operation that does not
    reap it. *)
Lemma run_ops_holds ops s d e :
  Forall op_ok ops -> Forall (op_spares e) ops -> store_ok s -> holds_ticket s d e ->
  store_ok (run_ops ops s) /\ holds_ticket (run_ops ops s) d e.
Proof.
  unfold run_ops. induction ops as [|op ops IH] in s |- *; [done|].
  intros [H1 H1']%Forall_cons [H2 H2']%Forall_cons Hs Hh. cbn. apply IH; [done..| |].
  - by apply run_op_ok.
  - by apply run_op_holds.
Qed.

Lemma holds_listed order s d e now :
  iterates order -> holds_ticket s d e -> PrimFloat.ltb (unix_seconds now) (Expires e) = true ->
  Ticket e ∈ InboundTickets order d now s.
Proof.
  intros Ho (m & Hm & He) Ht. unfold InboundTickets. rewrite Hm.
  apply list_elem_of_fmap. exists (Ticket e, e). split; [done|].
  apply list_elem_of_In, List.filter_In. split; [|done].
  apply list_elem_of_In. rewrite (Ho _ : _ ≡ₚ _). by apply elem_of_map_to_list.
Qed.

(** A listed ticket has been stored and has not expired. *)
Lemma listed_holds order s d now t :
  iterates order -> store_ok s -> t ∈ InboundTickets order d now s ->
  exists e, Ticket e = t /\ holds_ticket s d e /\ PrimFloat.ltb (unix_seconds now) (Expires e) = true /\
    length t = TicketLength.
Proof.
  intros Ho Hs. unfold InboundTickets. destruct (ts_inbound s !! d) as [m|] eqn:Em; [|by intros ?%elem_of_nil].
  intros ([k e] & -> & Hin)%list_elem_of_fmap. apply list_elem_of_In, List.filter_In in Hin as [Hin Ht].
  apply list_elem_of_In in Hin. rewrite (Ho _ : _ ≡ₚ _) in Hin. apply elem_of_map_to_list in Hin.
  destruct (Hs d m k e Em Hin) as [Hk Hl]. exists e. cbn in *. subst k. split_and!; try done. by exists m.
Qed.

Lemma NewTicketStore_ok : store_ok NewTicketStore.
Proof. intros d m k e. cbn. by rewrite lookup_empty. Qed.

(** A remembered ticket is offered until it expires. *)
Lemma remembered_ticket d e s now :
  PrimFloat.ltb (unix_seconds now) (Expires e) = true ->
  OutboundTicket d now (RememberOutboundTicket d e s) = Some (Ticket e).
Proof.
  intros Ht. unfold OutboundTicket.
  change (ts_outbound (RememberOutboundTicket d e s)) with (<[d := e]> (ts_outbound s)).
  rewrite lookup_insert_eq. by rewrite (float_ltb_leb _ _ Ht).
Qed.
