(* ===== verification/LxmfMessage.v ===== *)
(** * LXMF messages

    Models [lxmf/message.go]: a message with its stamps, packing and signing,
    unpacking and verification, the propagated and the paper form, the
    container it is stored in, and the validation of its stamp.

    What a call draws from outside is an argument: the clock, the random
    sources, the ratchet the transport knows for the destination and the fuel
    of a stamp search ([PackEnv]); the identities the transport recalls and the
    ones it has blackholed ([LxTransport]).  A call whose stamp search has not
    ended is [None].  The fields map is the list of its entries in the order of
    an iteration, on which the sorted encoding does not depend. *)

From stdpp Require Import base tactics option list gmap.
From Stdlib Require Import ZArith Lia Floats.
From S2P Require Import Prelude Clock Crypto Packet Msgpack Resource Identity LxmfStamps LxmfTickets.
Local Open Scope Z_scope.
Local Open Scope go_scope.

(** ** Constants *)

Definition AppName : bytes := [108; 120; 109; 102]. (* lxmf *)
Definition aspect_delivery : bytes := [100; 101; 108; 105; 118; 101; 114; 121].

Definition StateGenerating : Z := 0x00.
Definition StatePaper : Z := 0x05.
Definition RepresentationUnknown : Z := 0x00.
Definition RepresentationPacket : Z := 0x01.
Definition RepresentationResource : Z := 0x02.
Definition RepresentationPaper : Z := 0x04.
Definition MethodOpportunistic : Z := 0x01.
Definition MethodDirect : Z := 0x02.
Definition MethodPropagated : Z := 0x03.
Definition MethodPaper : Z := 0x05.
Definition ReasonSourceUnknown : Z := 0x01.
Definition ReasonSignatureInvalid : Z := 0x02.
Definition TicketCostValue : Z := 0x100.

Definition DestinationLength : nat := Z.to_nat (TruncatedHashLength / 8).
Definition SignatureLength : nat := 64.
Definition TimestampSize : Z := 8.
Definition StructOverhead : Z := 8.
Definition LXMFOverhead : Z :=
  2 * Z.of_nat DestinationLength + Z.of_nat SignatureLength + TimestampSize + StructOverhead.
Definition rns_MDU : Z :=
  (Packet.MTU - IFACMinSize - HeaderMinSize - TokenOverhead) / AES128BlockSize * AES128BlockSize - 1.
Definition LinkPacketMaxContent : Z := rns_MDU - LXMFOverhead.
Definition EncryptedPacketMDU : Z := rns_MDU + TimestampSize.
Definition EncryptedPacketMaxContent : Z := EncryptedPacketMDU - LXMFOverhead + Z.of_nat DestinationLength.

Definition EncryptionDescriptionAES : bytes := [65; 69; 83; 45; 49; 50; 56]. (* AES-128 *)
Definition EncryptionDescriptionEC : bytes := [67; 117; 114; 118; 101; 50; 53; 53; 49; 57]. (* Curve25519 *)
Definition EncryptionDescriptionUnencrypted : bytes :=
  [85; 110; 101; 110; 99; 114; 121; 112; 116; 101; 100]. (* Unencrypted *)

Inductive lx_err :=
  | ErrDestinationRequired
  | ErrSourceRequired
  | ErrAlreadyPacked
  | ErrPackRequires
  | ErrDestinationHashLength (n : Z)
  | ErrSourceHashLength (n : Z)
  | ErrPackPayload (e : mp_err)
  | ErrPythonStampCost (v : value)
  | ErrStamp (e : stamp_err)
  | ErrSign (e : id_err)
  | ErrSignatureLength (n : Z)
  | ErrOpportunisticSize (n : Z)
  | ErrNoPropagationCost
  | ErrPackedShort
  | ErrNoPropagationDestination
  | ErrLxEncrypt (e : id_err)
  | ErrBytesShort (n : Z)
  | ErrUnpackPayload (e : mp_err)
  | ErrPayloadType
  | ErrPayloadLength
  | ErrTimestampType
  | ErrTitleType
  | ErrContentType
  | ErrFieldsType
  | ErrContainerType
  | ErrContainerBytes
  | ErrContainerInt
  | ErrContainerEncrypted
  | ErrContainerEncryption
  | ErrNoDeliveryDestination
  | ErrNotALink
  | ErrLinkNotActive
  | ErrUnsupportedMethod (m : Z)
  | ErrNotPaper
  | ErrNoPaperPacked.

(** ** The message *)

Record Message := mkMessage {
  m_Destination : option DestinationT;
  m_Source : option DestinationT;
  m_DestinationHash : bytes;
  m_SourceHash : bytes;
  m_Title : bytes;
  m_Content : bytes;
  m_Fields : list (value * value);
  m_Timestamp : float;
  m_Stamp : bytes;
  m_StampCost : option Z;
  m_StampValue : option Z;
  m_OutboundTicket : bytes;
  m_DeferStamp : bool;
  m_DeferPropagationStamp : bool;
  m_AutoCompress : bool;
  m_Payload : list value;
  m_Hash : bytes;
  m_MessageID : bytes;
  m_Signature : bytes;
  m_Packed : bytes;
  m_TransientID : bytes;
  m_PropagationPacked : bytes;
  m_PaperPacked : option bytes;
  m_PropagationStamp : bytes;
  m_PropagationStampValue : option Z;
  m_PropagationTargetCost : option Z;
  m_RatchetID : option bytes;
  m_state : Z;
  m_DesiredMethod : Z;
  m_method : Z;
  m_Representation : Z;
  m_progress : float;
  m_TransportEncrypted : bool;
  m_TransportEncryption : bytes;
  m_Incoming : bool;
  m_SignatureValidated : bool;
  m_UnverifiedReason : Z;
  m_SourceBlackholed : bool;
  m_IncludeTicket : bool;
  m_propagationEncryptedData : bytes;
  m_rawStampCost : option value;
}.
#[global] Instance eta_Message : Eta Message := fun m =>
  mkMessage (m_Destination m) (m_Source m) (m_DestinationHash m) (m_SourceHash m) (m_Title m) (m_Content m)
    (m_Fields m) (m_Timestamp m) (m_Stamp m) (m_StampCost m) (m_StampValue m) (m_OutboundTicket m)
    (m_DeferStamp m) (m_DeferPropagationStamp m) (m_AutoCompress m) (m_Payload m) (m_Hash m)
    (m_MessageID m) (m_Signature m) (m_Packed m) (m_TransientID m) (m_PropagationPacked m)
    (m_PaperPacked m) (m_PropagationStamp m) (m_PropagationStampValue m)
    (m_PropagationTargetCost m) (m_RatchetID m) (m_state m) (m_DesiredMethod m) (m_method m)
    (m_Representation m) (m_progress m) (m_TransportEncrypted m) (m_TransportEncryption m)
    (m_Incoming m) (m_SignatureValidated m) (m_UnverifiedReason m) (m_SourceBlackholed m)
    (m_IncludeTicket m) (m_propagationEncryptedData m) (m_rawStampCost m).

Definition zeroMessage : Message :=
  mkMessage None None [] [] [] [] [] 0%float [] None None [] false false false [] [] [] [] [] [] []
    None [] None None None 0 0 0 0 0%float false []
    false false 0 false false [] None.


Record PackEnv := mkPackEnv {
  pe_now : Z;
  pe_rnd : random_source;
  pe_stamp_rnd : random_source;
  pe_ratchet : option bytes;
  pe_fuel : nat;
}.

Record LxTransport := mkLxTransport {
  RecallNoUse : bytes -> option Identity;
  IsBlackholed : bytes -> bool;
}.

Definition NewMessage (destination source : option DestinationT) (content title : bytes)
    (fields : list (value * value)) : res lx_err Message :=
  match destination, source with
  | None, _ => Err ErrDestinationRequired
  | _, None => Err ErrSourceRequired
  | Some d, Some s =>
      Ok (zeroMessage <| m_Destination := Some d |> <| m_Source := Some s |>
            <| m_DestinationHash := DHash d |> <| m_SourceHash := DHash s |>
            <| m_Title := title |> <| m_Content := content |> <| m_Fields := fields |>
            <| m_state := StateGenerating |> <| m_DesiredMethod := MethodDirect |>
            <| m_method := RepresentationUnknown |> <| m_Representation := RepresentationUnknown |>
            <| m_DeferStamp := true |> <| m_DeferPropagationStamp := true |> <| m_AutoCompress := true |>)
  end.

Definition SetTitleString (title : bytes) (m : Message) : Message := m <| m_Title := title |>.
Definition SetContentString (content : bytes) (m : Message) : Message := m <| m_Content := content |>.

Section Messages.
Context `{Sha256, BlockCipher, Curves, HashState}.

(** ** Stamps *)

Definition GetStampWithContext (env : PackEnv) (c : ctx) (m : Message) : option (Message * res lx_err bytes) :=
  if (length (m_OutboundTicket m) =? TicketLength)%nat && (0 <? zlen (m_MessageID m)) then
    Some (m <| m_StampValue := Some TicketCostValue |>,
          Ok (TruncatedHash (m_OutboundTicket m ++ m_MessageID m)))
  else match m_rawStampCost m with
  | Some v => Some (m, Err (ErrPythonStampCost v))
  | None =>
      match m_StampCost m with
      | None => Some (m <| m_StampValue := None |>, Ok [])
      | Some cost =>
          if 0 <? zlen (m_Stamp m) then Some (m, Ok (m_Stamp m))
          else match GenerateStampWithContext (pe_fuel env) c (pe_stamp_rnd env) (m_MessageID m) cost
                       WorkblockExpandRounds with
               | None => None
               | Some (_, _, _, Some e) => Some (m, Err (ErrStamp e))
               | Some (stamp, stampValue, _, None) =>
                   Some (m <| m_StampValue := Some stampValue |>, Ok (default [] stamp))
               end
      end
  end.

Definition GetStamp (env : PackEnv) (m : Message) : option (Message * res lx_err bytes) :=
  GetStampWithContext env Background m.

(** The first ticket whose hash with the message ID is the stamp. *)
Definition ticket_matches (m : Message) (ticket : bytes) : bool :=
  negb ((zlen ticket =? 0) || (zlen (m_MessageID m) =? 0)) &&
  bytes_eqb (m_Stamp m) (TruncatedHash (ticket ++ m_MessageID m)).

Definition ValidateStamp (targetCost : Z) (tickets : list bytes) (m : Message) : Message * bool :=
  if existsb (ticket_matches m) tickets then (m <| m_StampValue := Some TicketCostValue |>, true)
  else if zlen (m_Stamp m) =? 0 then (m, false)
  else match StampWorkblock (m_MessageID m) WorkblockExpandRounds with
       | Ok workblock =>
           if StampValid (m_Stamp m) targetCost workblock
           then (m <| m_StampValue := Some (StampValue workblock (m_Stamp m)) |>, true)
           else (m, false)
       | _ => (m, false)
       end.

(** ** Packing *)

(** [m.Destination.Encrypt(m.Packed[DestinationLength:])], which notes the
    ratchet used in the destination. *)
Definition encrypt_packed (env : PackEnv) (d : DestinationT) (m : Message) : Message * res lx_err bytes :=
  let '(d', r) := DEncryptFor (pe_rnd env) (pe_ratchet env) d (drop DestinationLength (m_Packed m)) in
  (m <| m_Destination := Some d' |>, map_err ErrLxEncrypt r).

(** The ratchet last used for the destination. *)
Definition note_ratchet (m : Message) : Message :=
  m <| m_RatchetID := match m_Destination m with Some d => latestRatchetID d | None => None end |>.

Definition packPropagated (env : PackEnv) (m : Message) : Message * res lx_err unit :=
  if zlen (m_Packed m) <=? Z.of_nat DestinationLength then (m, Err ErrPackedShort)
  else match m_Destination m with
  | None => (m, Err ErrNoPropagationDestination)
  | Some d =>
      let '(m, r) :=
        if zlen (m_propagationEncryptedData m) =? 0 then
          let '(m, r) := encrypt_packed env d m in
          match r with
          | Ok data => (note_ratchet (m <| m_propagationEncryptedData := data |>), Ok tt)
          | Err e => (m, Err e)
          | Panic => (m, Panic)
          end
        else (m, Ok tt) in
      match r with
      | Err e => (m, Err e)
      | Panic => (m, Panic)
      | Ok _ =>
          let lxmfData := m_DestinationHash m ++ m_propagationEncryptedData m in
          let m := m <| m_TransientID := FullHash lxmfData |> in
          let lxmfData := if 0 <? zlen (m_PropagationStamp m) then lxmfData ++ m_PropagationStamp m else lxmfData in
          let propagationPayload :=
            VArr [VFloat64 (float_bits (unix_seconds (pe_now env))); VArr [VBin lxmfData]] in
          match Msgpack.Pack propagationPayload with
          | (_, Some e) => (m, Err (ErrPackPayload e))
          | (propagationPacked, None) =>
              (m <| m_PropagationPacked := propagationPacked |> <| m_method := MethodPropagated |>
                 <| m_Representation := if zlen propagationPacked <=? LinkPacketMaxContent
                                        then RepresentationPacket else RepresentationResource |>, Ok tt)
          end
      end
  end.

(** The paper form. *)
Definition packPaper (env : PackEnv) (m : Message) : Message * res lx_err unit :=
  match m_Destination m with
  | None => (m, Panic)
  | Some d =>
      let '(m, r) := encrypt_packed env d m in
      match r with
      | Ok encryptedData =>
          (note_ratchet (m <| m_PaperPacked := Some (m_DestinationHash m ++ encryptedData) |>)
             <| m_method := MethodPaper |> <| m_Representation := RepresentationPaper |>, Ok tt)
      | Err e => (m, Err e)
      | Panic => (m, Panic)
      end
  end.

(** The form the desired method asks for. *)
Definition pack_method (env : PackEnv) (m : Message) : Message * res lx_err unit :=
  if (m_DesiredMethod m =? MethodOpportunistic) && (EncryptedPacketMaxContent <? zlen (m_Packed m)) then
    (m, Err (ErrOpportunisticSize (zlen (m_Packed m))))
  else if m_DesiredMethod m =? MethodOpportunistic then
    (m <| m_method := MethodOpportunistic |> <| m_Representation := RepresentationPacket |>, Ok tt)
  else if m_DesiredMethod m =? MethodPropagated then packPropagated env m
  else if m_DesiredMethod m =? MethodPaper then packPaper env m
  else (m, Ok tt).

(** From the stamp on: the signature and the wire form. *)
Definition pack_signed (env : PackEnv) (source : DestinationT) (basePayload : list value) (hashedPart : bytes)
    (m : Message) : Message * res lx_err unit :=
  let m := m <| m_Payload := if 0 <? zlen (m_Stamp m) then basePayload ++ [VBin (m_Stamp m)] else basePayload |> in
  match DSign source (hashedPart ++ m_Hash m) with
  | Err e => (m, Err (ErrSign e))
  | Panic => (m, Panic)
  | Ok signature =>
      if negb (length signature =? SignatureLength)%nat then (m, Err (ErrSignatureLength (zlen signature)))
      else
        let m := m <| m_Signature := signature |> <| m_SignatureValidated := true |> in
        match PackSorted (VArr (m_Payload m)) with
        | (_, Some e) => (m, Err (ErrPackPayload e))
        | (packedPayload, None) =>
            pack_method env
              (m <| m_Packed := m_DestinationHash m ++ m_SourceHash m ++ m_Signature m ++ packedPayload |>)
        end
  end.

(** The payload that is hashed. *)
Definition base_payload (m : Message) : list value :=
  [VFloat64 (float_bits (m_Timestamp m)); VBin (m_Title m); VBin (m_Content m); VMap (m_Fields m)].

Definition Pack (env : PackEnv) (m : Message) : option (Message * res lx_err unit) :=
  if 0 <? zlen (m_Packed m) then Some (m, Err ErrAlreadyPacked)
  else match m_Destination m, m_Source m with
  | Some destination, Some source =>
      let m := m <| m_DestinationHash := DHash destination |> <| m_SourceHash := DHash source |> in
      if negb (length (m_DestinationHash m) =? DestinationLength)%nat then
        Some (m, Err (ErrDestinationHashLength (zlen (m_DestinationHash m))))
      else if negb (length (m_SourceHash m) =? DestinationLength)%nat then
        Some (m, Err (ErrSourceHashLength (zlen (m_SourceHash m))))
      else
        let m := if PrimFloat.eqb (m_Timestamp m) 0 then m <| m_Timestamp := unix_seconds (pe_now env) |> else m in
        match PackSorted (VArr (base_payload m)) with
        | (_, Some e) => Some (m, Err (ErrPackPayload e))
        | (packedPayload, None) =>
            let basePayload := base_payload m in
            let hashedPart := m_DestinationHash m ++ m_SourceHash m ++ packedPayload in
            let m := m <| m_Hash := FullHash hashedPart |> <| m_MessageID := FullHash hashedPart |> in
            if m_DeferStamp m then Some (pack_signed env source basePayload hashedPart m)
            else match GetStamp env m with
                 | None => None
                 | Some (m, Ok stamp) => Some (pack_signed env source basePayload hashedPart (m <| m_Stamp := stamp |>))
                 | Some (m, Err e) => Some (m, Err e)
                 | Some (m, Panic) => Some (m, Panic)
                 end
        end
  | _, _ => Some (m, Err ErrPackRequires)
  end.

Definition GetPropagationStampWithContext (env : PackEnv) (c : ctx) (targetCost : Z) (m : Message)
    : option (Message * res lx_err bytes) :=
  if 0 <? zlen (m_PropagationStamp m) then Some (m, Ok (m_PropagationStamp m))
  else
    let m := m <| m_PropagationTargetCost := Some targetCost |> in
    if targetCost <=? 0 then Some (m, Err ErrNoPropagationCost)
    else
      let packed := if zlen (m_TransientID m) =? 0 then
                      if zlen (m_Packed m) =? 0 then Pack env m else Some (packPropagated env m)
                    else Some (m, Ok tt) in
      match packed with
      | None => None
      | Some (m, Err e) => Some (m, Err e)
      | Some (m, Panic) => Some (m, Panic)
      | Some (m, Ok _) =>
          match GenerateStampWithContext (pe_fuel env) c (pe_stamp_rnd env) (m_TransientID m) targetCost
                  WorkblockExpandRoundsPN with
          | None => None
          | Some (_, _, _, Some e) => Some (m, Err (ErrStamp e))
          | Some (stamp, stampValue, _, None) =>
              Some (m <| m_PropagationStampValue := Some stampValue |>, Ok (default [] stamp))
          end
      end.

Definition resetPackedState (preservePropagationEncryptedData : bool) (m : Message) : Message :=
  let m := m <| m_Payload := [] |> <| m_Hash := [] |> <| m_MessageID := [] |> <| m_Signature := [] |>
             <| m_Packed := [] |> <| m_TransientID := [] |> <| m_PropagationPacked := [] |> in
  if preservePropagationEncryptedData then m else m <| m_propagationEncryptedData := [] |>.

(** ** Unpacking *)

(** [float64], [float32], [int64] and [uint64] of a decoded value. *)
Definition isTimestampType (v : value) : bool :=
  match v with VFloat64 _ | VFloat32 _ | VInt _ | VUint _ => true | _ => false end.

Definition kind_struct : Z := 25.

(** [normalizePayload]: an outer list whose first item is a list of four items
    or more is taken for a wrapper.  [reflect] sees byte slices and ordered
    maps as slices too: their items, bytes and entry structs, are no lists. *)
Fixpoint normalizePayload (payload : value) : list value :=
  match payload with
  | VArr l =>
      match l with
      | [] => l
      | v :: _ =>
          if isTimestampType v then l
          else match v with
               | VArr nested => if zlen nested <? 4 then l else normalizePayload v
               | VBin nested => if zlen nested <? 4 then l else map VUint nested
               | VOrdered nested => if zlen nested <? 4 then l else map (fun _ => VUnsupported kind_struct) nested
               | _ => l
               end
      end
  | _ => []
  end.

(** For a payload of four items or more. *)
Definition extractStamp (payload : list value) : bytes * list value :=
  (match payload !! 4%nat with Some (VBin stamp) => stamp | _ => [] end, take 4 payload).

Definition payloadTimestamp (v : value) : res lx_err float :=
  match v with
  | VFloat32 bits => Ok (float_of_bits32 bits)
  | VFloat64 bits => Ok (float_of_bits64 bits)
  | VInt i => Ok (float_of_Z i)
  | VUint i => Ok (float_of_uint64 i)
  | _ => Err ErrTimestampType
  end.

Definition payloadBytes (v : value) (e : lx_err) : res lx_err bytes :=
  match v with VBin b => Ok b | VStr s => Ok s | _ => Err e end.

(** [normalizeUnpackedValue], with [orderedMapToMap] for ordered maps. *)
Fixpoint normalizeUnpackedValue (v : value) : value :=
  match v with
  | VOrdered es =>
      VMap (fold_left (fun m e => map_assign m e.1 e.2) (map (fun e => (e.1, normalizeUnpackedValue e.2)) es) [])
  | VArr l => VArr (map normalizeUnpackedValue l)
  | _ => v
  end.

Definition orderedMapToMap (es : list (value * value)) : list (value * value) :=
  fold_left (fun m e => map_assign m e.1 e.2) (map (fun e => (e.1, normalizeUnpackedValue e.2)) es) [].

Definition payloadMap (v : value) : res lx_err (list (value * value)) :=
  match v with
  | VMap es => Ok es
  | VOrdered es => Ok (orderedMapToMap es)
  | _ => Err ErrFieldsType
  end.

(** The lists inside the fields are normalized in place, so that the payload,
    which shares them, sees the change. *)
Fixpoint shared_after (v : value) : value :=
  match v with
  | VOrdered es => VOrdered (map (fun e => (e.1, shared_after e.2)) es)
  | VArr l => VArr (map normalizeUnpackedValue l)
  | _ => v
  end.

Definition recalledDeliveryDestination (ts : LxTransport) (destHash : bytes) : option DestinationT :=
  match RecallNoUse ts destHash with
  | None => None
  | Some i =>
      match NewDestination (fun _ => Panic) (fun _ => Panic) (Some i) DestinationOut DestinationSingle
              AppName [aspect_delivery] with
      | Ok d => Some d
      | _ => None
      end
  end.

(** The message of a payload whose parts have been read. *)
Definition received_message (ts : LxTransport) (data destinationHash sourceHash signature stamp messageHash
    signedPart : bytes) (originalMethod : Z) (payload : list value) (timestamp : float) (title content : bytes)
    (fields : list (value * value)) : Message :=
  let source := recalledDeliveryDestination ts sourceHash in
  let valid := match source with Some s => DVerify s signature signedPart | None => false end in
  zeroMessage
    <| m_Destination := recalledDeliveryDestination ts destinationHash |> <| m_Source := source |>
    <| m_DestinationHash := destinationHash |> <| m_SourceHash := sourceHash |>
    <| m_Title := title |> <| m_Content := content |> <| m_Fields := fields |> <| m_Timestamp := timestamp |>
    <| m_Stamp := stamp |> <| m_Payload := payload |> <| m_Hash := messageHash |> <| m_MessageID := messageHash |>
    <| m_Signature := signature |> <| m_Packed := data |> <| m_Incoming := true |>
    <| m_state := StateGenerating |> <| m_method := originalMethod |> <| m_DesiredMethod := originalMethod |>
    <| m_Representation := RepresentationUnknown |> <| m_SignatureValidated := valid |>
    <| m_UnverifiedReason := match source with
                             | Some _ => if valid then 0 else ReasonSignatureInvalid
                             | None => ReasonSourceUnknown
                             end |>
    <| m_SourceBlackholed := match RecallNoUse ts sourceHash with
                             | Some i => IsBlackholed ts (IHash i)
                             | None => false
                             end |>.

Definition UnpackMessageFromBytes (ts : LxTransport) (data : bytes) (originalMethod : Z) : res lx_err Message :=
  let minimum := (2 * DestinationLength + SignatureLength)%nat in
  if zlen data <? Z.of_nat minimum then Err (ErrBytesShort (zlen data))
  else
    let destinationHash := take DestinationLength data in
    let sourceHash := slice DestinationLength (2 * DestinationLength) data in
    let signature := slice (2 * DestinationLength) minimum data in
    let packedPayload := drop minimum data in
    unpacked ← map_err ErrUnpackPayload (UnpackPreserveBinMapKeyOrder packedPayload);
    match unpacked with
    | VArr _ =>
        let unpackedPayload := normalizePayload unpacked in
        if zlen unpackedPayload <? 4 then Err ErrPayloadLength
        else
          let '(stamp, payloadWithoutStamp) := extractStamp unpackedPayload in
          match PackSorted (VArr payloadWithoutStamp) with
          | (_, Some e) => Err (ErrPackPayload e)
          | (repackedPayload, None) =>
              let hashedPart := destinationHash ++ sourceHash ++ repackedPayload in
              let messageHash := FullHash hashedPart in
              match payloadWithoutStamp with
              | [v0; v1; v2; v3] =>
                  timestamp ← payloadTimestamp v0;
                  title ← payloadBytes v1 ErrTitleType;
                  content ← payloadBytes v2 ErrContentType;
                  fields ← payloadMap v3;
                  Ok (received_message ts data destinationHash sourceHash signature stamp messageHash
                        (hashedPart ++ messageHash) originalMethod [v0; v1; v2; shared_after v3]
                        timestamp title content fields)
              | _ => Panic
              end
          end
    | _ => Err ErrPayloadType
    end.

(** ** Containers

    The map is packed in its iteration order, [order]. *)

Definition key_state : bytes := [115; 116; 97; 116; 101].
Definition key_lxmf_bytes : bytes := [108; 120; 109; 102; 95; 98; 121; 116; 101; 115].
Definition key_transport_encrypted : bytes :=
  [116; 114; 97; 110; 115; 112; 111; 114; 116; 95; 101; 110; 99; 114; 121; 112; 116; 101; 100].
Definition key_transport_encryption : bytes :=
  [116; 114; 97; 110; 115; 112; 111; 114; 116; 95; 101; 110; 99; 114; 121; 112; 116; 105; 111; 110].
Definition key_method : bytes := [109; 101; 116; 104; 111; 100].

Definition container_entries (m : Message) : list (bytes * value) :=
  [(key_state, VInt (m_state m)); (key_lxmf_bytes, VBin (m_Packed m));
   (key_transport_encrypted, VBool (m_TransportEncrypted m));
   (key_transport_encryption, VStr (m_TransportEncryption m)); (key_method, VInt (m_method m))].

Definition packedContainerLocked (env : PackEnv) (order : list (bytes * value) -> list (bytes * value)) (m : Message)
    : option (Message * res lx_err bytes) :=
  let packed := if zlen (m_Packed m) =? 0 then Pack env m else Some (m, Ok tt) in
  match packed with
  | None => None
  | Some (m, Err e) => Some (m, Err e)
  | Some (m, Panic) => Some (m, Panic)
  | Some (m, Ok _) =>
      match Msgpack.Pack (VMap (map (fun e => (VStr e.1, e.2)) (order (container_entries m)))) with
      | (_, Some e) => Some (m, Err (ErrPackPayload e))
      | (b, None) => Some (m, Ok b)
      end
  end.

Definition containerInt (v : value) : res lx_err Z :=
  match v with VInt i => Ok i | VUint i => Ok (i64 i) | _ => Err ErrContainerInt end.

(** A missing entry reads as nil, and both leave the field as it is. *)
Definition restore {A} (v : value) (read : value -> res lx_err A) (set : A -> Message -> Message) (m : Message)
    : res lx_err Message :=
  match v with VNil => Ok m | _ => a ← read v; Ok (set a m) end.

Definition UnpackMessageFromFile (ts : LxTransport) (data : bytes) : res lx_err Message :=
  unpacked ← map_err ErrUnpackPayload (Unpack data);
  match unpacked with
  | VMap container =>
      match map_get container key_lxmf_bytes with
      | VBin lxmfBytes =>
          m ← UnpackMessageFromBytes ts lxmfBytes RepresentationUnknown;
          m ← restore (map_get container key_state) containerInt (fun i m => m <| m_state := i |>) m;
          m ← restore (map_get container key_transport_encrypted)
                (fun v => match v with VBool b => Ok b | _ => Err ErrContainerEncrypted end)
                (fun b m => m <| m_TransportEncrypted := b |>) m;
          m ← restore (map_get container key_transport_encryption)
                (fun v => match v with VStr s => Ok s | _ => Err ErrContainerEncryption end)
                (fun s m => m <| m_TransportEncryption := s |>) m;
          restore (map_get container key_method) containerInt (fun i m => m <| m_method := i |>) m
      | _ => Err ErrContainerBytes
      end
  | _ => Err ErrContainerType
  end.

(** ** Sending *)

Definition DetermineTransportEncryption (m : Message) : Message :=
  let label b s := m <| m_TransportEncrypted := b |> <| m_TransportEncryption := s |> in
  if (m_method m =? MethodOpportunistic) || (m_method m =? MethodPropagated) || (m_method m =? MethodPaper) then
    match m_Destination m with
    | Some d => if DType d =? DestinationSingle then label true EncryptionDescriptionEC
                else if DType d =? DestinationGroup then label true EncryptionDescriptionAES
                else label false EncryptionDescriptionUnencrypted
    | None => label false EncryptionDescriptionUnencrypted
    end
  else if m_method m =? MethodDirect then label true EncryptionDescriptionEC
  else label false EncryptionDescriptionUnencrypted.

(** Packs first where it has not been done. *)
Definition ensure_packed (env : PackEnv) (m : Message) : option (Message * res lx_err unit) :=
  if zlen (m_Packed m) =? 0 then Pack env m else Some (m, Ok tt).

Definition ensure_propagated (env : PackEnv) (m : Message) : Message * res lx_err bytes :=
  let '(m, r) := if zlen (m_PropagationPacked m) =? 0 then packPropagated env m else (m, Ok tt) in
  match r with
  | Ok _ => (m, Ok (m_PropagationPacked m))
  | Err e => (m, Err e)
  | Panic => (m, Panic)
  end.

(** [asPacket] up to the call of [NewPacket]: the data of the packet for the
    delivery destination, if it is known. *)
Definition asPacket (env : PackEnv) (hasDeliveryDestination : bool) (m : Message)
    : option (Message * res lx_err bytes) :=
  match ensure_packed env m with
  | None => None
  | Some (m, Err e) => Some (m, Err e)
  | Some (m, Panic) => Some (m, Panic)
  | Some (m, Ok _) =>
      if negb hasDeliveryDestination then Some (m, Err ErrNoDeliveryDestination)
      else if m_method m =? MethodOpportunistic then
        if zlen (m_Packed m) <=? Z.of_nat DestinationLength then Some (m, Err ErrPackedShort)
        else Some (m, Ok (drop DestinationLength (m_Packed m)))
      else if m_method m =? MethodDirect then Some (m, Ok (m_Packed m))
      else if m_method m =? MethodPropagated then Some (ensure_propagated env m)
      else Some (m, Err (ErrUnsupportedMethod (m_method m)))
  end.

(** What the delivery destination of [asResource] is: nothing, something else
    than a link, a link and whether it is active. *)
Inductive resource_target := NoTarget | NotALink | LinkTarget (active : bool).

(** [asResource] up to the call of [NewResource]: the data and whether the
    resource may be compressed. *)
Definition asResource (env : PackEnv) (target : resource_target) (m : Message)
    : option (Message * res lx_err (bytes * bool)) :=
  match ensure_packed env m with
  | None => None
  | Some (m, Err e) => Some (m, Err e)
  | Some (m, Panic) => Some (m, Panic)
  | Some (m, Ok _) =>
      match target with
      | NoTarget => Some (m, Err ErrNoDeliveryDestination)
      | NotALink => Some (m, Err ErrNotALink)
      | LinkTarget false => Some (m, Err ErrLinkNotActive)
      | LinkTarget true =>
          if m_method m =? MethodDirect then Some (m, Ok (m_Packed m, m_AutoCompress m))
          else if m_method m =? MethodPropagated then
            let '(m, r) := ensure_propagated env m in
            Some (m, match r with Ok b => Ok (b, false) | Err e => Err e | Panic => Panic end)
          else Some (m, Err (ErrUnsupportedMethod (m_method m)))
      end
  end.

End Messages.
