(* ===== verification/LxmfMessageFacts.v ===== *)
(** * What LXMF messages keep

    Theorems about [LxmfMessage]: the wire form of a message is decoded to the
    message, with its hash and with a signature that verifies; what a verified
    signature covers; stamps and tickets; containers. *)

From stdpp Require Import base tactics option list gmap sorting.
From Stdlib Require Import ZArith Lia Floats.
From S2P Require Import Prelude Clock Crypto Packet Msgpack Identity LxmfStamps LxmfTickets LxmfMessage.
Local Open Scope Z_scope.
Local Open Scope go_scope.

(** ** Canonical encodings of what is sent *)

(** The options messages are unpacked with. *)
Definition wire_options : unpackOptions := mkOptions false true true.

(** Keys an application can use in a Go map. *)
Definition scalar_key (k : value) : Prop :=
  match k with
  | VNil | VBool _ | VInt _ | VUint _ | VFloat32 _ | VFloat64 _ | VStr _ => True
  | _ => False
  end.

(** Values an application can send: Go maps, at any depth, with scalar keys
    that are still distinct when small unsigned integers become signed. *)
Inductive sendable : value -> Prop :=
  | sd_leaf v :
      match v with
      | VNil | VBool _ | VInt _ | VUint _ | VFloat32 _ | VFloat64 _ | VStr _ | VBin _ | VExt _ _ => True
      | _ => False
      end -> sendable v
  | sd_arr l : Forall sendable l -> sendable (VArr l)
  | sd_map es :
      Forall (fun e => scalar_key e.1 /\ sendable e.2) es ->
      keys_distinct (map (fun e => decoded wire_options e.1) es) -> sendable (VMap es).

(** The value with the entries of its maps in the order they are written. *)
Definition entry_key (e : value * value) : bytes := (pack true e.1).1.

Fixpoint canon (v : value) : value :=
  match v with
  | VArr l => VArr (map canon l)
  | VMap es => VMap (stable_sort entry_key (map (fun e => (e.1, canon e.2)) es))
  | _ => v
  end.

Lemma sorted_insert_map {A B} (f : A -> B) (key : A -> bytes) (key' : B -> bytes) x l :
  (forall a, key' (f a) = key a) ->
  sorted_insert key' (f x) (map f l) = map f (sorted_insert key x l).
Proof.
  intros Hk. induction l as [|y l IH]; cbn; [done|]. rewrite !Hk.
  destruct (bytes_leb (key x) (key y)); cbn; [done|]. by rewrite IH.
Qed.

Lemma stable_sort_map {A B} (f : A -> B) (key : A -> bytes) (key' : B -> bytes) l :
  (forall a, key' (f a) = key a) -> stable_sort key' (map f l) = map f (stable_sort key l).
Proof.
  intros Hk. induction l as [|x l IH]; [done|].
  change (sorted_insert key' (f x) (stable_sort key' (map f l)) = map f (sorted_insert key x (stable_sort key l))).
  rewrite IH. by apply sorted_insert_map.
Qed.

Lemma keys_distinct_perm ks ks' : ks ≡ₚ ks' -> keys_distinct ks -> keys_distinct ks'.
Proof.
  rewrite !keys_distinct_alt. intros Hp [Hn H]. split; [by rewrite <- Hp|].
  intros k k' Hk Hk'. apply H; by rewrite Hp.
Qed.

Lemma scalar_pack k sorted : scalar_key k -> pack sorted k = pack false k.
Proof. by destruct k. Qed.

Lemma scalar_decoded_pack k sorted :
  packable k -> scalar_key k -> pack sorted (decoded wire_options k) = pack false k.
Proof.
  intros Hp Hk. destruct Hp; try done. cbn [decoded].
  destruct (Z.leb_spec i 127); [|done]. cbn [pack]. unfold packUint, packInt. zcase. done.
Qed.

Lemma scalar_key_of k : scalar_key k -> key_of wire_options (decoded wire_options k) = decoded wire_options k.
Proof. destruct k; try done. intros _. cbn [decoded]. by destruct (_ <=? _). Qed.

(** What is decoded encodes to the bytes it came from. *)
Lemma decoded_pack v sorted :
  packable v -> sendable v -> pack sorted (decoded wire_options v) = pack false v.
Proof.
  intros Hp Hs. revert sorted Hp Hs.
  pattern v; apply value_rect'; clear v; [intros v|intros l IH|intros es IH|intros es IH].
  - destruct v; try done; intros sorted Hp Hs; try (inversion Hs; done). by apply scalar_decoded_pack.
  - intros sorted Hp Hs. inversion Hp as [| | | | | | | | | | |? Hl Hf| |]; subst.
    inversion Hs as [? Hx|? Hfs|]; subst; [done|]. cbn [decoded pack]. rewrite map_map.
    assert (map (fun x => pack sorted (decoded wire_options x)) l = map (pack false) l) as ->.
    { apply map_ext_in. intros x Hx. rewrite List.Forall_forall in IH, Hf, Hfs. by apply IH; [|apply Hf|apply Hfs]. }
    unfold zlen. by rewrite length_map.
  - intros sorted Hp Hs. inversion Hp as [| | | | | | | | | | | |? Hl Hf Hd|]; subst.
    inversion Hs as [? Hx| |? Hfs Hds]; subst; [done|].
    change (decoded wire_options (VMap es)) with
      (VOrdered (map (fun e => (key_of wire_options (decoded wire_options e.1), decoded wire_options e.2)) es)).
    cbn [pack]. rewrite map_map. cbn [fst snd]. unfold zlen. rewrite length_map.
    rewrite !map_map. cbn [fst snd]. f_equal. f_equal. apply map_ext_in. intros [k x] Hin.
    rewrite List.Forall_forall in IH, Hf, Hfs. destruct (Hf _ Hin) as (P1 & _ & P2), (Hfs _ Hin) as [S1 S2].
    cbn [fst snd] in *. rewrite scalar_key_of, scalar_decoded_pack by done. f_equal.
    rewrite (map_index_own (pack false) es k x Hd) by (by apply list_elem_of_In).
    by apply (IH (k, x)).
  - intros sorted Hp Hs. inversion Hs as [? Hx| |]; subst; done.
Qed.

Lemma pack_wr v sorted : clean v -> pack sorted v = ((pack sorted v).1, None).
Proof. intros Hc. specialize (Hc sorted). destruct (pack sorted v). cbn in *. by subst. Qed.

(** The encoding of a sorted map, entry by entry. *)
Lemma pack_true_map es :
  keys_distinct (map fst es) ->
  pack true (VMap es) =
    wseq (wok (map_header (zlen es)))
      (wconcat (map (fun e => wseq (pack true e.1) (pack true e.2)) (stable_sort entry_key es))).
Proof.
  intros Hd. cbn [pack]. f_equal. f_equal.
  rewrite (stable_sort_map (fun e : value * value => (e.1, (pack true e.1).1, pack true e.1)) entry_key)
    by done.
  rewrite map_map. cbn [fst snd]. apply map_ext_in. intros [k x] Hin. cbn [fst snd]. f_equal.
  apply (map_index_own (pack true)); [done|]. apply list_elem_of_In in Hin. by rewrite stable_sort_perm in Hin.
Qed.

Lemma canon_spec v :
  packable v -> sendable v ->
  packable (canon v) /\ sendable (canon v) /\ pack true v = pack false (canon v).
Proof.
  pattern v; apply value_rect'; clear v; [intros v|intros l IH|intros es IH|intros es IH].
  - destruct v; try done; intros Hp Hs; inversion Hs; done.
  - intros Hp Hs. inversion Hp as [| | | | | | | | | | |? Hl Hf| |]; subst.
    inversion Hs as [? Hx|? Hfs|]; subst; [done|]. cbn [canon].
    rewrite List.Forall_forall in IH, Hf, Hfs. split_and!.
    + apply pk_arr; [unfold zlen in *; by rewrite length_map|]. apply Forall_fmap, List.Forall_forall.
      intros x Hx. by apply (IH x Hx); [apply Hf|apply Hfs].
    + apply sd_arr. apply Forall_fmap, List.Forall_forall. intros x Hx. by apply (IH x Hx); [apply Hf|apply Hfs].
    + cbn [pack]. rewrite map_map. unfold zlen. rewrite length_map. f_equal. f_equal. apply map_ext_in.
      intros x Hx. by apply (IH x Hx); [apply Hf|apply Hfs].
  - intros Hp Hs. inversion Hp as [| | | | | | | | | | | |? Hl Hf Hd|]; subst.
    inversion Hs as [? Hx| |? Hfs Hds]; subst; [done|].
    set (g := fun e : value * value => (e.1, canon e.2)).
    assert (canon (VMap es) = VMap (map g (stable_sort entry_key es))) as ->
      by (cbn [canon]; by rewrite (stable_sort_map g entry_key entry_key)).
    assert (forall e, e ∈ es -> packable (canon e.2) /\ sendable (canon e.2) /\ pack true e.2 = pack false (canon e.2)) as IH'.
    { intros e He. rewrite Forall_forall in IH, Hf, Hfs. by apply (IH e He); [apply Hf|apply Hfs]. }
    assert (keys_distinct (map fst (map g (stable_sort entry_key es)))) as Hd'.
    { rewrite map_map. eapply keys_distinct_perm; [|exact Hd].
      change (map (fun x => (g x).1)) with (map (B:=value) (A:=value * value) fst).
      by apply (fmap_Permutation fst), symmetry, stable_sort_perm. }
    assert (Forall (fun e => clean e.1 /\ clean e.2) (map g (stable_sort entry_key es))) as Hc.
    { apply Forall_fmap. rewrite stable_sort_perm. rewrite Forall_forall in Hf |- *.
      intros e He. destruct (Hf e He) as (P1 & _ & _). split; [by apply (packable_clean wire_options)|].
      apply (packable_clean wire_options). by apply IH'. }
    split_and!.
    + apply pk_map; [|  |done].
      * unfold zlen in *. rewrite length_map. by rewrite stable_sort_perm.
      * apply Forall_fmap. rewrite stable_sort_perm. rewrite Forall_forall in Hf |- *.
        intros e He. destruct (Hf e He) as (P1 & Hh & _). cbn. split_and!; [done..|]. by apply IH'.
    + apply sd_map.
      * apply Forall_fmap. rewrite stable_sort_perm. rewrite Forall_forall in Hfs |- *.
        intros e He. destruct (Hfs e He) as [S1 _]. cbn. split; [done|]. by apply IH'.
      * rewrite map_map. cbn. eapply keys_distinct_perm; [|exact Hds].
        by apply (fmap_Permutation (fun e : value * value => decoded wire_options e.1)), symmetry, stable_sort_perm.
    + rewrite pack_true_map by done. rewrite (pack_wr _ false) by (by apply clean_map).
      rewrite pack_map_bytes by done. rewrite wconcat_clean.
      * cbn [wseq wok fst snd]. unfold zlen at 2. rewrite length_map.
        assert (length (stable_sort entry_key es) = length es) as -> by (by rewrite stable_sort_perm).
        fold (zlen es). do 3 f_equal. rewrite !map_map. apply map_ext_in. intros e He.
        apply list_elem_of_In in He. rewrite stable_sort_perm in He.
        rewrite Forall_forall in Hf, Hfs. destruct (Hf e He) as (P1 & _ & _), (Hfs e He) as [S1 _].
        rewrite wseq_clean_fst by (by apply (packable_clean wire_options)).
        unfold entry_bytes. cbn. rewrite (scalar_pack _ true) by done. f_equal. f_equal. by apply IH'.
      * apply Forall_fmap. rewrite stable_sort_perm. rewrite Forall_forall in Hf |- *.
        intros e He. destruct (Hf e He) as (P1 & _ & P2).
        apply wseq_clean; by apply (packable_clean wire_options).
  - intros Hp Hs. inversion Hs as [? Hx| |]; subst; done.
Qed.

(** The same value up to the order of maps and the signedness of small
    integers. *)
Inductive same_value : value -> value -> Prop :=
  | same_refl v : same_value v v
  | same_uint i : i <= 127 -> same_value (VUint i) (VInt i)
  | same_arr l l' : Forall2 same_value l l' -> same_value (VArr l) (VArr l')
  | same_map es es1 es' :
      es ≡ₚ es1 ->
      Forall2 (fun e e' => e'.1 = decoded wire_options e.1 /\ same_value e.2 e'.2) es1 es' ->
      same_value (VMap es) (VMap es').

(** How a map looks to the application that received it. *)
Lemma received_map es :
  Forall (fun e => scalar_key e.1) es -> keys_distinct (map (fun e => decoded wire_options e.1) es) ->
  normalizeUnpackedValue (decoded wire_options (canon (VMap es))) =
    VMap (map (fun e => (decoded wire_options e.1, normalizeUnpackedValue (decoded wire_options (canon e.2))))
            (stable_sort entry_key es)).
Proof.
  intros Hk Hd. cbn [canon].
  rewrite (stable_sort_map (fun e : value * value => (e.1, canon e.2)) entry_key entry_key) by done.
  change (decoded wire_options (VMap ?l)) with
    (VOrdered (map (fun e => (key_of wire_options (decoded wire_options e.1), decoded wire_options e.2)) l)).
  rewrite map_map. cbn [normalizeUnpackedValue]. rewrite map_map. cbn [fst snd].
  assert (map (fun e : value * value => (key_of wire_options (decoded wire_options e.1),
            normalizeUnpackedValue (decoded wire_options (canon e.2)))) (stable_sort entry_key es) =
          map (fun e => (decoded wire_options e.1, normalizeUnpackedValue (decoded wire_options (canon e.2))))
            (stable_sort entry_key es)) as ->.
  { apply map_ext_in. intros e He. apply list_elem_of_In in He. rewrite stable_sort_perm in He.
    rewrite Forall_forall in Hk. rewrite scalar_key_of by (by apply Hk). done. }
  rewrite (map_build_distinct _ []); [done|]. cbn [app]. rewrite map_map. cbn [fst].
  eapply keys_distinct_perm; [|exact Hd].
  by apply (fmap_Permutation (fun e : value * value => decoded wire_options e.1)), symmetry, stable_sort_perm.
Qed.

Lemma received_same v :
  sendable v -> same_value v (normalizeUnpackedValue (decoded wire_options (canon v))).
Proof.
  pattern v; apply value_rect'; clear v; [intros v|intros l IH|intros es IH|intros es IH].
  - destruct v; try done; intros Hs; try (inversion Hs; done); try apply same_refl.
    cbn. destruct (Z.leb_spec i 127); [by apply same_uint|apply same_refl].
  - intros Hs. inversion Hs as [? Hx|? Hfs|]; subst; [done|]. cbn. rewrite !map_map. apply same_arr.
    apply Forall2_fmap_r, Forall_Forall2_diag. by eapply Forall_mp.
  - intros Hs. inversion Hs as [? Hx| |? Hfs Hds]; subst; [done|].
    rewrite received_map; [|eapply Forall_impl; [exact Hfs|]; by intros e []|done].
    apply (same_map _ (stable_sort entry_key es)); [by rewrite stable_sort_perm|].
    apply Forall2_fmap_r, Forall_Forall2_diag. rewrite stable_sort_perm.
    rewrite Forall_forall in IH, Hfs |- *. intros e He. cbn. split; [done|].
    apply (IH e He). by apply Hfs.
  - intros Hs. inversion Hs; done.
Qed.

(** ** The wire form *)

Section Wire.
Context `{Sh : Sha256} {ShL : Sha256Laws} `{Ci : BlockCipher}.
Context `{Cu : Curves} {CuL : CurvesLaws} `{Hs : HashState}.

(** What the delivery methods leave alone. *)
Definition same_wire (m m' : Message) : Prop :=
  m_Packed m' = m_Packed m /\ m_Hash m' = m_Hash m /\ m_MessageID m' = m_MessageID m /\
  m_Stamp m' = m_Stamp m /\ m_Title m' = m_Title m /\ m_Content m' = m_Content m /\
  m_Fields m' = m_Fields m /\ m_Timestamp m' = m_Timestamp m /\
  m_DestinationHash m' = m_DestinationHash m /\ m_SourceHash m' = m_SourceHash m /\
  m_Signature m' = m_Signature m.

Lemma same_wire_trans a b c : same_wire a b -> same_wire b c -> same_wire a c.
Proof. unfold same_wire. intuition congruence. Qed.

Lemma encrypt_packed_wire env d m : same_wire m (encrypt_packed env d m).1.
Proof. unfold encrypt_packed. by destruct (DEncryptFor _ _ _ _). Qed.

Lemma packPropagated_wire env m : same_wire m (packPropagated env m).1.
Proof.
  unfold packPropagated. destruct (_ <=? _); [done|]. destruct (m_Destination m) as [d|]; [|done].
  destruct (_ =? 0).
  - pose proof (encrypt_packed_wire env d m) as He. destruct (encrypt_packed env d m) as [m1 [data|e|]]; [|done..].
    cbn zeta. by destruct (Msgpack.Pack _) as [b [e|]].
  - cbn zeta. by destruct (Msgpack.Pack _) as [b [e|]].
Qed.

Lemma pack_method_wire env m : same_wire m (pack_method env m).1.
Proof.
  unfold pack_method. destruct (_ && _); [done|]. destruct (_ =? _); [done|].
  destruct (_ =? _); [apply packPropagated_wire|]. destruct (_ =? _); [|done].
  unfold packPaper. destruct (m_Destination m) as [d|]; [|done].
  pose proof (encrypt_packed_wire env d m) as He. by destruct (encrypt_packed env d m) as [m1 [data|e|]].
Qed.

Lemma GetStamp_value env c m m' r :
  GetStampWithContext env c m = Some (m', r) -> exists v, m' = m <| m_StampValue := v |>.
Proof.
  assert (exists v, m = m <| m_StampValue := v |>) as Hid by (exists (m_StampValue m); by destruct m).
  unfold GetStampWithContext. destruct (_ && _); [intros [= <- <-]; by eexists|].
  destruct (m_rawStampCost m); [by intros [= <- <-]|].
  destruct (m_StampCost m); [|intros [= <- <-]; by eexists].
  destruct (_ <? _); [by intros [= <- <-]|].
  destruct (GenerateStampWithContext _ _ _ _ _ _) as [[[[st v] k] [e|]]|]; [by intros [= <- <-]| |done].
  intros [= <- <-]. by eexists.
Qed.

(** A message that has not been packed, from a source that can sign. *)
Record outgoing (m : Message) (d s : DestinationT) (i : Identity) (p q : bytes) : Prop := {
  og_fresh : m_Packed m = [];
  og_destination : m_Destination m = Some d;
  og_source : m_Source m = Some s;
  og_length : length (DHash d) = DestinationLength;
  og_keys : dest_ok s i p q;
  og_title : zlen (m_Title m) < 2 ^ 32;
  og_content : zlen (m_Content m) < 2 ^ 32;
  og_stamp : zlen (m_Stamp m) < 2 ^ 32;
  og_packable : packable (VMap (m_Fields m));
  og_sendable : sendable (VMap (m_Fields m));
}.

(** The stamp as an item of the payload. *)
Definition stamp_item (stamp : bytes) : list value := if 0 <? zlen stamp then [VBin stamp] else [].

(** The parts of a packed message. *)
Record packed_as (m m' : Message) (d s : DestinationT) (q : bytes) : Prop := {
  pa_title : m_Title m' = m_Title m;
  pa_content : m_Content m' = m_Content m;
  pa_fields : m_Fields m' = m_Fields m;
  pa_destination : m_DestinationHash m' = DHash d;
  pa_source : m_SourceHash m' = DHash s;
  pa_hash : m_Hash m' = FullHash (DHash d ++ DHash s ++ (PackSorted (VArr (base_payload m'))).1);
  pa_id : m_MessageID m' = m_Hash m';
  pa_signature : m_Signature m' =
    ed_sign q (DHash d ++ DHash s ++ (PackSorted (VArr (base_payload m'))).1 ++ m_Hash m');
  pa_packed : m_Packed m' = DHash d ++ DHash s ++ m_Signature m' ++
    (PackSorted (VArr (base_payload m' ++ stamp_item (m_Stamp m')))).1;
}.

(** The payload can be encoded. *)
Lemma payload_packable m stamp :
  zlen (m_Title m) < 2 ^ 32 -> zlen (m_Content m) < 2 ^ 32 -> packable (VMap (m_Fields m)) ->
  zlen stamp < 2 ^ 32 -> packable (VArr (base_payload m ++ stamp_item stamp)).
Proof.
  intros Ht Hc Hf Hst. apply pk_arr.
  - unfold stamp_item, zlen. rewrite length_app. cbn. destruct (_ <? _); cbn; lia.
  - apply Forall_app. split.
    + unfold base_payload. apply Forall_cons. split; [apply pk_float64, float_bits_range|].
      apply Forall_cons. split; [by apply pk_bin|]. apply Forall_cons. split; [by apply pk_bin|].
      by apply Forall_singleton.
    + unfold stamp_item. destruct (_ <? _); [|constructor]. by apply Forall_singleton, pk_bin.
Qed.

Lemma payload_sendable m stamp :
  sendable (VMap (m_Fields m)) -> sendable (VArr (base_payload m ++ stamp_item stamp)).
Proof.
  intros Hf. apply sd_arr, Forall_app. split.
  - unfold base_payload. repeat (apply Forall_cons; split; [by apply sd_leaf|]). by apply Forall_singleton.
  - unfold stamp_item. destruct (_ <? _); [|constructor]. by apply Forall_singleton, sd_leaf.
Qed.

(** What the delivery methods start from. *)
Definition same_route (m m' : Message) : Prop :=
  m_Destination m' = m_Destination m /\ m_DesiredMethod m' = m_DesiredMethod m /\ m_Source m' = m_Source m /\
  m_PropagationStamp m' = m_PropagationStamp m /\ m_propagationEncryptedData m' = m_propagationEncryptedData m.

(** From the stamp on, packing fails only in the form of the method. *)
Lemma pack_signed_as env m d s i p q packedPayload :
  dest_ok s i p q -> m_DestinationHash m = DHash d -> m_SourceHash m = DHash s ->
  PackSorted (VArr (base_payload m)) = (packedPayload, None) ->
  zlen (m_Stamp m) < 2 ^ 32 -> packable (VMap (m_Fields m)) ->
  zlen (m_Title m) < 2 ^ 32 -> zlen (m_Content m) < 2 ^ 32 ->
  m_Hash m = FullHash (DHash d ++ DHash s ++ packedPayload) -> m_MessageID m = m_Hash m ->
  exists m1, pack_signed env s (base_payload m) (DHash d ++ DHash s ++ packedPayload) m = pack_method env m1 /\
    packed_as m m1 d s q /\ m_Stamp m1 = m_Stamp m /\ m_Timestamp m1 = m_Timestamp m /\
    m_DesiredMethod m1 = m_DesiredMethod m /\ same_route m m1.
Proof.
  intros D Ed Es Ep Hst Hf Ht Hc Eh Eid. unfold pack_signed, DSign, ISign.
  rewrite (dk_identity _ _ _ _ D), (kp_sigPrv _ _ _ (dk_keys _ _ _ _ D)). rewrite ed_sign_length. cbn [negb Nat.eqb].
  change (negb (64 =? SignatureLength)%nat) with false. cbv iota zeta.
  set (payload := base_payload m ++ stamp_item (m_Stamp m)).
  assert ((if 0 <? zlen (m_Stamp m) then base_payload m ++ [VBin (m_Stamp m)] else base_payload m) = payload) as Epl
    by (unfold payload, stamp_item; destruct (_ <? _); [done|by rewrite app_nil_r]).
  rewrite Epl. assert (clean (VArr payload)) as Hcl
    by (apply (packable_clean wire_options); by apply payload_packable).
  change (PackSorted (VArr (m_Payload _))) with (PackSorted (VArr payload)).
  unfold PackSorted in *. rewrite (pack_wr _ true Hcl). cbv iota.
  eexists. split; [reflexivity|]. split; [|by split_and!]. split; try done.
  - change (m_Hash m = FullHash (DHash d ++ DHash s ++ (pack true (VArr (base_payload m))).1)). by rewrite Ep.
  - change (ed_sign q ((DHash d ++ DHash s ++ packedPayload) ++ m_Hash m) =
      ed_sign q (DHash d ++ DHash s ++ (pack true (VArr (base_payload m))).1 ++ m_Hash m)).
    rewrite Ep. by rewrite <- !app_assoc.
  - cbn. by rewrite Ed, Es.
Qed.

Lemma pack_signed_stamp env s base hashed m : m_Stamp (pack_signed env s base hashed m).1 = m_Stamp m.
Proof.
  unfold pack_signed. destruct (DSign s _) as [sig|e|]; [|done..]. destruct (negb _); [done|]. cbv zeta.
  destruct (PackSorted _) as [b [e|]]; [done|].
  match goal with |- m_Stamp (pack_method env ?x).1 = _ =>
    destruct (pack_method_wire env x) as (_ & _ & _ & E & _); exact E end.
Qed.

(** The message once its hash is known. *)
Definition hashed_message (env : PackEnv) (d s : DestinationT) (m : Message) : Message :=
  let m := m <| m_DestinationHash := DHash d |> <| m_SourceHash := DHash s |> in
  let m := if PrimFloat.eqb (m_Timestamp m) 0 then m <| m_Timestamp := unix_seconds (pe_now env) |> else m in
  let h := FullHash (DHash d ++ DHash s ++ (PackSorted (VArr (base_payload m))).1) in
  m <| m_Hash := h |> <| m_MessageID := h |>.

Lemma Pack_hashed env m d s i p q :
  outgoing m d s i p q ->
  let m1 := hashed_message env d s m in
  let packedPayload := (PackSorted (VArr (base_payload m1))).1 in
  PackSorted (VArr (base_payload m1)) = (packedPayload, None) /\
  Pack env m =
    if m_DeferStamp m then Some (pack_signed env s (base_payload m1) (DHash d ++ DHash s ++ packedPayload) m1)
    else match GetStamp env m1 with
         | None => None
         | Some (m, Ok stamp) =>
             Some (pack_signed env s (base_payload m1) (DHash d ++ DHash s ++ packedPayload) (m <| m_Stamp := stamp |>))
         | Some (m, Err e) => Some (m, Err e)
         | Some (m, Panic) => Some (m, Panic)
         end.
Proof.
  intros O. cbv zeta. pose proof (DHash_length _ _ _ _ (og_keys _ _ _ _ _ _ O)) as Hl.
  unfold Pack. rewrite (og_fresh _ _ _ _ _ _ O), (og_destination _ _ _ _ _ _ O), (og_source _ _ _ _ _ _ O).
  change (0 <? zlen []) with false. cbv iota zeta.
  change (m_DestinationHash (m <| m_DestinationHash := DHash d |> <| m_SourceHash := DHash s |>)) with (DHash d).
  change (m_SourceHash (m <| m_DestinationHash := DHash d |> <| m_SourceHash := DHash s |>)) with (DHash s).
  rewrite (og_length _ _ _ _ _ _ O), Hl. rewrite (Nat.eqb_refl DestinationLength).
  change (dstLen =? DestinationLength)%nat with true. cbn [negb].
  unfold hashed_message. cbv zeta.
  set (m0 := m <| m_DestinationHash := DHash d |> <| m_SourceHash := DHash s |>).
  set (m1 := if PrimFloat.eqb (m_Timestamp m0) 0 then m0 <| m_Timestamp := unix_seconds (pe_now env) |> else m0).
  assert (m_Fields m1 = m_Fields m /\ m_Title m1 = m_Title m /\ m_Content m1 = m_Content m /\
    m_DestinationHash m1 = DHash d /\ m_SourceHash m1 = DHash s /\ m_DeferStamp m1 = m_DeferStamp m)
    as (Ef & Et & Ec & Ed & Es & Eds) by (unfold m1; by destruct (PrimFloat.eqb _ _)).
  assert (packable (VArr (base_payload m1))) as Hp.
  { rewrite <- (app_nil_r (base_payload m1)). apply (payload_packable m1 []);
      [rewrite Et|rewrite Ec|rewrite Ef|done]; apply O. }
  change (base_payload (m1 <| m_Hash := _ |> <| m_MessageID := _ |>)) with (base_payload m1).
  destruct (PackSorted (VArr (base_payload m1))) as [b e] eqn:Eb.
  assert (e = None) as ->.
  { pose proof (proj1 (packable_clean wire_options _ Hp) true) as Hc. unfold PackSorted in Eb. by rewrite Eb in Hc. }
  split; [done|]. cbn [fst]. rewrite Ed, Es.
  change (m_DeferStamp (m1 <| m_Hash := _ |> <| m_MessageID := _ |>)) with (m_DeferStamp m1). by rewrite Eds.
Qed.

Lemma hashed_message_fields env d s m :
  let m1 := hashed_message env d s m in
  m_Fields m1 = m_Fields m /\ m_Title m1 = m_Title m /\ m_Content m1 = m_Content m /\
  m_DestinationHash m1 = DHash d /\ m_SourceHash m1 = DHash s /\ m_Stamp m1 = m_Stamp m /\
  m_DesiredMethod m1 = m_DesiredMethod m /\ m_MessageID m1 = m_Hash m1 /\
  m_Hash m1 = FullHash (DHash d ++ DHash s ++ (PackSorted (VArr (base_payload m1))).1).
Proof. cbv zeta. unfold hashed_message. by destruct (PrimFloat.eqb _ _). Qed.

Lemma hashed_message_route env d s m : same_route m (hashed_message env d s m).
Proof. unfold hashed_message. by destruct (PrimFloat.eqb _ _). Qed.

Lemma packed_as_wire m m1 m' d s q : packed_as m m1 d s q -> same_wire m1 m' -> packed_as m m' d s q.
Proof.
  intros [] (E1 & E2 & E3 & E4 & E5 & E6 & E7 & E8 & E9 & E10 & E11).
  assert (base_payload m' = base_payload m1) as Eb by (unfold base_payload; congruence).
  split; rewrite ?Eb, ?E4, ?E11, ?E2; congruence.
Qed.

(** A message that could be packed has its wire form before the method's form
    is made of it. *)
Lemma Pack_routed env m m' d s i p q :
  outgoing m d s i p q -> Pack env m = Some (m', Ok tt) -> zlen (m_Stamp m') < 2 ^ 32 ->
  exists m1, pack_method env m1 = (m', Ok tt) /\ packed_as m m1 d s q /\ same_route m m1.
Proof.
  intros O. destruct (Pack_hashed env m d s i p q O) as [Ep E]. rewrite E. clear E.
  destruct (hashed_message_fields env d s m) as (Ef & Et & Ec & Ed & Es & Est & _ & Eid & Eh).
  pose proof (hashed_message_route env d s m) as Hrt.
  cbv zeta in *. generalize dependent (hashed_message env d s m). intros m1 Ep Ef Et Ec Ed Es Est Eid Eh Hrt. destruct O.
  assert (forall m2 v stamp, m2 = m1 <| m_StampValue := v |> <| m_Stamp := stamp |> \/ m2 = m1 ->
    pack_signed env s (base_payload m1) (DHash d ++ DHash s ++ (PackSorted (VArr (base_payload m1))).1) m2 = (m', Ok tt) ->
    zlen (m_Stamp m') < 2 ^ 32 ->
    exists m3, pack_method env m3 = (m', Ok tt) /\ packed_as m m3 d s q /\ same_route m m3) as Hkey.
  { intros m2 v stamp E2 Hps Hst.
    pose proof (pack_signed_stamp env s (base_payload m1) (DHash d ++ DHash s ++ (PackSorted (VArr (base_payload m1))).1) m2) as Es2.
    rewrite Hps in Es2. cbn [fst] in Es2. rewrite Es2 in Hst.
    assert (base_payload m2 = base_payload m1 /\ m_DestinationHash m2 = DHash d /\ m_SourceHash m2 = DHash s /\
      m_Hash m2 = m_Hash m1 /\ m_MessageID m2 = m_MessageID m1 /\ m_Fields m2 = m_Fields m /\
      m_Title m2 = m_Title m /\ m_Content m2 = m_Content m /\ same_route m1 m2) as (B & H1 & H2 & H3 & H4 & H5 & H6 & H7 & H8)
      by (by destruct E2 as [-> | ->]).
    destruct (pack_signed_as env m2 d s i p q (PackSorted (VArr (base_payload m1))).1) as (m3 & Em & Hpa & _ & _ & _ & Hr3);
      try (rewrite ?B, ?H3, ?H4, ?H5, ?H6, ?H7; done).
    rewrite B, Hps in Em. exists m3. split; [done|]. split; [destruct Hpa; split; congruence|].
    unfold same_route in *. intuition congruence. }
  destruct (m_DeferStamp m).
  - intros [= Hps]. by apply (Hkey m1 None []); [right|].
  - destruct (GetStamp env m1) as [[m2 [stamp|e|]]|] eqn:Eg; try done. intros [= Hps].
    destruct (GetStamp_value _ _ _ _ _ Eg) as [v ->]. apply (Hkey (m1 <| m_StampValue := v |> <| m_Stamp := stamp |>) v stamp);
      [by left|done].
Qed.

(** What is known of any message that could be packed. *)
Lemma Pack_as env m m' d s i p q :
  outgoing m d s i p q -> Pack env m = Some (m', Ok tt) -> zlen (m_Stamp m') < 2 ^ 32 ->
  packed_as m m' d s q.
Proof.
  intros O E Hst. destruct (Pack_routed env m m' d s i p q O E Hst) as (m1 & Em & P & _).
  pose proof (pack_method_wire env m1) as Hw. rewrite Em in Hw. by eapply packed_as_wire.
Qed.

(** A message whose stamp is deferred is packed up to the form of its method. *)
Lemma Pack_deferred env m d s i p q :
  outgoing m d s i p q -> m_DeferStamp m = true ->
  exists m1, Pack env m = Some (pack_method env m1) /\ packed_as m m1 d s q /\ m_Stamp m1 = m_Stamp m /\ same_route m m1.
Proof.
  intros O Hd. destruct (Pack_hashed env m d s i p q O) as [Ep E]. rewrite E, Hd. clear E.
  destruct (hashed_message_fields env d s m) as (Ef & Et & Ec & Ed & Es & Est & _ & Eid & Eh).
  pose proof (hashed_message_route env d s m) as Hrt.
  cbv zeta in *. generalize dependent (hashed_message env d s m).
  intros m1 Ep Ef Et Ec Ed Es Est Eid Eh Hrt. destruct O.
  destruct (pack_signed_as env m1 d s i p q (PackSorted (VArr (base_payload m1))).1) as (m3 & -> & P & Hst & _ & _ & Hr3);
    try (rewrite ?Est, ?Ef, ?Et, ?Ec; done).
  exists m3. split; [done|]. split; [destruct P; split; congruence|]. split; [congruence|].
  unfold same_route in *. intuition congruence.
Qed.

(** A message for direct delivery whose stamp is deferred can be packed. *)
Lemma Pack_direct env m d s i p q :
  outgoing m d s i p q -> m_DeferStamp m = true -> m_DesiredMethod m = MethodDirect ->
  exists m', Pack env m = Some (m', Ok tt) /\ m_Stamp m' = m_Stamp m.
Proof.
  intros O Hd Hm. destruct (Pack_deferred env m d s i p q O Hd) as (m1 & -> & _ & Hst & _ & Hdm & _).
  exists m1. split; [|done]. unfold pack_method. by rewrite Hdm, Hm.
Qed.

(** ** Reading it back *)

Lemma unpack_sorted v :
  packable v -> sendable v ->
  UnpackPreserveBinMapKeyOrder (PackSorted v).1 = Ok (decoded wire_options (canon v)).
Proof.
  intros Hp Hsd. destruct (canon_spec v Hp Hsd) as (Hpc & _ & E). unfold PackSorted. rewrite E.
  assert (roundtrips wire_options (canon v)) as Hr by (by apply packable_roundtrips).
  unfold UnpackPreserveBinMapKeyOrder, run_unpack. change (mkOptions false true true) with wire_options.
  rewrite <- (app_nil_r (pack false (canon v)).1) at 2. rewrite Hr; [done|lia].
Qed.

Lemma recalled_identity ts h i :
  RecallNoUse ts h = Some i -> exists d, recalledDeliveryDestination ts h = Some d /\ identity d = Some i.
Proof. intros E. unfold recalledDeliveryDestination. rewrite E. by eexists. Qed.

(** The item of the payload the fields are read from. *)
Lemma received_payload m stamp :
  sendable (VMap (m_Fields m)) ->
  exists es, decoded wire_options (canon (VArr (base_payload m ++ stamp_item stamp))) =
    VArr ([VFloat64 (float_bits (m_Timestamp m)); VBin (m_Title m); VBin (m_Content m); VOrdered es] ++ stamp_item stamp) /\
    same_value (VMap (m_Fields m)) (VMap (orderedMapToMap es)) /\
    decoded wire_options (canon (VMap (m_Fields m))) = VOrdered es.
Proof.
  intros Hsd. pose proof (received_same _ Hsd) as Hr.
  destruct (decoded wire_options (canon (VMap (m_Fields m)))) as [| | | | | | | | | |es| | | | |] eqn:E; try done.
  exists es. split; [|done]. cbn [canon decoded]. unfold base_payload. rewrite !map_app. cbn [map].
  rewrite E.
  unfold stamp_item. by destruct (_ <? _).
Qed.

(** The unstamped payload is encoded as it was before the stamp was added. *)
Lemma repacked m es :
  packable (VMap (m_Fields m)) -> sendable (VMap (m_Fields m)) ->
  decoded wire_options (canon (VMap (m_Fields m))) = VOrdered es ->
  PackSorted (VArr [VFloat64 (float_bits (m_Timestamp m)); VBin (m_Title m); VBin (m_Content m); VOrdered es]) =
    PackSorted (VArr (base_payload m)).
Proof.
  intros Hp Hsd E. destruct (canon_spec _ Hp Hsd) as (Hpc & Hsc & Ec).
  unfold PackSorted, base_payload. cbn [pack map]. do 2 f_equal.
  pose proof (decoded_pack _ true Hpc Hsc) as Ed. rewrite E in Ed. cbn [pack map] in *.
  rewrite Ed, <- Ec. done.
Qed.

(** A received message is the one that was packed. *)
Record received_as (m' u : Message) (method : Z) : Prop := {
  ra_title : m_Title u = m_Title m';
  ra_content : m_Content u = m_Content m';
  ra_timestamp : m_Timestamp u = m_Timestamp m';
  ra_fields : same_value (VMap (m_Fields m')) (VMap (m_Fields u));
  ra_destination : m_DestinationHash u = m_DestinationHash m';
  ra_source : m_SourceHash u = m_SourceHash m';
  ra_hash : m_Hash u = m_Hash m';
  ra_id : m_MessageID u = m_Hash m';
  ra_stamp : m_Stamp u = m_Stamp m';
  ra_packed : m_Packed u = m_Packed m';
  ra_method : m_method u = method;
  ra_incoming : m_Incoming u = true;
}.

Lemma unpack_packed ts m m' d s i p q method :
  outgoing m d s i p q -> packed_as m m' d s q -> zlen (m_Stamp m') < 2 ^ 32 ->
  exists u, UnpackMessageFromBytes ts (m_Packed m') method = Ok u /\ received_as m' u method /\
    m_Source u = recalledDeliveryDestination ts (DHash s) /\
    m_SignatureValidated u =
      match recalledDeliveryDestination ts (DHash s) with
      | Some s' => DVerify s' (m_Signature m')
          (DHash d ++ DHash s ++ (PackSorted (VArr (base_payload m'))).1 ++ m_Hash m')
      | None => false
      end /\
    m_SourceBlackholed u =
      match RecallNoUse ts (DHash s) with Some i => IsBlackholed ts (IHash i) | None => false end.
Proof.
  intros O P Hst. pose proof (DHash_length _ _ _ _ (og_keys _ _ _ _ _ _ O)) as Hls.
  pose proof (og_length _ _ _ _ _ _ O) as Hld.
  assert (length (m_Signature m') = SignatureLength) as Hlg by (rewrite (pa_signature _ _ _ _ _ P); apply ed_sign_length).
  set (wire := (PackSorted (VArr (base_payload m' ++ stamp_item (m_Stamp m')))).1).
  assert (m_Packed m' = DHash d ++ DHash s ++ m_Signature m' ++ wire) as E by apply P.
  assert (packable (VMap (m_Fields m')) /\ sendable (VMap (m_Fields m'))) as [Hp Hsd]
    by (rewrite (pa_fields _ _ _ _ _ P); split; apply O).
  assert (packable (VArr (base_payload m' ++ stamp_item (m_Stamp m')))) as Hpk.
  { apply payload_packable; [|  |done..]; [rewrite (pa_title _ _ _ _ _ P)|rewrite (pa_content _ _ _ _ _ P)]; apply O. }
  destruct (received_payload m' (m_Stamp m') Hsd) as (es & Ev & Hsame & Ees).
  pose proof (repacked m' es Hp Hsd Ees) as Er.
  unfold UnpackMessageFromBytes.
  assert (take DestinationLength (m_Packed m') = DHash d /\
    slice DestinationLength (2 * DestinationLength) (m_Packed m') = DHash s /\
    slice (2 * DestinationLength) (2 * DestinationLength + SignatureLength) (m_Packed m') = m_Signature m' /\
    drop (2 * DestinationLength + SignatureLength) (m_Packed m') = wire) as (-> & -> & -> & ->).
  { rewrite E. change dstLen with DestinationLength in Hls. split_and!.
    - by apply take_app_length'.
    - apply slice_app_mid; lia.
    - rewrite (app_assoc (DHash d)). apply slice_app_mid; rewrite ?length_app; lia.
    - rewrite (app_assoc (DHash d)), (app_assoc (DHash d ++ DHash s)). apply drop_app_length'. rewrite !length_app. lia. }
  rewrite (proj2 (Z.ltb_ge (zlen (m_Packed m')) _))
    by (rewrite E; unfold zlen; rewrite !length_app, Hls, Hld, Hlg; change dstLen with DestinationLength; lia).
  unfold wire. rewrite (unpack_sorted _ Hpk) by (by apply payload_sendable).
  rewrite Ev. cbn [map_err mbind res_bind app]. cbn [normalizePayload isTimestampType].
  assert (PackSorted (VArr (base_payload m')) = ((PackSorted (VArr (base_payload m'))).1, None)) as Ebp.
  { apply pack_wr. apply (packable_clean wire_options). rewrite <- (app_nil_r (base_payload m')).
    apply (payload_packable m' []); [| |done|done];
      [rewrite (pa_title _ _ _ _ _ P)|rewrite (pa_content _ _ _ _ _ P)]; apply O. }
  assert (extractStamp ([VFloat64 (float_bits (m_Timestamp m')); VBin (m_Title m'); VBin (m_Content m'); VOrdered es] ++
      stamp_item (m_Stamp m')) =
    (m_Stamp m', [VFloat64 (float_bits (m_Timestamp m')); VBin (m_Title m'); VBin (m_Content m'); VOrdered es])) as Ex.
  { unfold extractStamp, stamp_item. by destruct (m_Stamp m'). }
  rewrite (proj2 (Z.ltb_ge _ _)) by (rewrite !zlen_cons; pose proof (zlen_nonneg (stamp_item (m_Stamp m'))); lia).
  cbn [app] in Ex. rewrite Ex, Er, Ebp. cbv iota.
  cbn [payloadTimestamp payloadBytes payloadMap mbind res_bind]. rewrite float_bits_roundtrip.
  eexists. split; [reflexivity|]. rewrite <- !app_assoc, <- (pa_hash _ _ _ _ _ P). split_and!; try done.
  split; try done; by rewrite ?(pa_destination _ _ _ _ _ P), ?(pa_source _ _ _ _ _ P).
Qed.

(** C17: a message made of any title and content, below 2^32 bytes each, and
    of fields that are Go maps, at any depth, with scalar keys distinct on the
    wire ([sendable]) is packed for direct delivery if its stamp is deferred,
    and whatever method it is packed for, its wire form is unpacked to the same
    message, addressed, stamped and identified as by its sender, with a
    signature that verifies if the receiver knows the sender's key.  Ordered
    maps and binary map keys are excluded: a message with a binary map key is
    packed too, but its good signature is reported as invalid
    ([binary_key_unverified]). *)
Theorem message_roundtrip env ts m d s i p q i' method :
  outgoing m d s i p q -> RecallNoUse ts (DHash s) = Some i' -> sigPub i' = sigPub i ->
  (m_DeferStamp m = true -> m_DesiredMethod m = MethodDirect ->
   exists m', Pack env m = Some (m', Ok tt) /\ m_Stamp m' = m_Stamp m) /\
  forall m', Pack env m = Some (m', Ok tt) -> zlen (m_Stamp m') < 2 ^ 32 ->
    exists u, UnpackMessageFromBytes ts (m_Packed m') method = Ok u /\ received_as m' u method /\
      m_SignatureValidated u = true /\
      m_Title u = m_Title m /\ m_Content u = m_Content m /\ same_value (VMap (m_Fields m)) (VMap (m_Fields u)).
Proof.
  intros O Hr Hk. split; [by apply (Pack_direct env m d s i p q)|]. intros m' Em Hst.
  pose proof (Pack_as env m m' d s i p q O Em Hst) as P.
  destruct (unpack_packed ts m m' d s i p q method O P Hst) as (u & Eu & R & _ & Hv & _).
  exists u. split; [done|]. split; [done|]. destruct (recalled_identity ts _ _ Hr) as (s' & Es & Ei).
  rewrite Es in Hv. unfold DVerify, IVerify in Hv.
  rewrite Ei, Hk, (kp_sigPub _ _ _ (dk_keys _ _ _ _ (og_keys _ _ _ _ _ _ O))) in Hv.
  rewrite (pa_signature _ _ _ _ _ P), ed_verify_sign in Hv. split; [done|]. destruct R, P. split_and!; congruence.
Qed.
End Wire.

(** ** Every input *)

Section AllInputs.
Context `{Sh : Sha256} {ShL : Sha256Laws} `{Ci : BlockCipher}.
Context `{Cu : Curves} {CuL : CurvesLaws} `{Hs : HashState}.

(** What an unpacked message shows of the bytes it came from. *)
Record shown (ts : LxTransport) (data : bytes) (u : Message) (v0 v1 v2 v3 : value) : Prop := {
  sh_destination : m_DestinationHash u = take DestinationLength data;
  sh_source : m_SourceHash u = slice DestinationLength (2 * DestinationLength) data;
  sh_hash : m_Hash u =
    FullHash (m_DestinationHash u ++ m_SourceHash u ++ (PackSorted (VArr [v0; v1; v2; v3])).1);
  sh_id : m_MessageID u = m_Hash u;
  sh_timestamp : payloadTimestamp v0 = Ok (m_Timestamp u);
  sh_title : payloadBytes v1 ErrTitleType = Ok (m_Title u);
  sh_content : payloadBytes v2 ErrContentType = Ok (m_Content u);
  sh_fields : payloadMap v3 = Ok (m_Fields u);
  sh_valid : m_SignatureValidated u =
    match RecallNoUse ts (m_SourceHash u) with
    | Some i => IVerify i (m_Signature u)
        (m_DestinationHash u ++ m_SourceHash u ++ (PackSorted (VArr [v0; v1; v2; v3])).1 ++ m_Hash u)
    | None => false
    end;
}.

Lemma recalled_verifies ts h sig b :
  match recalledDeliveryDestination ts h with Some s => DVerify s sig b | None => false end =
  match RecallNoUse ts h with Some i => IVerify i sig b | None => false end.
Proof.
  destruct (RecallNoUse ts h) as [i|] eqn:E.
  - destruct (recalled_identity ts h i E) as (d & -> & Ed). unfold DVerify. by rewrite Ed.
  - unfold recalledDeliveryDestination. by rewrite E.
Qed.

Lemma unpack_wire_total data : UnpackPreserveBinMapKeyOrder data <> Panic.
Proof.
  unfold UnpackPreserveBinMapKeyOrder, run_unpack.
  pose proof (unpack_decodes (S (length data)) (mkOptions false true true) data ltac:(lia)) as Hd.
  by destruct (unpackWithOptions _ _ _) as [[v r]|e|].
Qed.

Lemma unpack_shown ts data method :
  match UnpackMessageFromBytes ts data method with
  | Ok u => exists v0 v1 v2 v3, shown ts data u v0 v1 v2 v3
  | Err _ => True
  | Panic => False
  end.
Proof.
  unfold UnpackMessageFromBytes. destruct (_ <? _); [done|].
  pose proof (unpack_wire_total (drop (2 * DestinationLength + SignatureLength) data)) as Hu.
  destruct (UnpackPreserveBinMapKeyOrder _) as [v|e|]; [|done..]. cbn [map_err mbind res_bind].
  destruct v; try done. set (payload := normalizePayload (VArr l)). clearbody payload.
  destruct (Z.ltb_spec (zlen payload) 4) as [|Hl]; [done|]. unfold extractStamp.
  destruct payload as [|v0 [|v1 [|v2 [|v3 rest]]]]; try (unfold zlen in Hl; cbn in Hl; lia). cbn [take firstn]. rewrite take_0. cbv iota beta.
  destruct (PackSorted (VArr [v0; v1; v2; v3])) as [b [e|]] eqn:Eb; [done|].
  destruct (payloadTimestamp v0) as [tm| |] eqn:E0; cbn [mbind res_bind]; [|done|by destruct v0].
  destruct (payloadBytes v1 ErrTitleType) as [t| |] eqn:E1; cbn [mbind res_bind]; [|done|by destruct v1].
  destruct (payloadBytes v2 ErrContentType) as [c| |] eqn:E2; cbn [mbind res_bind]; [|done|by destruct v2].
  destruct (payloadMap v3) as [f| |] eqn:E3; cbn [mbind res_bind]; [|done|by destruct v3].
  exists v0, v1, v2, v3. split; try done.
  - by rewrite Eb.
  - cbn -[recalledDeliveryDestination DVerify IVerify PackSorted]. rewrite Eb, <- !app_assoc. apply recalled_verifies.
Qed.

(** The identity known for the source of a message has signed what the message
    shows: its addresses, the encoding of its timestamp, title, content and
    fields, and the hash of both, which is its identifier. *)
Definition vouched (ts : LxTransport) (u : Message) : Prop :=
  exists i v0 v1 v2 v3,
    RecallNoUse ts (m_SourceHash u) = Some i /\
    payloadTimestamp v0 = Ok (m_Timestamp u) /\ payloadBytes v1 ErrTitleType = Ok (m_Title u) /\
    payloadBytes v2 ErrContentType = Ok (m_Content u) /\ payloadMap v3 = Ok (m_Fields u) /\
    m_MessageID u = FullHash (m_DestinationHash u ++ m_SourceHash u ++ (PackSorted (VArr [v0; v1; v2; v3])).1) /\
    IVerify i (m_Signature u) (m_DestinationHash u ++ m_SourceHash u ++
      (PackSorted (VArr [v0; v1; v2; v3])).1 ++ m_MessageID u) = true.

(** C21: no input, however malformed, makes the unpacking of a message panic;
    and a message reported as validated carries a signature, by the identity
    known for its source, over the addresses, the encoding of exactly the
    timestamp, title, content and fields that the message shows, and their
    hash, which is the message's identifier. *)
Theorem unpack_authentic ts data method :
  match UnpackMessageFromBytes ts data method with
  | Ok u => m_SignatureValidated u = true -> vouched ts u
  | Err _ => True
  | Panic => False
  end.
Proof.
  pose proof (unpack_shown ts data method) as H.
  destruct (UnpackMessageFromBytes ts data method) as [u|e|]; [|done..].
  destruct H as (v0 & v1 & v2 & v3 & [S1 S2 S3 S4 S5 S6 S7 S8 S9]). intros Hv. rewrite Hv in S9.
  destruct (RecallNoUse ts (m_SourceHash u)) as [i|] eqn:Ei; [|done].
  exists i, v0, v1, v2, v3. rewrite S4. by split_and!.
Qed.
End AllInputs.

(** ** Stamps and tickets *)

Section Stamping.
Context `{Sh : Sha256} {ShL : Sha256Laws} `{Ci : BlockCipher}.
Context `{Cu : Curves} {CuL : CurvesLaws} `{Hs : HashState} {HsL : HashStateLaws}.

(** A message for direct delivery is packed with the stamp it gets. *)
Lemma Pack_stamped env m d s i p q v stamp :
  outgoing m d s i p q -> m_DeferStamp m = false -> m_DesiredMethod m = MethodDirect ->
  let m1 := hashed_message env d s m in
  GetStamp env m1 = Some (m1 <| m_StampValue := v |>, Ok stamp) -> zlen stamp < 2 ^ 32 ->
  exists m', Pack env m = Some (m', Ok tt) /\ m_Stamp m' = stamp /\ m_MessageID m' = m_MessageID m1.
Proof.
  intros O Hd Hm m1 Eg Hst. destruct (Pack_hashed env m d s i p q O) as [Ep E]. fold m1 in Ep, E.
  rewrite E, Hd, Eg. clear E Eg.
  destruct (hashed_message_fields env d s m) as (Ef & Et & Ec & Ed & Es & Est & Em & Eid & Eh).
  cbv zeta in *. subst m1. generalize dependent (hashed_message env d s m).
  intros m1 Ep Ef Et Ec Ed Es Est Em Eid Eh. destruct O.
  set (m2 := m1 <| m_StampValue := v |> <| m_Stamp := stamp |>).
  destruct (pack_signed_as env m2 d s i p q (PackSorted (VArr (base_payload m1))).1) as (m3 & E3 & Hpa & Hs3 & Htm & Hdm & _);
    try (change (m_Fields m2) with (m_Fields m1); change (m_Title m2) with (m_Title m1);
         change (m_Content m2) with (m_Content m1); rewrite ?Ef, ?Et, ?Ec; done).
  change (base_payload m2) with (base_payload m1) in E3. rewrite E3. exists m3. split.
  - unfold pack_method. rewrite Hdm. change (m_DesiredMethod m2) with (m_DesiredMethod m1). by rewrite Em, Hm.
  - split; [by rewrite Hs3|]. rewrite (pa_id _ _ _ _ _ Hpa), (pa_hash _ _ _ _ _ Hpa), Eid, Eh.
    assert (base_payload m3 = base_payload m1) as ->; [|done]. unfold base_payload.
    by rewrite Htm, (pa_title _ _ _ _ _ Hpa), (pa_content _ _ _ _ _ Hpa), (pa_fields _ _ _ _ _ Hpa).
Qed.

Lemma TruncatedHash_size b : length (TruncatedHash b) = dstLen.
Proof. unfold TruncatedHash, FullHash. by rewrite length_take, sha256_length. Qed.

Lemma hashed_id_nonempty env d s m : m_MessageID (hashed_message env d s m) <> [].
Proof.
  destruct (hashed_message_fields env d s m) as (_ & _ & _ & _ & _ & _ & _ & -> & ->).
  intros E. apply (f_equal length) in E. unfold FullHash in E. by rewrite sha256_length in E.
Qed.

Lemma zlen_pos {A} (l : list A) : l <> [] -> (zlen l =? 0) = false /\ (0 <? zlen l) = true.
Proof. destruct l; [done|]. intros _. rewrite zlen_cons. pose proof (zlen_nonneg l). split; zcase. Qed.


(** A message that was packed with a stamp of some cost reaches a receiver
    that accepts it for that cost, with the value the sender computed. *)
Theorem stamped_message_accepted env ts m d s i p q method cost stamp value rounds :
  outgoing m d s i p q -> m_DeferStamp m = false -> m_DesiredMethod m = MethodDirect ->
  m_rawStampCost m = None -> m_StampCost m = Some cost -> m_Stamp m = [] ->
  length (m_OutboundTicket m) <> TicketLength ->
  (forall b, pe_stamp_rnd env StampSize = Ok b -> length b = StampSize) ->
  GenerateStamp (pe_fuel env) (pe_stamp_rnd env) (m_MessageID (hashed_message env d s m)) cost
    WorkblockExpandRounds = Some (Some stamp, value, rounds, None) ->
  exists m' u u',
    Pack env m = Some (m', Ok tt) /\ UnpackMessageFromBytes ts (m_Packed m') method = Ok u /\
    ValidateStamp cost [] u = (u', true) /\ m_StampValue u' = Some value.
Proof.
  intros O Hd Hm Hraw Hcost Hns Htk Hrnd Eg.
  destruct (GenerateStamp_outcome _ _ _ _ _ _ _ _ _ _ Hrnd Eg) as (_ & Hl & wb & Ew & Ev & Hv).
  set (m1 := hashed_message env d s m) in *.
  assert (m_OutboundTicket m1 = m_OutboundTicket m /\ m_rawStampCost m1 = None /\ m_StampCost m1 = Some cost /\
    m_Stamp m1 = []) as (E1 & E2 & E3 & E4)
    by (unfold m1, hashed_message; destruct (PrimFloat.eqb _ _); by rewrite <- Hraw, <- Hcost, <- Hns).
  destruct (Pack_stamped env m d s i p q (Some value) stamp O Hd Hm) as (m' & Em & Es & Eid).
  { fold m1. unfold GetStamp, GetStampWithContext. rewrite E1, E2, E3, E4.
    rewrite (proj2 (Nat.eqb_neq _ _) Htk). cbn [andb]. change (0 <? zlen []) with false. cbv iota.
    unfold GenerateStamp in Eg. by rewrite Eg. }
  { unfold zlen. by rewrite Hl. }
  fold m1 in Eid.
  assert (zlen (m_Stamp m') < 2 ^ 32) as Hst by (rewrite Es; unfold zlen; by rewrite Hl).
  pose proof (Pack_as env m m' d s i p q O Em Hst) as P.
  destruct (unpack_packed ts m m' d s i p q method O P Hst) as (u & Eu & R & _).
  exists m', u. eexists. split; [done|]. split; [done|]. unfold ValidateStamp. cbn [existsb].
  rewrite (ra_stamp _ _ _ R), (ra_id _ _ _ R), <- (pa_id _ _ _ _ _ P), Eid, Es.
  assert (stamp <> []) as Hne by (intros E; by rewrite E in Hl). destruct (zlen_pos _ Hne) as [-> _].
  unfold StampWorkblock. rewrite Ew, Hv, <- Ev. done.
Qed.
End Stamping.

(** ** Containers *)

Section Containers.
Context `{Sh : Sha256} {ShL : Sha256Laws} `{Ci : BlockCipher}.
Context `{Cu : Curves} {CuL : CurvesLaws} `{Hs : HashState} {HsL : HashStateLaws}.

Lemma map_get_distinct (l : list (bytes * value)) (f : value -> value) k v :
  NoDup (map fst l) -> (k, v) ∈ l -> map_get (map (fun e => (VStr e.1, f e.2)) l) k = f v.
Proof.
  induction l as [|[k' v'] l IH]; intros Hn Hin; [by apply elem_of_nil in Hin|].
  cbn. unfold bytes_eqb. apply NoDup_cons in Hn as [Hk Hn].
  apply elem_of_cons in Hin as [[= -> ->]|Hin]; [by rewrite bool_decide_true|].
  rewrite bool_decide_false; [by apply IH|]. intros ->. apply Hk. apply list_elem_of_fmap. by exists (k, v).
Qed.

(** The message [u] with the transport state a container stores of [m]. *)
Definition restored (m u : Message) : Message :=
  u <| m_state := m_state m |> <| m_TransportEncrypted := m_TransportEncrypted m |>
    <| m_TransportEncryption := m_TransportEncryption m |> <| m_method := m_method m |>.

Lemma container_keys_distinct m : NoDup (map fst (container_entries m)).
Proof. by apply (bool_decide_unpack _). Qed.

(** Reading a stored container back gives the message its bytes unpack to,
    with the state, the method and the transport encryption it was stored
    with, in whatever order the container's map was written. *)
Theorem container_roundtrip env order ts m u :
  (forall l, order l ≡ₚ l) -> m_Packed m <> [] -> zlen (m_Packed m) < 2 ^ 32 ->
  - 2 ^ 63 <= m_state m < 2 ^ 63 -> - 2 ^ 63 <= m_method m < 2 ^ 63 -> zlen (m_TransportEncryption m) < 2 ^ 32 ->
  UnpackMessageFromBytes ts (m_Packed m) RepresentationUnknown = Ok u ->
  exists b, packedContainerLocked env order m = Some (m, Ok b) /\
    UnpackMessageFromFile ts b = Ok (restored m u).
Proof.
  intros Ho Hne Hl Hst Hmt Hte Eu. set (es := order (container_entries m)).
  assert (es ≡ₚ container_entries m) as Hp by apply Ho.
  assert (NoDup (map fst es)) as Hn.
  { rewrite (fmap_Permutation fst _ _ Hp). apply container_keys_distinct. }
  assert (packable (VMap (map (fun e => (VStr e.1, e.2)) es))) as Hpk.
  { apply packable_str_map; [|done|].
    - unfold zlen. rewrite Hp. done.
    - rewrite Hp. unfold container_entries. repeat (apply Forall_cons; split; [split; [done|by constructor]|]). constructor. }
  destruct (Unpack_Pack _ Hpk) as [E1 E2]. rewrite decoded_str_map in E2 by done.
  unfold packedContainerLocked. destruct (zlen_pos _ Hne) as [-> _]. fold es.
  destruct (Msgpack.Pack _) as [b e] eqn:Eb. cbn [fst snd] in E1, E2. subst e. exists b. split; [done|].
  unfold UnpackMessageFromFile. rewrite E2. cbn [map_err mbind res_bind].
  assert (forall k v, (k, v) ∈ container_entries m ->
    map_get (map (fun e => (VStr e.1, decoded (mkOptions false false false) e.2)) es) k =
      decoded (mkOptions false false false) v) as Hget.
  { intros k v Hin. apply map_get_distinct; [done|]. by rewrite Hp. }
  rewrite (Hget key_lxmf_bytes (VBin (m_Packed m))) by (unfold container_entries; set_solver).
  rewrite (Hget key_state (VInt (m_state m))) by (unfold container_entries; set_solver).
  rewrite (Hget key_transport_encrypted (VBool (m_TransportEncrypted m))) by (unfold container_entries; set_solver).
  rewrite (Hget key_transport_encryption (VStr (m_TransportEncryption m))) by (unfold container_entries; set_solver).
  rewrite (Hget key_method (VInt (m_method m))) by (unfold container_entries; set_solver).
  cbn [decoded]. rewrite Eu. done.
Qed.
End Containers.

(** ** Limits *)

Section Limits.
Context `{Sh : Sha256} {ShL : Sha256Laws} `{Ci : BlockCipher}.
Context `{Cu : Curves} {CuL : CurvesLaws} `{Hs : HashState} {HsL : HashStateLaws}.

Lemma packed_content m m' d s i p q :
  outgoing m d s i p q -> packed_as m m' d s q -> zlen (m_Stamp m') < 2 ^ 32 ->
  96 + zlen (m_Content m) <= zlen (m_Packed m').
Proof.
  intros O P Hst. pose proof (DHash_length _ _ _ _ (og_keys _ _ _ _ _ _ O)) as Hls.
  pose proof (og_length _ _ _ _ _ _ O) as Hld.
  assert (length (m_Signature m') = 64%nat) as Hlg by (rewrite (pa_signature _ _ _ _ _ P); apply ed_sign_length).
  rewrite (pa_packed _ _ _ _ _ P), !zlen_app.
  assert (zlen (DHash d) = 16 /\ zlen (DHash s) = 16 /\ zlen (m_Signature m') = 64) as (-> & -> & ->)
    by (unfold zlen; by rewrite Hls, Hld, Hlg).
  set (payload := base_payload m' ++ stamp_item (m_Stamp m')).
  assert (packable (VArr payload)) as Hpk.
  { apply payload_packable; [| | |done];
      [rewrite (pa_title _ _ _ _ _ P)|rewrite (pa_content _ _ _ _ _ P)|rewrite (pa_fields _ _ _ _ _ P)]; apply O. }
  assert (sendable (VArr payload)) as Hsd.
  { apply payload_sendable. rewrite (pa_fields _ _ _ _ _ P). apply O. }
  destruct (canon_spec _ Hpk Hsd) as (Hpc & _ & Ec). unfold PackSorted. rewrite Ec. cbn [canon] in *.
  inversion Hpc as [| | | | | | | | | | |? _ Hf| |]; subst.
  rewrite pack_arr_bytes by (eapply Forall_impl; [exact Hf|]; intros v Hv; by apply (packable_clean wire_options)).
  rewrite zlen_app.
  pose proof (in_concat_length (fun v => (pack false v).1) (VBin (m_Content m)) (map canon payload)) as Hin.
  assert (length (m_Content m) <= length (pack false (VBin (m_Content m))).1)%nat as Hb
    by (cbn; unfold packBin; rewrite length_app; lia).
  assert (In (VBin (m_Content m)) (map canon payload)) as Hi.
  { apply in_map_iff. exists (VBin (m_Content m)). split; [done|]. rewrite <- (pa_content _ _ _ _ _ P).
    unfold payload, base_payload. cbn. auto. }
  specialize (Hin Hi). pose proof (zlen_nonneg (array_header (zlen (map canon payload)))). cbv beta in Hin. unfold zlen in *. lia.
Qed.

(** The limit on the content of an opportunistic message is compared with the
    packed message, overhead included: content well below the limit is
    refused. *)
Lemma opportunistic_content_refused env m d s i p q :
  outgoing m d s i p q -> m_DeferStamp m = true -> m_DesiredMethod m = MethodOpportunistic ->
  247 < zlen (m_Content m) <= EncryptedPacketMaxContent ->
  exists m' n, Pack env m = Some (m', Err (ErrOpportunisticSize n)).
Proof.
  intros O Hd Hm Hc. destruct (Pack_deferred env m d s i p q O Hd) as (m1 & -> & P & Hst & _ & Hdm & _).
  pose proof (packed_content m m1 d s i p q O P) as Hlen. rewrite Hst in Hlen. specialize (Hlen (og_stamp _ _ _ _ _ _ O)).
  unfold pack_method. rewrite Hdm, Hm. change (MethodOpportunistic =? MethodOpportunistic) with true. cbn [andb].
  rewrite (proj2 (Z.ltb_lt _ _)) by (change EncryptedPacketMaxContent with 343 in *; lia). by eexists _, _.
Qed.
End Limits.

(** ** Witnesses *)

Module ToyLxmf.
Import ToyCrypto ToyCurves ToyIdentity ToyStamps.

Definition no_destination : DestinationT :=
  mkDestination None 0 0 [] [] [] [] [] [] 0 false 0 None [] 0 0 None false 0 None.
Definition delivery (dir : Z) (i : Identity) : DestinationT :=
  match NewDestination rnd rnd (Some i) dir DestinationSingle AppName [aspect_delivery] with
  | Ok d => d
  | _ => no_destination
  end.
Definition bob : Identity := with_keys (seed 5) (seed 6) zeroIdentity.
Definition alice_in : DestinationT := delivery DestinationIn alice.
Definition bob_out : DestinationT := delivery DestinationOut bob.
Definition bob_in : DestinationT := delivery DestinationIn bob.

(** A receiver that knows alice. *)
Definition knows_alice : LxTransport := mkLxTransport (fun _ => Some alice) (fun _ => false).

Definition fields : list (value * value) :=
  [(VInt 5, VArr [VUint 3; VMap [(VStr [65], VBin [2])]]); (VStr [66], VBool true)].
Definition message : Message :=
  match NewMessage (Some bob_out) (Some alice_in) [104; 105] [116] fields with Ok m => m | _ => zeroMessage end.
Definition env : PackEnv := mkPackEnv 1700000000000000000 rnd rnd None 1.

Lemma alice_in_ok : dest_ok alice_in alice (seed 3) (seed 4).
Proof.
  apply (NewDestination_ok rnd rnd alice (seed 3) (seed 4) DestinationIn DestinationSingle AppName [aspect_delivery]).
  - by apply with_keys_keypair.
  - vm_compute. reflexivity.
Qed.

Lemma toy_fields_packable : packable (VMap fields).
Proof.
  apply pk_map; [done| |].
  - repeat (apply Forall_cons; split); [split_and!| |constructor]; [by constructor|done| |split_and!; by constructor].
    apply pk_arr; [done|]. repeat (apply Forall_cons; split); [by constructor| |constructor].
    apply pk_map; [done| |].
    + apply Forall_singleton. split_and!; by constructor.
    + intros [|a] [|b] ka kb; cbn; intros [= <-] [= <-]; done.
  - intros [|[|a]] [|[|b]] ka kb; cbn; intros [= <-] [= <-]; done.
Qed.

Lemma toy_fields_sendable : sendable (VMap fields).
Proof.
  apply sd_map.
  - repeat (apply Forall_cons; split); [split; [done|]| |constructor]; [|split; [done|by apply sd_leaf]].
    apply sd_arr. repeat (apply Forall_cons; split); [by apply sd_leaf| |constructor].
    apply sd_map.
    + apply Forall_singleton. split; [done|by apply sd_leaf].
    + intros [|a] [|b] ka kb; cbn; intros [= <-] [= <-]; done.
  - intros [|[|a]] [|[|b]] ka kb; cbn; intros [= <-] [= <-]; done.
Qed.

Lemma toy_outgoing m :
  m_Packed m = [] -> m_Destination m = Some bob_out -> m_Source m = Some alice_in -> m_Title m = [116] ->
  m_Content m = [104; 105] -> m_Stamp m = [] -> m_Fields m = fields ->
  outgoing m bob_out alice_in alice (seed 3) (seed 4).
Proof.
  intros H1 H2 H3 H4 H5 H6 H7.
  split; [done..|vm_compute; reflexivity|apply alice_in_ok|by rewrite H4|by rewrite H5|by rewrite H6| |];
    rewrite H7; [apply toy_fields_packable|apply toy_fields_sendable].
Qed.
End ToyLxmf.

Section MessageWitnesses.
Import ToyCrypto ToyCurves ToyIdentity ToyStamps ToyLxmf.

Lemma message_roundtrip_witness :
  exists m' u, Pack env message = Some (m', Ok tt) /\
    UnpackMessageFromBytes knows_alice (m_Packed m') MethodDirect = Ok u /\ m_SignatureValidated u = true /\
    m_Title u = [116] /\ m_Content u = [104; 105] /\ same_value (VMap fields) (VMap (m_Fields u)).
Proof.
  destruct (message_roundtrip env knows_alice message bob_out alice_in alice (seed 3) (seed 4) alice MethodDirect)
    as [Hp Hu].
  - apply toy_outgoing; reflexivity.
  - reflexivity.
  - reflexivity.
  - destruct Hp as (m' & Em & Es); [reflexivity|reflexivity|].
    destruct (Hu m' Em) as (u & Eu & _ & Hv & Ht & Hc & Hf).
    + rewrite Es. reflexivity.
    + exists m', u. split; [exact Em|]. split; [exact Eu|]. split; [exact Hv|].
      split; [exact Ht|]. split; [exact Hc|exact Hf].
Defined.

Definition toy_ticket : TicketEntry := mkTicketEntry 1800000000%float (replicate 16 9).
Definition toy_issue := GenerateInboundTicket id rnd [7] 1700000000000000000 100000000%float NewTicketStore.


(** A stamp of no cost: the first candidate. *)
Definition stamped_message : Message := message <| m_DeferStamp := false |> <| m_StampCost := Some 0 |>.

Lemma leadingZeroBits_nonneg h : bytes_ok h -> 0 <= leadingZeroBits h.
Proof.
  intros Hh. apply leadingZeroBits_spec; [done|pose proof (zlen_nonneg h); lia|].
  rewrite Z.sub_0_r, Z.pow_mul_r by (pose proof (zlen_nonneg h); lia). apply (be_dec_bound h Hh).
Qed.

Lemma toy_generates :
  exists v, GenerateStamp 1 rnd (m_MessageID (hashed_message env bob_out alice_in stamped_message)) 0
    WorkblockExpandRounds = Some (Some (replicate 32 9), v, 1, None).
Proof.
  destruct (StampWorkblock_ok (m_MessageID (hashed_message env bob_out alice_in stamped_message)) WorkblockExpandRounds)
    as (wb & Ew & _); [apply hashed_id_nonempty|].
  eexists. unfold GenerateStamp, GenerateStampWithContext. unfold StampWorkblock in Ew. rewrite Ew.
  change (rnd StampSize) with (@Ok crypto_err bytes (replicate 32 9)).
  change (0 <? 0) with false. change (256 <? 0) with false. cbv iota. cbn [search Background].
  rewrite (proj2 (Z.leb_le _ _)) by (apply leadingZeroBits_nonneg; rewrite candidate_hash_spec; apply sha256_bytes).
  reflexivity.
Qed.

Lemma stamped_message_accepted_witness :
  exists m' u u' v, Pack env stamped_message = Some (m', Ok tt) /\
    UnpackMessageFromBytes knows_alice (m_Packed m') MethodDirect = Ok u /\
    ValidateStamp 0 [] u = (u', true) /\ m_StampValue u' = Some v.
Proof.
  destruct toy_generates as [v Ev].
  destruct (stamped_message_accepted env knows_alice stamped_message bob_out alice_in alice (seed 3) (seed 4)
    MethodDirect 0 (replicate 32 9) v 1) as (m' & u & u' & E1 & E2 & E3 & E4).
  - apply toy_outgoing; reflexivity.
  - reflexivity.
  - reflexivity.
  - reflexivity.
  - reflexivity.
  - reflexivity.
  - discriminate.
  - intros b [= <-]. reflexivity.
  - exact Ev.
  - exists m', u, u', v. split; [exact E1|]. split; [exact E2|]. split; [exact E3|exact E4].
Defined.

Definition unpacked_or_zero (data : bytes) (method : Z) : Message :=
  match UnpackMessageFromBytes knows_alice data method with Ok u => u | _ => zeroMessage end.
Definition packed_message : Message := match Pack env message with Some (m, _) => m | None => zeroMessage end.

Lemma container_roundtrip_witness :
  exists b, packedContainerLocked env reverse packed_message = Some (packed_message, Ok b) /\
    UnpackMessageFromFile knows_alice b =
      Ok (restored packed_message (unpacked_or_zero (m_Packed packed_message) RepresentationUnknown)).
Proof.
  apply (container_roundtrip env reverse knows_alice packed_message).
  - intros l. apply reverse_Permutation.
  - vm_compute. discriminate.
  - vm_compute. reflexivity.
  - split; [vm_compute; discriminate|vm_compute; reflexivity].
  - split; [vm_compute; discriminate|vm_compute; reflexivity].
  - vm_compute. reflexivity.
  - vm_compute. reflexivity.
Defined.

(** A message whose fields have a binary key, as other implementations can
    send it: signed over its bytes. *)
Definition binary_payload : bytes :=
  (Msgpack.Pack (VArr [VFloat64 0; VBin []; VBin []; VOrdered [(VBin [1], VNil)]])).1.
Definition binary_hashed : bytes := DHash bob_out ++ DHash alice_in ++ binary_payload.
Definition binary_signed : bytes := binary_hashed ++ FullHash binary_hashed.
Definition binary_wire : bytes :=
  DHash bob_out ++ DHash alice_in ++ ed_sign (seed 4) binary_signed ++ binary_payload.

(** The decoder keeps binary map keys apart from strings, but they are encoded
    again as strings: the hash is another one, and the signature, although
    good, is reported as invalid. *)
Lemma binary_key_unverified :
  let u := unpacked_or_zero binary_wire MethodDirect in
  UnpackMessageFromBytes knows_alice binary_wire MethodDirect = Ok u /\
  IVerify alice (m_Signature u) binary_signed = true /\
  m_SignatureValidated u = false /\ m_UnverifiedReason u = ReasonSignatureInvalid /\
  m_Hash u <> FullHash binary_hashed.
Proof.
  cbv zeta. split; [vm_compute; reflexivity|]. split; [vm_compute; reflexivity|]. split; [vm_compute; reflexivity|].
  split; [vm_compute; reflexivity|]. vm_compute. discriminate.
Qed.
End MessageWitnesses.
