(* ===== verification/LxmfRouter.v ===== *)
(** * The LXMF router: state, policy and delivery

    Models of [lxmf/router.go], [lxmf/announce-handler.go] and [lxmf/peer.go]
    the state of a router with its peers and its message store, the policy
    setters, the delivery of messages that arrive directly, from a propagation
    node or as a paper message, the tickets they carry and the caches of
    messages already seen.

    An instant is a [Z] of Unix nanoseconds, and one call reads the clock once
    ([re_now]).  What a call asks of the transport, the file system and the
    ratchet file is in its [RouterEnv].  Calls are modelled one after another:
    each changes the state under the router's mutex, and a call that releases
    the mutex in between is only run by one goroutine per message.  A Go map
    that is only a set is a [gset].  The message store is a directory, a map
    from file names to contents.  The messages the delivery callback is given
    are logged in the state with the time of the call ([r_callbacks]). *)

From stdpp Require Import base tactics option list gmap.
From Stdlib Require Import ZArith Lia Floats.
From S2P Require Import Prelude Clock Crypto Packet Msgpack Identity LxmfStamps LxmfTickets LxmfMessage.
Local Open Scope Z_scope.
Local Open Scope go_scope.

(** ** Constants *)

Definition Hour : Z := 3600 * Second.
Definition messageExpiry : Z := 30 * 24 * Hour.
Definition transientIDCacheExpiry : Z := messageExpiry * 6.
Definition pnStampThrottle : Z := 180 * Second.

Definition DefaultMaxPeers : Z := 20.
Definition DefaultAutopeerMaxDepth : Z := 4.
Definition DefaultMaxPeeringCost : Z := 26.
Definition DefaultPeeringCost : Z := 18.
Definition DefaultPropagationCost : Z := 16.
Definition DefaultPropagationCostFlexibility : Z := 3.
Definition PropagationCostMin : Z := 13.
Definition DefaultPropagationLimit : float := 256%float.
Definition DefaultSyncLimit : float := 10240%float. (* 256 * 40 *)
Definition DefaultDeliveryLimit : float := 1000%float.
Definition DefaultMaxInboundSyncs : Z := 3.

Definition OfferAccepted : Z := 0x01.
Definition OfferTransferring : Z := 0x02.
Definition OfferValidating : Z := 0x03.

Definition peerErrorNoIdentity : Z := 0xf0.
Definition peerErrorNoAccess : Z := 0xf1.
Definition peerErrorInvalidKey : Z := 0xf3.
Definition peerErrorInvalidData : Z := 0xf4.
Definition peerErrorInvalidStamp : Z := 0xf5.
Definition peerErrorThrottled : Z := 0xf6.

Definition PRIdle : Z := 0x00.
Definition PRReceiving : Z := 0x05.
Definition PRComplete : Z := 0x07.
Definition PRNoIdentityRcvd : Z := 0xf3.
Definition PRNoAccess : Z := 0xf4.
Definition PRFailed : Z := 0xfe.

Definition FieldTicket : Z := 0x0C.
Definition aspect_propagation : bytes := [112; 114; 111; 112; 97; 103; 97; 116; 105; 111; 110].

Definition PeerStateIdle : Z := 0x00.
Definition PeerStateLinkEstablishing : Z := 0x01.
Definition PeerStateLinkReady : Z := 0x02.
Definition PeerStateRequestSent : Z := 0x03.
Definition PeerStateResponseReceived : Z := 0x04.
Definition PeerStateResourceTransferring : Z := 0x05.
Definition PeerStrategyPersistent : Z := 0x02.
Definition DefaultPeerSyncStrategy : Z := PeerStrategyPersistent.

(** ** Decoded values *)

Definition anyToFloat64 (v : value) : option float :=
  match v with
  | VFloat32 bits => Some (float_of_bits32 bits)
  | VFloat64 bits => Some (float_of_bits64 bits)
  | VInt i => Some (float_of_Z i)
  | VUint i => Some (float_of_uint64 i)
  | _ => None
  end.

(** [int(f)] truncates; [int(u)] wraps around. *)
Definition anyToInt (v : value) : option Z :=
  match v with
  | VInt i => Some i
  | VUint i => Some (i64 i)
  | VFloat32 bits => Some (Duration_of_float (float_of_bits32 bits))
  | VFloat64 bits => Some (Duration_of_float (float_of_bits64 bits))
  | _ => None
  end.

(** Nil and the empty slice are one here: every caller looks at the length. *)
Definition anyToBytes (v : value) : bytes :=
  match v with VBin b => b | VStr s => s | _ => [] end.

Definition anySliceToByteSlices (v : value) : list bytes :=
  match v with
  | VArr items => omap (fun item => match item with VBin ((_ :: _) as b) => Some b | _ => None end) items
  | _ => []
  end.

Definition decodeAnyList (data : bytes) : option (list value) :=
  match data with
  | [] => None
  | _ => match Msgpack.Unpack data with Ok (VArr l) => Some l | _ => None end
  end.

(** The first entry, in the order of an iteration, whose key is the number. *)
Definition messageField (fields : list (value * value)) (key : Z) : option value :=
  snd <$> find (fun e => match e.1 with VInt i => i =? key | VUint i => i =? key | _ => false end) fields.

(** ** Peers and the message store *)

Record propagationEntry := mkEntry {
  e_destinationHash : bytes;
  e_payload : bytes;
  e_receivedAt : Z;
  e_order : Z;
  e_handledBy : list bytes;
  e_unhandledBy : list bytes;
  e_path : bytes;
  e_size : Z;
  e_stampValue : Z;
}.
#[global] Instance eta_propagationEntry : Eta propagationEntry := fun e =>
  mkEntry (e_destinationHash e) (e_payload e) (e_receivedAt e) (e_order e) (e_handledBy e) (e_unhandledBy e)
    (e_path e) (e_size e) (e_stampValue e).

Record pendingOfferEntry := mkOfferEntry { o_transientID : bytes; o_weight : float; o_size : Z }.

Record Peer := mkPeer {
  pr_destinationHash : bytes;
  pr_identity : option Identity;
  pr_destination : option DestinationT;
  pr_alive : bool;
  pr_lastHeard : float;
  pr_syncStrategy : Z;
  pr_peeringKey : option (bytes * value);
  pr_peeringCost : option Z;
  pr_metadata : list (value * value);
  pr_nextSyncAttempt : float;
  pr_lastSyncAttempt : float;
  pr_syncBackoff : float;
  pr_peeringTimebase : float;
  pr_syncTransferRate : float;
  pr_propagationTransferLimit : option float;
  pr_propagationSyncLimit : option Z;
  pr_propagationStampCost : option Z;
  pr_propagationStampCostFlexibility : option Z;
  pr_currentlyTransferringMessages : option (list bytes);
  pr_currentSyncTransferStarted : float;
  pr_handledMessagesQueue : list bytes;
  pr_unhandledMessagesQueue : list bytes;
  pr_hmCount : Z;
  pr_umCount : Z;
  pr_hmCountsSynced : bool;
  pr_umCountsSynced : bool;
  pr_link : bool;
  pr_state : Z;
  pr_lastOffer : list bytes;
  pr_pendingOfferIDs : list bytes;
  pr_offered : Z;
  pr_outgoing : Z;
  pr_incoming : Z;
  pr_rxBytes : Z;
  pr_txBytes : Z;
}.
#[global] Instance eta_Peer : Eta Peer := fun p =>
  mkPeer (pr_destinationHash p) (pr_identity p) (pr_destination p) (pr_alive p) (pr_lastHeard p)
    (pr_syncStrategy p) (pr_peeringKey p) (pr_peeringCost p) (pr_metadata p) (pr_nextSyncAttempt p)
    (pr_lastSyncAttempt p) (pr_syncBackoff p) (pr_peeringTimebase p) (pr_syncTransferRate p)
    (pr_propagationTransferLimit p) (pr_propagationSyncLimit p) (pr_propagationStampCost p)
    (pr_propagationStampCostFlexibility p) (pr_currentlyTransferringMessages p)
    (pr_currentSyncTransferStarted p) (pr_handledMessagesQueue p) (pr_unhandledMessagesQueue p)
    (pr_hmCount p) (pr_umCount p) (pr_hmCountsSynced p) (pr_umCountsSynced p) (pr_link p)
    (pr_state p) (pr_lastOffer p) (pr_pendingOfferIDs p) (pr_offered p) (pr_outgoing p) (pr_incoming p)
    (pr_rxBytes p) (pr_txBytes p).
Record Router := mkRouter {
  r_identity : Identity;
  r_deliveryDestinations : gmap bytes DestinationT;
  r_ratchetFiles : gmap bytes bytes;
  r_inboundStampCosts : gmap bytes Z;
  r_ticketStore : TicketStore;
  r_locallyDeliveredIDs : gmap bytes Z;
  r_locallyProcessedIDs : gmap bytes Z;
  r_peerDistributionQueue : list (bytes * bytes);
  r_deliveryCallback : bool;
  r_propagationEntries : gmap bytes propagationEntry;
  r_propagationEntrySeq : Z;
  r_messageStore : gmap bytes bytes;
  r_throttledPeers : gmap bytes Z;
  r_validatedPeerLinks : gset bytes;
  r_fromStaticOnly : bool;
  r_staticPeers : gset bytes;
  r_authRequired : bool;
  r_allowedList : gset bytes;
  r_peerSyncBackoff : Z;
  r_peerMaxAge : Z;
  r_controlAllowed : gset bytes;
  r_peers : gmap bytes Peer;
  r_propagationPerSyncLimit : float;
  r_deliveryPerTransferLimit : float;
  r_maxPeers : Z;
  r_autopeer : bool;
  r_autopeerMaxdepth : Z;
  r_enforceStampsEnabled : bool;
  r_ignoredList : gset bytes;
  r_messageStorageLimit : float;
  r_prioritisedList : gset bytes;
  r_propagationEnabled : bool;
  r_outboundPropagationLink : bool;
  r_propagationTransferState : Z;
  r_propagationTransferLastResult : option Z;
  r_propagationTransferLastDuplicates : Z;
  r_propagationTransferMaxMessages : Z;
  r_propagationTransferProgress : float;
  r_retainSyncedOnNode : bool;
  r_propagationCost : Z;
  r_propagationCostFlexibility : Z;
  r_peeringCost : Z;
  r_maxPeeringCost : Z;
  r_clientPropagationMessagesReceived : Z;
  r_clientPropagationMessagesServed : Z;
  r_unpeeredPropagationIncoming : Z;
  r_unpeeredPropagationRXBytes : Z;
  r_acceptedOfferLinks : gmap bytes Z;
  r_validatingPnStampsFrom : gmap bytes Z;
  r_propagationSequentialValidation : bool;
  r_propagationStaticPeerSequential : bool;
  r_propagationMaxInboundSyncs : Z;
  r_isClosed : bool;
  r_callbacks : list (Z * Message);
}.
#[global] Instance eta_Router : Eta Router := fun r =>
  mkRouter (r_identity r) (r_deliveryDestinations r) (r_ratchetFiles r) (r_inboundStampCosts r)
    (r_ticketStore r) (r_locallyDeliveredIDs r) (r_locallyProcessedIDs r) (r_peerDistributionQueue r)
    (r_deliveryCallback r) (r_propagationEntries r) (r_propagationEntrySeq r) (r_messageStore r)
    (r_throttledPeers r) (r_validatedPeerLinks r) (r_fromStaticOnly r) (r_staticPeers r) (r_authRequired r)
    (r_allowedList r) (r_peerSyncBackoff r) (r_peerMaxAge r) (r_controlAllowed r) (r_peers r)
    (r_propagationPerSyncLimit r) (r_deliveryPerTransferLimit r) (r_maxPeers r) (r_autopeer r)
    (r_autopeerMaxdepth r) (r_enforceStampsEnabled r) (r_ignoredList r) (r_messageStorageLimit r)
    (r_prioritisedList r) (r_propagationEnabled r) (r_outboundPropagationLink r) (r_propagationTransferState r)
    (r_propagationTransferLastResult r) (r_propagationTransferLastDuplicates r)
    (r_propagationTransferMaxMessages r) (r_propagationTransferProgress r) (r_retainSyncedOnNode r)
    (r_propagationCost r) (r_propagationCostFlexibility r) (r_peeringCost r) (r_maxPeeringCost r)
    (r_clientPropagationMessagesReceived r) (r_clientPropagationMessagesServed r)
    (r_unpeeredPropagationIncoming r) (r_unpeeredPropagationRXBytes r) (r_acceptedOfferLinks r)
    (r_validatingPnStampsFrom r) (r_propagationSequentialValidation r) (r_propagationStaticPeerSequential r)
    (r_propagationMaxInboundSyncs r) (r_isClosed r) (r_callbacks r).

(** [NewRouter], before it reads what was saved. *)
Definition NewRouter (i : Identity) : Router :=
  mkRouter i ∅ ∅ ∅ NewTicketStore ∅ ∅ [] false ∅ 0 ∅ ∅ ∅ false ∅ false ∅ 0 0 ∅ ∅ DefaultSyncLimit
    DefaultDeliveryLimit DefaultMaxPeers true DefaultAutopeerMaxDepth false ∅ 0%float ∅ false false 0 None 0 0
    0%float false DefaultPropagationCost DefaultPropagationCostFlexibility DefaultPeeringCost
    DefaultMaxPeeringCost 0 0 0 0 ∅ ∅ true false DefaultMaxInboundSyncs false [].

(** What a call draws from outside: the clock, the transport, the hops to a
    destination and the identity the transport recalls for it, whether a file
    of the message store can be written, and the ratchet file's iteration order
    and writability. *)
Record RouterEnv := mkRouterEnv {
  re_now : Z;
  re_transport : LxTransport;
  re_hopsTo : bytes -> Z;
  re_recall : bytes -> option Identity;
  re_writable : bool;
  re_ratchet_order : list (value * value) -> list (value * value);
  re_ratchet_writable : bool;
}.

(** ** Policy *)

Inductive router_err :=
  | ErrPeeringCost (cost : Z)
  | ErrHashLength (n : Z)
  | ErrNegativeDuration (d : Z)
  | ErrOneIdentity
  | ErrDeliveryDestination (e : id_err)
  | ErrURISchema
  | ErrURIBase64.

Definition SetPeeringCost (cost : Z) (r : Router) : res router_err Router :=
  if (cost <? 0) || (256 <? cost) then Err (ErrPeeringCost cost) else Ok (r <| r_peeringCost := cost |>).

Definition SetFromStaticOnly (enabled : bool) (r : Router) : Router := r <| r_fromStaticOnly := enabled |>.
Definition SetAuthRequired (enabled : bool) (r : Router) : Router := r <| r_authRequired := enabled |>.

(** The set of hashes, or the first one of a wrong length. *)
Fixpoint hash_set (hashes : list bytes) (updated : gset bytes) : res router_err (gset bytes) :=
  match hashes with
  | [] => Ok updated
  | h :: hashes' =>
      if zlen h =? TruncatedHashLength / 8 then hash_set hashes' ({[h]} ∪ updated) else Err (ErrHashLength (zlen h))
  end.

Definition SetAllowedList (identityHashes : list bytes) (r : Router) : res router_err Router :=
  updated ← hash_set identityHashes ∅; Ok (r <| r_allowedList := updated |>).
Definition SetStaticPeers (peerHashes : list bytes) (r : Router) : res router_err Router :=
  updated ← hash_set peerHashes ∅; Ok (r <| r_staticPeers := updated |>).

Definition Allow (identityHash : bytes) (r : Router) : Router := r <| r_allowedList ::= union {[identityHash]} |>.
Definition AllowControl (identityHash : bytes) (r : Router) : Router :=
  r <| r_controlAllowed ::= union {[identityHash]} |>.
Definition DisallowControl (identityHash : bytes) (r : Router) : Router :=
  r <| r_controlAllowed ::= fun s => s ∖ {[identityHash]} |>.

Definition ThrottlePeer (now : Z) (peerHash : bytes) (duration : Z) (r : Router) : res router_err Router :=
  if negb (zlen peerHash =? TruncatedHashLength / 8) then Err (ErrHashLength (zlen peerHash))
  else if duration <=? 0 then Ok (r <| r_throttledPeers ::= delete peerHash |>)
  else Ok (r <| r_throttledPeers ::= <[peerHash := Add now duration]> |>).

Definition cleanThrottledPeers (now : Z) (r : Router) : Router :=
  r <| r_throttledPeers ::= filter (fun e => After now e.2 = false) |>.

Definition SetPeerSyncBackoff (duration : Z) (r : Router) : res router_err Router :=
  if duration <? 0 then Err (ErrNegativeDuration duration) else Ok (r <| r_peerSyncBackoff := duration |>).
Definition SetPeerMaxAge (duration : Z) (r : Router) : res router_err Router :=
  if duration <? 0 then Err (ErrNegativeDuration duration) else Ok (r <| r_peerMaxAge := duration |>).

Definition IgnoreDestination (h : bytes) (r : Router) : Router := r <| r_ignoredList ::= union {[h]} |>.
Definition UnignoreDestination (h : bytes) (r : Router) : Router := r <| r_ignoredList ::= fun s => s ∖ {[h]} |>.
Definition IsIgnored (h : bytes) (r : Router) : bool := bool_decide (h ∈ r_ignoredList r).
Definition EnforceStamps (r : Router) : Router := r <| r_enforceStampsEnabled := true |>.
Definition IgnoreStamps (r : Router) : Router := r <| r_enforceStampsEnabled := false |>.
Definition SetRetainNodeLXMs (retain : bool) (r : Router) : Router := r <| r_retainSyncedOnNode := retain |>.
Definition SetMessageStorageLimit (megabytes : float) (r : Router) : Router := r <| r_messageStorageLimit := megabytes |>.
Definition Prioritise (h : bytes) (r : Router) : Router := r <| r_prioritisedList ::= union {[h]} |>.
Definition RegisterDeliveryCallback (r : Router) : Router := r <| r_deliveryCallback := true |>.

(** [checkControlAccess]: the error to answer, if there is one. *)
Definition checkControlAccess (remoteIdentity : option Identity) (r : Router) : option Z :=
  match remoteIdentity with
  | None => Some peerErrorNoIdentity
  | Some i =>
      if bool_decide (r_controlAllowed r = ∅) then None
      else if bool_decide (IHash i ∈ r_controlAllowed r) then None else Some peerErrorNoAccess
  end.

Section Delivery.
Context `{Sha256, BlockCipher, Curves, HashState}.

(** ** The delivery destination *)

Definition ratchets_path (d : DestinationT) : bytes :=
  hex (DHash d) ++ [46; 114; 97; 116; 99; 104; 101; 116; 115]. (* .ratchets *)

(** [RegisterDeliveryIdentity], where creating the directory succeeds. *)
Definition RegisterDeliveryIdentity (env : RouterEnv) (rnd1 rnd2 : random_source) (i : option Identity)
    (stampCost : option Z) (r : Router) : Router * res router_err DestinationT :=
  if bool_decide (r_deliveryDestinations r ≠ ∅) then (r, Err ErrOneIdentity)
  else
    let i := default (r_identity r) i in
    match NewDestination rnd1 rnd2 (Some i) DestinationIn DestinationSingle AppName [aspect_delivery] with
    | Err e => (r, Err (ErrDeliveryDestination e))
    | Panic => (r, Panic)
    | Ok d =>
        let path := ratchets_path d in
        match EnableRatchets (re_ratchet_order env) (re_ratchet_writable env) path d (r_ratchetFiles r !! path) with
        | (_, disk, Err e) =>
            (r <| r_ratchetFiles ::= partial_alter (fun _ => disk) path |>, Err (ErrDeliveryDestination e))
        | (_, disk, Panic) => (r <| r_ratchetFiles ::= partial_alter (fun _ => disk) path |>, Panic)
        | (d, disk, Ok _) =>
            (r <| r_ratchetFiles ::= partial_alter (fun _ => disk) path |>
               <| r_deliveryDestinations ::= <[DHash d := d]> |>
               <| r_inboundStampCosts ::= fun m => match stampCost with
                                                   | Some c => <[DHash d := c]> m
                                                   | None => m
                                                   end |>, Ok d)
        end
    end.

(** ** Tickets *)

Definition outboundTicketFieldEntry (fields : list (value * value)) (now : Z) : option TicketEntry :=
  match messageField fields FieldTicket with
  | Some (VArr (expires :: ticket :: _)) =>
      match anyToFloat64 expires with
      | None => None
      | Some expires =>
          if PrimFloat.leb expires (unix_seconds now) then None
          else if negb (length (anyToBytes ticket) =? TicketLength)%nat then None
          else Some (mkTicketEntry expires (anyToBytes ticket))
      end
  | _ => None
  end.

Definition markTicketDeliveryLocked (now : Z) (m : Message) (r : Router) : Router :=
  match m_Destination m with
  | Some d =>
      if m_IncludeTicket m && bool_decide (is_Some (outboundTicketFieldEntry (m_Fields m) now))
      then r <| r_ticketStore ::= MarkDelivery (DHash d) now |>
      else r
  | None => r
  end.

(** ** Messages already seen *)

Definition hasDeliveredTransientIDLocked (id : bytes) (r : Router) : bool :=
  negb (zlen id =? 0) && bool_decide (is_Some (r_locallyDeliveredIDs r !! id)).
Definition hasProcessedTransientIDLocked (id : bytes) (r : Router) : bool :=
  negb (zlen id =? 0) && bool_decide (is_Some (r_locallyProcessedIDs r !! id)).

Definition cleanTransientIDCachesLocked (now : Z) (r : Router) : Router :=
  let fresh (e : bytes * Z) := After now (Add e.2 transientIDCacheExpiry) = false in
  r <| r_locallyDeliveredIDs ::= filter fresh |> <| r_locallyProcessedIDs ::= filter fresh |>.

(** ** Inbound messages *)

Definition handleInboundMessage (env : RouterEnv) (m : Message) (r : Router) : Router :=
  if m_SourceBlackholed m then r
  else if IsIgnored (m_SourceHash m) r then r
  else if hasDeliveredTransientIDLocked (m_Hash m) r then r
  else
    let r := r <| r_locallyDeliveredIDs ::= <[m_Hash m := re_now env]> |> in
    let r :=
      if m_SignatureValidated m then
        match outboundTicketFieldEntry (m_Fields m) (re_now env) with
        | Some entry => r <| r_ticketStore ::= RememberOutboundTicket (m_SourceHash m) entry |>
        | None => r
        end
      else r in
    if r_deliveryCallback r then r <| r_callbacks ::= fun l => l ++ [(re_now env, m)] |> else r.

(** Unpack and handle; a message that cannot be unpacked is dropped. *)
Definition deliver_bytes (env : RouterEnv) (data : bytes) (method : Z) (r : Router) : Router * res lx_err unit :=
  match UnpackMessageFromBytes (re_transport env) data method with
  | Ok m => (handleInboundMessage env m r, Ok tt)
  | Err e => (r, Err e)
  | Panic => (r, Panic)
  end.

Definition handleInboundResourceData (env : RouterEnv) (data : bytes) (r : Router) : Router * res lx_err unit :=
  if zlen data =? 0 then (r, Ok tt) else deliver_bytes env data MethodDirect r.

(** [deliveryPacket]: [toLink] says whether the packet came over a link,
    [destinationHash] is the packet's address.  The packet is proved in any
    case. *)
Definition deliveryPacket (env : RouterEnv) (toLink : bool) (destinationHash data : bytes) (r : Router)
    : Router * res lx_err unit :=
  if negb toLink && negb (length destinationHash =? DestinationLength)%nat then (r, Ok tt)
  else if r_isClosed r then (r, Ok tt)
  else if toLink then deliver_bytes env data MethodDirect r
  else deliver_bytes env (destinationHash ++ data) MethodOpportunistic r.

(** [deliveryDest.Decrypt], which may reload the ratchets. *)
Definition decrypt_delivery (env : RouterEnv) (d : DestinationT) (ciphertext : bytes) (r : Router)
    : Router * res id_err bytes :=
  let path := ratchetsPath d in
  let '(d, disk, x) := DDecryptFor (re_ratchet_order env) (re_ratchet_writable env) d (r_ratchetFiles r !! path)
                         ciphertext in
  (r <| r_deliveryDestinations ::= <[DHash d := d]> |> <| r_ratchetFiles ::= partial_alter (fun _ => disk) path |>, x).

(** Whether a message was stored or processed before. *)
Definition already_processed (transientID : bytes) (r : Router) : bool :=
  bool_decide (is_Some (r_propagationEntries r !! transientID)) || hasProcessedTransientIDLocked transientID r.

(** The encrypted form of a message for a local destination: decrypted,
    unpacked and handled.  The result says whether that worked. *)
Definition deliver_encrypted (env : RouterEnv) (d : DestinationT) (payload transientID : bytes) (r : Router)
    : Router * res lx_err bool :=
  let '(r, x) := decrypt_delivery env d (drop DestinationLength payload) r in
  match x with
  | Ok decrypted =>
      let '(r, y) := deliver_bytes env (take DestinationLength payload ++ decrypted) MethodPropagated r in
      match y with
      | Ok _ => (r <| r_locallyDeliveredIDs ::= <[transientID := re_now env]> |>, Ok true)
      | Err _ => (r, Ok false)
      | Panic => (r, Panic)
      end
  | Err _ => (r, Ok false)
  | Panic => (r, Panic)
  end.

(** The result says whether the message is a duplicate. *)
Definition handlePropagatedInboundAllowDuplicate (env : RouterEnv) (payload : bytes) (allowDuplicate : bool)
    (r : Router) : Router * res lx_err bool :=
  if zlen payload <? Z.of_nat DestinationLength then (r, Ok false)
  else
    let transientID := FullHash payload in
    if negb allowDuplicate && already_processed transientID r then (r, Ok true)
    else
      let r := r <| r_locallyProcessedIDs ::= <[transientID := re_now env]> |> in
      match r_deliveryDestinations r !! take DestinationLength payload with
      | None => (r, Ok false)
      | Some d =>
          let '(r, x) := deliver_encrypted env d payload transientID r in
          (r, match x with Ok _ => Ok false | Err e => Err e | Panic => Panic end)
      end.

Definition handlePropagatedInbound (env : RouterEnv) (payload : bytes) (r : Router) : Router * res lx_err bool :=
  handlePropagatedInboundAllowDuplicate env payload false r.

(** ** Paper messages *)

Definition URISchema : bytes := [108; 120; 109]. (* lxm *)
Definition uri_prefix : bytes := URISchema ++ [58; 47; 47].

(** The URL-safe base64 alphabet. *)
Definition b64_char (d : Z) : Z :=
  if d <? 26 then 65 + d else if d <? 52 then 71 + d else if d <? 62 then d - 4 else if d =? 62 then 45 else 95.
Definition b64_value (c : Z) : option Z :=
  if (65 <=? c) && (c <=? 90) then Some (c - 65)
  else if (97 <=? c) && (c <=? 122) then Some (c - 71)
  else if (48 <=? c) && (c <=? 57) then Some (c + 4)
  else if c =? 45 then Some 62 else if c =? 95 then Some 63 else None.

(** [base64.RawURLEncoding.EncodeToString]. *)
Fixpoint b64_encode (data : bytes) : bytes :=
  match data with
  | a :: b :: c :: rest =>
      b64_char (a / 4) :: b64_char (a mod 4 * 16 + b / 16) :: b64_char (b mod 16 * 4 + c / 64) ::
      b64_char (c mod 64) :: b64_encode rest
  | [a; b] => [b64_char (a / 4); b64_char (a mod 4 * 16 + b / 16); b64_char (b mod 16 * 4)]
  | [a] => [b64_char (a / 4); b64_char (a mod 4 * 16)]
  | [] => []
  end.

(** The bytes of a list of six-bit digits; a single digit left over is an
    error, the unused bits of the last digit are not looked at. *)
Fixpoint b64_join (ds : list Z) : option bytes :=
  match ds with
  | d1 :: d2 :: d3 :: d4 :: rest =>
      r ← b64_join rest;
      Some ((d1 * 4 + d2 / 16) :: (d2 mod 16 * 16 + d3 / 4) :: (d3 mod 4 * 64 + d4) :: r)
  | [d1; d2; d3] => Some [d1 * 4 + d2 / 16; d2 mod 16 * 16 + d3 / 4]
  | [d1; d2] => Some [d1 * 4 + d2 / 16]
  | [_] => None
  | [] => Some []
  end%stdpp.

(** [base64.RawURLEncoding.DecodeString], which skips line ends. *)
Definition b64_decode (s : bytes) : option bytes :=
  ds ← mapM b64_value (filter (fun c => c <> 10 /\ c <> 13) s); b64_join ds.

Definition lower (c : Z) : Z := if (65 <=? c) && (c <=? 90) then c + 32 else c.

(** [decodeLXMURI].  The second attempt with padding fails on every input the
    first one fails on: padding is only accepted after two or three digits. *)
Definition decodeLXMURI (uri : bytes) : res router_err bytes :=
  if (zlen uri <? zlen uri_prefix) || negb (bytes_eqb (map lower (take (length uri_prefix) uri)) uri_prefix)
  then Err ErrURISchema
  else
    let encoded := filter (fun c => c <> 47 /\ c <> 61) (drop (length uri_prefix) uri) in
    match b64_decode encoded with Some data => Ok data | None => Err ErrURIBase64 end.

(** [AsURI], with the message after [markPaperGenerated] where it is
    finalised. *)
Definition markPaperGenerated (m : Message) : Message := m <| m_state := StatePaper |> <| m_progress := 1%float |>.

Definition AsURI (env : PackEnv) (finalise : bool) (m : Message) : option (Message * res lx_err bytes) :=
  match ensure_packed env m with
  | None => None
  | Some (m, Err e) => Some (m, Err e)
  | Some (m, Panic) => Some (m, Panic)
  | Some (m, Ok _) =>
      if negb (m_DesiredMethod m =? MethodPaper) then Some (m, Err ErrNotPaper)
      else match m_PaperPacked m with
           | Some paperPacked =>
               if m_method m =? MethodPaper then
                 Some (if finalise then markPaperGenerated (DetermineTransportEncryption m) else m,
                       Ok (uri_prefix ++ b64_encode paperPacked))
               else Some (m, Err ErrNoPaperPacked)
           | None => Some (m, Err ErrNoPaperPacked)
           end
  end.

(** ** Propagated messages *)

(** The part of [ProcessDeferredStamps] that stamps a message for the node it
    is propagated by: the stamp is set and the message packed again.  The
    result says whether that worked; if not, the message fails. *)
Definition stamp_propagated (env : PackEnv) (targetCost : Z) (m : Message) : option (Message * res lx_err bool) :=
  match GetPropagationStampWithContext env Background targetCost m with
  | None => None
  | Some (m, Panic) => Some (m, Panic)
  | Some (m, Err _) => Some (m, Ok false)
  | Some (m, Ok propagationStamp) =>
      if zlen propagationStamp =? 0 then Some (m, Ok false)
      else
        match Pack env (resetPackedState true
                          (m <| m_PropagationStamp := propagationStamp |> <| m_DeferPropagationStamp := false |>)) with
        | None => None
        | Some (m, Ok _) => Some (m, Ok true)
        | Some (m, Err _) => Some (m, Ok false)
        | Some (m, Panic) => Some (m, Panic)
        end
  end.

End Delivery.
