(* ===== verification/LxmfNode.v ===== *)
(** * The LXMF propagation node

    Models of [lxmf/router.go] what a router does as a propagation node: the
    message store and its files, the validation and ingestion of messages, the
    packets and resources that carry them, the offers of peers, the requests of
    clients for their messages, and the cleaning of the store.

    The store is a map from transient IDs to entries and a directory of files.
    Formatting and parsing a float are an interface ([FloatText]) with the
    documented law that the shortest decimal form reads back as the same float.
    The iteration of a Go map or of a directory, where the outcome depends on
    it, is an argument.  [sort.Slice] need not be stable: where elements can
    compare equal, the iteration order it starts from is arbitrary. *)

From stdpp Require Import base tactics option list gmap.
From Stdlib Require Import ZArith Lia Floats.
From S2P Require Import Prelude Clock Crypto Packet Msgpack Identity LxmfStamps LxmfTickets LxmfMessage LxmfRouter.
Local Open Scope Z_scope.
Local Open Scope go_scope.

(** [strconv.FormatFloat(f, 'f', -1, 64)] and [strconv.ParseFloat(s, 64)]. *)
Class FloatText := {
  format_float : float -> bytes;
  parse_float : bytes -> option float;
}.
Definition underscore : Z := 95.
Class FloatTextLaws `{FloatText} := {
  parse_format f : PrimFloat.is_finite f = true -> parse_float (format_float f) = Some f;
  format_plain f : PrimFloat.is_finite f = true -> underscore ∉ format_float f;
}.

(** ** Text *)

(** The decimal digits of a number, most significant first. *)
Fixpoint digits_of (fuel : nat) (n : Z) (acc : bytes) : bytes :=
  match fuel with
  | O => acc
  | S fuel' => if n <? 10 then (48 + n) :: acc else digits_of fuel' (n / 10) ((48 + n mod 10) :: acc)
  end.
Definition Itoa (n : Z) : bytes :=
  let text n := digits_of (S (Z.to_nat (Z.log2 n))) n [] in
  if n <? 0 then 45 :: text (- n) else text n.

Fixpoint read_digits (acc : Z) (s : bytes) : option Z :=
  match s with
  | [] => Some acc
  | c :: s' => if (48 <=? c) && (c <=? 57) then read_digits (acc * 10 + (c - 48)) s' else None
  end.
Definition Atoi (s : bytes) : option Z :=
  let read neg ds :=
    match ds with
    | [] => None
    | _ => match read_digits 0 ds with
           | Some n => let v := if neg : bool then - n else n in
                       if (- 2 ^ 63 <=? v) && (v <? 2 ^ 63) then Some v else None
           | None => None
           end
    end in
  match s with
  | c :: ds => if c =? 45 then read true ds else if c =? 43 then read false ds else read false s
  | [] => None
  end.

Definition hex_value (c : Z) : option Z :=
  if (48 <=? c) && (c <=? 57) then Some (c - 48)
  else if (97 <=? c) && (c <=? 102) then Some (c - 87)
  else if (65 <=? c) && (c <=? 70) then Some (c - 55) else None.
(** [hex.DecodeString]. *)
Fixpoint hex_decode (s : bytes) : option bytes :=
  match s with
  | [] => Some []
  | [_] => None
  | a :: b :: rest =>
      match hex_value a, hex_value b, hex_decode rest with
      | Some x, Some y, Some r => Some (x * 16 + y :: r)
      | _, _, _ => None
      end
  end.

(** [strings.Split(s, "_")]. *)
Fixpoint split_underscores (s acc : bytes) : list bytes :=
  match s with
  | [] => [acc]
  | c :: s' => if c =? underscore then acc :: split_underscores s' [] else split_underscores s' (acc ++ [c])
  end.

(** Stable insertion sort. *)
Fixpoint insert_by {A} (less : A -> A -> bool) (x : A) (l : list A) : list A :=
  match l with
  | [] => [x]
  | y :: l' => if less y x then y :: insert_by less x l' else x :: l
  end.
Definition sort_by {A} (less : A -> A -> bool) (l : list A) : list A := foldr (insert_by less) [] l.

(** ** Instants as seconds *)

Definition peerTime (t : Z) : float := unix_seconds t.
Definition zeroTime : Z := - 62135596800 * Second.
Definition timeFromPeerValue (v : float) : Z := if PrimFloat.leb v 0 then zeroTime else seconds_to_Duration v.

Section Node.
Context `{Sha256, BlockCipher, Curves, HashState, FloatText}.

(** ** The store *)

Definition file_name (transientID : bytes) (receivedAt stampValue : Z) (stampData : bytes) : bytes :=
  let base := hex transientID ++ [underscore] ++ format_float (peerTime receivedAt) in
  if (0 <? zlen stampData) && (stampValue <=? 0) then base else base ++ [underscore] ++ Itoa stampValue.

(** Name and content of the file. *)
Definition writePropagationMessageFile (transientID : bytes) (receivedAt stampValue : Z)
    (destinationHash payload stampData : bytes) : bytes * bytes :=
  (file_name transientID receivedAt stampValue stampData,
   if 0 <? zlen stampData then payload ++ stampData else destinationHash ++ payload).

Definition parsePropagationStoreFilename (name : bytes) : option (bytes * Z * Z) :=
  match split_underscores name [] with
  | c0 :: c1 :: c2 :: _ =>
      match hex_decode c0, parse_float c1, Atoi c2 with
      | Some transientID, Some received, Some stampValue =>
          if PrimFloat.leb received 0 then None else Some (transientID, timeFromPeerValue received, stampValue)
      | _, _, _ => None
      end
  | _ => None
  end.

Definition nextPropagationEntryOrderLocked (transientID : bytes) (r : Router) : Router * Z :=
  match r_propagationEntries r !! transientID with
  | Some existing =>
      if 0 <? e_order existing then (r, e_order existing)
      else (r <| r_propagationEntrySeq ::= fun n => u64 (n + 1) |>, u64 (r_propagationEntrySeq r + 1))
  | None => (r <| r_propagationEntrySeq ::= fun n => u64 (n + 1) |>, u64 (r_propagationEntrySeq r + 1))
  end.

(** [fromPeer] is the hash of the sending peer, empty if there is none. *)
Definition enqueuePeerDistributionLocked (transientID fromPeer : bytes) (r : Router) : Router :=
  if zlen transientID =? 0 then r else r <| r_peerDistributionQueue ::= fun q => q ++ [(transientID, fromPeer)] |>.

Definition storePropagationMessageStamped (env : RouterEnv) (destinationHash payload stampData : bytes)
    (stampValue : Z) (fromPeer : bytes) (r : Router) : Router * bytes :=
  let transientID := FullHash payload in
  let '(r, order) := nextPropagationEntryOrderLocked transientID r in
  let entry := mkEntry destinationHash payload (re_now env) order [] [] [] (zlen destinationHash + zlen payload)
                 stampValue in
  let '(r, entry) :=
    if r_propagationEnabled r && re_writable env then
      let '(path, data) := writePropagationMessageFile transientID (re_now env) stampValue destinationHash payload
                             stampData in
      (r <| r_messageStore ::= <[path := data]> |>, entry <| e_path := path |> <| e_size := zlen data |>)
    else (r, entry) in
  let r := r <| r_propagationEntries ::= <[transientID := entry]> |> in
  (enqueuePeerDistributionLocked transientID fromPeer r, transientID).

Definition removePropagationEntryLocked (transientID : bytes) (r : Router) : Router :=
  match r_propagationEntries r !! transientID with
  | None => r
  | Some entry =>
      let r := r <| r_propagationEntries ::= delete transientID |> in
      if zlen (e_path entry) =? 0 then r else r <| r_messageStore ::= delete (e_path entry) |>
  end.

(** The entry of a file, if its name and size are right. *)
Definition indexed_entry (name fileData : bytes) (order : Z) : option (bytes * propagationEntry) :=
  match parsePropagationStoreFilename name with
  | None => None
  | Some (transientID, receivedAt, stampValue) =>
      if zlen fileData <? Z.of_nat DestinationLength then None
      else
        let candidatePayload := take (length fileData - StampSize) fileData in
        let stamped := (DestinationLength + StampSize <=? length fileData)%nat &&
                       bytes_eqb (FullHash candidatePayload) transientID in
        let payload := if stamped then candidatePayload else drop DestinationLength fileData in
        Some (transientID, mkEntry (take DestinationLength fileData) payload receivedAt order [] [] name
                             (zlen fileData) stampValue)
  end.

(** [names] is the order in which the directory lists its files. *)
Definition reindexPropagationStoreLocked (names : list bytes) (r : Router) : Router :=
  let step (acc : gmap bytes propagationEntry * Z) name :=
    match r_messageStore r !! name with
    | None => acc
    | Some fileData =>
        match indexed_entry name fileData (acc.2 + 1) with
        | Some (id, e) => (<[id := e]> acc.1, acc.2 + 1)
        | None => acc
        end
    end in
  let '(indexed, sequence) := fold_left step names (∅, 0) in
  r <| r_propagationEntries := indexed |> <| r_propagationEntrySeq := sequence |>.

(** ** Cleaning *)

Definition messageStorageSizeLocked (r : Router) : float :=
  if r_propagationEnabled r then float_of_Z (map_fold (fun _ e n => e_size e + n) 0 (r_propagationEntries r))
  else 0%float.

Definition getWeightLocked (now : Z) (transientID : bytes) (r : Router) : float :=
  match r_propagationEntries r !! transientID with
  | None => 0%float
  | Some entry =>
      let ageWeight := (Seconds (Sub now (e_receivedAt entry)) / 60 / 60 / 24 / 4)%float in
      let ageWeight := if PrimFloat.ltb ageWeight 1 then 1%float else ageWeight in
      let priorityWeight := if bool_decide (e_destinationHash entry ∈ r_prioritisedList r) then 0.1%float else 1%float in
      (priorityWeight * ageWeight * float_of_Z (e_size entry))%float
  end.

(** Whether an entry with a file is removed: its file name does not match it,
    or it has expired. *)
Definition is_stale (now : Z) (transientID : bytes) (entry : propagationEntry) : bool :=
  if zlen (e_path entry) =? 0 then false
  else match parsePropagationStoreFilename (e_path entry) with
       | None => true
       | Some (parsedID, timestamp, stampValue) =>
           negb (bytes_eqb parsedID transientID && PrimFloat.eqb (peerTime timestamp) (peerTime (e_receivedAt entry)) &&
                 (stampValue =? e_stampValue entry)) ||
           After now (Add timestamp messageExpiry)
       end.

(** Removes entries until enough bytes are cleaned. *)
Fixpoint remove_heaviest (ids : list bytes) (bytesNeeded bytesCleaned : float) (r : Router) : Router :=
  match ids with
  | [] => r
  | id :: ids' =>
      if PrimFloat.leb bytesNeeded bytesCleaned then r
      else
        let sz := match r_propagationEntries r !! id with Some e => float_of_Z (e_size e) | None => 0%float end in
        remove_heaviest ids' bytesNeeded (bytesCleaned + sz)%float (removePropagationEntryLocked id r)
  end.

Definition cleanMessageStoreLocked (now : Z) (iter : list bytes -> list bytes) (r : Router) : Router :=
  let removed := (map_to_list (filter (fun e => is_stale now e.1 e.2 = true) (r_propagationEntries r))).*1 in
  let r := foldr removePropagationEntryLocked r removed in
  if PrimFloat.leb (r_messageStorageLimit r) 0 then r
  else
    let messageStorageSize := messageStorageSizeLocked r in
    if PrimFloat.leb messageStorageSize (r_messageStorageLimit r) then r
    else
      let bytesNeeded := (messageStorageSize - r_messageStorageLimit r)%float in
      let weighted := map (fun id => (id, getWeightLocked now id r))
                        (iter (map_to_list (r_propagationEntries r)).*1) in
      let sorted := sort_by (fun a b => PrimFloat.ltb b.2 a.2) weighted in
      remove_heaviest sorted.*1 bytesNeeded 0%float r.

(** ** Ingesting messages *)

Record validatedPropagationMessage := mkValidated {
  v_transientID : bytes;
  v_lxmfData : bytes;
  v_stampData : bytes;
  v_stampValue : Z;
}.

Definition validatePropagationMessage (transientData : bytes) (targetCost : Z) : option validatedPropagationMessage :=
  if (length transientData <=? 2 * DestinationLength + SignatureLength + StampSize)%nat then None
  else
    let lxmfData := take (length transientData - StampSize) transientData in
    let stampData := drop (length transientData - StampSize) transientData in
    let transientID := FullHash lxmfData in
    match StampWorkblock transientID WorkblockExpandRoundsPN with
    | Ok workblock =>
        if StampValid stampData targetCost workblock
        then Some (mkValidated transientID lxmfData stampData (StampValue workblock stampData))
        else None
    | _ => None
    end.

Definition validatePropagationMessages (messages : list bytes) (targetCost : Z) : list validatedPropagationMessage :=
  omap (fun m => validatePropagationMessage m targetCost) messages.

(** Whether the message was taken. *)
Definition ingestPropagationMessageAllowDuplicate (env : RouterEnv) (lxmfData stampData fromPeer : bytes)
    (stampValue : Z) (allowDuplicate : bool) (r : Router) : Router * res lx_err bool :=
  if zlen lxmfData <? Z.of_nat DestinationLength then (r, Ok false)
  else
    let transientID := FullHash lxmfData in
    let destinationHash := take DestinationLength lxmfData in
    if negb allowDuplicate && already_processed transientID r then (r, Ok false)
    else
      let r := r <| r_locallyProcessedIDs ::= <[transientID := re_now env]> |> in
      match r_deliveryDestinations r !! destinationHash with
      | Some _ =>
          let '(r, x) := handlePropagatedInboundAllowDuplicate env lxmfData allowDuplicate r in
          (r, match x with Ok _ => Ok true | Err e => Err e | Panic => Panic end)
      | None =>
          if negb (r_propagationEnabled r) then (r, Ok false)
          else
            let '(r, storedID) := storePropagationMessageStamped env destinationHash lxmfData stampData stampValue
                                    fromPeer r in
            (r, Ok (0 <? zlen storedID))
      end.

Definition ingestPropagationMessage (env : RouterEnv) (lxmfData stampData fromPeer : bytes) (stampValue : Z)
    (r : Router) : Router * res lx_err bool :=
  ingestPropagationMessageAllowDuplicate env lxmfData stampData fromPeer stampValue false r.

Inductive IngestOutcome :=
  | IngestOutcomeNone
  | IngestOutcomeDuplicate
  | IngestOutcomeLocalDelivery
  | IngestOutcomePropagated
  | IngestOutcomeDiscarded.

Definition Accepted (o : IngestOutcome) : bool :=
  match o with IngestOutcomeLocalDelivery | IngestOutcomePropagated => true | _ => false end.

Definition ingestURIOutcome (env : RouterEnv) (lxmfData : bytes) (allowDuplicate : bool) (r : Router)
    : Router * res lx_err IngestOutcome :=
  if zlen lxmfData <? Z.of_nat DestinationLength then (r, Ok IngestOutcomeNone)
  else
    let transientID := FullHash lxmfData in
    let destinationHash := take DestinationLength lxmfData in
    if negb allowDuplicate && already_processed transientID r then (r, Ok IngestOutcomeDuplicate)
    else
      let r := r <| r_locallyProcessedIDs ::= <[transientID := re_now env]> |> in
      match r_deliveryDestinations r !! destinationHash with
      | Some d =>
          let '(r, x) := deliver_encrypted env d lxmfData transientID r in
          (r, match x with
              | Ok true => Ok IngestOutcomeLocalDelivery
              | Ok false => Ok IngestOutcomeDiscarded
              | Err e => Err e
              | Panic => Panic
              end)
      | None =>
          if negb (r_propagationEnabled r) then (r, Ok IngestOutcomeDiscarded)
          else
            let '(r, storedID) := storePropagationMessageStamped env destinationHash lxmfData [] 0 [] r in
            (r, Ok (if 0 <? zlen storedID then IngestOutcomePropagated else IngestOutcomeDiscarded))
      end.

Definition IngestLXMURIOutcome (env : RouterEnv) (uri : bytes) (r : Router)
    : Router * res router_err IngestOutcome :=
  match decodeLXMURI uri with
  | Ok lxmfData =>
      let '(r, x) := ingestURIOutcome env lxmfData false r in
      (r, match x with Ok y => Ok y | _ => Panic end)
  | Err e => (r, Err e)
  | Panic => (r, Panic)
  end.

(** ** Peers by announce *)

Record propagationAnnounceData := mkPnAnnounce {
  pn_nodeTimebase : float;
  pn_propagationEnabled : bool;
  pn_propagationTransferLimit : float;
  pn_propagationSyncLimit : Z;
  pn_propagationStampCost : Z;
  pn_propagationStampCostFlexibility : Z;
  pn_peeringCost : Z;
  pn_metadata : list (value * value);
}.

Definition decodePropagationAnnounceData (appData : bytes) : option propagationAnnounceData :=
  match Msgpack.Unpack appData with
  | Ok (VArr (_ :: timebase :: VBool enabled :: transfer :: sync :: VArr (c0 :: c1 :: c2 :: _) :: VMap metadata :: _)) =>
      match anyToFloat64 timebase, anyToFloat64 transfer, anyToInt sync, anyToInt c0, anyToInt c1, anyToInt c2 with
      | Some timebase, Some transfer, Some sync, Some c0, Some c1, Some c2 =>
          Some (mkPnAnnounce timebase enabled transfer sync c0 c1 c2 metadata)
      | _, _, _, _, _, _ => None
      end
  | _ => None
  end.

Definition NewPeer (env : RouterEnv) (destinationHash : bytes) : Peer :=
  let i := if zlen destinationHash =? 0 then None else re_recall env destinationHash in
  let d := match i with
           | None => None
           | Some _ =>
               match NewDestination (fun _ => Panic) (fun _ => Panic) i DestinationOut DestinationSingle AppName
                       [aspect_propagation] with
               | Ok d => Some d
               | _ => None
               end
           end in
  mkPeer destinationHash i d false 0%float DefaultPeerSyncStrategy None None [] 0%float 0%float 0%float 0%float 0%float
    None None None None None 0%float [] [] 0 0 false false false PeerStateIdle [] [] 0 0 0 0 0.

Definition unpeerLocked (destinationHash : bytes) (timestamp : float) (r : Router) : Router :=
  match r_peers r !! destinationHash with
  | None => r
  | Some p =>
      if PrimFloat.leb (pr_peeringTimebase p) timestamp then r <| r_peers ::= delete destinationHash |> else r
  end.

(** What an announce tells about a peer. *)
Definition note_announce (now : Z) (a : propagationAnnounceData) (p : Peer) : Peer :=
  p <| pr_alive := true |> <| pr_metadata := pn_metadata a |> <| pr_lastHeard := peerTime now |>
    <| pr_peeringTimebase := pn_nodeTimebase a |>
    <| pr_propagationStampCost := Some (pn_propagationStampCost a) |>
    <| pr_propagationStampCostFlexibility := Some (pn_propagationStampCostFlexibility a) |>
    <| pr_peeringCost := Some (pn_peeringCost a) |>
    <| pr_propagationTransferLimit := Some (pn_propagationTransferLimit a) |>
    <| pr_propagationSyncLimit := Some (pn_propagationSyncLimit a) |>.

Definition peer (env : RouterEnv) (destinationHash : bytes) (a : propagationAnnounceData) (r : Router) : Router :=
  if r_maxPeeringCost r <? pn_peeringCost a then unpeerLocked destinationHash (pn_nodeTimebase a) r
  else match r_peers r !! destinationHash with
  | Some p =>
      if PrimFloat.leb (pn_nodeTimebase a) (pr_peeringTimebase p) then r
      else
        r <| r_peers ::= <[destinationHash := note_announce (re_now env) a p <| pr_syncBackoff := 0%float |>
                                                <| pr_nextSyncAttempt := 0%float |>]> |>
  | None =>
      if r_maxPeers r <=? Z.of_nat (base.size (r_peers r)) then r
      else r <| r_peers ::= <[destinationHash := note_announce (re_now env) a (NewPeer env destinationHash)]> |>
  end.

(** The part of [handlePropagationAnnounceWithContext] about peers. *)
Definition peer_announced (env : RouterEnv) (destinationHash : bytes) (a : propagationAnnounceData)
    (isPathResponse : bool) (r : Router) : Router :=
  if negb (r_propagationEnabled r) then r
  else if bool_decide (destinationHash ∈ r_staticPeers r) then
    if negb isPathResponse ||
       match r_peers r !! destinationHash with None => true | Some p => PrimFloat.eqb (pr_lastHeard p) 0 end
    then peer env destinationHash a r else r
  else if negb (r_autopeer r) || isPathResponse then r
  else if pn_propagationEnabled a then
    if re_hopsTo env destinationHash <=? r_autopeerMaxdepth r then peer env destinationHash a r
    else unpeerLocked destinationHash (pn_nodeTimebase a) r
  else unpeerLocked destinationHash (pn_nodeTimebase a) r.

Definition handlePropagationAnnounce (env : RouterEnv) (destinationHash appData : bytes) (isPathResponse : bool)
    (r : Router) : Router :=
  match appData with
  | [] => r
  | _ => match decodePropagationAnnounceData appData with
         | Some a => peer_announced env destinationHash a isPathResponse r
         | None => r
         end
  end.

Definition maybeAutopeerIdentifiedPropagationSender (env : RouterEnv) (remoteHash : bytes) (r : Router) : Router :=
  if (zlen remoteHash =? 0) || negb (r_autopeer r) then r
  else if r_autopeerMaxdepth r <? re_hopsTo env remoteHash then r
  else match re_recall env remoteHash with
  | None => r
  | Some i =>
      if zlen (AppData i) =? 0 then r
      else match decodePropagationAnnounceData (AppData i) with
           | Some a => if pn_propagationEnabled a then peer env remoteHash a r else r
           | None => r
           end
  end.

(** ** Packets and resources *)

(** The messages of a propagation packet or resource; [None] if malformed. *)
Definition propagation_messages (data : bytes) : option (list bytes) :=
  match decodeAnyList data with
  | Some [cost; messages] =>
      match anyToFloat64 cost with Some _ => Some (anySliceToByteSlices messages) | None => None end
  | _ => None
  end.

Definition minAcceptedCost (r : Router) : Z := Z.max (r_propagationCost r - r_propagationCostFlexibility r) 0.

Inductive packet_reply := NoReply | Proved | Rejected.

(** The loop over the validated messages of a packet. *)
Fixpoint ingest_client (env : RouterEnv) (validated : list validatedPropagationMessage) (r : Router)
    : Router * res lx_err unit :=
  match validated with
  | [] => (r, Ok tt)
  | entry :: rest =>
      match ingestPropagationMessage env (v_lxmfData entry) (v_stampData entry) [] (v_stampValue entry) r with
      | (r, Ok taken) =>
          ingest_client env rest (if taken : bool then r <| r_clientPropagationMessagesReceived ::= Z.succ |> else r)
      | (r, Err e) => (r, Err e)
      | (r, Panic) => (r, Panic)
      end
  end.

(** [toLink]: the packet came over a link.  A rejection signals the invalid
    stamp and tears the link down. *)
Definition propagationPacket (env : RouterEnv) (toLink : bool) (data : bytes) (r : Router)
    : Router * res lx_err packet_reply :=
  if negb toLink then (r, Ok NoReply)
  else match propagation_messages data with
  | None | Some [] => (r, Ok NoReply)
  | Some messages =>
      let validated := validatePropagationMessages messages (minAcceptedCost r) in
      let '(r, x) := ingest_client env validated r in
      (r, match x with
          | Ok _ => Ok (if (length validated =? length messages)%nat then Proved else Rejected)
          | Err e => Err e
          | Panic => Panic
          end)
  end.

Definition popAcceptedOfferLink (linkID : bytes) (r : Router) : Router := r <| r_acceptedOfferLinks ::= delete linkID |>.

Definition propagationResourceAdvertised (linkID : bytes) (remoteIdentity : option Identity) (dataSize : Z)
    (r : Router) : Router * bool :=
  let refused_sender :=
    r_fromStaticOnly r &&
    match remoteIdentity with
    | None => true
    | Some i => negb (bool_decide (CalculateHash (Some i) AppName [aspect_propagation] ∈ r_staticPeers r))
    end in
  if refused_sender then (r, false)
  else
    let limit := r_propagationPerSyncLimit r in
    if PrimFloat.ltb 0 limit && PrimFloat.ltb (limit * 1000)%float (float_of_Z dataSize) then (r, false)
    else (r <| r_acceptedOfferLinks ::= alter (fun _ => OfferTransferring) linkID |>, true).

Definition QueueHandledMessage (transientID : bytes) (p : Peer) : Peer :=
  if zlen transientID =? 0 then p else p <| pr_handledMessagesQueue ::= fun q => q ++ [transientID] |>.
Definition QueueUnhandledMessage (transientID : bytes) (p : Peer) : Peer :=
  if zlen transientID =? 0 then p else p <| pr_unhandledMessagesQueue ::= fun q => q ++ [transientID] |>.

(** The loop over the validated messages of a resource.  [sender] is the hash
    of the identified sender, if there is one; it is a peer if the peers map
    has it. *)
Fixpoint ingest_synced (env : RouterEnv) (sender : option bytes) (isPeer : bool)
    (validated : list validatedPropagationMessage) (r : Router) : Router * res lx_err unit :=
  match validated with
  | [] => (r, Ok tt)
  | entry :: rest =>
      let n := zlen (v_lxmfData entry) in
      let h := default [] sender in
      let r := if isPeer then r <| r_peers ::= alter (fun p => p <| pr_incoming ::= Z.succ |>
                                                               <| pr_rxBytes ::= Z.add n |>) h |>
               else match sender with
                    | Some _ => r <| r_unpeeredPropagationIncoming ::= Z.succ |>
                                  <| r_unpeeredPropagationRXBytes ::= Z.add n |>
                    | None => r <| r_clientPropagationMessagesReceived ::= Z.succ |>
                    end in
      match ingestPropagationMessage env (v_lxmfData entry) (v_stampData entry) (if isPeer then h else [])
              (v_stampValue entry) r with
      | (r, Ok _) =>
          ingest_synced env sender isPeer rest
            (if isPeer then r <| r_peers ::= alter (QueueHandledMessage (v_transientID entry)) h |> else r)
      | (r, Err e) => (r, Err e)
      | (r, Panic) => (r, Panic)
      end
  end.

(** While the stamps are validated, the offer's state and the batch are
    recorded. *)
Definition begin_validation (env : RouterEnv) (linkID : bytes) (sender : option bytes) (r : Router) : Router :=
  match sender with
  | Some h => r <| r_acceptedOfferLinks ::= alter (fun _ => OfferValidating) linkID |>
                <| r_validatingPnStampsFrom ::= <[h := re_now env]> |>
  | None => r
  end.
Definition end_validation (linkID : bytes) (sender : option bytes) (r : Router) : Router :=
  let r := match sender with Some h => r <| r_validatingPnStampsFrom ::= delete h |> | None => r end in
  popAcceptedOfferLink linkID r.

(** [propagationResourceConcluded] on a link: [data] is the resource's data if
    it is complete.  The result says whether the link is torn down. *)
Definition propagationResourceConcluded (env : RouterEnv) (linkID : bytes) (remoteIdentity : option Identity)
    (data : option bytes) (r : Router) : Router * res lx_err bool :=
  match data ≫= propagation_messages with
  | None | Some [] => (popAcceptedOfferLink linkID r, Ok false)
  | Some messages =>
      let sender := (fun i => CalculateHash (Some i) AppName [aspect_propagation]) <$> remoteIdentity in
      let r := match sender with Some h => maybeAutopeerIdentifiedPropagationSender env h r | None => r end in
      let isPeer := match sender with Some h => bool_decide (is_Some (r_peers r !! h)) | None => false end in
      let peeringKeyValid := match sender with Some _ => bool_decide (linkID ∈ r_validatedPeerLinks r) | None => false end in
      if negb peeringKeyValid && (1 <? zlen messages) then (popAcceptedOfferLink linkID r, Ok true)
      else
        let r := begin_validation env linkID sender r in
        let validated := validatePropagationMessages messages (minAcceptedCost r) in
        let r := end_validation linkID sender r in
        let '(r, x) := ingest_synced env sender isPeer validated r in
        match x with
        | Ok _ =>
            if (length validated =? length messages)%nat then (r, Ok false)
            else
              (match sender with
               | Some h => if zlen h =? TruncatedHashLength / 8
                           then r <| r_throttledPeers ::= <[h := Add (re_now env) pnStampThrottle]> |> else r
               | None => r
               end, Ok true)
        | Err e => (r, Err e)
        | Panic => (r, Panic)
        end
  end.

(** ** Requests *)

(** [rns.RequestDataBytes]. *)
Definition RequestDataBytes (data : value) : bytes :=
  match data with
  | VNil => []
  | VBin b => b
  | v => match Msgpack.Pack v with (b, None) => b | _ => [] end
  end.

Definition PropagationResourcesTransferring (r : Router) : Z :=
  Z.of_nat (base.size (filter (fun e => (OfferAccepted <? e.2) = true) (r_acceptedOfferLinks r))).

(** Whether an offer of a peer is refused before it is read, and with which
    code; an expired throttle is dropped. *)
Definition offer_gate (env : RouterEnv) (remoteHash : bytes) (r : Router) : Router * option Z :=
  let bypassSequential := negb (r_propagationStaticPeerSequential r) && bool_decide (remoteHash ∈ r_staticPeers r) in
  if negb bypassSequential && r_propagationSequentialValidation r && bool_decide (r_validatingPnStampsFrom r ≠ ∅) then
    (r, Some peerErrorThrottled)
  else if negb bypassSequential && (0 <? r_propagationMaxInboundSyncs r) &&
          (r_propagationMaxInboundSyncs r <=? PropagationResourcesTransferring r) then
    (r, Some peerErrorThrottled)
  else
    let static_check r :=
      if r_fromStaticOnly r && negb (bool_decide (remoteHash ∈ r_staticPeers r)) then Some peerErrorNoAccess else None in
    match r_throttledPeers r !! remoteHash with
    | Some until =>
        if Before (re_now env) until then (r, Some peerErrorThrottled)
        else let r := r <| r_throttledPeers ::= delete remoteHash |> in (r, static_check r)
    | None => (r, static_check r)
    end.

(** The answer: an error code, nil, false, true or the wanted IDs. *)
Definition offerRequest (env : RouterEnv) (requestData : value) (linkID : bytes) (remoteIdentity : option Identity)
    (r : Router) : Router * value :=
  match remoteIdentity with
  | None => (r, VInt peerErrorNoIdentity)
  | Some remote =>
      let remoteHash := CalculateHash (Some remote) AppName [aspect_propagation] in
      let '(r, refused) := offer_gate env remoteHash r in
      match refused with
      | Some code => (r, VInt code)
      | None =>
          match decodeAnyList (RequestDataBytes requestData) with
          | None => (r, VInt peerErrorInvalidData)
          | Some (key :: ids :: _) =>
              let peeringKey := anyToBytes key in
              if zlen peeringKey =? 0 then (r, VInt peerErrorInvalidKey)
              else if (0 <? r_peeringCost r) &&
                      negb (ValidatePeeringKey (IHash (r_identity r) ++ IHash remote) peeringKey (r_peeringCost r)) then
                (r, VInt peerErrorInvalidKey)
              else
                let transientIDs := anySliceToByteSlices ids in
                if zlen transientIDs =? 0 then (r, VInt peerErrorInvalidData)
                else
                  let r := if 0 <? zlen linkID then r <| r_validatedPeerLinks ::= union {[linkID]} |> else r in
                  let wantedIDs := filter (fun id => r_propagationEntries r !! id = None) transientIDs in
                  if zlen wantedIDs =? 0 then (r, VBool false)
                  else if zlen wantedIDs =? zlen transientIDs then (r, VBool true)
                  else (if 0 <? zlen linkID then r <| r_acceptedOfferLinks ::= <[linkID := OfferAccepted]> |> else r,
                        VArr (map VBin wantedIDs))
          | Some _ => (r, VNil)
          end
      end
  end.

(** *** The messages of a client *)

(** The width of the first rune of a string, and whether it is valid UTF-8. *)
Definition is_cont (c : Z) : bool := (0x80 <=? c) && (c <=? 0xBF).
Definition between (lo hi c : Z) : bool := (lo <=? c) && (c <=? hi).
Definition rune_width (s : bytes) : nat * bool :=
  match s with
  | [] => (0%nat, false)
  | c :: s' =>
      if c <? 0x80 then (1%nat, true)
      else if between 0xC2 0xDF c then
        match s' with c1 :: _ => if is_cont c1 then (2%nat, true) else (1%nat, false) | _ => (1%nat, false) end
      else if between 0xE0 0xEF c then
        match s' with
        | c1 :: c2 :: _ =>
            let ok1 := if c =? 0xE0 then between 0xA0 0xBF c1 else if c =? 0xED then between 0x80 0x9F c1 else is_cont c1 in
            if ok1 && is_cont c2 then (3%nat, true) else (1%nat, false)
        | _ => (1%nat, false)
        end
      else if between 0xF0 0xF4 c then
        match s' with
        | c1 :: c2 :: c3 :: _ =>
            let ok1 := if c =? 0xF0 then between 0x90 0xBF c1 else if c =? 0xF4 then between 0x80 0x8F c1 else is_cont c1 in
            if ok1 && is_cont c2 && is_cont c3 then (4%nat, true) else (1%nat, false)
        | _ => (1%nat, false)
        end
      else (1%nat, false)
  end.

(** The runes of a string, each with its bytes and whether it is valid. *)
Fixpoint runes (fuel : nat) (s : bytes) : list (bytes * bool) :=
  match fuel, s with
  | S fuel', _ :: _ => let '(w, ok) := rune_width s in (take w s, ok) :: runes fuel' (drop w s)
  | _, _ => []
  end.
Definition replacement : bytes := [0xEF; 0xBF; 0xBD].

Definition numericRequestIndexMatches (v : value) (index : Z) : bool :=
  match v with
  | VBool b => if index =? 0 then negb b else if index =? 1 then b else false
  | VInt i => i =? index
  | VUint i => i =? index
  | VFloat32 bits => PrimFloat.eqb (float_of_bits32 bits) (float_of_Z index)
  | VFloat64 bits => PrimFloat.eqb (float_of_bits64 bits) (float_of_Z index)
  | _ => false
  end.

(** The first entry with a key that stands for the index. *)
Definition index_value (es : list (value * value)) (index : Z) : option value :=
  snd <$> find (fun e => numericRequestIndexMatches e.1 index) es.

Definition root_of_entries (es : list (value * value)) : option (list value) :=
  match index_value es 0, index_value es 1 with
  | Some first, Some second =>
      Some (first :: second :: if 3 <=? zlen es then [default VNil (index_value es 2)] else [])
  | _, _ => None
  end.

Definition messageGetRequestRoot (v : value) : option (list value) :=
  match v with
  | VArr l => Some l
  | VStr s => Some (map (fun x => VStr (if x.2 : bool then x.1 else replacement)) (runes (length s) s))
  | VExt ty data => Some [VInt ty; VBin data]
  | VOrdered es | VMap es => root_of_entries es
  | _ => None
  end.

Definition messageGetRequestEntries (v : value) : option (list value) :=
  match v with
  | VNil | VStr _ | VBinaryKey _ | VCollectionKey _ | VBin _ => Some []
  | VExt ty data => Some [VInt ty; VBin data]
  | VOrdered es | VMap es => Some es.*1
  | VArr l => Some l
  | _ => None
  end.

Inductive request_id := IsID (b : bytes) | NotBytes | Unhashable.

Definition messageGetRequestTransientID (v : value) : request_id :=
  match v with
  | VBin b | VBinaryKey b => IsID b
  | VArr _ | VMap _ | VOrdered _ => Unhashable
  | _ => NotBytes
  end.

(** [strings.TrimSpace]. *)
Definition is_space (r : bytes) : bool :=
  match r with
  | [c] => between 9 13 c || (c =? 32)
  | [a; b] => (a =? 0xC2) && ((b =? 0x85) || (b =? 0xA0))
  | [a; b; c] =>
      ((a =? 0xE1) && (b =? 0x9A) && (c =? 0x80)) ||
      ((a =? 0xE2) && (b =? 0x80) && (between 0x80 0x8A c || (c =? 0xA8) || (c =? 0xA9) || (c =? 0xAF))) ||
      ((a =? 0xE2) && (b =? 0x81) && (c =? 0x9F)) || ((a =? 0xE3) && (b =? 0x80) && (c =? 0x80))
  | _ => false
  end.
Fixpoint drop_spaces (l : list bytes) : list bytes :=
  match l with x :: l' => if is_space x then drop_spaces l' else l | [] => [] end.
Definition TrimSpace (s : bytes) : bytes :=
  concat (reverse (drop_spaces (reverse (drop_spaces (runes (length s) s).*1)))).

Definition MaxInt : Z := 2 ^ 63 - 1.
Definition MinInt : Z := - 2 ^ 63.

Definition limitBytesFromFloat64 (v : float) : option Z :=
  if PrimFloat.is_nan v then None
  else if PrimFloat.leb (float_of_Z MaxInt / 1000)%float v then Some MaxInt
  else if PrimFloat.leb v (- (float_of_Z MaxInt / 1000))%float then Some MinInt
  else Some (Duration_of_float (v * 1000)%float).
Definition limitBytesFromSignedInt64 (v : Z) : Z :=
  if Z.quot MaxInt 1000 <? v then MaxInt else if v <? Z.quot MinInt 1000 then MinInt else v * 1000.
Definition limitBytesFromUnsignedUint64 (v : Z) : Z := if Z.quot MaxInt 1000 <? v then MaxInt else v * 1000.

Definition text_inf : bytes := [105; 110; 102].
Definition text_infinity : bytes := [105; 110; 102; 105; 110; 105; 116; 121].
Definition parseLimitString (s : bytes) : option Z :=
  let trimmed := TrimSpace s in
  let same t := bytes_eqb (map lower trimmed) t in
  if same text_inf || same (43 :: text_inf) || same text_infinity || same (43 :: text_infinity) then Some MaxInt
  else if same (45 :: text_inf) || same (45 :: text_infinity) then Some MinInt
  else match parse_float trimmed with Some f => limitBytesFromFloat64 f | None => None end.

(** The limit of bytes in a request, if it is set. *)
Definition parseLimitBytes (request : list value) (index : nat) : option Z :=
  match request !! index with
  | Some (VBool b) => Some (if b then 1000 else 0)
  | Some (VFloat64 bits) => limitBytesFromFloat64 (float_of_bits64 bits)
  | Some (VFloat32 bits) => limitBytesFromFloat64 (float_of_bits32 bits)
  | Some (VInt i) => Some (limitBytesFromSignedInt64 i)
  | Some (VUint i) => Some (limitBytesFromUnsignedUint64 i)
  | Some (VStr s) | Some (VBin s) | Some (VBinaryKey s) | Some (VCollectionKey s) => parseLimitString s
  | _ => None
  end.

(** The size of an entry in a list of messages: that of its file, if it has
    one and the file is there. *)
Definition propagationEntryListSize (entry : propagationEntry) (r : Router) : option Z :=
  if zlen (e_path entry) =? 0 then Some (if 0 <? e_size entry then e_size entry else zlen (e_payload entry))
  else zlen <$> (r_messageStore r !! e_path entry).

Definition propagationEntryMessageSize (entry : propagationEntry) (r : Router) : Z :=
  match (if zlen (e_path entry) =? 0 then None else r_messageStore r !! e_path entry) with
  | Some data => zlen data
  | None => if 0 <? e_size entry then e_size entry else zlen (e_payload entry)
  end.

Definition propagationEntryHasPersistedStamp (entry : propagationEntry) : bool :=
  (0 <? e_stampValue entry) || (Z.of_nat StampSize <=? e_size entry - zlen (e_payload entry)).

Definition propagationEntryResponsePayload (entry : propagationEntry) (r : Router) : option bytes :=
  if zlen (e_path entry) =? 0 then Some (e_payload entry)
  else match r_messageStore r !! e_path entry with
  | None => None
  | Some fileData =>
      let n := length (e_destinationHash entry) in
      if propagationEntryHasPersistedStamp entry then Some (take (length fileData - StampSize) fileData)
      else if (0 <? n)%nat && (n <=? length fileData)%nat && bytes_eqb (take n fileData) (e_destinationHash entry)
      then Some (drop n fileData)
      else if (DestinationLength <=? length fileData)%nat then Some (drop DestinationLength fileData)
      else Some fileData
  end.

Record availableEntry := mkAvailable { a_transientID : bytes; a_size : Z; a_receivedAt : Z; a_order : Z }.

(** [bytes.Compare(a, b) < 0]. *)
Definition bytes_ltb (a b : bytes) : bool := bytes_leb a b && negb (bytes_eqb a b).

Definition available_less (x y : availableEntry) : bool :=
  if negb (a_size x =? a_size y) then a_size x <? a_size y
  else if (0 <? a_order x) && (0 <? a_order y) && negb (a_order x =? a_order y) then a_order x <? a_order y
  else if negb (a_receivedAt x =? a_receivedAt y) then Before (a_receivedAt x) (a_receivedAt y)
  else bytes_ltb (a_transientID x) (a_transientID y).

(** The IDs of the messages for a destination, the smallest first; [None] if a
    file is missing. *)
Definition available_messages (destinationHash : bytes) (r : Router) : option (list bytes) :=
  available ← mapM (fun '(id, e) => sz ← propagationEntryListSize e r; Some (mkAvailable id sz (e_receivedAt e) (e_order e)))
                (filter (fun x => e_destinationHash x.2 = destinationHash) (map_to_list (r_propagationEntries r)));
  Some (map a_transientID (sort_by available_less available)).

(** The messages the client has are removed; [None] at an ID that cannot be a
    key, what was removed before stays removed. *)
Fixpoint purge_haves (destinationHash : bytes) (haves : list value) (r : Router) : Router * bool :=
  match haves with
  | [] => (r, true)
  | raw :: rest =>
      match messageGetRequestTransientID raw with
      | Unhashable => (r, false)
      | NotBytes => purge_haves destinationHash rest r
      | IsID id =>
          purge_haves destinationHash rest
            match r_propagationEntries r !! id with
            | Some entry =>
                if bytes_eqb (e_destinationHash entry) destinationHash then removePropagationEntryLocked id r else r
            | None => r
            end
      end
  end.

(** The messages the client wants, within the limit. *)
Fixpoint collect_wants (destinationHash : bytes) (limit : option Z) (cumulativeSize : Z) (wants : list value)
    (r : Router) : option (list bytes) :=
  match wants with
  | [] => Some []
  | raw :: rest =>
      match messageGetRequestTransientID raw with
      | Unhashable => None
      | NotBytes => collect_wants destinationHash limit cumulativeSize rest r
      | IsID id =>
          match r_propagationEntries r !! id with
          | Some entry =>
              let nextSize := cumulativeSize + propagationEntryMessageSize entry r + 16 in
              if negb (bytes_eqb (e_destinationHash entry) destinationHash) ||
                 match limit with Some limitBytes => limitBytes <? nextSize | None => false end
              then collect_wants destinationHash limit cumulativeSize rest r
              else match propagationEntryResponsePayload entry r with
                   | Some payload => l ← collect_wants destinationHash limit nextSize rest r; Some (payload :: l)
                   | None => collect_wants destinationHash limit cumulativeSize rest r
                   end
          | None => collect_wants destinationHash limit cumulativeSize rest r
          end
      end
  end.

Definition decodeAnyPreserveBinMapKeys (data : bytes) : option value :=
  match data with
  | [] => None
  | _ => match UnpackStrictPreserveBinMapKeyOrder data with Ok v => Some v | _ => None end
  end.

Definition is_nil (v : value) : bool := match v with VNil => true | _ => false end.

Definition messageGetRequest (requestData : value) (remoteIdentity : option Identity) (r : Router) : Router * value :=
  match remoteIdentity with
  | None => (r, VInt peerErrorNoIdentity)
  | Some remote =>
      if r_authRequired r && negb (bool_decide (IHash remote ∈ r_allowedList r)) then (r, VInt peerErrorNoAccess)
      else match decodeAnyPreserveBinMapKeys (RequestDataBytes requestData) with
      | None => (r, VInt peerErrorInvalidData)
      | Some unpacked =>
          match messageGetRequestRoot unpacked with
          | Some ((v0 :: v1 :: _) as request) =>
              let remoteHash := CalculateHash (Some remote) AppName [aspect_delivery] in
              match messageGetRequestEntries v0, messageGetRequestEntries v1 with
              | Some wants, Some haves =>
                  if is_nil v0 && is_nil v1 then
                    (r, match available_messages remoteHash r with
                        | Some ids => VArr (map VBin ids)
                        | None => VNil
                        end)
                  else
                    let '(r, ok) := purge_haves remoteHash haves r in
                    if negb ok then (r, VNil)
                    else match collect_wants remoteHash (parseLimitBytes request 2) 24 wants r with
                         | None => (r, VNil)
                         | Some response =>
                             (r <| r_clientPropagationMessagesServed ::= Z.add (zlen response) |>,
                              VArr (map VBin response))
                         end
              | _, _ => (r, VNil)
              end
          | _ => (r, VNil)
          end
      end
  end.

End Node.

(** ** A text form of floats *)

(** The decimal form of the bits of a float. *)
Module ToyText.
#[export] Instance toy_text : FloatText := {|
  format_float f := digits_of 65 (float_bits f) [];
  parse_float s := float_of_bits64 <$> read_digits 0 s;
|}.
End ToyText.
