(* ===== verification/LxmfPeer.v ===== *)
(** * Peers and synchronisation of LXMF

    Models [lxmf/peer.go], the distribution queue of [lxmf/router.go] and the
    synchronisation of a client with its propagation node: the queues that tell
    which peer has which message, the peering key, the state machine of a sync
    with its offer, the answer to it and the transfer, and the responses a
    client gets to its list and get requests.

    A peer is changed together with the router whose entries it marks.  What a
    sync asks of the transport is in its [SyncEnv]; what it does outside is a
    list of events. *)

From stdpp Require Import base tactics option list gmap.
From Stdlib Require Import ZArith Lia Floats.
From S2P Require Import Prelude Clock Crypto Packet Msgpack Identity LxmfStamps LxmfTickets LxmfMessage LxmfRouter.
From S2P Require Import LxmfNode.
Local Open Scope Z_scope.
Local Open Scope go_scope.

Definition PeerSyncBackoffStep : float := 720%float. (* 12 * 60 *)

Section Peers.
Context `{Sha256, BlockCipher, Curves, HashState, FloatText}.

(** ** Which peer has which message *)

Definition containsByteSlice (items : list bytes) (target : bytes) : bool := bool_decide (target ∈ items).
Definition removeByteSlice (items : list bytes) (target : bytes) : list bytes :=
  filter (fun item => item <> target) items.

Definition addHandledMessage (transientID : bytes) (s : Peer * Router) : Peer * Router :=
  let '(p, r) := s in
  match r_propagationEntries r !! transientID with
  | Some entry =>
      if containsByteSlice (e_handledBy entry) (pr_destinationHash p) then (p, r)
      else (p <| pr_hmCountsSynced := false |>,
            r <| r_propagationEntries ::=
                   <[transientID := entry <| e_handledBy ::= fun l => l ++ [pr_destinationHash p] |>]> |>)
  | None => (p, r)
  end.

Definition addUnhandledMessage (transientID : bytes) (s : Peer * Router) : Peer * Router :=
  let '(p, r) := s in
  match r_propagationEntries r !! transientID with
  | Some entry =>
      if containsByteSlice (e_unhandledBy entry) (pr_destinationHash p) then (p, r)
      else (p <| pr_umCount ::= Z.succ |>,
            r <| r_propagationEntries ::=
                   <[transientID := entry <| e_unhandledBy ::= fun l => l ++ [pr_destinationHash p] |>]> |>)
  | None => (p, r)
  end.

Definition removeUnhandledMessage (transientID : bytes) (s : Peer * Router) : Peer * Router :=
  let '(p, r) := s in
  match r_propagationEntries r !! transientID with
  | Some entry =>
      (p <| pr_umCountsSynced := false |>,
       r <| r_propagationEntries ::=
              <[transientID := entry <| e_unhandledBy ::= fun l => removeByteSlice l (pr_destinationHash p) |>]> |>)
  | None => (p, r)
  end.

(** A message the peer has. *)
Definition mark_handled (transientID : bytes) (s : Peer * Router) : Peer * Router :=
  removeUnhandledMessage transientID (addHandledMessage transientID s).

(** The IDs, in the order of an iteration. *)
Definition marked_messages (by_ : propagationEntry -> list bytes) (p : Peer) (r : Router) : list bytes :=
  (map_to_list (filter (fun e => containsByteSlice (by_ e.2) (pr_destinationHash p) = true)
                  (r_propagationEntries r))).*1.

Definition HandledMessages (s : Peer * Router) : Peer * list bytes :=
  let l := marked_messages e_handledBy s.1 s.2 in
  (s.1 <| pr_hmCount := zlen l |> <| pr_hmCountsSynced := true |>, l).
Definition UnhandledMessages (s : Peer * Router) : Peer * list bytes :=
  let l := marked_messages e_unhandledBy s.1 s.2 in
  (s.1 <| pr_umCount := zlen l |> <| pr_umCountsSynced := true |>, l).

Definition UnhandledMessageCount (s : Peer * Router) : Peer * Z :=
  if pr_umCountsSynced s.1 then (s.1, pr_umCount s.1)
  else let '(p, _) := UnhandledMessages s in (p, pr_umCount p).

(** One item of a queue, with the messages that were marked before. *)
Definition merge_handled (handledMessages unhandledMessages : list bytes) (s : Peer * Router) (id : bytes) : Peer * Router :=
  let s := if containsByteSlice handledMessages id then s else addHandledMessage id s in
  if containsByteSlice unhandledMessages id then removeUnhandledMessage id s else s.
Definition merge_unhandled (handledMessages unhandledMessages : list bytes) (s : Peer * Router) (id : bytes) : Peer * Router :=
  if containsByteSlice handledMessages id || containsByteSlice unhandledMessages id then s else addUnhandledMessage id s.

(** The queues are worked off from their ends. *)
Definition ProcessQueues (s : Peer * Router) : Peer * Router :=
  let '(p, r) := s in
  let handledQueue := pr_handledMessagesQueue p in
  let unhandledQueue := pr_unhandledMessagesQueue p in
  let p := p <| pr_handledMessagesQueue := [] |> <| pr_unhandledMessagesQueue := [] |> in
  match handledQueue, unhandledQueue with
  | [], [] => (p, r)
  | _, _ =>
      let '(p, hm) := HandledMessages (p, r) in
      let '(p, um) := UnhandledMessages (p, r) in
      fold_left (merge_unhandled hm um) (reverse unhandledQueue)
        (fold_left (merge_handled hm um) (reverse handledQueue) (p, r))
  end.

(** [flushPeerDistributionQueue]: every peer is told of every queued message
    but the ones it sent. *)
Definition distribute_to (entries : list (bytes * bytes)) (p : Peer) : Peer :=
  fold_left (fun p '(transientID, fromPeer) =>
    if (zlen transientID =? 0) || ((0 <? zlen fromPeer) && bytes_eqb (pr_destinationHash p) fromPeer) then p
    else QueueUnhandledMessage transientID p) entries p.

Definition flushPeerDistributionQueue (r : Router) : Router :=
  r <| r_peerDistributionQueue := [] |> <| r_peers ::= fmap (distribute_to (r_peerDistributionQueue r)) |>.

(** [FlushQueues], the peers in the order of an iteration. *)
Definition FlushQueues (iter : list bytes -> list bytes) (r : Router) : Router :=
  fold_left (fun r h =>
    match r_peers r !! h with
    | Some p => let '(p, r) := ProcessQueues (p, r) in r <| r_peers ::= <[h := p]> |>
    | None => r
    end) (iter (map_to_list (r_peers r)).*1) (flushPeerDistributionQueue r).

(** ** The peering key *)

Definition PeeringKeyValue (p : Peer) : option Z :=
  match pr_peeringKey p with Some (_, v) => anyToInt v | None => None end.

Definition PeeringKeyReady (p : Peer) : Peer * bool :=
  match pr_peeringCost p with
  | None => (p, false)
  | Some cost =>
      match PeeringKeyValue p with
      | Some v => if cost <=? v then (p, true) else (p <| pr_peeringKey := None |>, false)
      | None => (p, false)
      end
  end.

Definition GeneratePeeringKey (fuel : nat) (rnd : random_source) (recall : bytes -> option Identity) (own : Identity)
    (p : Peer) : option (Peer * bool) :=
  match pr_peeringCost p, pr_peeringKey p with
  | None, _ => Some (p, false)
  | Some _, Some _ => Some (p, true)
  | Some cost, None =>
      let p := match pr_identity p with
               | None => p <| pr_identity := recall (pr_destinationHash p) |>
               | Some _ => p
               end in
      match pr_identity p with
      | None => Some (p, false)
      | Some i =>
          match GenerateStamp fuel rnd (IHash i ++ IHash own) cost WorkblockExpandRoundsPeering with
          | None => None
          | Some (_, _, _, Some _) => Some (p, false)
          | Some (key, v, _, None) =>
              if v <? cost then Some (p, false)
              else Some (p <| pr_peeringKey := Some (default [] key, VInt v) |>, true)
          end
      end
  end.

Definition MinAcceptedStampCost (p : Peer) : option Z :=
  match pr_propagationStampCost p, pr_propagationStampCostFlexibility p with
  | Some cost, Some flexibility => Some (Z.max (cost - flexibility) 0)
  | _, _ => None
  end.

(** ** A sync with a peer *)

(** The clock, whether there is a path to the peer before and after a path
    request, the recalled identity, and whether a link and a resource can be
    made. *)
Record SyncEnv := mkSyncEnv {
  sy_now : Z;
  sy_hasPath : bool;
  sy_hasPathAfter : bool;
  sy_recall : bytes -> option Identity;
  sy_newLink : bool;
  sy_newResource : bool;
}.

Inductive peer_event :=
  | PathRequested
  | KeyWanted
  | LinkCreated
  | LinkIdentified
  | LinkTornDown
  | OfferSent (offer : value)
  | ResourceSent (data : bytes).

(** The entries to offer, the IDs that are gone and the ones whose stamp is
    worth too little for the peer. *)
Definition collectPendingOfferEntries (now : Z) (unhandled : list bytes) (s : Peer * Router)
    : list pendingOfferEntry * list bytes * list bytes :=
  let '(p, r) := s in
  let minCost := default 0 (MinAcceptedStampCost p) in
  (omap (fun id => match r_propagationEntries r !! id with
                   | Some e => if e_stampValue e <? minCost then None
                               else Some (mkOfferEntry id (getWeightLocked now id r) (e_size e))
                   | None => None
                   end) unhandled,
   filter (fun id => r_propagationEntries r !! id = None) unhandled,
   filter (fun id => match r_propagationEntries r !! id with
                     | Some e => e_stampValue e <? minCost
                     | None => false
                     end = true) unhandled).

(** Entries that fit the limits of the peer; one that is too large for any
    transfer is marked as handled. *)
Fixpoint fit_offer (entries : list pendingOfferEntry) (cumulativeSize : Z) (s : Peer * Router)
    : Peer * Router * list bytes :=
  match entries with
  | [] => (s, [])
  | e :: rest =>
      let transferSize := o_size e + 16 in
      let nextSize := cumulativeSize + transferSize in
      if match pr_propagationTransferLimit s.1 with
         | Some limit => PrimFloat.ltb (limit * 1000)%float (float_of_Z transferSize)
         | None => false
         end
      then fit_offer rest cumulativeSize (addHandledMessage (o_transientID e) (removeUnhandledMessage (o_transientID e) s))
      else if match pr_propagationSyncLimit s.1 with Some limit => limit * 1000 <=? nextSize | None => false end
      then fit_offer rest cumulativeSize s
      else let '(s, ids) := fit_offer rest nextSize s in (s, o_transientID e :: ids)
  end.

(** The offer over a link that is ready. *)
Definition send_offer (now : Z) (unhandled : list bytes) (s : Peer * Router) : Peer * Router * list peer_event :=
  let '(p, r) := s in
  let p := p <| pr_alive := true |> <| pr_lastHeard := peerTime now |> <| pr_syncBackoff := 0%float |> in
  let '(entries, purgedIDs, lowValueIDs) := collectPendingOfferEntries now unhandled (p, r) in
  let s := fold_left (fun s id => removeUnhandledMessage id s) (purgedIDs ++ lowValueIDs) (p, r) in
  let '(p, r, ids) := fit_offer (sort_by (fun a b => PrimFloat.ltb (o_weight a) (o_weight b)) entries) 24 s in
  let p := p <| pr_pendingOfferIDs := ids |> in
  match ids with
  | [] => (p, r, [])
  | _ =>
      let key := match pr_peeringKey p with Some (k, _) => k | None => [] end in
      (p <| pr_lastOffer := ids |> <| pr_state := PeerStateRequestSent |>, r,
       [OfferSent (VArr [VBin key; VArr (map VBin ids)])])
  end.

(** From the path on. *)
Definition sync_link (env : SyncEnv) (s : Peer * Router) : Peer * Router * list peer_event :=
  let '(p, r) := s in
  let p := match pr_identity p with
           | Some _ => p
           | None =>
               match sy_recall env (pr_destinationHash p) with
               | None => p
               | Some i =>
                   match NewDestination (fun _ => Panic) (fun _ => Panic) (Some i) DestinationOut DestinationSingle
                           AppName [aspect_propagation] with
                   | Ok d => p <| pr_identity := Some i |> <| pr_destination := Some d |>
                   | _ => p <| pr_identity := Some i |>
                   end
               end
           end in
  match pr_destination p with
  | None => (p, r, [])
  | Some _ =>
      let '(p, unhandled) := UnhandledMessages (p, r) in
      match unhandled, pr_currentlyTransferringMessages p with
      | [], _ | _, Some _ => (p, r, [])
      | _, None =>
          if pr_state p =? PeerStateIdle then
            let backoff := (pr_syncBackoff p + PeerSyncBackoffStep)%float in
            (p <| pr_syncBackoff := backoff |> <| pr_nextSyncAttempt := (peerTime (sy_now env) + backoff)%float |>
               <| pr_link := sy_newLink env |> <| pr_state := PeerStateLinkEstablishing |>, r, [LinkCreated])
          else if pr_state p =? PeerStateLinkReady then send_offer (sy_now env) unhandled (p, r)
          else (p, r, [])
      end
  end.

Definition Sync (env : SyncEnv) (s : Peer * Router) : Peer * Router * list peer_event :=
  let '(p, r) := s in
  let p := p <| pr_lastSyncAttempt := peerTime (sy_now env) |> in
  let syncTimeReached := After (sy_now env) (timeFromPeerValue (pr_nextSyncAttempt p)) in
  let stampCostsKnown := bool_decide (is_Some (pr_propagationStampCost p)) &&
                         bool_decide (is_Some (pr_propagationStampCostFlexibility p)) &&
                         bool_decide (is_Some (pr_peeringCost p)) in
  let '(p, peeringKeyReady) := PeeringKeyReady p in
  if negb syncTimeReached then
    (if PrimFloat.ltb (pr_lastHeard p) (pr_lastSyncAttempt p) then p <| pr_alive := false |> else p, r, [])
  else if negb stampCostsKnown then (p, r, [])
  else if negb peeringKeyReady then (p, r, [KeyWanted])
  else if sy_hasPath env then sync_link env (p, r)
  else if sy_hasPathAfter env then let '(p, r, ev) := sync_link env (p, r) in (p, r, PathRequested :: ev)
  else (p, r, [PathRequested]).

Definition LinkEstablished (env : SyncEnv) (s : Peer * Router) : Peer * Router * list peer_event :=
  let '(p, r) := s in
  let '(p, r, ev) := Sync env (p <| pr_state := PeerStateLinkReady |> <| pr_nextSyncAttempt := 0%float |>, r) in
  (p, r, LinkIdentified :: ev).

Definition LinkClosed (p : Peer) : Peer := p <| pr_link := false |> <| pr_state := PeerStateIdle |>.

(** The link, if there is one, is torn down and forgotten. *)
Definition drop_link (p : Peer) : Peer * list peer_event := (LinkClosed p, if pr_link p then [LinkTornDown] else []).

Definition RequestFailed (p : Peer) : Peer * list peer_event := drop_link p.

Definition responseErrorCode (v : value) : option Z :=
  match v with VInt i => Some i | VUint u => if 2 ^ 63 - 1 <? u then None else Some u | _ => None end.

(** The list of a response, if every item is binary. *)
Definition transientIDsFromResponse (v : value) : option (list bytes) :=
  match v with
  | VArr l => mapM (fun x => match x with VBin b => Some b | _ => None end) l
  | VOrdered [] => Some []
  | _ => None
  end.

Definition startSyncTransfer (env : SyncEnv) (wantedIDs : list bytes) (s : Peer * Router) : Peer * Router * list peer_event :=
  let '(p, r) := s in
  let lxmList := omap (fun id => match r_propagationEntries r !! id with
                                 | Some e => match e_payload e with [] => None | b => Some b end
                                 | None => None
                                 end) wantedIDs in
  match lxmList with
  | [] => let '(p, ev) := drop_link (p <| pr_offered ::= Z.add (zlen (pr_lastOffer p)) |>) in (p, r, ev)
  | _ =>
      match Msgpack.Pack (VArr [VFloat64 (float_bits (peerTime (sy_now env))); VArr (map VBin lxmList)]) with
      | (data, None) =>
          if sy_newResource env then
            (p <| pr_currentlyTransferringMessages := Some wantedIDs |>
               <| pr_currentSyncTransferStarted := peerTime (sy_now env) |>
               <| pr_state := PeerStateResourceTransferring |>, r, [ResourceSent data])
          else let '(p, ev) := drop_link p in (p, r, ev)
      | _ => let '(p, ev) := drop_link p in (p, r, ev)
      end
  end.

Definition Unpeer (now : Z) (destinationHash : bytes) (r : Router) : Router :=
  if zlen destinationHash =? 0 then r else unpeerLocked destinationHash (unix_seconds now) r.

(** The peer wants none of the offered messages. *)
Definition offer_declined (s : Peer * Router) : Peer * Router * list peer_event :=
  let '(p, r) := fold_left (fun s id => mark_handled id s) (pr_lastOffer s.1) s in
  let '(p, ev) := drop_link (p <| pr_offered ::= Z.add (zlen (pr_lastOffer p)) |>) in (p, r, ev).

Definition OfferResponse (env : SyncEnv) (response : value) (s : Peer * Router) : Peer * Router * list peer_event :=
  let '(p, r) := s in
  let p := p <| pr_state := PeerStateResponseReceived |> in
  let answer :=
    match response with
    | VBool false => offer_declined (p, r)
    | VBool true => startSyncTransfer env (pr_lastOffer p) (p, r)
    | _ =>
        match transientIDsFromResponse response with
        | None => offer_declined (p, r)
        | Some wantedIDs =>
            startSyncTransfer env wantedIDs
              (fold_left (fun s id => if containsByteSlice wantedIDs id then s else mark_handled id s)
                 (pr_lastOffer p) (p, r))
        end
    end in
  match responseErrorCode response with
  | Some code =>
      if code =? peerErrorNoIdentity then
        if pr_link p then
          let '(p, r, ev) := Sync env (p <| pr_state := PeerStateLinkReady |>, r) in (p, r, LinkIdentified :: ev)
        else (p, r, [])
      else if code =? peerErrorNoAccess then (p, Unpeer (sy_now env) (pr_destinationHash p) r, [])
      else if code =? peerErrorThrottled then
        (p <| pr_nextSyncAttempt := (peerTime (sy_now env) + float_of_Z pnStampThrottle / float_of_Z Second)%float |>, r, [])
      else answer
  | None => answer
  end.

(** [ResourceConcluded]: of a complete resource its transfer and data sizes. *)
Definition ResourceConcluded (env : SyncEnv) (complete : option (Z * Z)) (s : Peer * Router) : Peer * Router * list peer_event :=
  let '(p, r) := s in
  let idle p := p <| pr_currentlyTransferringMessages := None |> <| pr_currentSyncTransferStarted := 0%float |> in
  match complete with
  | None => let '(p, ev) := drop_link p in (idle p, r, ev)
  | Some (transferSize, dataSize) =>
      let transferring := default [] (pr_currentlyTransferringMessages p) in
      let '(p, r) := fold_left (fun s id => mark_handled id s) transferring (p, r) in
      let elapsed := (peerTime (sy_now env) - pr_currentSyncTransferStarted p)%float in
      let rate := if PrimFloat.eqb (pr_currentSyncTransferStarted p) 0 || negb (PrimFloat.ltb 0 elapsed)
                  then pr_syncTransferRate p else (float_of_Z (transferSize * 8) / elapsed)%float in
      let '(p, ev) := drop_link p in
      let p := idle (p <| pr_syncTransferRate := rate |> <| pr_alive := true |>
                       <| pr_lastHeard := peerTime (sy_now env) |>
                       <| pr_offered ::= Z.add (zlen (pr_lastOffer p)) |>
                       <| pr_outgoing ::= Z.add (zlen transferring) |> <| pr_txBytes ::= Z.add dataSize |>) in
      let '(p, count) := if pr_syncStrategy p =? PeerStrategyPersistent then UnhandledMessageCount (p, r) else (p, 0) in
      if 0 <? count then let '(p, r, ev') := Sync env (p, r) in (p, r, ev ++ ev') else (p, r, ev)
  end.

(** ** A client and its propagation node *)

(** What the client does next: tear its link to the node down, request
    messages, or acknowledge what it got. *)
Inductive client_event :=
  | NodeLinkTornDown
  | MessagesRequested (wants haves : list value) (limit : float)
  | Acknowledged (haves : list bytes).

(** A refusal of the node. *)
Definition node_refused (state : Z) (r : Router) : Router * list client_event :=
  (r <| r_propagationTransferState := state |>, if r_outboundPropagationLink r then [NodeLinkTornDown] else []).

(** Haves and wants of a list of IDs; items that are not binary are wanted. *)
Fixpoint sort_listed (ids : list value) (wants haves : list value) (r : Router) : list value * list value :=
  match ids with
  | [] => (wants, haves)
  | v :: ids' =>
      let room := (r_propagationTransferMaxMessages r =? 0) || (zlen wants <? r_propagationTransferMaxMessages r) in
      match v with
      | VBin id =>
          if hasDeliveredTransientIDLocked id r
          then sort_listed ids' wants (if r_retainSyncedOnNode r then haves else haves ++ [v]) r
          else sort_listed ids' (if room then wants ++ [v] else wants) haves r
      | _ => sort_listed ids' (if room then wants ++ [v] else wants) haves r
      end
  end.

(** [unhashableMessageListEntryPanic]. *)
Definition unhashable_entry (v : value) : bool :=
  match v with VMap _ | VArr _ | VOrdered _ => true | _ => false end.

(** [requested]: whether the request for the messages can be sent. *)
Definition messageListResponse (requested : bool) (response : value) (r : Router) : Router * res lx_err (list client_event) :=
  let request ids :=
    let '(wants, haves) := sort_listed ids [] [] r in
    (if requested then r else r <| r_propagationTransferState := PRFailed |>,
     Ok (if requested then [MessagesRequested wants haves (r_deliveryPerTransferLimit r)] else [])) in
  let answer :=
    match transientIDsFromResponse response, response with
    | Some [], _ =>
        (r <| r_propagationTransferState := PRComplete |> <| r_propagationTransferProgress := 1%float |>
           <| r_propagationTransferLastResult := Some 0 |>, Ok [])
    | Some ids, _ => request (map VBin ids)
    | None, VArr l => if existsb unhashable_entry l then (r, Panic) else request l
    | None, VOrdered es => (* entry structs *) request (map (fun _ => VUnsupported kind_struct) es)
    | None, _ => (r, Ok (if r_outboundPropagationLink r then [NodeLinkTornDown] else []))
    end in
  match responseErrorCode response with
  | Some code =>
      if code =? peerErrorNoIdentity then let '(r, ev) := node_refused PRNoIdentityRcvd r in (r, Ok ev)
      else if code =? peerErrorNoAccess then let '(r, ev) := node_refused PRNoAccess r in (r, Ok ev)
      else answer
  | None => answer
  end.

(** The loop over the messages of a response: how many were duplicates, and
    their hashes. *)
Fixpoint receive_messages (env : RouterEnv) (entries : list value) (r : Router) : Router * res lx_err (Z * list bytes) :=
  match entries with
  | [] => (r, Ok (0, []))
  | v :: rest =>
      match v with
      | VBin payload | VBinaryKey payload =>
          match handlePropagatedInbound env payload r with
          | (r, Ok duplicate) =>
              let '(r, x) := receive_messages env rest r in
              (r, match x with
                  | Ok (n, haves) => Ok ((if duplicate : bool then 1 else 0) + n, FullHash payload :: haves)
                  | Err e => Err e
                  | Panic => Panic
                  end)
          | (r, Err e) => (r, Err e)
          | (r, Panic) => (r, Panic)
          end
      | _ => (r, Panic)
      end
  end.

Definition sync_complete (duplicates result : Z) (r : Router) : Router :=
  r <| r_propagationTransferState := PRComplete |> <| r_propagationTransferProgress := 1%float |>
    <| r_propagationTransferLastDuplicates := duplicates |> <| r_propagationTransferLastResult := Some result |>.

(** The entries of a response that has a length. *)
Definition messageGetResponseEntries (v : value) : option (list value) :=
  match v with
  | VArr l => Some l
  | VOrdered es => Some (map (fun _ => VUnsupported kind_struct) es)
  | VMap es => Some es.*1
  | _ => None
  end.

Definition has_len (v : value) : option Z :=
  match v with
  | VStr s | VBin s | VBinaryKey s | VCollectionKey s => Some (zlen s)
  | VArr l => Some (zlen l)
  | VMap es | VOrdered es => Some (zlen es)
  | _ => None
  end.

(** A response that is no collection of messages panics, as does one with an
    item that is not binary. *)
Definition messageGetResponse (env : RouterEnv) (response : value) (r : Router)
    : Router * res lx_err (list client_event) :=
  let answer :=
    match has_len response with
    | None => (r, Panic)
    | Some n =>
        if n =? 0 then (sync_complete 0 0 r, Ok [])
        else match messageGetResponseEntries response with
        | None => (r, Panic)
        | Some entries =>
            let '(r, x) := receive_messages env entries r in
            match x with
            | Ok (duplicates, haves) => (sync_complete duplicates (zlen entries) r, Ok [Acknowledged haves])
            | Err e => (r, Err e)
            | Panic => (r, Panic)
            end
        end
    end in
  match responseErrorCode response with
  | Some code =>
      if code =? peerErrorNoIdentity then let '(r, ev) := node_refused PRNoIdentityRcvd r in (r, Ok ev)
      else if code =? peerErrorNoAccess then let '(r, ev) := node_refused PRNoAccess r in (r, Ok ev)
      else answer
  | None => answer
  end.

Definition messageGetFailed (r : Router) : list client_event :=
  if r_outboundPropagationLink r then [NodeLinkTornDown] else [].

Definition acknowledgeSyncCompletion (resetState : bool) (failureState : option Z) (r : Router) : Router :=
  r <| r_propagationTransferLastResult := None |>
    <| r_propagationTransferState ::= fun st => if resetState || (st <=? PRComplete) then default PRIdle failureState else st |>
    <| r_propagationTransferProgress := 0%float |>.

End Peers.
