(* ===== verification/LxmfStore.v ===== *)
(** * The message store on disk

    The store of a propagation node is a map in memory and a directory of
    files.  Shows that both stay in step through every operation of the node
    and through restarts, and that reading the directory again, as a node does
    when it starts, gives the messages back. *)

From stdpp Require Import base tactics option list gmap.
From Stdlib Require Import ZArith Lia Floats.
From S2P Require Import Prelude Clock Crypto Packet Msgpack Identity LxmfStamps LxmfTickets LxmfMessage LxmfRouter LxmfNode LxmfPeer.
Local Open Scope Z_scope.
Local Open Scope go_scope.

(** ** Names of files *)

Lemma hex_digit_plain d : 0 <= d < 16 -> hex_value (hex_digit d) = Some d /\ hex_digit d <> underscore.
Proof. intros H. enumerate H; done. Qed.

Lemma byte_digits x : is_byte x -> 0 <= x / 16 < 16 /\ 0 <= x mod 16 < 16 /\ x / 16 * 16 + x mod 16 = x.
Proof. unfold is_byte. intros H. Z.to_euclidean_division_equations. lia. Qed.

Lemma hex_decode_hex b : bytes_ok b -> hex_decode (hex b) = Some b.
Proof.
  induction 1 as [|x b Hx _ IH]; [done|]. destruct (byte_digits x Hx) as (H1 & H2 & H3).
  unfold hex in *. cbn [map concat app hex_decode].
  rewrite (proj1 (hex_digit_plain _ H1)), (proj1 (hex_digit_plain _ H2)), IH. by rewrite H3.
Qed.

Lemma hex_plain b : bytes_ok b -> underscore ∉ hex b.
Proof.
  induction 1 as [|x b Hx _ IH]; [by apply not_elem_of_nil|]. destruct (byte_digits x Hx) as (H1 & H2 & _).
  apply hex_digit_plain in H1 as [_ H1], H2 as [_ H2]. unfold hex in *. cbn [map concat app].
  rewrite !not_elem_of_cons. done.
Qed.

Lemma read_digits_of fuel n acc :
  0 <= n < 2 ^ Z.of_nat fuel -> read_digits 0 (digits_of fuel n acc) = read_digits n acc.
Proof.
  revert n acc. induction fuel as [|fuel IH]; intros n acc Hn.
  - assert (n = 0) as -> by (change (2 ^ Z.of_nat 0) with 1 in Hn; lia). done.
  - cbn [digits_of]. destruct (Z.ltb_spec n 10) as [Hs|Hs].
    + cbn [read_digits]. rewrite (proj2 (Z.leb_le 48 (48 + n))), (proj2 (Z.leb_le (48 + n) 57)) by lia.
      cbn [andb]. f_equal. lia.
    + rewrite IH.
      * pose proof (Z.mod_pos_bound n 10 ltac:(lia)) as Hm. cbn [read_digits].
        rewrite (proj2 (Z.leb_le 48 _)), (proj2 (Z.leb_le _ 57)) by lia. cbn [andb]. f_equal.
        pose proof (Z.div_mod n 10). lia.
      * rewrite Nat2Z.inj_succ, Z.pow_succ_r in Hn by lia. split; [apply Z.div_pos; lia|].
        apply Z.div_lt_upper_bound; lia.
Qed.

Lemma digits_of_plain fuel n acc : 0 <= n -> underscore ∉ acc -> Forall (fun c => c <> 45 /\ c <> 43) acc ->
  underscore ∉ digits_of fuel n acc /\ Forall (fun c => c <> 45 /\ c <> 43) (digits_of fuel n acc).
Proof.
  revert n acc. induction fuel as [|fuel IH]; intros n acc Hn Ha Hf; [done|]. cbn [digits_of].
  pose proof (Z.mod_pos_bound n 10 ltac:(lia)) as Hm. destruct (Z.ltb_spec n 10).
  - split; [apply not_elem_of_cons; unfold underscore in *; split; [lia|done]|constructor; [lia|done]].
  - apply IH; [apply Z.div_pos; lia|apply not_elem_of_cons; unfold underscore in *; split; [lia|done]|constructor; [lia|done]].
Qed.

Lemma digits_of_nonempty fuel n acc : (fuel <> 0)%nat \/ acc <> [] -> digits_of fuel n acc <> [].
Proof.
  revert n acc. induction fuel as [|fuel IH]; intros n acc Hf; [by destruct Hf|]. cbn [digits_of].
  destruct (n <? 10); [done|]. apply IH. by right.
Qed.

Lemma Atoi_Itoa n : 0 <= n < 2 ^ 63 -> Atoi (Itoa n) = Some n /\ underscore ∉ Itoa n.
Proof.
  intros Hn. unfold Itoa. rewrite (proj2 (Z.ltb_ge n 0)) by lia. set (fuel := S (Z.to_nat (Z.log2 n))).
  destruct (digits_of_plain fuel n [] ltac:(lia) (not_elem_of_nil _) (List.Forall_nil _)) as [Hu Hf]. split; [|done].
  pose proof (digits_of_nonempty fuel n [] ltac:(left; done)) as Hne.
  pose proof (read_digits_of fuel n []) as Hr. destruct (digits_of fuel n []) as [|c ds]; [done|]. cbn [read_digits] in Hr.
  inversion_clear Hf as [|? ? [H1 H2] _]. unfold Atoi.
  rewrite (proj2 (Z.eqb_neq _ _) H1), (proj2 (Z.eqb_neq _ _) H2). cbn [read_digits]. rewrite Hr.
  - assert ((- 2 ^ 63 <=? n) && (n <? 2 ^ 63) = true) as -> by lia. done.
  - unfold fuel. rewrite Nat2Z.inj_succ, Z2Nat.id by apply Z.log2_nonneg. split; [lia|].
    destruct (decide (n = 0)) as [->|]; [done|]. apply Z.log2_spec. lia.
Qed.

Lemma split_no_underscore a acc : underscore ∉ a -> split_underscores a acc = [acc ++ a].
Proof.
  revert acc. induction a as [|c a IH]; intros acc Ha; cbn; [by rewrite app_nil_r|].
  apply not_elem_of_cons in Ha as [Hc Ha]. rewrite (proj2 (Z.eqb_neq _ _)), IH by congruence. by rewrite <- app_assoc.
Qed.

Lemma split_first a rest acc :
  underscore ∉ a -> split_underscores (a ++ [underscore] ++ rest) acc = (acc ++ a) :: split_underscores rest [].
Proof.
  revert acc. induction a as [|c a IH]; intros acc Ha; cbn; [by rewrite app_nil_r|].
  apply not_elem_of_cons in Ha as [Hc Ha]. rewrite (proj2 (Z.eqb_neq _ _)) by congruence.
  change (a ++ underscore :: rest) with (a ++ [underscore] ++ rest). rewrite IH by done. by rewrite <- app_assoc.
Qed.

Section Store.
Context `{Sh : Sha256} {ShL : Sha256Laws} `{Ci : BlockCipher} `{Cu : Curves} `{Hs : HashState} `{Ft : FloatText} {FtL : FloatTextLaws}.

(** An instant that is a finite, positive number of seconds. *)
Definition sane_time (t : Z) : Prop := PrimFloat.is_finite (peerTime t) = true /\ PrimFloat.leb (peerTime t) 0 = false.

(** The name of a file reads back, whether the message has no stamp or one of
    some value. *)
Lemma file_name_parses id t value stamp :
  bytes_ok id -> sane_time t -> 0 <= value < 2 ^ 63 -> stamp = [] \/ 0 < value ->
  parsePropagationStoreFilename (file_name id t value stamp) = Some (id, timeFromPeerValue (peerTime t), value).
Proof.
  intros Hid [Ht1 Ht2] Hv Hs'. unfold file_name.
  assert ((0 <? zlen stamp) && (value <=? 0) = false) as ->.
  { destruct Hs' as [->|]; [done|]. rewrite (proj2 (Z.leb_gt value 0)) by lia. apply andb_false_r. }
  destruct (Atoi_Itoa value Hv) as [Ea Hu]. unfold parsePropagationStoreFilename.
  rewrite <- !app_assoc, !split_first, split_no_underscore by (done || (by apply hex_plain) || (by apply format_plain)).
  cbn [app]. rewrite hex_decode_hex, parse_format, Ea, Ht2 by done. done.
Qed.

(** That of a stamped message of no value does not: it has two parts. *)
Lemma worthless_name_refused id t stamp :
  bytes_ok id -> sane_time t -> 0 < zlen stamp -> parsePropagationStoreFilename (file_name id t 0 stamp) = None.
Proof.
  intros Hid [Ht1 Ht2] Hz. unfold file_name. rewrite (proj2 (Z.ltb_lt _ _) Hz). change (0 <=? 0) with true. cbn [andb].
  unfold parsePropagationStoreFilename. by rewrite split_first, split_no_underscore by (by apply hex_plain || by apply format_plain).
Qed.
(** ** Entries and files *)

(** What a file keeps of an entry. *)
Definition view (e : propagationEntry) : bytes * bytes * Z * bytes * Z :=
  (e_destinationHash e, e_payload e, e_stampValue e, e_path e, e_size e).

(** The file of a message without stamp looks like that of a stamped message:
    what would be the sealed message of the latter has the ID of the former. *)
Definition misread (e : propagationEntry) : Prop :=
  let file := e_destinationHash e ++ e_payload e in
  let candidate := take (length file - StampSize) file in
  e_size e = zlen file /\ candidate <> e_payload e /\ FullHash candidate = FullHash (e_payload e).

(** The file of an entry reads as the entry. *)
Definition filed (files : gmap bytes bytes) (id : bytes) (e : propagationEntry) : Prop :=
  exists data, files !! e_path e = Some data /\
  forall n, exists e', indexed_entry (e_path e) data n = Some (id, e') /\ e_path e' = e_path e /\ (view e' = view e \/ misread e).

(** An entry whose stamp is worth nothing. *)
Definition worthless (e : propagationEntry) : Prop :=
  e_stampValue e <= 0 /\ e_size e = zlen (e_payload e) + Z.of_nat StampSize.

(** Entries and files are in step: an entry with a name that can be read has
    its file, the others were not written or carry a worthless stamp, and every
    file with such a name is the file of an entry. *)
Record in_step (r : Router) : Prop := {
  is_filed id e : r_propagationEntries r !! id = Some e -> is_Some (parsePropagationStoreFilename (e_path e)) ->
    filed (r_messageStore r) id e;
  is_lost id e : r_propagationEntries r !! id = Some e -> parsePropagationStoreFilename (e_path e) = None ->
    e_path e = [] \/ worthless e;
  is_indexed name data : r_messageStore r !! name = Some data -> is_Some (parsePropagationStoreFilename name) ->
    exists id e, r_propagationEntries r !! id = Some e /\ e_path e = name;
}.

Lemma indexed_id name data n id e :
  indexed_entry name data n = Some (id, e) -> exists t v, parsePropagationStoreFilename name = Some (id, t, v).
Proof.
  unfold indexed_entry. destruct (parsePropagationStoreFilename name) as [[[i t] v]|]; [|done].
  destruct (_ <? _); [done|]. intros [= <- _]. eauto.
Qed.

(** The name of a file names its entry. *)
Lemma path_determines files files' id id' e e' :
  filed files id e -> filed files' id' e' -> e_path e = e_path e' -> id = id'.
Proof.
  intros (d & _ & F) (d' & _ & F') E. destruct (F 0) as (x & Hx & _), (F' 0) as (x' & Hx' & _).
  apply indexed_id in Hx as (t & v & Hx), Hx' as (t' & v' & Hx'). rewrite E, Hx' in Hx. by injection Hx as ->.
Qed.

Lemma filed_same files id e : filed files id e -> forall files', files' !! e_path e = files !! e_path e -> filed files' id e.
Proof. intros (d & Hd & F) files' E. exists d. by rewrite E. Qed.

(** A new entry, with its file or without. *)
Lemma insert_in_step r r' id e :
  in_step r -> r_propagationEntries r !! id = None -> r_propagationEntries r' = <[id := e]> (r_propagationEntries r) ->
  (e_path e = [] /\ r_messageStore r' = r_messageStore r \/
   exists data, r_messageStore r' = <[e_path e := data]> (r_messageStore r)) ->
  (is_Some (parsePropagationStoreFilename (e_path e)) -> filed (r_messageStore r') id e) ->
  (parsePropagationStoreFilename (e_path e) = None -> e_path e = [] \/ worthless e) -> in_step r'.
Proof.
  intros [I1 I2 I3] Hnew Ee Ef Hfiled Hlost.
  assert (forall id' e', r_propagationEntries r !! id' = Some e' -> is_Some (parsePropagationStoreFilename (e_path e')) ->
    e_path e' <> e_path e) as Hfresh.
  { intros id' e' He' Hp Eq. assert (id' = id) as ->; [|congruence].
    eapply path_determines; [by apply (I1 id' e')|apply Hfiled; by rewrite <- Eq|done]. }
  assert (forall name, name <> e_path e -> r_messageStore r' !! name = r_messageStore r !! name) as Hother.
  { intros name Hne. destruct Ef as [[_ ->]|[data ->]]; [done|]. by rewrite lookup_insert_ne. }
  split.
  - intros id' e'. rewrite Ee. intros [[<- <-]|[Hne He']]%lookup_insert_Some Hp; [by apply Hfiled|].
    eapply filed_same; [by apply I1|]. apply Hother. by apply (Hfresh id').
  - intros id' e'. rewrite Ee. intros [[<- <-]|[Hne He']]%lookup_insert_Some; [done|]. by apply (I2 id').
  - intros name data Hd Hp. destruct (decide (name = e_path e)) as [->|Hne].
    + exists id, e. by rewrite Ee, lookup_insert_eq.
    + rewrite Hother in Hd by done. destruct (I3 _ _ Hd Hp) as (id' & e' & He' & Ep). exists id', e'.
      rewrite Ee, lookup_insert_ne; [done|]. intros <-. congruence.
Qed.

(** The file of a message with a stamp, and of one without. *)
Lemma stamped_filed files payload stamp e :
  length stamp = StampSize -> (DestinationLength <= length (e_payload e))%nat -> sane_time (e_receivedAt e) ->
  0 < e_stampValue e < 2 ^ 63 -> e_payload e = payload -> e_destinationHash e = take DestinationLength payload ->
  e_path e = file_name (FullHash payload) (e_receivedAt e) (e_stampValue e) stamp ->
  e_size e = zlen (payload ++ stamp) -> files !! e_path e = Some (payload ++ stamp) -> filed files (FullHash payload) e.
Proof.
  intros Hst Hl Ht Hv <- Ed Ep Es Hf. exists (e_payload e ++ stamp). split; [done|]. intros n.
  assert (length (e_payload e ++ stamp) - StampSize = length (e_payload e))%nat as Hcut by (rewrite length_app; lia).
  unfold indexed_entry. rewrite Ep, file_name_parses, Hcut, take_app_length by (lia || done || apply sha256_bytes || (right; lia)).
  rewrite (proj2 (Z.ltb_ge _ _)) by (unfold zlen; rewrite length_app; lia).
  rewrite (proj2 (Nat.leb_le (DestinationLength + StampSize) _)) by (rewrite length_app; lia).
  rewrite bytes_eqb_refl. eexists. split; [reflexivity|]. split; [done|]. left. unfold view. cbn.
  by rewrite Ed, Ep, Es, take_app_le by done.
Qed.

Lemma plain_filed files payload e :
  (DestinationLength <= length (e_payload e))%nat -> sane_time (e_receivedAt e) -> e_stampValue e = 0 ->
  e_payload e = payload -> e_destinationHash e = take DestinationLength payload ->
  e_path e = file_name (FullHash payload) (e_receivedAt e) 0 [] ->
  e_size e = zlen (e_destinationHash e ++ payload) -> files !! e_path e = Some (e_destinationHash e ++ payload) ->
  filed files (FullHash payload) e.
Proof.
  intros Hl Ht Hv <- Ed Ep Es Hf. exists (e_destinationHash e ++ e_payload e). split; [done|]. intros n.
  assert (length (e_destinationHash e) = DestinationLength) as Hd by (rewrite Ed, length_take; lia).
  unfold indexed_entry. rewrite Ep, file_name_parses by (lia || done || apply sha256_bytes || by left).
  rewrite (proj2 (Z.ltb_ge _ _)) by (unfold zlen; rewrite length_app; lia).
  eexists. split; [reflexivity|]. split; [done|].
  destruct (_ && _) eqn:Eb.
  - right. apply andb_true_iff in Eb as [Hlen Eh]. apply Nat.leb_le in Hlen. apply bytes_eqb_eq in Eh. split; [done|]. split; [|done].
    intros Ec. apply (f_equal length) in Ec.
    rewrite length_take, length_app, Hd in Ec. change StampSize with 32%nat in *. change DestinationLength with 16%nat in *. lia.
  - left. unfold view. cbn. rewrite Hv, Ep, Es, <- Hd. by rewrite take_app_length, drop_app_length.
Qed.

(** Storing a new message keeps them in step. *)
Lemma store_in_step env payload stamp value fromPeer r :
  in_step r -> sane_time (re_now env) -> (DestinationLength <= length payload)%nat ->
  (stamp = [] /\ value = 0 \/ length stamp = StampSize /\ 0 <= value < 2 ^ 63) ->
  r_propagationEntries r !! FullHash payload = None ->
  in_step (storePropagationMessageStamped env (take DestinationLength payload) payload stamp value fromPeer r).1.
Proof.
  intros I Ht Hl Hst Hnew. unfold storePropagationMessageStamped, nextPropagationEntryOrderLocked. rewrite Hnew.
  cbn [r_propagationEnabled modify]. destruct (r_propagationEnabled _ && _).
  - unfold writePropagationMessageFile. set (name := file_name _ _ _ _).
    set (data := if 0 <? zlen stamp then _ else _).
    set (en := mkEntry _ _ _ _ _ _ _ _ _ <| e_path := name |> <| e_size := zlen data |>). cbv beta iota zeta. cbn [fst].
    eapply (insert_in_step r _ (FullHash payload) en); [done..| | | |].
    + unfold enqueuePeerDistributionLocked. by destruct (_ =? _).
    + right. exists data. unfold enqueuePeerDistributionLocked. by destruct (_ =? _).
    + set (files := r_messageStore _). assert (files !! e_path en = Some data) as Hf.
      { subst files. unfold enqueuePeerDistributionLocked. destruct (_ =? _); apply lookup_insert_eq. }
      clearbody files. intros Hp. destruct Hst as [[-> ->]|[Hst Hv]]; [by apply plain_filed|].
      assert (data = payload ++ stamp) as Edata by (subst data; unfold zlen; by rewrite Hst).
      destruct (decide (value = 0)) as [->|Hne]; [|].
      2: apply (stamped_filed files payload stamp en Hst Hl Ht); [cbn; lia|done..|cbn; by rewrite Edata|by rewrite Hf, Edata].
      exfalso. cbn in Hp. subst name. rewrite worthless_name_refused in Hp; [by destruct Hp|apply sha256_bytes|done|unfold zlen; by rewrite Hst].
    + intros Hp. right. cbn in Hp |- *. destruct Hst as [[-> ->]|[Hst Hv]].
      * subst name. by rewrite file_name_parses in Hp by (lia || done || apply sha256_bytes || by left).
      * assert (data = payload ++ stamp) as Edata by (subst data; unfold zlen; by rewrite Hst). split; cbn.
        -- destruct (Z.ltb_spec 0 value); [|lia]. subst name. by rewrite file_name_parses in Hp by (lia || done || apply sha256_bytes || by right).
        -- rewrite Edata, zlen_app. unfold zlen. lia.
  - eapply (insert_in_step r _ (FullHash payload)); [done..| | | |].
    + unfold enqueuePeerDistributionLocked. cbn. by destruct (_ =? _).
    + left. unfold enqueuePeerDistributionLocked. by destruct (_ =? _).
    + by intros [? ?].
    + by left.
Qed.

(** So does removing one. *)
Lemma remove_in_step id r : in_step r -> in_step (removePropagationEntryLocked id r).
Proof.
  intros [I1 I2 I3]. unfold removePropagationEntryLocked. destruct (r_propagationEntries r !! id) as [en|] eqn:E; [|done].
  destruct (Z.eqb_spec (zlen (e_path en)) 0) as [Hz|Hz]; split; cbn -[delete].
  - intros id' e [_ H']%lookup_delete_Some. by apply I1.
  - intros id' e [_ H']%lookup_delete_Some. by apply (I2 id').
  - intros name data Hd Hp. destruct (I3 _ _ Hd Hp) as (id' & e & He & <-). exists id', e. split; [|done].
    apply lookup_delete_Some. split; [|done]. intros <-. replace e with en in Hp by congruence.
    destruct (e_path en); [by destruct Hp|]. rewrite zlen_cons in Hz. pose proof (zlen_nonneg l). lia.
  - intros id' e [Hne H']%lookup_delete_Some Hp. eapply filed_same; [by apply I1|]. rewrite lookup_delete_ne; [done|].
    intros Eq. destruct Hne. by eapply path_determines; [by apply I1; [|rewrite Eq]|by apply I1|].
  - intros id' e [_ H']%lookup_delete_Some. by apply (I2 id').
  - intros name data [Hne Hd]%lookup_delete_Some Hp. destruct (I3 _ _ Hd Hp) as (id' & e & He & <-). exists id', e.
    split; [|done]. apply lookup_delete_Some. split; [|done]. intros <-. congruence.
Qed.

(** ** What a node does *)

(** The same messages and files; which peer has which message may differ. *)
Definition same_store (r r' : Router) : Prop :=
  r_messageStore r' = r_messageStore r /\
  forall id, view <$> r_propagationEntries r' !! id = view <$> r_propagationEntries r !! id.

#[local] Instance same_store_equiv : Equivalence same_store.
Proof.
  split; [done|..].
  - intros a b [H1 H2]. by split; [|intros id; rewrite H2].
  - intros a b c [H1 H2] [H3 H4]. split; [congruence|]. intros id. by rewrite H4.
Qed.

Lemma filed_view files id e e' : view e = view e' -> filed files id e -> filed files id e'.
Proof.
  intros Ev (data & Hd & F). injection Ev as E1 E2 E3 E4 E5. exists data. rewrite <- E4. split; [done|]. intros n.
  destruct (F n) as (x & Hx & Hp & Hv). exists x. split_and!; [done..|]. unfold view, misread in *. by rewrite <- E1, <- E2, <- E3, <- E4, <- E5.
Qed.

Lemma in_step_same r r' : same_store r r' -> in_step r -> in_step r'.
Proof.
  intros [Es Ev] [I1 I2 I3].
  assert (forall id e', r_propagationEntries r' !! id = Some e' ->
    exists e, r_propagationEntries r !! id = Some e /\ view e = view e') as Hback.
  { intros id e' He'. specialize (Ev id). rewrite He' in Ev. destruct (_ r !! id) as [e|]; [|done]. exists e.
    split; [done|]. by apply (inj Some) in Ev. }
  split.
  - intros id e' He' Hp. destruct (Hback _ _ He') as (e & He & E). pose proof E as [= _ _ _ Ep _]. rewrite Es.
    eapply filed_view; [exact E|]. apply I1; [done|]. by rewrite Ep.
  - intros id e' He' Hp. destruct (Hback _ _ He') as (e & He & E). unfold worthless. injection E as _ <- <- Ep <-.
    rewrite <- Ep in *. apply (I2 id e He Hp).
  - intros name data Hd Hp. rewrite Es in Hd. destruct (I3 _ _ Hd Hp) as (id & e & He & Ep). specialize (Ev id).
    rewrite He in Ev. destruct (_ r' !! id) as [e'|] eqn:He'; [|done]. exists id, e'. split; [done|].
    injection Ev. congruence.
Qed.

Lemma same_inbound env m r : same_store r (handleInboundMessage env m r).
Proof.
  unfold handleInboundMessage. repeat (destruct (_ : bool); [done|]).
  destruct (m_SignatureValidated m); [destruct (outboundTicketFieldEntry _ _)|]; cbn; by destruct (r_deliveryCallback r).
Qed.

Lemma same_bytes env data method r : same_store r (deliver_bytes env data method r).1.
Proof. unfold deliver_bytes. destruct (UnpackMessageFromBytes _ _ _); [apply same_inbound|done..]. Qed.

Lemma same_encrypted env d payload id r : same_store r (deliver_encrypted env d payload id r).1.
Proof.
  unfold deliver_encrypted, decrypt_delivery. destruct (DDecryptFor _ _ _ _ _) as [[d' disk] x].
  set (r1 := _ <| r_ratchetFiles ::= _ |>). assert (same_store r r1) as H1 by done. clearbody r1.
  destruct x as [plain|e|]; [|done..].
  pose proof (same_bytes env (take DestinationLength payload ++ plain) MethodPropagated r1) as H2.
  destruct (deliver_bytes _ _ _ _) as [r2 [[]|e|]]; (etrans; [exact H1|]); [by etrans; [exact H2|]|done..].
Qed.

Lemma same_propagated env payload dup r : same_store r (handlePropagatedInboundAllowDuplicate env payload dup r).1.
Proof.
  unfold handlePropagatedInboundAllowDuplicate. destruct (_ <? _); [done|]. destruct (_ && _); [done|].
  set (r1 := r <| r_locallyProcessedIDs ::= _ |>). assert (same_store r r1) as H1 by done. clearbody r1.
  destruct (_ !! _) as [d|]; [|done]. pose proof (same_encrypted env d payload (FullHash payload) r1) as H2.
  destruct (deliver_encrypted _ _ _ _ _) as [r2 x]. by etrans.
Qed.

Lemma same_unpeer h t r : same_store r (unpeerLocked h t r).
Proof. unfold unpeerLocked. destruct (_ !! _); [|done]. by destruct (PrimFloat.leb _ _). Qed.

Lemma same_peer env h a r : same_store r (peer env h a r).
Proof.
  unfold peer. destruct (_ <? _); [apply same_unpeer|]. destruct (_ !! _); [by destruct (PrimFloat.leb _ _)|].
  by destruct (_ <=? _).
Qed.

Lemma same_autopeer env h r : same_store r (maybeAutopeerIdentifiedPropagationSender env h r).
Proof.
  unfold maybeAutopeerIdentifiedPropagationSender. destruct (_ || _); [done|]. destruct (_ <? _); [done|].
  destruct (re_recall env h) as [i|]; [|done]. destruct (_ =? _); [done|].
  destruct (decodePropagationAnnounceData _) as [a|]; [|done]. destruct (pn_propagationEnabled a); [apply same_peer|done].
Qed.

Lemma same_announce env h data pr r : same_store r (handlePropagationAnnounce env h data pr r).
Proof.
  unfold handlePropagationAnnounce. destruct data as [|b data]; [done|].
  destruct (decodePropagationAnnounceData _) as [a|]; [|done]. unfold peer_announced.
  destruct (negb _); [done|]. case_bool_decide; [destruct (_ || _); [apply same_peer|done]|].
  destruct (_ || _); [done|]. destruct (pn_propagationEnabled a); [|apply same_unpeer].
  destruct (_ <=? _); [apply same_peer|apply same_unpeer].
Qed.

Lemma same_offer env data linkID remote r : same_store r (offerRequest env data linkID remote r).1.
Proof.
  unfold offerRequest. destruct remote as [i|]; [|done].
  assert (same_store r (offer_gate env (CalculateHash (Some i) AppName [aspect_propagation]) r).1) as Hg.
  { unfold offer_gate. destruct (_ && _ && _); [done|]. destruct (_ && _ && _); [done|].
    destruct (_ !! _); [|done]. by destruct (Before _ _). }
  destruct (offer_gate _ _ _) as [r1 [c|]]; [done|]. cbn [fst] in Hg.
  destruct (decodeAnyList _) as [[|k [|ids l]]|]; [done..| |done].
  destruct (_ =? _); [done|]. destruct (_ && _); [done|]. destruct (_ =? _); [done|]. cbv zeta.
  set (r2 := if 0 <? zlen linkID then _ else r1).
  assert (same_store r r2) as H2 by (subst r2; destruct (_ <? _); [by etrans; [exact Hg|]|done]).
  destruct (_ =? _); [done|]. destruct (_ =? _); [done|]. cbn [fst].
  destruct (0 <? zlen linkID); [by etrans; [exact H2|]|done].
Qed.

Lemma same_list_response q v r : same_store r (messageListResponse q v r).1.
Proof.
  unfold messageListResponse.
  match goal with |- context [if _ =? peerErrorNoAccess then _ else ?a] => assert (same_store r a.1) as Ha; [|generalize dependent a] end.
  - destruct (transientIDsFromResponse v) as [[|b l]|]; [done| |].
    + destruct (sort_listed _ _ _ _). by destruct q.
    + destruct v; try done; [destruct (existsb _ _); [done|]|]; (destruct (sort_listed _ _ _ _); by destruct q).
  - intros a Ha. destruct (responseErrorCode v) as [c|]; [|done]. destruct (c =? _); [done|]. by destruct (c =? _).
Qed.

Lemma same_receive env l r : same_store r (receive_messages env l r).1.
Proof.
  revert r. induction l as [|v l IH]; intros r; [done|]. cbn [receive_messages].
  destruct v; try done;
    (match goal with |- context [handlePropagatedInbound env ?b r] =>
       pose proof (same_propagated env b false r) as H1; fold (handlePropagatedInbound env b r) in H1;
       destruct (handlePropagatedInbound env b r) as [r1 [dup|e|]]; [|done..] end;
     cbn [fst] in H1; pose proof (IH r1) as H2; destruct (receive_messages env l r1); by etrans).
Qed.

Lemma same_get_response env v r : same_store r (messageGetResponse env v r).1.
Proof.
  unfold messageGetResponse.
  match goal with |- context [if _ =? peerErrorNoAccess then _ else ?a] => assert (same_store r a.1) as Ha; [|generalize dependent a] end.
  - destruct (has_len v) as [n|]; [|done]. destruct (n =? 0); [done|].
    destruct (messageGetResponseEntries v) as [l|]; [|done]. pose proof (same_receive env l r) as H1.
    destruct (receive_messages env l r) as [r1 [[n' hs]|e|]]; [|done..]. by etrans; [exact H1|].
  - intros a Ha. destruct (responseErrorCode v) as [c|]; [|done]. destruct (c =? _); [done|]. by destruct (c =? _).
Qed.

(** *** Peers marking entries *)

Lemma same_mark id e e' r :
  r_propagationEntries r !! id = Some e -> view e' = view e -> same_store r (r <| r_propagationEntries ::= <[id := e']> |>).
Proof.
  intros He Ev. split; [done|]. intros id'. cbn. destruct (decide (id' = id)) as [->|Hne].
  - rewrite lookup_insert_eq, He. cbn. by rewrite Ev.
  - by rewrite lookup_insert_ne.
Qed.

Lemma same_marks {A} (f : Peer * Router -> A -> Peer * Router) l s :
  (forall s x, same_store s.2 (f s x).2) -> same_store s.2 (fold_left f l s).2.
Proof. intros Hf. revert s. induction l as [|x l IH]; intros s; [done|]. etrans; [apply Hf|apply IH]. Qed.

Lemma same_handled id s : same_store s.2 (addHandledMessage id s).2.
Proof. destruct s as [p r]. cbn. destruct (_ !! _) eqn:E; [|done]. destruct (containsByteSlice _ _); [done|]. by eapply same_mark. Qed.
Lemma same_unhandled id s : same_store s.2 (addUnhandledMessage id s).2.
Proof. destruct s as [p r]. cbn. destruct (_ !! _) eqn:E; [|done]. destruct (containsByteSlice _ _); [done|]. by eapply same_mark. Qed.
Lemma same_not_unhandled id s : same_store s.2 (removeUnhandledMessage id s).2.
Proof. destruct s as [p r]. cbn. destruct (_ !! _) eqn:E; [|done]. by eapply same_mark. Qed.
Lemma same_mark_handled id s : same_store s.2 (mark_handled id s).2.
Proof. etrans; [apply same_handled|apply same_not_unhandled]. Qed.

Lemma same_merge hm um s id : same_store s.2 (merge_handled hm um s id).2 /\ same_store s.2 (merge_unhandled hm um s id).2.
Proof.
  unfold merge_handled, merge_unhandled. split; [|destruct (_ || _); [done|apply same_unhandled]].
  set (s1 := if containsByteSlice hm id then s else addHandledMessage id s). transitivity s1.2.
  - subst s1. destruct (containsByteSlice _ _); [done|apply same_handled].
  - destruct (containsByteSlice um id); [apply same_not_unhandled|done].
Qed.

Lemma same_queues s : same_store s.2 (ProcessQueues s).2.
Proof.
  destruct s as [p r]. unfold ProcessQueues. cbn [HandledMessages UnhandledMessages fst snd].
  destruct (pr_handledMessagesQueue p) as [|h hq]; [destruct (pr_unhandledMessagesQueue p) as [|u uq]; [done|]|];
    (etrans; [|apply same_marks; intros; apply same_merge];
     etrans; [|apply same_marks; intros; apply same_merge]; done).
Qed.

Lemma same_flush iter r : same_store r (FlushQueues iter r).
Proof.
  unfold FlushQueues. etrans; [instantiate (1 := flushPeerDistributionQueue r); done|].
  generalize (flushPeerDistributionQueue r) (iter (map_to_list (r_peers r)).*1). clear r. intros r l. revert r.
  induction l as [|h l IH]; intros r; [done|]. cbn [fold_left]. etrans; [|apply IH].
  destruct (_ !! h) as [p|]; [|done]. pose proof (same_queues (p, r)) as Hq. destruct (ProcessQueues (p, r)) as [p' r'].
  by etrans; [exact Hq|].
Qed.

Lemma same_fit entries size s : same_store s.2 (fit_offer entries size s).1.2.
Proof.
  revert size s. induction entries as [|e entries IH]; intros size s; [done|]. cbn [fit_offer].
  destruct (match pr_propagationTransferLimit s.1 with Some _ => _ | None => _ end).
  { etrans; [|apply IH]. etrans; [apply same_not_unhandled|apply same_handled]. }
  destruct (match pr_propagationSyncLimit s.1 with Some _ => _ | None => _ end); [apply IH|].
  pose proof (IH (size + (o_size e + 16)) s) as H1. by destruct (fit_offer entries _ s) as [s' ids].
Qed.

Lemma same_send_offer now unhandled s : same_store s.2 (send_offer now unhandled s).1.2.
Proof.
  destruct s as [p r]. unfold send_offer. set (p1 := p <| pr_alive := true |> <| pr_lastHeard := _ |> <| pr_syncBackoff := _ |>).
  destruct (collectPendingOfferEntries _ _ _) as [[entries purged] low].
  set (s1 := fold_left _ (purged ++ low) (p1, r)).
  assert (same_store r s1.2) as H1 by (apply (same_marks _ _ (p1, r)); intros; apply same_not_unhandled).
  match goal with |- context [fit_offer ?l ?n s1] => pose proof (same_fit l n s1) as H2; destruct (fit_offer l n s1) as [[p2 r2] ids] end.
  destruct ids; by etrans; [exact H1|].
Qed.

Lemma same_sync_link env s : same_store s.2 (sync_link env s).1.2.
Proof.
  destruct s as [p r]. unfold sync_link. match goal with |- context [match pr_destination ?q with _ => _ end] => generalize q end.
  intros p1. destruct (pr_destination p1); [|done]. cbn [UnhandledMessages fst snd].
  match goal with |- context [match ?u with [] => _ | _ :: _ => _ end] => destruct u as [|id ids] end; [done|].
  destruct (pr_currentlyTransferringMessages _); [done|]. destruct (_ =? _); [done|]. destruct (_ =? _); [|done].
  match goal with |- context [send_offer ?n ?u ?s] => apply (same_send_offer n u s) end.
Qed.

Lemma same_sync env s : same_store s.2 (Sync env s).1.2.
Proof.
  destruct s as [p r]. unfold Sync. destruct (PeeringKeyReady _) as [p1 ready].
  destruct (negb (After _ _)); [done|]. destruct (negb _); [done|]. destruct (negb ready); [done|].
  pose proof (same_sync_link env (p1, r)) as H1. destruct (sy_hasPath env); [done|].
  destruct (sy_hasPathAfter env); [|done]. by destruct (sync_link env (p1, r)) as [[p2 r2] ev].
Qed.

Lemma same_transfer env wanted s : (startSyncTransfer env wanted s).1.2 = s.2.
Proof.
  destruct s as [p r]. unfold startSyncTransfer. cbn [snd]. destruct (omap _ _); [done|].
  destruct (Msgpack.Pack _) as [data [e|]]; [done|]. by destruct (sy_newResource env).
Qed.

Lemma same_declined s : same_store s.2 (offer_declined s).1.2.
Proof.
  unfold offer_declined. pose proof (same_marks (fun s id => mark_handled id s) (pr_lastOffer s.1) s) as H1.
  destruct (fold_left _ _ _) as [p r]. apply H1. intros. apply same_mark_handled.
Qed.

Lemma same_response env v s : same_store s.2 (OfferResponse env v s).1.2.
Proof.
  destruct s as [p r]. unfold OfferResponse. set (p1 := p <| pr_state := PeerStateResponseReceived |>).
  match goal with |- context [if _ =? peerErrorThrottled then _ else ?a] => assert (same_store r a.1.2) as Ha; [|generalize dependent a] end.
  { pose proof (same_declined (p1, r)) as Hd.
    assert (same_store r (startSyncTransfer env (pr_lastOffer p1) (p1, r)).1.2) as Ht by (by rewrite same_transfer).
    assert (forall ids, same_store r (startSyncTransfer env ids (fold_left (fun s id =>
      if containsByteSlice ids id then s else mark_handled id s) (pr_lastOffer p1) (p1, r))).1.2) as Hm.
    { intros ids. rewrite same_transfer. apply (same_marks _ _ (p1, r)). intros s id.
      destruct (containsByteSlice _ _); [done|apply same_mark_handled]. }
    clearbody p1. destruct v as [|b| | | | | | | | | | | | | |]; try (destruct b; done); (destruct (transientIDsFromResponse _); [apply Hm|done]). }
  intros a Ha. destruct (responseErrorCode v) as [c|]; [|done]. destruct (c =? _).
  { destruct (pr_link p1); [|done]. pose proof (same_sync env (p1 <| pr_state := PeerStateLinkReady |>, r)) as H1.
    by destruct (Sync _ _) as [[p2 r2] ev]. }
  destruct (c =? _); [cbn; unfold Unpeer; destruct (_ =? _); [done|apply same_unpeer]|]. by destruct (c =? _).
Qed.

Lemma same_concluded env complete s : same_store s.2 (ResourceConcluded env complete s).1.2.
Proof.
  destruct s as [p r]. unfold ResourceConcluded. destruct complete as [[n m]|]; [|done].
  pose proof (same_marks (fun s id => mark_handled id s) (default [] (pr_currentlyTransferringMessages p)) (p, r)) as H1.
  destruct (fold_left _ _ _) as [p1 r1]. assert (same_store r r1) as H2 by (apply H1; intros; apply same_mark_handled).
  cbn [drop_link fst snd]. match goal with |- context [if _ =? PeerStrategyPersistent then UnhandledMessageCount (?q, r1) else _] => generalize q end.
  intros p2. destruct (if _ : bool then UnhandledMessageCount (p2, r1) else (p2, 0)) as [p3 count]. destruct (0 <? count); [|done].
  pose proof (same_sync env (p3, r1)) as H3. destruct (Sync env (p3, r1)) as [[p4 r4] ev]. by etrans.
Qed.

(** *** Storing and removing *)

(** What a node can be given to store: a message with a stamp, or one without
    and worth nothing. *)
Definition storable (stamp : bytes) (value : Z) : Prop :=
  stamp = [] /\ value = 0 \/ length stamp = StampSize /\ 0 <= value < 2 ^ 63.

Lemma step_ingest env data stamp from value r :
  in_step r -> sane_time (re_now env) -> storable stamp value ->
  in_step (ingestPropagationMessage env data stamp from value r).1.
Proof.
  intros I Ht Hst. unfold ingestPropagationMessage, ingestPropagationMessageAllowDuplicate.
  destruct (Z.ltb_spec (zlen data) (Z.of_nat DestinationLength)) as [|Hl]; [done|].
  destruct (already_processed (FullHash data) r) eqn:En; [done|]. cbn [negb andb].
  set (r1 := r <| r_locallyProcessedIDs ::= _ |>). assert (in_step r1) as I1 by (by apply (in_step_same r)).
  assert (r_propagationEntries r1 !! FullHash data = None) as Hnew.
  { apply orb_false_elim in En as [En _]. apply bool_decide_eq_false in En. by apply eq_None_not_Some. }
  clearbody r1. destruct (r_deliveryDestinations r1 !! _) as [d|].
  - pose proof (same_propagated env data false r1) as Hu.
    destruct (handlePropagatedInboundAllowDuplicate _ _ _ _) as [r2 x]. by apply (in_step_same r1).
  - destruct (negb _); [done|].
    pose proof (store_in_step env data stamp value from r1 I1 Ht ltac:(unfold zlen in Hl; lia) Hst Hnew) as I2.
    by destruct (storePropagationMessageStamped _ _ _ _ _ _ _).
Qed.

Lemma step_uri env data r : in_step r -> sane_time (re_now env) -> in_step (ingestURIOutcome env data false r).1.
Proof.
  intros I Ht. unfold ingestURIOutcome. destruct (Z.ltb_spec (zlen data) (Z.of_nat DestinationLength)) as [|Hl]; [done|].
  destruct (already_processed (FullHash data) r) eqn:En; [done|]. cbn [negb andb].
  set (r1 := r <| r_locallyProcessedIDs ::= _ |>). assert (in_step r1) as I1 by (by apply (in_step_same r)).
  assert (r_propagationEntries r1 !! FullHash data = None) as Hnew.
  { apply orb_false_elim in En as [En _]. apply bool_decide_eq_false in En. by apply eq_None_not_Some. }
  clearbody r1. destruct (r_deliveryDestinations r1 !! _) as [d|].
  - pose proof (same_encrypted env d data (FullHash data) r1) as Hu.
    destruct (deliver_encrypted _ _ _ _ _) as [r2 x]. by apply (in_step_same r1).
  - destruct (negb _); [done|].
    pose proof (store_in_step env data [] 0 [] r1 I1 Ht ltac:(unfold zlen in Hl; lia) ltac:(by left) Hnew) as I2.
    by destruct (storePropagationMessageStamped _ _ _ _ _ _ _).
Qed.

Lemma leadingZeroBits_range h : bytes_ok h -> 0 <= leadingZeroBits h <= 8 * zlen h.
Proof.
  induction 1 as [|b h Hb _ IH]; [done|]. rewrite zlen_cons. cbn [leadingZeroBits]. destruct (b =? 0); [lia|].
  pose proof (zlen_nonneg h). unfold is_byte in Hb. assert (0 <= LeadingZeros8 b <= 8); [|lia].
  clear -Hb. enumerate Hb; by vm_compute.
Qed.

Lemma validated_storable messages cost :
  Forall (fun v => storable (v_stampData v) (v_stampValue v)) (validatePropagationMessages messages cost).
Proof.
  unfold validatePropagationMessages. induction messages as [|m l IH]; [constructor|]. cbn [omap list_omap].
  destruct (validatePropagationMessage m cost) as [v|] eqn:E; [|done]. constructor; [|done].
  unfold validatePropagationMessage in E. destruct (Nat.leb_spec (length m) (2 * DestinationLength + SignatureLength + StampSize)) as [|Hl]; [done|].
  destruct (StampWorkblock _ _) as [wb| |]; [|done..]. destruct (StampValid _ _ _) eqn:Ev; [|done]. injection E as <-. cbn.
  right. split; [rewrite length_drop; lia|]. unfold StampValue.
  match goal with |- context [leadingZeroBits (FullHash ?x)] => pose proof (leadingZeroBits_range (FullHash x) (sha256_bytes _)) as Hb end.
  unfold zlen, FullHash in Hb. rewrite sha256_length in Hb. unfold FullHash. lia.
Qed.

Lemma step_packet env toLink data r :
  sane_time (re_now env) -> in_step r -> in_step (propagationPacket env toLink data r).1.
Proof.
  intros Ht I. unfold propagationPacket. destruct (negb toLink); [done|].
  destruct (propagation_messages data) as [[|b l]|]; [done| |done].
  pose proof (validated_storable (b :: l) (minAcceptedCost r)) as Hf.
  generalize dependent (validatePropagationMessages (b :: l) (minAcceptedCost r)). intros vs Hf.
  assert (in_step (ingest_client env vs r).1) as H1.
  { revert r I. induction Hf as [|v vs Hst _ IH]; intros r I; [done|]. cbn [ingest_client].
    pose proof (step_ingest env (v_lxmfData v) (v_stampData v) [] (v_stampValue v) r I Ht Hst) as I1.
    destruct (ingestPropagationMessage _ _ _ _ _ _) as [r1 [taken|e|]]; [|done..].
    apply IH. by destruct taken; apply (in_step_same r1). }
  by destruct (ingest_client _ _ _).
Qed.

Lemma step_synced env sender isPeer vs r :
  sane_time (re_now env) -> Forall (fun v => storable (v_stampData v) (v_stampValue v)) vs ->
  in_step r -> in_step (ingest_synced env sender isPeer vs r).1.
Proof.
  intros Ht Hf. revert r. induction Hf as [|v l Hst _ IH]; intros r I; [done|]. cbn [ingest_synced].
  match goal with |- context [ingestPropagationMessage env _ _ _ _ ?r1] =>
    assert (in_step r1) as I1 by (apply (in_step_same r); [destruct isPeer; [|destruct sender]; done|done]); generalize dependent r1 end.
  intros r1 I1. pose proof (step_ingest env (v_lxmfData v) (v_stampData v)
    (if isPeer then default [] sender else []) (v_stampValue v) r1 I1 Ht Hst) as I2.
  destruct (ingestPropagationMessage _ _ _ _ _ _) as [r2 [taken|e|]]; [|done..].
  apply IH. destruct isPeer; [by apply (in_step_same r2)|done].
Qed.

Lemma step_resource env linkID remote data r :
  sane_time (re_now env) -> in_step r -> in_step (propagationResourceConcluded env linkID remote data r).1.
Proof.
  intros Ht I. unfold propagationResourceConcluded.
  assert (forall r, in_step r -> in_step (popAcceptedOfferLink linkID r)) as Hpop by (intros r' I'; by apply (in_step_same r')).
  destruct (data ≫= propagation_messages) as [[|b l]|]; [by apply Hpop| |by apply Hpop].
  set (sender := _ <$> remote).
  set (r1 := match sender with Some h => maybeAutopeerIdentifiedPropagationSender env h r | None => r end).
  assert (in_step r1) as I1 by (apply (in_step_same r); [subst r1; destruct sender; [apply same_autopeer|done]|done]).
  destruct (_ && _); [by apply Hpop|]. set (r2 := begin_validation env linkID sender r1).
  assert (in_step (end_validation linkID sender r2)) as I3.
  { apply (in_step_same r1); [|done]. subst r2. unfold end_validation, begin_validation, popAcceptedOfferLink. by destruct sender. }
  generalize dependent (end_validation linkID sender r2). intros r3 I3.
  match goal with |- context [ingest_synced env sender ?p ?v r3] =>
    pose proof (step_synced env sender p v r3 Ht (validated_storable _ _) I3) as I4;
    destruct (ingest_synced env sender p v r3) as [r4 [[]|e|]]; [|done..] end.
  cbn [fst] in I4. destruct (_ =? _)%nat; [done|]. apply (in_step_same r4); [|done]. destruct sender; [|done].
  by destruct (_ =? _).
Qed.

Lemma step_get data remote r : in_step r -> in_step (messageGetRequest data remote r).1.
Proof.
  intros I. unfold messageGetRequest. destruct remote as [i|]; [|done]. destruct (_ && _); [done|].
  destruct (decodeAnyPreserveBinMapKeys _) as [v|]; [|done].
  destruct (messageGetRequestRoot v) as [[|v0 [|v1 l]]|]; [done..| |done].
  destruct (messageGetRequestEntries v0) as [wants|]; [|done]. destruct (messageGetRequestEntries v1) as [haves|]; [|done].
  destruct (_ && _); [done|]. set (h := CalculateHash _ _ _).
  assert (in_step (purge_haves h haves r).1) as I1.
  { revert r I. induction haves as [|x haves IH]; intros r I; [done|]. cbn [purge_haves].
    destruct (messageGetRequestTransientID x) as [id| |]; [|by apply IH|done].
    apply IH. destruct (_ !! _); [|done]. destruct (bytes_eqb _ _); [by apply remove_in_step|done]. }
  destruct (purge_haves _ _ _) as [r1 ok]. destruct (negb ok); [done|]. destruct (collect_wants _ _ _ _ _); [|done].
  by apply (in_step_same r1).
Qed.

Lemma step_clean now iter r : in_step r -> in_step (cleanMessageStoreLocked now iter r).
Proof.
  intros I. unfold cleanMessageStoreLocked. set (removed := (map_to_list _).*1).
  assert (in_step (foldr removePropagationEntryLocked r removed)) as I1
    by (clearbody removed; induction removed as [|id l IH]; [done|]; by apply remove_in_step).
  destruct (PrimFloat.leb _ _); [done|]. destruct (PrimFloat.leb _ _); [done|].
  generalize dependent (foldr removePropagationEntryLocked r removed). intros r1 I1.
  generalize ((sort_by (fun a b : bytes * float => PrimFloat.ltb b.2 a.2) (map (fun id => (id, getWeightLocked now id r1))
    (iter (map_to_list (r_propagationEntries r1)).*1))).*1) (messageStorageSizeLocked r1 - r_messageStorageLimit r1)%float 0%float.
  intros ids need cleaned. revert cleaned r1 I1. induction ids as [|id ids IH]; intros cleaned r1 I1; [done|]. cbn [remove_heaviest].
  destruct (PrimFloat.leb _ _); [done|]. by apply IH, remove_in_step.
Qed.

(** An operation of a peer in the router's map. *)
Definition with_peer (h : bytes) (f : Peer * Router -> Peer * Router * list peer_event) (r : Router) : Router :=
  match r_peers r !! h with
  | Some p => let '(p, r, _) := f (p, r) in r <| r_peers ::= alter (fun _ => p) h |>
  | None => r
  end.

Lemma same_with_peer h f r : (forall s, same_store s.2 (f s).1.2) -> same_store r (with_peer h f r).
Proof.
  intros Hf. unfold with_peer. destruct (_ !! h) as [p|]; [|done]. specialize (Hf (p, r)). destruct (f (p, r)) as [[p' r'] ev].
  by etrans; [exact Hf|].
Qed.

(** The operations of a node between two starts, in an environment that says
    among others what time it is and whether a file can be written. *)
Inductive node_step (env : RouterEnv) : Router -> Router -> Prop :=
  | ns_delivery toLink h data r : node_step env r (deliveryPacket env toLink h data r).1
  | ns_delivery_resource data r : node_step env r (handleInboundResourceData env data r).1
  | ns_propagated payload dup r : node_step env r (handlePropagatedInboundAllowDuplicate env payload dup r).1
  | ns_uri data r : node_step env r (ingestURIOutcome env data false r).1
  | ns_packet toLink data r : node_step env r (propagationPacket env toLink data r).1
  | ns_advertised linkID remote n r : node_step env r (propagationResourceAdvertised linkID remote n r).1
  | ns_resource linkID remote data r : node_step env r (propagationResourceConcluded env linkID remote data r).1
  | ns_offer data linkID remote r : node_step env r (offerRequest env data linkID remote r).1
  | ns_get data remote r : node_step env r (messageGetRequest data remote r).1
  | ns_list_response q v r : node_step env r (messageListResponse q v r).1
  | ns_get_response v r : node_step env r (messageGetResponse env v r).1
  | ns_announce h data pr r : node_step env r (handlePropagationAnnounce env h data pr r)
  | ns_caches r : node_step env r (cleanTransientIDCachesLocked (re_now env) r)
  | ns_clean iter r : node_step env r (cleanMessageStoreLocked (re_now env) iter r)
  | ns_flush iter r : node_step env r (FlushQueues iter r)
  | ns_sync senv h r : node_step env r (with_peer h (Sync senv) r)
  | ns_link senv h r : node_step env r (with_peer h (LinkEstablished senv) r)
  | ns_response senv v h r : node_step env r (with_peer h (OfferResponse senv v) r)
  | ns_concluded senv complete h r : node_step env r (with_peer h (ResourceConcluded senv complete) r).

Lemma node_step_ok env r r' : sane_time (re_now env) -> node_step env r r' -> in_step r -> in_step r'.
Proof.
  intros Ht [] I; try (by apply step_uri || by apply step_packet || by apply step_resource || by apply step_get || by apply step_clean);
    (eapply in_step_same; [|exact I]).
  - unfold deliveryPacket. destruct (_ && _); [done|]. destruct (r_isClosed _); [done|]. destruct toLink; apply same_bytes.
  - unfold handleInboundResourceData. destruct (_ =? _); [done|apply same_bytes].
  - apply same_propagated.
  - unfold propagationResourceAdvertised. destruct (_ && _); [done|]. by destruct (_ && _).
  - apply same_offer.
  - apply same_list_response.
  - apply same_get_response.
  - apply same_announce.
  - done.
  - apply same_flush.
  - apply same_with_peer, same_sync.
  - apply same_with_peer. intros [p r2]. unfold LinkEstablished.
    match goal with |- context [Sync senv ?s] => pose proof (same_sync senv s) as H1; by destruct (Sync senv s) as [[p3 r3] ev] end.
  - apply same_with_peer. intros s. apply same_response.
  - apply same_with_peer. intros s. apply same_concluded.
Qed.

(** ** Starting again *)

(** The directory lists all its files. *)
Definition lists_all (names : list bytes) (r : Router) : Prop := forall name, is_Some (r_messageStore r !! name) -> name ∈ names.

(** The life of a node: it starts with an empty store, its operations follow
    each other, and it may be stopped and started again, when a new router,
    with nothing but the files of the old one, reads the directory. *)
Inductive node_run : Router -> Prop :=
  | nr_start r : r_propagationEntries r = ∅ -> r_messageStore r = ∅ -> node_run r
  | nr_step r env r' : node_run r -> sane_time (re_now env) -> node_step env r r' -> node_run r'
  | nr_restart r r1 names : node_run r -> r_messageStore r1 = r_messageStore r -> lists_all names r1 ->
      node_run (reindexPropagationStoreLocked names r1).

(** One step of [reindexPropagationStoreLocked]. *)
Definition index_step (files : gmap bytes bytes) (acc : gmap bytes propagationEntry * Z) (name : bytes)
    : gmap bytes propagationEntry * Z :=
  match files !! name with
  | None => acc
  | Some fileData =>
      match indexed_entry name fileData (acc.2 + 1) with
      | Some (id, e) => (<[id := e]> acc.1, acc.2 + 1)
      | None => acc
      end
  end.

Lemma reindex_steps names r :
  r_propagationEntries (reindexPropagationStoreLocked names r) = (fold_left (index_step (r_messageStore r)) names (∅, 0)).1.
Proof. unfold reindexPropagationStoreLocked. fold (index_step (r_messageStore r)). by destruct (fold_left _ _ _). Qed.

Lemma reindex_files names r : r_messageStore (reindexPropagationStoreLocked names r) = r_messageStore r.
Proof. unfold reindexPropagationStoreLocked. by destruct (fold_left _ _ _). Qed.

(** An entry read from the file of an entry of [r]. *)
Definition reread (r : Router) (id : bytes) (e' : propagationEntry) : Prop :=
  exists e data n, r_propagationEntries r !! id = Some e /\ r_messageStore r !! e_path e = Some data /\
    indexed_entry (e_path e) data n = Some (id, e').

Lemma index_step_reread r acc name :
  in_step r -> (forall id e', acc.1 !! id = Some e' -> reread r id e') ->
  let acc' := index_step (r_messageStore r) acc name in
  (forall id e', acc'.1 !! id = Some e' -> reread r id e') /\
  (forall id, is_Some (acc.1 !! id) -> is_Some (acc'.1 !! id)) /\
  (forall id e, r_propagationEntries r !! id = Some e -> is_Some (parsePropagationStoreFilename (e_path e)) ->
     e_path e = name -> is_Some (acc'.1 !! id)).
Proof.
  intros [I1 I2 I3] Hacc acc'. subst acc'. unfold index_step.
  assert (forall id e, r_propagationEntries r !! id = Some e -> is_Some (parsePropagationStoreFilename (e_path e)) ->
    exists data e', r_messageStore r !! e_path e = Some data /\ indexed_entry (e_path e) data (acc.2 + 1) = Some (id, e')) as Hown.
  { intros id e He Hp. destruct (I1 id e He Hp) as (data & Hd & F). destruct (F (acc.2 + 1)) as (e' & Hi & _). eauto. }
  destruct (r_messageStore r !! name) as [data|] eqn:Ef.
  2: { split_and!; [done..|]. intros id e He Hp <-. destruct (Hown id e He Hp) as (d & e' & Hd & _). congruence. }
  destruct (indexed_entry name data (acc.2 + 1)) as [[id e']|] eqn:Ei.
  2: { split_and!; [done..|]. intros id e He Hp <-. destruct (Hown id e He Hp) as (d & e' & Hd & Hi). congruence. }
  destruct (indexed_id _ _ _ _ _ Ei) as (t & v & Hparse). destruct (I3 _ _ Ef ltac:(by rewrite Hparse)) as (id0 & e0 & He0 & Ep).
  destruct (Hown id0 e0 He0 ltac:(by rewrite Ep, Hparse)) as (d & x & Hd & Hi).
  assert (id0 = id) as -> by congruence. cbn [fst]. split_and!; intros id'.
  - intros e2 [[<- <-]|[_ H]]%lookup_insert_Some; [|by apply Hacc]. exists e0, data, (acc.2 + 1). by rewrite Ep.
  - intros H. rewrite lookup_insert_is_Some'. by right.
  - intros e He Hp Epn. destruct (Hown id' e He Hp) as (d' & x' & Hd' & Hi'). assert (id' = id) as -> by congruence.
    by rewrite lookup_insert_eq.
Qed.

(** What is indexed after some files were read: nothing that was not there,
    and all that was read. *)
Lemma indexed_names r names acc :
  in_step r -> (forall id e', acc.1 !! id = Some e' -> reread r id e') ->
  let res := fold_left (index_step (r_messageStore r)) names acc in
  (forall id e', res.1 !! id = Some e' -> reread r id e') /\
  (forall id, is_Some (acc.1 !! id) -> is_Some (res.1 !! id)) /\
  (forall id e, r_propagationEntries r !! id = Some e -> is_Some (parsePropagationStoreFilename (e_path e)) ->
     e_path e ∈ names -> is_Some (res.1 !! id)).
Proof.
  intros I. revert acc. induction names as [|name names IH]; intros acc Hacc res; cbn in res.
  { split; [done|]. split; [done|]. intros id e _ _ H. by apply elem_of_nil in H. }
  destruct (index_step_reread r acc name I Hacc) as (S1 & S2 & S3). destruct (IH _ S1) as (R1 & R2 & R3).
  split; [done|]. split; [by intros id H; apply R2, S2|].
  intros id e He Hp [Ep|Hn]%elem_of_cons; [|by apply (R3 id e)]. by apply R2, (S3 id e).
Qed.

(** Reading the whole directory. *)
Lemma reindexed r r1 names :
  in_step r -> r_messageStore r1 = r_messageStore r -> lists_all names r1 ->
  let r' := reindexPropagationStoreLocked names r1 in
  (forall id e', r_propagationEntries r' !! id = Some e' -> reread r id e') /\
  (forall id e, r_propagationEntries r !! id = Some e -> is_Some (parsePropagationStoreFilename (e_path e)) ->
     is_Some (r_propagationEntries r' !! id)).
Proof.
  intros I Es Hall r'. subst r'. rewrite reindex_steps, Es.
  destruct (indexed_names r names (∅, 0) I) as (R1 & _ & R3); [done|]. split; [done|]. intros id e He Hp.
  apply (R3 id e He Hp), Hall. destruct (is_filed r I id e He Hp) as (data & Hd & _). by rewrite Es, Hd.
Qed.

Lemma indexed_order name data n m id e :
  indexed_entry name data n = Some (id, e) -> exists e', indexed_entry name data m = Some (id, e') /\ e_path e' = name /\ view e' = view e.
Proof.
  unfold indexed_entry. destruct (parsePropagationStoreFilename name) as [[[i t] v]|]; [|done].
  destruct (_ <? _); [done|]. intros [= <- <-]. eauto.
Qed.

Lemma restart_in_step r r1 names :
  in_step r -> r_messageStore r1 = r_messageStore r -> lists_all names r1 -> in_step (reindexPropagationStoreLocked names r1).
Proof.
  intros I Es Hall. destruct (reindexed r r1 names I Es Hall) as [R1 R2].
  assert (forall id e' data n name, indexed_entry name data n = Some (id, e') -> e_path e' = name) as Hpath.
  { intros id e' data n name H. destruct (indexed_order _ _ _ n _ _ H) as (x & Hx & <- & _). congruence. }
  split; rewrite ?reindex_files, ?Es.
  - intros id e' He' Hp. destruct (R1 _ _ He') as (e & data & n & He & Hd & Hi). pose proof (Hpath _ _ _ _ _ Hi) as Ep. rewrite <- Ep in Hd, Hi.
    exists data. split; [done|]. intros m. destruct (indexed_order _ _ _ m _ _ Hi) as (x & Hx & Hpx & Hv). eauto.
  - intros id e' He' Hp. exfalso. destruct (R1 _ _ He') as (e & data & n & He & Hd & Hi).
    pose proof (Hpath _ _ _ _ _ Hi) as Ep. rewrite <- Ep in Hi. destruct (indexed_id _ _ _ _ _ Hi) as (t & v & Hpar). congruence.
  - intros name data Hd Hp. destruct (is_indexed r I _ _ Hd Hp) as (id & e & He & Ep). rewrite <- Ep in Hp.
    destruct (R2 id e He Hp) as [e' He']. exists id, e'. split; [done|].
    destruct (R1 _ _ He') as (e2 & data2 & n & He2 & Hd2 & Hi). rewrite (Hpath _ _ _ _ _ Hi). congruence.
Qed.

Lemma node_run_ok r : node_run r -> in_step r.
Proof.
  induction 1 as [r E1 E2|r env r' _ IH Ht Hst|r r1 names _ IH Es Hall].
  - split; rewrite ?E1, ?E2; done.
  - by eapply node_step_ok.
  - by eapply restart_in_step.
Qed.

End Store.

(** ** Witnesses *)

#[export] Instance toy_text_laws : @FloatTextLaws ToyText.toy_text.
Proof.
  split; intros f _.
  - change (float_of_bits64 <$> read_digits 0 (digits_of 65 (float_bits f) []) = Some f).
    rewrite read_digits_of by (pose proof (float_bits_range f); change (2 ^ Z.of_nat 65) with (2 * 2 ^ 64); lia).
    cbn. by rewrite float_bits_roundtrip.
  - apply digits_of_plain; [apply float_bits_range|apply not_elem_of_nil|constructor].
Qed.

Section StoreWitnesses.
Import ToyCrypto ToyCurves ToyIdentity ToyStamps ToyText.

(** A hash function under which every stamp is worth 64. *)
#[local] Instance worth_sha : Sha256 := fun m =>
  replicate 8 0 ++ 128 :: be_enc 23 (fold_left (fun a b => (a * 31 + b + 7)) m 1).
#[local] Instance worth_sha_laws : Sha256Laws.
Proof.
  split; intros m; unfold SHA256, worth_sha.
  - by rewrite length_app, length_replicate, length_cons, be_enc_length.
  - apply bytes_ok_app; [apply bytes_ok_replicate; unfold is_byte; lia|]. constructor; [unfold is_byte; lia|apply be_enc_ok].
Qed.

Definition store_env (now : Z) (writable : bool) : RouterEnv :=
  mkRouterEnv now (mkLxTransport (fun _ => None) (fun _ => false)) (fun _ => 1) (fun _ => None) writable id true.
Definition day_one : RouterEnv := store_env 1700000000000000000 true.
Definition full_disk : RouterEnv := store_env 1700086400000000000 false.

Definition empty_node : Router := NewRouter (with_keys (seed 1) (seed 2) zeroIdentity) <| r_propagationEnabled := true |>.
Definition stamped_payload : bytes := concat (map seed [7; 8; 9; 10]).
Definition uri_payload : bytes := concat (map seed [11; 12; 13; 14]).
Definition unwritten_payload : bytes := concat (map seed [15; 16; 17; 18]).

(** A message uploaded with a stamp, one from a URI, and one that came while
    the disk was full. *)
Definition stamped_upload : bytes := (Msgpack.Pack (VArr [VFloat64 0; VArr [VBin (stamped_payload ++ seed 9)]])).1.
Definition node_1 : Router :=
  (ingest_client day_one [mkValidated (FullHash stamped_payload) stamped_payload (seed 9) 64] empty_node).1.
Definition node_2 : Router := (ingestURIOutcome day_one uri_payload false node_1).1.
Definition node_3 : Router := (ingestURIOutcome full_disk unwritten_payload false node_2).1.
(** The router that is started on the files of the node. *)
Definition next_node : Router := empty_node <| r_messageStore := r_messageStore node_3 |>.

Lemma stamped_uploaded : (propagationPacket day_one true stamped_upload empty_node).1 = node_1.
Proof.
  unfold propagationPacket. cbn [negb]. cbv iota.
  assert (propagation_messages stamped_upload = Some [stamped_payload ++ seed 9]) as -> by (vm_compute; reflexivity).
  assert (validatePropagationMessage (stamped_payload ++ seed 9) (minAcceptedCost empty_node) =
    Some (mkValidated (FullHash stamped_payload) stamped_payload (seed 9) 64)) as Ev.
  { unfold validatePropagationMessage. change (length (stamped_payload ++ seed 9)) with 160%nat.
    assert (take (160 - StampSize) (stamped_payload ++ seed 9) = stamped_payload) as -> by (vm_compute; reflexivity).
    assert (drop (160 - StampSize) (stamped_payload ++ seed 9) = seed 9) as -> by (vm_compute; reflexivity).
    destruct (StampWorkblock_ok (FullHash stamped_payload) WorkblockExpandRoundsPN) as (wb & -> & _); [discriminate|].
    assert (StampValue wb (seed 9) = 64) as Hv by reflexivity.
    assert (StampValid (seed 9) (minAcceptedCost empty_node) wb = true) as -> by reflexivity. by rewrite Hv. }
  unfold validatePropagationMessages. cbn [omap list_omap]. rewrite Ev. unfold node_1.
  by destruct (ingest_client _ _ _).
Qed.

Lemma node_3_run : node_run node_3.
Proof.
  assert (node_run node_1) as H1.
  { rewrite <- stamped_uploaded. apply (nr_step empty_node day_one); [by apply nr_start|split; vm_compute; reflexivity|apply ns_packet]. }
  assert (node_run node_2) as H2 by (apply (nr_step node_1 day_one); [done|split; vm_compute; reflexivity|apply ns_uri]).
  apply (nr_step node_2 full_disk); [done|split; vm_compute; reflexivity|apply ns_uri].
Qed.

(** What the restart finds of an entry that it does not lose. *)
Lemma found_again (e : propagationEntry) (o : option propagationEntry) :
  match o with Some e' => view e' = view e \/ misread e | None => e_path e = [] \/ worthless e end ->
  e_path e <> [] -> ~ worthless e -> ~ misread e -> view <$> o = Some (view e) /\ e_payload <$> o = Some (e_payload e).
Proof. destruct o as [e'|]; [intros [Ev|]|intros []]; try done. intros _ _ _. cbn. rewrite Ev. injection Ev as _ -> _. done. Qed.


(** A URI that is ingested again with duplicates allowed gets a second file and
    leaves the first behind: after the message was removed a restart brings it
    back. *)
Definition day_two : RouterEnv := store_env 1700086400000000000 true.
Definition twice : Router := (ingestURIOutcome day_two uri_payload true (ingestURIOutcome day_one uri_payload true empty_node).1).1.
Definition removed : Router := removePropagationEntryLocked (FullHash uri_payload) twice.

Lemma duplicate_uri_returns :
  r_propagationEntries removed !! FullHash uri_payload = None /\
  e_payload <$> r_propagationEntries (reindexPropagationStoreLocked (map_to_list (r_messageStore removed)).*1 removed) !!
    FullHash uri_payload = Some uri_payload.
Proof. split; vm_compute; reflexivity. Qed.
End StoreWitnesses.
