(* ===== verification/LxmfRouterFacts.v ===== *)
(** * Properties of the LXMF router

    Proves of [LxmfRouter], [LxmfNode] and [LxmfPeer] that a message is
    delivered once while it is remembered, that a client only reads and removes
    its own messages, what the store keeps of a message, and how messages get
    from one router to another, on paper and through a propagation node. *)

From stdpp Require Import base tactics option list gmap.
From Stdlib Require Import ZArith Lia Floats.
From S2P Require Import Prelude Clock Crypto Packet Msgpack Identity LxmfStamps LxmfTickets LxmfMessage LxmfMessageFacts.
From S2P Require Import LxmfRouter LxmfNode LxmfPeer.
Local Open Scope Z_scope.
Local Open Scope go_scope.

Section Once.
Context `{Sh : Sha256} {ShL : Sha256Laws} `{Ci : BlockCipher}.
Context `{Cu : Curves} {CuL : CurvesLaws} `{Hs : HashState} `{Ft : FloatText}.

(** ** Delivery at most once *)

(** What the router knows of the messages it gave to the application: each is
    remembered unless it was delivered too long ago, and a message that was
    delivered twice was forgotten in between. *)
Record inbox_ok (now : Z) (r : Router) : Prop := {
  io_known : Forall (fun c => c.1 <= now /\
    ((exists t, r_locallyDeliveredIDs r !! m_Hash c.2 = Some t /\ c.1 <= t) \/ c.1 + transientIDCacheExpiry < now))
    (r_callbacks r);
  io_once : ForallOrdPairs (fun a b => m_Hash a.2 = m_Hash b.2 -> a.1 + transientIDCacheExpiry < b.1) (r_callbacks r);
}.

(** What an operation at [now] may do to the caches and the log without
    delivering. *)
Definition quiet (now : Z) (r r' : Router) : Prop :=
  r_callbacks r' = r_callbacks r /\
  forall h t, r_locallyDeliveredIDs r !! h = Some t -> t <= now ->
    r_locallyDeliveredIDs r' !! h = Some t \/ r_locallyDeliveredIDs r' !! h = Some now.

Definition unheard (r r' : Router) : Prop :=
  r_callbacks r' = r_callbacks r /\ r_locallyDeliveredIDs r' = r_locallyDeliveredIDs r.

#[local] Instance unheard_preorder : PreOrder unheard.
Proof. split; [done|]. intros a b c [] []; split; congruence. Qed.

Definition keeps (now : Z) (f : Router -> Router) : Prop := forall r, inbox_ok now r -> inbox_ok now (f r).

Lemma inbox_mono now now' r : now <= now' -> inbox_ok now r -> inbox_ok now' r.
Proof.
  intros Hle [H1 H2]. split; [|done]. eapply Forall_impl; [exact H1|]. cbn beta. intros c [Hc [|]]; split; eauto; lia.
Qed.

Lemma inbox_unheard now r r' : unheard r r' -> inbox_ok now r -> inbox_ok now r'.
Proof. intros [E1 E2] [H1 H2]. split; by rewrite ?E1, ?E2. Qed.

(** Remembering a message, again or anew. *)
Lemma inbox_mark now h r : inbox_ok now r -> inbox_ok now (r <| r_locallyDeliveredIDs ::= <[h := now]> |>).
Proof.
  intros [H1 H2]. split; [|done]. eapply Forall_impl; [exact H1|]. cbn beta. intros c [Hc [(t & Et & Hle)|]]; [|by split; [|right]].
  split; [done|]. left. cbn. destruct (decide (h = m_Hash c.2)) as [->|Hne].
  - exists now. split; [apply lookup_insert_eq|done].
  - exists t. by rewrite lookup_insert_ne.
Qed.

Lemma inbox_clean now r : inbox_ok now r -> inbox_ok now (cleanTransientIDCachesLocked now r).
Proof.
  intros [H1 H2]. split; [|done]. eapply Forall_impl; [exact H1|]. cbn beta. intros c [Hc [(t & Et & Hle)|]]; [|by split; [|right]].
  split; [done|]. destruct (After now (Add t transientIDCacheExpiry)) eqn:Ea.
  - right. unfold After, Add in Ea. apply Z.ltb_lt in Ea. lia.
  - left. exists t. split; [|done]. cbn. apply map_lookup_filter_Some. done.
Qed.

(** The log grows by a message that is not remembered. *)
Lemma inbox_deliver now m r :
  r_locallyDeliveredIDs r !! m_Hash m = None -> inbox_ok now r ->
  inbox_ok now (r <| r_locallyDeliveredIDs ::= <[m_Hash m := now]> |> <| r_callbacks ::= fun l => l ++ [(now, m)] |>).
Proof.
  intros Hn H. destruct (inbox_mark now (m_Hash m) r H) as [H1 _]. destruct H as [H0 H2]. split.
  - cbn. apply Forall_app. split; [exact H1|]. constructor; [|done]. cbn. split; [done|]. left. exists now.
    split; [apply lookup_insert_eq|done].
  - cbn. clear H1. induction (r_callbacks r) as [|c l IH]; [by repeat constructor|].
    inversion_clear H2 as [|? ? Hc Hl]. inversion_clear H0 as [|? ? Hk Hf]. cbn [app]. constructor; [|by apply IH].
    apply Forall_app. split; [done|]. constructor; [|done]. intros E. cbn in E |- *.
    destruct Hk as [_ [(t & Et & _)|]]; [|done]. rewrite E in Et. congruence.
Qed.

Lemma inbox_inbound env m r :
  m_Hash m <> [] -> inbox_ok (re_now env) r -> inbox_ok (re_now env) (handleInboundMessage env m r).
Proof.
  intros Hne H. unfold handleInboundMessage. destruct (m_SourceBlackholed m); [done|]. destruct (IsIgnored _ _); [done|].
  unfold hasDeliveredTransientIDLocked. destruct (zlen_pos (m_Hash m) Hne) as [-> _]. cbn [negb andb].
  case_bool_decide as Hd; [done|]. apply eq_None_not_Some in Hd.
  set (r1 := r <| r_locallyDeliveredIDs ::= <[m_Hash m := re_now env]> |>).
  set (r2 := if m_SignatureValidated m then _ else r1).
  assert (unheard r1 r2) as Hu by (subst r2; destruct (m_SignatureValidated m); [destruct (outboundTicketFieldEntry _ _)|]; done).
  destruct (r_deliveryCallback r2).
  - eapply inbox_unheard; [|apply (inbox_deliver _ m r Hd H)]. destruct Hu as [E1 E2]. split; cbn; by rewrite ?E1, ?E2.
  - eapply inbox_unheard; [exact Hu|]. by apply inbox_mark.
Qed.

Lemma FullHash_nonempty b : FullHash b <> [].
Proof. intros E. pose proof (sha256_length b) as Hl. unfold FullHash in E. by rewrite E in Hl. Qed.

Lemma inbox_deliver_bytes env data method r :
  inbox_ok (re_now env) r -> inbox_ok (re_now env) (deliver_bytes env data method r).1.
Proof.
  intros H. unfold deliver_bytes. pose proof (unpack_shown (re_transport env) data method) as Hu.
  destruct (UnpackMessageFromBytes _ _ _) as [m|e|]; [|done..]. cbn [fst]. apply inbox_inbound; [|done].
  destruct Hu as (v0 & v1 & v2 & v3 & S). rewrite (sh_hash _ _ _ _ _ _ _ S). apply FullHash_nonempty.
Qed.

Lemma unheard_decrypt env d c r : unheard r (decrypt_delivery env d c r).1.
Proof. unfold decrypt_delivery. by destruct (DDecryptFor _ _ _ _ _) as [[]]. Qed.

Lemma inbox_encrypted env d payload id r :
  inbox_ok (re_now env) r -> inbox_ok (re_now env) (deliver_encrypted env d payload id r).1.
Proof.
  intros H. unfold deliver_encrypted. pose proof (unheard_decrypt env d (drop DestinationLength payload) r) as Hu.
  destruct (decrypt_delivery _ _ _ _) as [r1 x]. pose proof (inbox_unheard _ _ _ Hu H) as H1. cbn [fst] in H1.
  destruct x as [plain|e|]; [|done..].
  pose proof (inbox_deliver_bytes env (take DestinationLength payload ++ plain) MethodPropagated r1 H1) as H2.
  destruct (deliver_bytes _ _ _ _) as [r2 [[]|e|]]; [by apply inbox_mark|done..].
Qed.

Lemma inbox_processed now id t r : inbox_ok now r -> inbox_ok now (r <| r_locallyProcessedIDs ::= <[id := t]> |>).
Proof. by apply inbox_unheard. Qed.

Lemma inbox_propagated env payload dup r :
  inbox_ok (re_now env) r -> inbox_ok (re_now env) (handlePropagatedInboundAllowDuplicate env payload dup r).1.
Proof.
  intros H. unfold handlePropagatedInboundAllowDuplicate. destruct (_ <? _); [done|]. destruct (_ && _); [done|].
  destruct (_ !! _) as [d|]; [|by apply inbox_processed].
  pose proof (inbox_encrypted env d payload (FullHash payload) _ (inbox_processed _ (FullHash payload) (re_now env) r H)) as H1.
  by destruct (deliver_encrypted _ _ _ _ _).
Qed.

(** The store does not touch what was delivered. *)
Lemma unheard_store env h payload stamp v from r :
  unheard r (storePropagationMessageStamped env h payload stamp v from r).1.
Proof.
  unfold storePropagationMessageStamped, nextPropagationEntryOrderLocked, enqueuePeerDistributionLocked.
  destruct (r_propagationEntries r !! _) as [e|]; [destruct (0 <? e_order e)|];
    (destruct (_ && _); destruct (zlen _ =? 0); done).
Qed.

Lemma unheard_remove id r : unheard r (removePropagationEntryLocked id r).
Proof. unfold removePropagationEntryLocked. destruct (_ !! _); [|done]. by destruct (_ =? _). Qed.

Lemma inbox_ingest env data stamp from v dup r :
  inbox_ok (re_now env) r ->
  inbox_ok (re_now env) (ingestPropagationMessageAllowDuplicate env data stamp from v dup r).1.
Proof.
  intros H. unfold ingestPropagationMessageAllowDuplicate. destruct (_ <? _); [done|]. destruct (_ && _); [done|].
  pose proof (inbox_processed _ (FullHash data) (re_now env) r H) as H1. set (r1 := r <| r_locallyProcessedIDs ::= _ |>) in *.
  destruct (_ !! _) as [d|].
  - pose proof (inbox_propagated env data dup r1 H1) as H2.
    by destruct (handlePropagatedInboundAllowDuplicate _ _ _ _) as [r2 [b|e|]].
  - destruct (negb _); [done|].
    pose proof (unheard_store env (take DestinationLength data) data stamp v from r1) as Hu.
    destruct (storePropagationMessageStamped _ _ _ _ _ _ _) as [r2 id]. by eapply inbox_unheard.
Qed.

Lemma inbox_uri env data dup r :
  inbox_ok (re_now env) r -> inbox_ok (re_now env) (ingestURIOutcome env data dup r).1.
Proof.
  intros H. unfold ingestURIOutcome. destruct (_ <? _); [done|]. destruct (_ && _); [done|].
  pose proof (inbox_processed _ (FullHash data) (re_now env) r H) as H1. set (r1 := r <| r_locallyProcessedIDs ::= _ |>) in *.
  destruct (_ !! _) as [d|].
  - pose proof (inbox_encrypted env d data (FullHash data) r1 H1) as H2. by destruct (deliver_encrypted _ _ _ _ _) as [r2 [[]|e|]].
  - destruct (negb _); [done|].
    pose proof (unheard_store env (take DestinationLength data) data [] 0 [] r1) as Hu.
    destruct (storePropagationMessageStamped _ _ _ _ _ _ _) as [r2 id]. by eapply inbox_unheard.
Qed.

Lemma inbox_client env l r : inbox_ok (re_now env) r -> inbox_ok (re_now env) (ingest_client env l r).1.
Proof.
  revert r. induction l as [|v l IH]; intros r H; [done|]. cbn [ingest_client]. unfold ingestPropagationMessage.
  pose proof (inbox_ingest env (v_lxmfData v) (v_stampData v) [] (v_stampValue v) false r H) as H1.
  destruct (ingestPropagationMessageAllowDuplicate _ _ _ _ _ _ _) as [r1 [taken|e|]]; [|done..].
  apply IH. destruct taken; [by eapply inbox_unheard; [|exact H1]|done].
Qed.

Lemma inbox_synced env sender isPeer l r :
  inbox_ok (re_now env) r -> inbox_ok (re_now env) (ingest_synced env sender isPeer l r).1.
Proof.
  revert r. induction l as [|v l IH]; intros r H; [done|]. cbn [ingest_synced]. unfold ingestPropagationMessage.
  match goal with |- context [ingestPropagationMessageAllowDuplicate env _ _ _ _ _ ?r1] =>
    assert (inbox_ok (re_now env) r1) as H1
      by (eapply inbox_unheard; [|exact H]; destruct isPeer; [|destruct sender]; done); generalize dependent r1 end.
  intros r1 H1. pose proof (inbox_ingest env (v_lxmfData v) (v_stampData v)
    (if isPeer then default [] sender else []) (v_stampValue v) false r1 H1) as H2.
  destruct (ingestPropagationMessageAllowDuplicate _ _ _ _ _ _ _) as [r2 [taken|e|]]; [|done..].
  apply IH. destruct isPeer; [by eapply inbox_unheard; [|exact H2]|done].
Qed.

Lemma unheard_unpeer h t r : unheard r (unpeerLocked h t r).
Proof. unfold unpeerLocked. destruct (_ !! _); [|done]. by destruct (PrimFloat.leb _ _). Qed.

Lemma unheard_peer env h a r : unheard r (peer env h a r).
Proof.
  unfold peer. destruct (_ <? _); [apply unheard_unpeer|]. destruct (_ !! _); [by destruct (PrimFloat.leb _ _)|].
  by destruct (_ <=? _).
Qed.

Lemma unheard_autopeer env h r : unheard r (maybeAutopeerIdentifiedPropagationSender env h r).
Proof.
  unfold maybeAutopeerIdentifiedPropagationSender. destruct (_ || _); [done|]. destruct (_ <? _); [done|].
  destruct (re_recall env h) as [i|]; [|done]. destruct (_ =? _); [done|].
  destruct (decodePropagationAnnounceData _) as [a|]; [|done]. destruct (pn_propagationEnabled a); [apply unheard_peer|done].
Qed.

Lemma unheard_announce env h data pr r : unheard r (handlePropagationAnnounce env h data pr r).
Proof.
  unfold handlePropagationAnnounce. destruct data as [|b data]; [done|].
  destruct (decodePropagationAnnounceData _) as [a|]; [|done]. unfold peer_announced.
  destruct (negb _); [done|]. case_bool_decide; [destruct (_ || _); [apply unheard_peer|done]|].
  destruct (_ || _); [done|]. destruct (pn_propagationEnabled a); [|apply unheard_unpeer].
  destruct (_ <=? _); [apply unheard_peer|apply unheard_unpeer].
Qed.

Lemma inbox_packet env toLink data r :
  inbox_ok (re_now env) r -> inbox_ok (re_now env) (propagationPacket env toLink data r).1.
Proof.
  intros H. unfold propagationPacket. destruct (negb toLink); [done|].
  destruct (propagation_messages data) as [[|b l]|]; [done| |done].
  pose proof (inbox_client env (validatePropagationMessages (b :: l) (minAcceptedCost r)) r H) as H1.
  by destruct (ingest_client _ _ _).
Qed.

Lemma inbox_resource env linkID remote data r :
  inbox_ok (re_now env) r -> inbox_ok (re_now env) (propagationResourceConcluded env linkID remote data r).1.
Proof.
  intros H. unfold propagationResourceConcluded.
  assert (forall r, inbox_ok (re_now env) r -> inbox_ok (re_now env) (popAcceptedOfferLink linkID r)) as Hpop
    by (intros r' H'; by eapply inbox_unheard; [|exact H']).
  destruct (data ≫= propagation_messages) as [[|b l]|]; [by apply Hpop| |by apply Hpop].
  set (sender := _ <$> remote).
  set (r1 := match sender with Some h => maybeAutopeerIdentifiedPropagationSender env h r | None => r end).
  assert (inbox_ok (re_now env) r1) as H1
    by (eapply inbox_unheard; [|exact H]; subst r1; destruct sender; [apply unheard_autopeer|done]).
  destruct (_ && _); [by apply Hpop|].
  set (r2 := begin_validation env linkID sender r1).
  assert (inbox_ok (re_now env) (end_validation linkID sender r2)) as H3
    by (eapply inbox_unheard; [|exact H1]; subst r2; unfold end_validation, begin_validation, popAcceptedOfferLink; by destruct sender).
  generalize dependent (end_validation linkID sender r2). intros r3 H3.
  match goal with |- context [ingest_synced env sender ?p ?v r3] => pose proof (inbox_synced env sender p v r3 H3) as H4;
    destruct (ingest_synced env sender p v r3) as [r4 [[]|e|]]; [|done..] end.
  cbn [fst] in H4. destruct (_ =? _)%nat; [done|]. eapply inbox_unheard; [|exact H4]. destruct sender; [|done].
  by destruct (_ =? _).
Qed.

Lemma unheard_offer env data linkID remote r : unheard r (offerRequest env data linkID remote r).1.
Proof.
  unfold offerRequest. destruct remote as [i|]; [|done].
  assert (unheard r (offer_gate env (CalculateHash (Some i) AppName [aspect_propagation]) r).1) as Hg.
  { unfold offer_gate. destruct (_ && _ && _); [done|]. destruct (_ && _ && _); [done|].
    destruct (_ !! _); [|done]. by destruct (Before _ _). }
  destruct (offer_gate _ _ _) as [r1 [c|]]; [done|]. cbn [fst] in Hg.
  destruct (decodeAnyList _) as [[|k [|ids l]]|]; [done..| |done].
  destruct (_ =? _); [done|]. destruct (_ && _); [done|]. destruct (_ =? _); [done|]. cbv zeta.
  set (r2 := if 0 <? zlen linkID then _ else r1).
  assert (unheard r r2) as H2 by (subst r2; destruct (_ <? _); [by etrans; [exact Hg|]|done]).
  destruct (_ =? _); [done|]. destruct (_ =? _); [done|]. cbn [fst].
  destruct (0 <? zlen linkID); [by etrans; [exact H2|]|done].
Qed.

Lemma unheard_purge h haves r : unheard r (purge_haves h haves r).1.
Proof.
  revert r. induction haves as [|v haves IH]; intros r; [done|]. cbn [purge_haves].
  destruct (messageGetRequestTransientID v) as [id| |]; [|apply IH|done].
  etrans; [|apply IH]. destruct (_ !! _); [|done]. destruct (bytes_eqb _ _); [apply unheard_remove|done].
Qed.

Lemma unheard_get data remote r : unheard r (messageGetRequest data remote r).1.
Proof.
  unfold messageGetRequest. destruct remote as [i|]; [|done]. destruct (_ && _); [done|].
  destruct (decodeAnyPreserveBinMapKeys _) as [v|]; [|done].
  destruct (messageGetRequestRoot v) as [[|v0 [|v1 l]]|]; [done..| |done].
  destruct (messageGetRequestEntries v0) as [wants|]; [|done]. destruct (messageGetRequestEntries v1) as [haves|]; [|done].
  destruct (_ && _); [done|]. pose proof (unheard_purge (CalculateHash (Some i) AppName [aspect_delivery]) haves r) as Hp.
  destruct (purge_haves _ _ _) as [r1 ok]. destruct (negb ok); [done|]. destruct (collect_wants _ _ _ _ _); [|done].
  by etrans; [exact Hp|].
Qed.

Lemma inbox_receive env l r : inbox_ok (re_now env) r -> inbox_ok (re_now env) (receive_messages env l r).1.
Proof.
  revert r. induction l as [|v l IH]; intros r H; [done|]. cbn [receive_messages].
  destruct v; try done;
    (match goal with |- context [handlePropagatedInbound env ?b r] =>
       pose proof (inbox_propagated env b false r H) as H1; fold (handlePropagatedInbound env b r) in H1;
       destruct (handlePropagatedInbound env b r) as [r1 [dup|e|]]; [|done..] end;
     cbn [fst] in H1; pose proof (IH r1 H1) as H2; by destruct (receive_messages env l r1)).
Qed.

Lemma inbox_get_response env v r : inbox_ok (re_now env) r -> inbox_ok (re_now env) (messageGetResponse env v r).1.
Proof.
  intros H. unfold messageGetResponse.
  match goal with |- context [if _ =? peerErrorNoAccess then _ else ?a] => assert (inbox_ok (re_now env) a.1) as Ha; [|generalize dependent a] end.
  - destruct (has_len v) as [n|]; [|done]. destruct (n =? 0); [by eapply inbox_unheard; [|exact H]|].
    destruct (messageGetResponseEntries v) as [l|]; [|done]. pose proof (inbox_receive env l r H) as H1.
    destruct (receive_messages env l r) as [r1 [[n' hs]|e|]]; [|done..]. by eapply inbox_unheard; [|exact H1].
  - intros a Ha. destruct (responseErrorCode v) as [c|]; [|done].
    destruct (c =? _); [by eapply inbox_unheard; [|exact H]|]. destruct (c =? _); [by eapply inbox_unheard; [|exact H]|done].
Qed.

Lemma unheard_list_response q v r : unheard r (messageListResponse q v r).1.
Proof.
  unfold messageListResponse.
  match goal with |- context [if _ =? peerErrorNoAccess then _ else ?a] => assert (unheard r a.1) as Ha; [|generalize dependent a] end.
  - destruct (transientIDsFromResponse v) as [[|b l]|]; [done| |].
    + destruct (sort_listed _ _ _ _). by destruct q.
    + destruct v; try done; [destruct (existsb _ _); [done|]|]; (destruct (sort_listed _ _ _ _); by destruct q).
  - intros a Ha. destruct (responseErrorCode v) as [c|]; [|done]. destruct (c =? _); [done|]. by destruct (c =? _).
Qed.

Lemma unheard_heaviest ids need cleaned r : unheard r (remove_heaviest ids need cleaned r).
Proof.
  revert cleaned r. induction ids as [|id ids IH]; intros cleaned r; [done|]. cbn [remove_heaviest].
  destruct (PrimFloat.leb _ _); [done|]. etrans; [apply unheard_remove|apply IH].
Qed.

Lemma unheard_clean now iter r : unheard r (cleanMessageStoreLocked now iter r).
Proof.
  unfold cleanMessageStoreLocked. set (removed := (map_to_list _).*1).
  assert (unheard r (foldr removePropagationEntryLocked r removed)) as Hr
    by (clearbody removed; induction removed as [|id l IH]; [done|]; cbn [foldr]; etrans; [exact IH|apply unheard_remove]).
  destruct (PrimFloat.leb _ _); [done|]. destruct (PrimFloat.leb _ _); [done|]. etrans; [exact Hr|apply unheard_heaviest].
Qed.

(** A peer marking entries, with the router it belongs to. *)
Lemma unheard_marks (f : Peer * Router -> bytes -> Peer * Router) l s :
  (forall s id, unheard s.2 (f s id).2) -> unheard s.2 (fold_left f l s).2.
Proof. intros Hf. revert s. induction l as [|id l IH]; intros s; [done|]. etrans; [apply Hf|apply IH]. Qed.

Lemma unheard_handled id s : unheard s.2 (addHandledMessage id s).2.
Proof. destruct s as [p r]. cbn. destruct (_ !! _); [|done]. by destruct (containsByteSlice _ _). Qed.
Lemma unheard_unhandled id s : unheard s.2 (addUnhandledMessage id s).2.
Proof. destruct s as [p r]. cbn. destruct (_ !! _); [|done]. by destruct (containsByteSlice _ _). Qed.
Lemma unheard_not_unhandled id s : unheard s.2 (removeUnhandledMessage id s).2.
Proof. destruct s as [p r]. cbn. by destruct (_ !! _). Qed.

Lemma unheard_merge hm um s id : unheard s.2 (merge_handled hm um s id).2 /\ unheard s.2 (merge_unhandled hm um s id).2.
Proof.
  unfold merge_handled, merge_unhandled. split; [|destruct (_ || _); [done|apply unheard_unhandled]].
  set (s1 := if containsByteSlice hm id then s else addHandledMessage id s). transitivity s1.2.
  - subst s1. destruct (containsByteSlice _ _); [done|apply unheard_handled].
  - destruct (containsByteSlice um id); [apply unheard_not_unhandled|done].
Qed.

Lemma unheard_queues s : unheard s.2 (ProcessQueues s).2.
Proof.
  destruct s as [p r]. unfold ProcessQueues. cbn [HandledMessages UnhandledMessages fst snd].
  destruct (pr_handledMessagesQueue p) as [|h hq]; [destruct (pr_unhandledMessagesQueue p) as [|u uq]; [done|]|];
    (etrans; [|apply unheard_marks; intros; apply unheard_merge];
     etrans; [|apply unheard_marks; intros; apply unheard_merge]; done).
Qed.

Lemma unheard_flush iter r : unheard r (FlushQueues iter r).
Proof.
  unfold FlushQueues. etrans; [instantiate (1 := flushPeerDistributionQueue r); done|].
  generalize (flushPeerDistributionQueue r) (iter (map_to_list (r_peers r)).*1). clear r. intros r l. revert r.
  induction l as [|h l IH]; intros r; [done|]. cbn [fold_left]. etrans; [|apply IH].
  destruct (_ !! h) as [p|]; [|done]. pose proof (unheard_queues (p, r)) as Hq. destruct (ProcessQueues (p, r)) as [p' r'].
  by etrans; [exact Hq|].
Qed.

(** The operations of a router, as they follow each other in time. *)
Inductive router_step (env : RouterEnv) : Router -> Router -> Prop :=
  | st_packet toLink h data r : router_step env r (deliveryPacket env toLink h data r).1
  | st_resource data r : router_step env r (handleInboundResourceData env data r).1
  | st_propagated payload dup r : router_step env r (handlePropagatedInboundAllowDuplicate env payload dup r).1
  | st_uri data dup r : router_step env r (ingestURIOutcome env data dup r).1
  | st_node_packet toLink data r : router_step env r (propagationPacket env toLink data r).1
  | st_node_advertised linkID remote n r : router_step env r (propagationResourceAdvertised linkID remote n r).1
  | st_node_resource linkID remote data r : router_step env r (propagationResourceConcluded env linkID remote data r).1
  | st_offer data linkID remote r : router_step env r (offerRequest env data linkID remote r).1
  | st_get data remote r : router_step env r (messageGetRequest data remote r).1
  | st_list_response q v r : router_step env r (messageListResponse q v r).1
  | st_get_response v r : router_step env r (messageGetResponse env v r).1
  | st_announce h data pr r : router_step env r (handlePropagationAnnounce env h data pr r)
  | st_clean_caches r : router_step env r (cleanTransientIDCachesLocked (re_now env) r)
  | st_clean_store iter r : router_step env r (cleanMessageStoreLocked (re_now env) iter r)
  | st_reindex names r : router_step env r (reindexPropagationStoreLocked names r)
  | st_flush iter r : router_step env r (FlushQueues iter r).

Inductive router_run (r0 : Router) : Z -> Router -> Prop :=
  | run_start t : router_run r0 t r0
  | run_step t r env r' : router_run r0 t r -> t <= re_now env -> router_step env r r' -> router_run r0 (re_now env) r'.

Lemma inbox_step env r r' : router_step env r r' -> inbox_ok (re_now env) r -> inbox_ok (re_now env) r'.
Proof.
  intros [] H.
  - unfold deliveryPacket. destruct (_ && _); [done|]. destruct (r_isClosed _); [done|].
    destruct toLink; by apply inbox_deliver_bytes.
  - unfold handleInboundResourceData. destruct (_ =? _); [done|]. by apply inbox_deliver_bytes.
  - by apply inbox_propagated.
  - by apply inbox_uri.
  - by apply inbox_packet.
  - eapply inbox_unheard; [|exact H]. unfold propagationResourceAdvertised. destruct (_ && _); [done|]. by destruct (_ && _).
  - by apply inbox_resource.
  - eapply inbox_unheard; [apply unheard_offer|done].
  - eapply inbox_unheard; [apply unheard_get|done].
  - eapply inbox_unheard; [apply unheard_list_response|done].
  - by apply inbox_get_response.
  - eapply inbox_unheard; [apply unheard_announce|done].
  - by apply inbox_clean.
  - eapply inbox_unheard; [apply unheard_clean|done].
  - eapply inbox_unheard; [|exact H]. unfold reindexPropagationStoreLocked. by destruct (fold_left _ _ _).
  - eapply inbox_unheard; [apply unheard_flush|done].
Qed.

Lemma inbox_run r0 t r : r_callbacks r0 = [] -> router_run r0 t r -> inbox_ok t r.
Proof.
  intros E. induction 1 as [t|t r env r' _ IH Ht Hst].
  - split; rewrite E; constructor.
  - eapply inbox_step; [exact Hst|]. by eapply inbox_mono.
Qed.

(** C12: whatever arrives at a router, in whatever form and however often, and
    whatever else it does in between, the application is not given the same
    message twice within the 180 days the router remembers it. *)
Theorem delivered_once r0 t r i j a b :
  r_callbacks r0 = [] -> router_run r0 t r ->
  r_callbacks r !! i = Some a -> r_callbacks r !! j = Some b -> (i < j)%nat -> m_Hash a.2 = m_Hash b.2 ->
  a.1 + transientIDCacheExpiry < b.1.
Proof.
  intros E Hr Ha Hb Hij Hh. destruct (inbox_run r0 t r E Hr) as [_ Ho].
  clear Hr E. revert i j Ha Hb Hij. induction Ho as [|c l Hc Hl IH]; intros i j Ha Hb Hij; [done|].
  destruct i as [|i], j as [|j]; try lia; cbn in Ha, Hb.
  - injection Ha as ->. eapply Forall_lookup_1 in Hc; [|exact Hb]. by apply Hc.
  - apply (IH i j); [done..|lia].
Qed.
End Once.

(** ** The messages of a client *)

Section Mailbox.
Context `{Sh : Sha256} {ShL : Sha256Laws} `{Ci : BlockCipher}.
Context `{Cu : Curves} {CuL : CurvesLaws} `{Hs : HashState} `{Ft : FloatText}.

(** An entry of the store for a destination. *)
Definition entry_for (h : bytes) (r : Router) (id : bytes) (e : propagationEntry) : Prop :=
  r_propagationEntries r !! id = Some e /\ e_destinationHash e = h.

(** [r'] has only lost entries for [h], and no file came or changed. *)
Record lost_only (h : bytes) (r r' : Router) : Prop := {
  lo_kept id e : r_propagationEntries r !! id = Some e -> e_destinationHash e <> h ->
    r_propagationEntries r' !! id = Some e;
  lo_old id e : r_propagationEntries r' !! id = Some e -> r_propagationEntries r !! id = Some e;
  lo_files : r_messageStore r' ⊆ r_messageStore r;
}.

Lemma lost_only_refl h r : lost_only h r r.
Proof. by split. Qed.

Lemma lost_only_trans h a b c : lost_only h a b -> lost_only h b c -> lost_only h a c.
Proof. intros [A1 A2 A3] [B1 B2 B3]. split; [intros; apply B1; [by apply A1|done]|intros; by apply A2, B2|by etrans]. Qed.

Lemma remove_lost id r e :
  r_propagationEntries r !! id = Some e -> lost_only (e_destinationHash e) r (removePropagationEntryLocked id r).
Proof.
  intros E. unfold removePropagationEntryLocked. rewrite E.
  assert (lost_only (e_destinationHash e) r (r <| r_propagationEntries ::= delete id |>)) as [L1 L2 L3].
  { split; cbn; [|by intros ? ? [? ?]%lookup_delete_Some|reflexivity]. intros id' e' E' Hne.
    rewrite lookup_delete_ne; [done|]. intros ->. congruence. }
  destruct (_ =? _); [by split|]. split; cbn; [exact L1|exact L2|apply delete_subseteq].
Qed.

Lemma purge_lost h haves r : lost_only h r (purge_haves h haves r).1.
Proof.
  revert r. induction haves as [|v haves IH]; intros r; [apply lost_only_refl|]. cbn [purge_haves].
  destruct (messageGetRequestTransientID v) as [id| |]; [|apply IH|apply lost_only_refl].
  eapply lost_only_trans; [|apply IH]. destruct (_ !! id) as [e|] eqn:E; [|apply lost_only_refl].
  destruct (bytes_eqb _ _) eqn:Eh; [|apply lost_only_refl]. apply bytes_eqb_eq in Eh as <-. by apply remove_lost.
Qed.

(** A file that is there after the removal of others was there before. *)
Lemma payload_before h r r' e p :
  lost_only h r r' -> propagationEntryResponsePayload e r' = Some p -> propagationEntryResponsePayload e r = Some p.
Proof.
  intros [_ _ Hf] E. unfold propagationEntryResponsePayload in *. destruct (_ =? _); [done|].
  destruct (r_messageStore r' !! _) as [d|] eqn:Ed; [|done]. by rewrite (lookup_weaken _ _ _ _ Ed Hf).
Qed.

Lemma wants_own h limit size wants r l :
  collect_wants h limit size wants r = Some l ->
  Forall (fun p => exists id e, entry_for h r id e /\ propagationEntryResponsePayload e r = Some p) l.
Proof.
  revert size l. induction wants as [|v wants IH]; intros size l E; cbn [collect_wants] in E; [by injection E as <-|].
  destruct (messageGetRequestTransientID v) as [id| |]; [|by eapply IH|done].
  destruct (_ !! id) as [e|] eqn:Ee; [|by eapply IH].
  destruct (bytes_eqb (e_destinationHash e) h) eqn:Eh; cbn [negb orb] in E; [|by eapply IH]. apply bytes_eqb_eq in Eh.
  destruct (match limit with Some _ => _ | None => _ end); [by eapply IH|].
  destruct (propagationEntryResponsePayload e r) as [p|] eqn:Ep; [|by eapply IH].
  destruct (collect_wants h limit _ wants r) as [l'|] eqn:El; [|done]. injection E as <-.
  constructor; [|by eapply IH]. exists id, e. by split.
Qed.

Lemma insert_by_perm {A} (less : A -> A -> bool) x l : insert_by less x l ≡ₚ x :: l.
Proof. induction l as [|y l IH]; [done|]. cbn. destruct (less y x); [|done]. rewrite IH. constructor. Qed.
Lemma sort_by_perm {A} (less : A -> A -> bool) l : sort_by less l ≡ₚ l.
Proof. induction l as [|x l IH]; [done|]. cbn. by rewrite insert_by_perm, IH. Qed.

(** The list of a client's messages names exactly them. *)
Lemma available_own h r ids :
  available_messages h r = Some ids -> forall id, id ∈ ids <-> exists e, entry_for h r id e.
Proof.
  unfold available_messages. intros E id. destruct (mapM _ _) as [l|] eqn:El; [|done]. injection E as <-.
  rewrite (Permutation_map a_transientID (sort_by_perm _ l)). apply mapM_Some in El.
  assert (map a_transientID l = (filter (fun x => e_destinationHash x.2 = h) (map_to_list (r_propagationEntries r))).*1) as ->.
  { induction El as [|[i e] a es l' Ha _ IH]; [done|]. cbn [map fmap list_fmap fst]. f_equal; [|exact IH].
    destruct (propagationEntryListSize e r); [|done]. by injection Ha as <-. }
  rewrite list_elem_of_fmap. split.
  - intros ([i e] & -> & Hin). apply list_elem_of_filter in Hin as [Hd Hin]. exists e. by apply elem_of_map_to_list in Hin.
  - intros (e & He & Hd). exists (id, e). split; [done|]. apply list_elem_of_filter. split; [done|].
    by apply elem_of_map_to_list.
Qed.

(** C11: whatever a client asks for, the node only removes messages for the
    client's own delivery destination and leaves all others in place, and what
    it answers are identifiers or payloads of such messages; a client that is
    not on the list of a node that requires authentication gets nothing and
    changes nothing. *)
Theorem mailbox_isolated data remote r :
  match remote with
  | None => messageGetRequest data remote r = (r, VInt peerErrorNoIdentity)
  | Some i =>
      let h := CalculateHash (Some i) AppName [aspect_delivery] in
      lost_only h r (messageGetRequest data remote r).1 /\
      match (messageGetRequest data remote r).2 with
      | VArr l => Forall (fun x => exists id e, entry_for h r id e /\
          (x = VBin id \/ exists p, x = VBin p /\ propagationEntryResponsePayload e r = Some p)) l
      | VNil => True
      | v => v = VInt peerErrorNoAccess \/ v = VInt peerErrorInvalidData
      end /\
      (r_authRequired r = true -> IHash i ∉ r_allowedList r ->
       messageGetRequest data remote r = (r, VInt peerErrorNoAccess))
  end.
Proof.
  destruct remote as [i|]; [|done]. set (h := CalculateHash (Some i) AppName [aspect_delivery]). cbv zeta.
  apply Logic.and_assoc. split; [|intros E Hn; unfold messageGetRequest; by rewrite E, bool_decide_eq_false_2].
  unfold messageGetRequest. fold h. pose proof (lost_only_refl h r) as Hr.
  destruct (_ && _); [by split; [|left]|].
  destruct (decodeAnyPreserveBinMapKeys _) as [v|]; [|by split; [|right]].
  destruct (messageGetRequestRoot v) as [[|v0 [|v1 l]]|]; [by split..| |by split].
  destruct (messageGetRequestEntries v0) as [wants|]; [|by split]. destruct (messageGetRequestEntries v1) as [haves|]; [|by split].
  destruct (_ && _).
  { split; [done|]. cbn [snd]. destruct (available_messages h r) as [ids|] eqn:E; [|done]. apply Forall_forall.
    intros x (id & -> & Hin)%list_elem_of_fmap. apply (available_own h r ids E) in Hin as (e & He). exists id, e. by split; [|left]. }
  pose proof (purge_lost h haves r) as Hp. destruct (purge_haves h haves r) as [r1 ok]. cbn [fst] in Hp.
  destruct (negb ok); [by split|].
  destruct (collect_wants _ _ _ _ r1) as [l'|] eqn:E; [|by split]. apply wants_own in E. split.
  - destruct Hp as [P1 P2 P3]. by split.
  - cbn [snd]. apply Forall_forall. intros x (p & -> & Hin)%list_elem_of_fmap. eapply Forall_forall in E; [|exact Hin].
    destruct E as (id & e & [He Hd] & Ep). exists id, e. split; [split; [by apply Hp|done]|]. right. exists p.
    split; [done|]. by eapply payload_before.
Qed.
End Mailbox.

(** ** Witnesses *)

Module ToyRouter.
Import ToyCrypto ToyCurves ToyIdentity ToyStamps ToyLxmf ToyText.

Definition clock (now : Z) : RouterEnv := mkRouterEnv now knows_alice (fun _ => 1) (fun _ => None) true id true.
Definition bobs : Router := RegisterDeliveryCallback (NewRouter bob).
Definition first_day : Z := 1700000000 * Second.
Definition last_day : Z := first_day + 181 * 86400 * Second.

(** The same message twice, half a year apart. *)
Definition bobs1 : Router := (handleInboundResourceData (clock first_day) (m_Packed packed_message) bobs).1.
Definition bobs2 : Router := cleanTransientIDCachesLocked last_day bobs1.
Definition bobs3 : Router := (handleInboundResourceData (clock last_day) (m_Packed packed_message) bobs2).1.
Definition delivery_of (n : nat) : Z * Message := nth n (r_callbacks bobs3) (0, zeroMessage).
End ToyRouter.

Section RouterWitnesses.
Import ToyCrypto ToyCurves ToyIdentity ToyStamps ToyLxmf ToyText ToyRouter.

Lemma toy_run : router_run bobs last_day bobs3.
Proof.
  eapply (run_step _ last_day bobs2 (clock last_day)); [|done|apply st_resource].
  eapply (run_step _ first_day bobs1 (clock last_day)); [|by apply Z.leb_le; vm_compute|apply st_clean_caches].
  eapply (run_step _ 0 bobs (clock first_day)); [apply run_start|done|apply st_resource].
Qed.

Lemma delivered_once_witness :
  m_Hash (delivery_of 0).2 = m_Hash (delivery_of 1).2 /\
  (delivery_of 0).1 + transientIDCacheExpiry < (delivery_of 1).1.
Proof.
  split; [vm_compute; reflexivity|].
  apply (delivered_once bobs last_day bobs3 0 1).
  - reflexivity.
  - exact toy_run.
  - vm_compute. reflexivity.
  - vm_compute. reflexivity.
  - lia.
  - vm_compute. reflexivity.
Defined.
End RouterWitnesses.
