(* ===== verification/LxmfDelivery.v ===== *)
(** * LXMF messages from router to router

    Composes the message, identity, stamp and router models: a message packed
    by its sender is delivered by the router of its destination, read from a
    paper URI or stored and forwarded by a propagation node. *)

From stdpp Require Import base tactics option list gmap.
From Stdlib Require Import ZArith Lia Floats.
From S2P Require Import Prelude Clock Crypto Packet Msgpack Identity LxmfStamps LxmfTickets LxmfMessage LxmfMessageFacts.
From S2P Require Import LxmfRouter LxmfNode LxmfPeer LxmfRouterFacts.
Local Open Scope Z_scope.
Local Open Scope go_scope.

(** ** Base64 *)

Definition digit_ok (d : Z) : Prop := 0 <= d < 64.

Lemma b64_value_char d : digit_ok d -> b64_value (b64_char d) = Some d.
Proof. unfold digit_ok. intros H. enumerate H; done. Qed.

Lemma b64_char_plain d : digit_ok d -> b64_char d <> 10 /\ b64_char d <> 13 /\ b64_char d <> 47 /\ b64_char d <> 61.
Proof. unfold digit_ok. intros H. enumerate H; done. Qed.

(** The digits of the encoding. *)
Fixpoint b64_digits (data : bytes) : list Z :=
  match data with
  | a :: b :: c :: rest => a / 4 :: a mod 4 * 16 + b / 16 :: b mod 16 * 4 + c / 64 :: c mod 64 :: b64_digits rest
  | [a; b] => [a / 4; a mod 4 * 16 + b / 16; b mod 16 * 4]
  | [a] => [a / 4; a mod 4 * 16]
  | [] => []
  end.

(** Induction three bytes at a time. *)
Lemma triple_ind (P : bytes -> Prop) :
  P [] -> (forall a, P [a]) -> (forall a b, P [a; b]) ->
  (forall a b c rest, P rest -> P (a :: b :: c :: rest)) -> forall l, P l.
Proof.
  intros H0 H1 H2 H3. fix IH 1. intros [|a [|b [|c rest]]]; [exact H0|apply H1|apply H2|]. apply H3, IH.
Qed.

Lemma b64_encode_digits data : b64_encode data = map b64_char (b64_digits data).
Proof. induction data as [| | |a b c rest IH] using triple_ind; [done..|]. cbn. by rewrite IH. Qed.

(** Integer arithmetic with division by literals. *)
#[local] Ltac dlia := cbv beta; Z.to_euclidean_division_equations; lia.

Lemma b64_digits_ok data : bytes_ok data -> Forall digit_ok (b64_digits data).
Proof.
  unfold digit_ok. induction data as [|a|a b|a b c rest IH] using triple_ind; intros Hb.
  - constructor.
  - apply Forall_inv in Hb. unfold is_byte in Hb. cbn. repeat (apply List.Forall_cons; [dlia|]). constructor.
  - inversion_clear Hb as [|? ? Ha Hb']. apply Forall_inv in Hb'. unfold is_byte in *. cbn.
    repeat (apply List.Forall_cons; [dlia|]). constructor.
  - inversion_clear Hb as [|? ? Ha Hb']. inversion_clear Hb' as [|? ? Hb Hc']. inversion_clear Hc' as [|? ? Hc Hr].
    unfold is_byte in *. cbn. do 4 (constructor; [dlia|]). by apply IH.
Qed.

Lemma b64_join_digits data : bytes_ok data -> b64_join (b64_digits data) = Some data.
Proof.
  induction data as [|a|a b|a b c rest IH] using triple_ind; intros Hb.
  - done.
  - apply Forall_inv in Hb. unfold is_byte in Hb. cbn. do 2 f_equal. dlia.
  - inversion_clear Hb as [|? ? Ha Hb']. apply Forall_inv in Hb'. unfold is_byte in *. cbn. do 2 f_equal; [dlia|f_equal; dlia].
  - inversion_clear Hb as [|? ? Ha Hb']. inversion_clear Hb' as [|? ? Hb Hc']. inversion_clear Hc' as [|? ? Hc Hr].
    unfold is_byte in *. cbn. rewrite IH by done. cbn. do 2 f_equal; [dlia|]. f_equal; [dlia|]. f_equal. dlia.
Qed.

Lemma filter_all {A} (P : A -> Prop) `{forall x, Decision (P x)} l : Forall P l -> filter P l = l.
Proof. induction 1 as [|x l Hx _ IH]; [done|]. by rewrite filter_cons_True, IH. Qed.

(** The URI of a paper message is read back. *)
Lemma uri_decodes data : bytes_ok data -> decodeLXMURI (uri_prefix ++ b64_encode data) = Ok data.
Proof.
  intros Hb. pose proof (b64_digits_ok data Hb) as Hd. unfold decodeLXMURI.
  rewrite take_app_length, drop_app_length.
  change (bytes_eqb (map lower uri_prefix) uri_prefix) with true. cbn [negb]. rewrite orb_false_r.
  rewrite (proj2 (Z.ltb_ge _ _)) by (rewrite zlen_app; pose proof (zlen_nonneg (b64_encode data)); lia).
  rewrite b64_encode_digits.
  assert (Forall (fun c => c <> 47 /\ c <> 61) (map b64_char (b64_digits data)) /\
          Forall (fun c => c <> 10 /\ c <> 13) (map b64_char (b64_digits data))) as [H1 H2].
  { split; apply Forall_fmap; (eapply Forall_impl; [exact Hd|]); intros x Hx; apply b64_char_plain in Hx; cbn; tauto. }
  rewrite (filter_all _ _ H1). unfold b64_decode. rewrite (filter_all _ _ H2).
  assert (mapM b64_value (map b64_char (b64_digits data)) = Some (b64_digits data)) as ->.
  { apply mapM_Some. clear H1 H2. induction Hd as [|x l Hx _ IH]; constructor; [by apply b64_value_char|done]. }
  cbn. by rewrite b64_join_digits.
Qed.

Section Delivery.
Context `{Sh : Sha256} {ShL : Sha256Laws} `{Ci : BlockCipher} {CiL : BlockCipherLaws}.
Context `{Cu : Curves} {CuL : CurvesLaws} `{Hs : HashState} `{Ft : FloatText}.

(** ** Encryption for a destination *)

(** A router that decrypts with the first keys it tries is unchanged. *)
Lemma decrypt_delivery_opens renv r dj j ct plain :
  identity dj = Some j -> DType dj <> DestinationPlain -> r_deliveryDestinations r !! DHash dj = Some dj ->
  IDecrypt j ct (default [] (ratchets dj)) (enforceRatchets dj) = Ok plain ->
  decrypt_delivery renv dj ct r = (r, Ok plain).
Proof.
  intros Ej Ht Hd Hp. unfold decrypt_delivery, DDecryptFor. rewrite (proj2 (Z.eqb_neq _ _) Ht), Ej.
  assert (r <| r_deliveryDestinations ::= <[DHash dj := dj]> |>
            <| r_ratchetFiles ::= partial_alter (fun _ => r_ratchetFiles r !! ratchetsPath dj) (ratchetsPath dj) |> = r) as Er.
  { assert (forall m' f', m' = r_deliveryDestinations r -> f' = r_ratchetFiles r ->
      r <| r_deliveryDestinations := m' |> <| r_ratchetFiles := f' |> = r) as Hid by (intros ? ? -> ->; by destruct r).
    apply Hid; [by apply insert_id|by apply partial_alter_self]. }
  destruct (default [] (ratchets dj)) as [|rt rts]; rewrite Hp; by rewrite Er.
Qed.

(** What is encrypted with the public part of an identity. *)
Lemma IEncrypt_public rnd i i' b rt : pub i = pub i' -> IHash i = IHash i' -> IEncrypt rnd i b rt = IEncrypt rnd i' b rt.
Proof. intros E1 E2. unfold IEncrypt. by rewrite E1, E2. Qed.

(** How a sender reaches an identity: its destination has the public keys, the
    randomness is drawn, and the ratchet it knows, if any, is [ratchet]'s. *)
Record reaches (env : PackEnv) (d : DestinationT) (j : Identity) (ratchet : option bytes) (e iv : bytes) : Prop := {
  rc_type : DType d <> DestinationPlain;
  rc_identity : exists jd, identity d = Some jd /\ pub jd = pub j /\ IHash jd = IHash j;
  rc_ratchet : pe_ratchet env = x_public <$> ratchet;
  rc_key : pe_rnd env 32%nat = Ok e;
  rc_key_length : length e = 32%nat;
  rc_iv : pe_rnd env 16%nat = Ok iv;
  rc_iv_length : length iv = 16%nat;
  rc_iv_bytes : bytes_ok iv;
}.

(** The destination has the keys of what is sent to it: those of its identity
    and the ratchet, or it does not insist on ratchets. *)
Record opens (dj : DestinationT) (j : Identity) (pj qj : bytes) (ratchet : option bytes) : Prop := {
  op_type : DType dj <> DestinationPlain;
  op_identity : identity dj = Some j;
  op_keys : keypair j pj qj;
  op_ratchets : Forall (fun rt => length rt = 32%nat) (default [] (ratchets dj));
  op_ratchet : match ratchet with Some rt => rt ∈ default [] (ratchets dj) | None => enforceRatchets dj = false end;
}.

(** The key a message is sealed with: the ratchet the sender knows, or the
    encryption key of the identity. *)
Definition sealing_key (pj : bytes) (ratchet : option bytes) : bytes := match ratchet with Some rt => rt | None => pj end.

(** The message sealed with [key] and the ephemeral key [e] is accepted under
    another key: the token of one of the destination's ratchets, different from
    the token of [key] it was sealed with, verifies its authentication code. *)
Definition ratchet_collision (dj : DestinationT) (j : Identity) (key e c : bytes) : Prop :=
  exists t, exchange_token e (x_public key) (IHash j) = Ok t /\
    Exists (mac_collision j (take half c) (drop half c) t) (default [] (ratchets dj)).
#[export] Instance ratchet_collision_dec dj j key e c : Decision (ratchet_collision dj j key e c).
Proof.
  unfold ratchet_collision. destruct (exchange_token e (x_public key) (IHash j)) as [t| |].
  - destruct (decide (Exists (mac_collision j (take half c) (drop half c) t) (default [] (ratchets dj)))) as [H|H].
    + left. by exists t.
    + right. intros (t' & [= <-] & H'). by apply H.
  - right. by intros (t & ? & _).
  - right. by intros (t & ? & _).
Defined.

(** The sealed form exists, whatever the message. *)
Lemma encrypt_packed_ok env d dj j pj qj ratchet e iv m :
  reaches env d j ratchet e iv -> opens dj j pj qj ratchet ->
  exists ct d', encrypt_packed env d m = (m <| m_Destination := Some d' |>, Ok ct) /\ zlen (m_Packed m) < zlen ct /\
    (bytes_ok (m_Packed m) -> bytes_ok ct /\
      (IDecrypt j ct (default [] (ratchets dj)) (enforceRatchets dj) = Ok (drop DestinationLength (m_Packed m)) \/
       ratchet_collision dj j (sealing_key pj ratchet) e ct)).
Proof.
  intros [T (jd & Ejd & Ep & Eh) Ert Ee Hel Eiv Hivl Hivb] [O1 O2 O3 O4 O5].
  destruct (IEncrypt_seals (pe_rnd env) j pj qj (drop DestinationLength (m_Packed m)) ratchet e iv)
    as (ct & t & key & Eenc & Etok & _ & Hkey & Hct); try done.
  { destruct ratchet as [rt|]; [|done]. by eapply Forall_forall in O4. }
  unfold encrypt_packed, DEncryptFor. rewrite (proj2 (Z.eqb_neq _ _) T), Ejd, Ert.
  rewrite (IEncrypt_public _ jd j) by done.
  replace (default [] (x_public <$> ratchet)) with (match ratchet with Some r => x_public r | None => [] end) by (by destruct ratchet).
  rewrite Eenc. cbn [map_err]. eexists (x_public e ++ ct), _. split; [reflexivity|]. split.
  { pose proof (Encrypt_longer _ _ _ _ _ _ Hkey Eiv Hivl Hct) as Hlen. unfold zlen in *.
    rewrite length_drop in Hlen. change DestinationLength with 16%nat in Hlen. rewrite length_app. lia. }
  intros Hb. apply (Forall_drop _ DestinationLength) in Hb. split.
  { apply bytes_ok_app; [apply x_public_bytes|]. by eapply Encrypt_bytes. }
  destruct (identity_encrypt_decrypt (pe_rnd env) j pj qj (drop DestinationLength (m_Packed m)) ratchet
    (default [] (ratchets dj)) (enforceRatchets dj) e iv) as (ct' & t' & Eenc' & Etok' & Hdec); try done.
  rewrite Eenc in Eenc'. injection Eenc' as Ec. apply app_inv_head in Ec. subst ct'. unfold ratchet_collision.
  change half with 32%nat. rewrite take_app_length', drop_app_length' by (by rewrite x_public_length).
  destruct Hdec as [Hdec|Hcol]; [by left|right]. by exists t'.
Qed.

(** ** What the application gets *)

(** The router after a message was given to the application. *)
Definition given (renv : RouterEnv) (u : Message) (r r' : Router) : Prop :=
  r_callbacks r' = r_callbacks r ++ [(re_now renv, u)] /\
  r_deliveryDestinations r' = r_deliveryDestinations r /\ r_propagationEntries r' = r_propagationEntries r /\
  r_locallyProcessedIDs r' = r_locallyProcessedIDs r.

Lemma inbound_given renv m r :
  m_SourceBlackholed m = false -> IsIgnored (m_SourceHash m) r = false -> hasDeliveredTransientIDLocked (m_Hash m) r = false ->
  r_deliveryCallback r = true -> given renv m r (handleInboundMessage renv m r).
Proof.
  intros E1 E2 E3 E4. unfold handleInboundMessage. rewrite E1, E2, E3.
  destruct (m_SignatureValidated m); [destruct (outboundTicketFieldEntry _ _)|]; cbn; rewrite E4; done.
Qed.

(** How a router is set up to be given the messages of [s] for [d]: its own
    destination [dj] has that hash, there is a callback, and it knows the
    sender's identity, which is neither blackholed nor ignored. *)
Record hears (renv : RouterEnv) (r : Router) (d s dj : DestinationT) (i : Identity) : Prop := {
  hr_here : r_deliveryDestinations r !! DHash d = Some dj;
  hr_hash : DHash dj = DHash d;
  hr_callback : r_deliveryCallback r = true;
  hr_knows : exists i', RecallNoUse (re_transport renv) (DHash s) = Some i' /\ sigPub i' = sigPub i /\
    IsBlackholed (re_transport renv) (IHash i') = false;
  hr_heard : IsIgnored (DHash s) r = false;
}.

(** The sealed form of a packed message is delivered as the message. *)
Lemma sealed_given renv m m' d s dj i p q j pj qj ratchet e ct :
  outgoing m d s i p q -> packed_as m m' d s q -> zlen (m_Stamp m') < 2 ^ 32 -> opens dj j pj qj ratchet ->
  IDecrypt j ct (default [] (ratchets dj)) (enforceRatchets dj) = Ok (drop DestinationLength (m_Packed m')) \/
    ratchet_collision dj j (sealing_key pj ratchet) e ct ->
  ratchet_collision dj j (sealing_key pj ratchet) e ct \/
  exists u, received_as m' u MethodPropagated /\
    forall r id, hears renv r d s dj i -> hasDeliveredTransientIDLocked (m_Hash m') r = false ->
      m_SignatureValidated u = true /\
      exists r', deliver_encrypted renv dj (DHash d ++ ct) id r = (r', Ok true) /\ given renv u r r'.
Proof.
  intros O P Hst Hop Hdec. pose proof (og_length _ _ _ _ _ _ O) as Hl.
  destruct Hdec as [Hdec|]; [right|by left].
  destruct (unpack_packed (re_transport renv) m m' d s i p q MethodPropagated O P Hst) as (u & Eu & Ru & _ & Hv & Hbl).
  exists u. split; [done|]. intros r id [R1 R2 R3 (i' & R4 & R5 & R6) R7] Hnew.
  destruct (recalled_identity (re_transport renv) _ _ R4) as (s' & Es & Ei).
  rewrite Es in Hv. unfold DVerify, IVerify in Hv.
  rewrite Ei, R5, (kp_sigPub _ _ _ (dk_keys _ _ _ _ (og_keys _ _ _ _ _ _ O))), (pa_signature _ _ _ _ _ P), ed_verify_sign in Hv.
  rewrite R4, R6 in Hbl.
  split; [done|]. unfold deliver_encrypted. rewrite drop_app_length', take_app_length' by done.
  rewrite (decrypt_delivery_opens renv r dj j ct (drop DestinationLength (m_Packed m')));
    [|apply Hop|apply Hop|by rewrite R2|done].
  replace (DHash d ++ drop DestinationLength (m_Packed m')) with (m_Packed m')
    by (by rewrite (pa_packed _ _ _ _ _ P), drop_app_length').
  unfold deliver_bytes. rewrite Eu. eexists. split; [reflexivity|].
  destruct (inbound_given renv u r) as (G1 & G2 & G3 & G4); [done|..|done|by split_and!].
  - by rewrite (ra_source _ _ _ Ru), (pa_source _ _ _ _ _ P).
  - by rewrite (ra_hash _ _ _ Ru).
Qed.
(** ** Paper messages *)

(** What the sealed data of a message promises to its destination. *)
Definition sealed_for (dj : DestinationT) (j : Identity) (key e : bytes) (m' : Message) (ct : bytes) : Prop :=
  bytes_ok (m_Packed m') -> bytes_ok ct /\
    (IDecrypt j ct (default [] (ratchets dj)) (enforceRatchets dj) = Ok (drop DestinationLength (m_Packed m')) \/
     ratchet_collision dj j key e ct).

(** The paper form of a message that was packed up to it. *)
Lemma packPaper_seals env m m1 d s dj p q j pj qj ratchet e iv :
  packed_as m m1 d s q -> m_Destination m1 = Some d -> m_DesiredMethod m1 = MethodPaper ->
  reaches env d j ratchet e iv -> opens dj j pj qj ratchet ->
  exists m' ct, pack_method env m1 = (m', Ok p) /\ m_Stamp m' = m_Stamp m1 /\ packed_as m m' d s q /\
    m_PaperPacked m' = Some (DHash d ++ ct) /\ m_method m' = MethodPaper /\ m_DesiredMethod m' = MethodPaper /\
    sealed_for dj j (sealing_key pj ratchet) e m' ct.
Proof.
  intros P Ed Em Hr Ho.
  destruct (encrypt_packed_ok env d dj j pj qj ratchet e iv m1 Hr Ho) as (ct & d' & Eenc & Hne & Hse).
  unfold pack_method. rewrite Em. change (MethodPaper =? MethodOpportunistic) with false.
  change (MethodPaper =? MethodPropagated) with false. change (MethodPaper =? MethodPaper) with true. cbv iota.
  cbn [andb]. unfold packPaper. rewrite Ed, Eenc. destruct p. eexists _, ct. split; [reflexivity|].
  split; [done|]. split; [by eapply packed_as_wire|]. split; [by rewrite <- (pa_destination _ _ _ _ _ P)|].
  do 2 (split; [done|]). done.
Qed.

Lemma AsURI_packed env finalise m m' paper :
  m_Packed m = [] -> Pack env m = Some (m', Ok tt) -> m_DesiredMethod m' = MethodPaper -> m_method m' = MethodPaper ->
  m_PaperPacked m' = Some paper ->
  AsURI env finalise m =
    Some (if finalise then markPaperGenerated (DetermineTransportEncryption m') else m', Ok (uri_prefix ++ b64_encode paper)).
Proof. intros E1 E2 E3 E4 E5. unfold AsURI, ensure_packed. rewrite E1. change (zlen [] =? 0) with true. cbv iota. by rewrite E2, E3, E5, E4. Qed.

End Delivery.

(** ** Witnesses *)

Lemma nothing_seen (r : Router) (h : bytes) :
  r_propagationEntries r = ∅ -> r_locallyProcessedIDs r = ∅ -> r_locallyDeliveredIDs r = ∅ ->
  already_processed h r = false /\ hasDeliveredTransientIDLocked h r = false.
Proof.
  intros E1 E2 E3. unfold already_processed, hasProcessedTransientIDLocked, hasDeliveredTransientIDLocked.
  rewrite E1, E2, E3, lookup_empty. rewrite bool_decide_eq_false_2 by (by intros []). rewrite andb_false_r. done.
Qed.

Section DeliveryWitnesses.
Import ToyCrypto ToyCurves ToyIdentity ToyStamps ToyLxmf ToyText ToyRouter.

(** Bob has two ratchets and insists on them; Alice knows one of them. *)
Definition bob_ratchets : DestinationT := bob_in <| ratchets := Some [seed 7; seed 8] |> <| enforceRatchets := true |>.
Definition alice_env : PackEnv := mkPackEnv 1700000000000000000 rnd rnd (Some (seed 8)) 1.
Definition mailbox_of_bob : Router := bobs <| r_deliveryDestinations := {[DHash bob_in := bob_ratchets]} |>.
Definition paper_message : Message := message <| m_DesiredMethod := MethodPaper |>.
Definition paper_packed : Message :=
  match AsURI alice_env false paper_message with Some (m, _) => m | None => zeroMessage end.

Lemma toy_reaches : reaches alice_env bob_out bob (Some (seed 8)) (seed 9) (replicate 16 9).
Proof.
  split; try reflexivity; [discriminate|exists bob; split; [vm_compute; reflexivity|done]|].
  apply bytes_ok_replicate. unfold is_byte. lia.
Qed.

Lemma toy_opens : opens bob_ratchets bob (seed 5) (seed 6) (Some (seed 8)).
Proof.
  split; [discriminate|vm_compute; reflexivity|by apply with_keys_keypair|repeat constructor|].
  apply (bool_decide_unpack _). vm_compute. exact I.
Qed.

Lemma toy_hears now : hears (clock now) mailbox_of_bob bob_out alice_in bob_ratchets alice.
Proof.
  split; [vm_compute; reflexivity|vm_compute; reflexivity|reflexivity|by exists alice|reflexivity].
Qed.

(** Neither ratchet takes the message for one sealed with another key. *)
Lemma toy_no_collision paper :
  m_PaperPacked paper_packed = Some paper ->
  ~ ratchet_collision bob_ratchets bob (sealing_key (seed 5) (Some (seed 8))) (seed 9) (drop DestinationLength paper).
Proof.
  intros E. replace paper with (default [] (m_PaperPacked paper_packed)) by (by rewrite E). clear paper E.
  apply (bool_decide_unpack _). vm_compute. exact I.
Qed.

End DeliveryWitnesses.
