(* ===== verification/LxmfForward.v ===== *)
(** * Store and forward

    Composes the sender's, the propagation node's and the client's models: a
    message stamped for a propagation node is accepted and stored by it, listed
    for its receiver, fetched, delivered, acknowledged and removed. *)

From stdpp Require Import base tactics option list gmap.
From Stdlib Require Import ZArith Lia Floats.
From S2P Require Import Prelude Clock Crypto Packet Msgpack Identity LxmfStamps LxmfTickets LxmfMessage LxmfMessageFacts.
From S2P Require Import LxmfRouter LxmfNode LxmfPeer LxmfRouterFacts LxmfDelivery.
Local Open Scope Z_scope.
Local Open Scope go_scope.

Section Forward.
Context `{Sh : Sha256} {ShL : Sha256Laws} `{Ci : BlockCipher} {CiL : BlockCipherLaws}.
Context `{Cu : Curves} {CuL : CurvesLaws} `{Hs : HashState} {HsL : HashStateLaws} `{Ft : FloatText}.

(** ** The sender *)

(** What is uploaded to a node: the sealed message and its stamp. *)
Definition uploaded (sealed stamp : bytes) (packed : bytes) : Prop :=
  exists bits, 0 <= bits < 2 ^ 64 /\ packed = (Msgpack.Pack (VArr [VFloat64 bits; VArr [VBin (sealed ++ stamp)]])).1.

(** What two messages share that differ only in how they are packed. *)
Definition same_origin (m m' : Message) : Prop :=
  m_Source m' = m_Source m /\ m_DesiredMethod m' = m_DesiredMethod m /\ m_PropagationStamp m' = m_PropagationStamp m.

(** The form for propagation, made of a fresh encryption. *)
Lemma packPropagated_seals env m m1 ma d s dj q j pj qj ratchet e iv :
  packed_as m m1 d s q -> m_Destination m1 = Some d -> m_DesiredMethod m1 = MethodPropagated ->
  m_propagationEncryptedData m1 = [] -> reaches env d j ratchet e iv -> opens dj j pj qj ratchet ->
  pack_method env m1 = (ma, Ok tt) ->
  exists ct d', packed_as m ma d s q /\ m_propagationEncryptedData ma = ct /\ m_TransientID ma = FullHash (DHash d ++ ct) /\
    m_Destination ma = Some d' /\ DHash d' = DHash d /\ zlen (m_Packed ma) < zlen ct /\ sealed_for dj j (sealing_key pj ratchet) e ma ct /\
    same_origin m1 ma.
Proof.
  intros P Ed Em Een Hr Ho.
  destruct (encrypt_packed_ok env d dj j pj qj ratchet e iv m1 Hr Ho) as (ct & d' & Eenc & Hne & Hse).
  unfold pack_method. rewrite Em. change (MethodPropagated =? MethodOpportunistic) with false.
  change (MethodPropagated =? MethodPropagated) with true. cbn [andb]. cbv iota. unfold packPropagated.
  destruct (_ <=? _); [done|]. rewrite Ed, Een. change (zlen [] =? 0) with true. cbv iota. rewrite Eenc. cbv iota beta zeta.
  assert (DHash d' = DHash d) as Edh.
  { unfold encrypt_packed, DEncryptFor in Eenc. destruct (DType d =? DestinationPlain); [by injection Eenc as <- _|].
    destruct (identity d); [|done]. destruct (pe_ratchet env); by injection Eenc as <- _. }
  destruct (Msgpack.Pack _) as [b [err|]]; [done|]. intros [= <-]. exists ct, d'.
  split; [by eapply packed_as_wire|]. split; [done|]. split; [by rewrite <- (pa_destination _ _ _ _ _ P)|].
  do 2 (split; [done|]). by split_and!.
Qed.

(** The form for propagation, made of what was encrypted before. *)
Lemma packPropagated_again env m m1 m' d s q ct stamp :
  packed_as m m1 d s q -> m_Destination m1 = Some d -> m_DesiredMethod m1 = MethodPropagated ->
  m_propagationEncryptedData m1 = ct -> ct <> [] -> m_PropagationStamp m1 = stamp -> stamp <> [] ->
  pack_method env m1 = (m', Ok tt) ->
  uploaded (DHash d ++ ct) stamp (m_PropagationPacked m').
Proof.
  intros P Ed Em Een Hct Est Hstamp. unfold pack_method. rewrite Em. change (MethodPropagated =? MethodOpportunistic) with false.
  change (MethodPropagated =? MethodPropagated) with true. cbn [andb]. cbv iota. unfold packPropagated.
  destruct (_ <=? _); [done|]. rewrite Ed, Een. destruct (zlen_pos _ Hct) as [-> _]. cbv iota beta zeta.
  cbn [m_DestinationHash m_propagationEncryptedData m_PropagationStamp modify].
  rewrite (pa_destination _ _ _ _ _ P), Een, Est. destruct (zlen_pos _ Hstamp) as [_ ->].
  destruct (Msgpack.Pack _) as [b [err|]] eqn:Eb; [done|]. intros [= <-].
  exists (float_bits (unix_seconds (pe_now env))). split; [apply float_bits_range|]. by rewrite Eb.
Qed.
(** A message that is packed again without a change is still fit to be sent. *)
Lemma outgoing_reset m ma d s i p q d' stamp :
  outgoing m d s i p q -> packed_as m ma d s q -> m_Source ma = Some s -> m_Destination ma = Some d' -> DHash d' = DHash d ->
  zlen (m_Stamp ma) < 2 ^ 32 ->
  outgoing (resetPackedState true (ma <| m_PropagationStamp := stamp |> <| m_DeferPropagationStamp := false |>)) d' s i p q.
Proof.
  intros [] [] Es Ed Eh Hst. split; try done; cbn.
  - by rewrite Eh.
  - by rewrite pa_title.
  - by rewrite pa_content.
  - by rewrite pa_fields.
  - by rewrite pa_fields.
Qed.

(** What a sender uploads that packed a message and stamped it. *)
Lemma sender_uploads env cost m ma m' d s dj i p q j pj qj ratchet e iv :
  outgoing m d s i p q -> m_DesiredMethod m = MethodPropagated ->
  m_propagationEncryptedData m = [] -> m_PropagationStamp m = [] ->
  (forall b, pe_stamp_rnd env StampSize = Ok b -> length b = StampSize) ->
  reaches env d j ratchet e iv -> opens dj j pj qj ratchet ->
  Pack env m = Some (ma, Ok tt) -> zlen (m_Stamp ma) < 2 ^ 32 ->
  stamp_propagated env cost ma = Some (m', Ok true) -> zlen (m_Stamp m') < 2 ^ 32 ->
  exists ct stamp wb, packed_as m ma d s q /\ m_propagationEncryptedData ma = ct /\ zlen (m_Packed ma) < zlen ct /\
    sealed_for dj j (sealing_key pj ratchet) e ma ct /\ length stamp = StampSize /\
    StampWorkblock (FullHash (DHash d ++ ct)) WorkblockExpandRoundsPN = Ok wb /\ StampValid stamp cost wb = true /\
    uploaded (DHash d ++ ct) stamp (m_PropagationPacked m').
Proof.
  intros O Hm Hen Hps Hrnd Hr Ho Ep Hst Esp Hst'.
  destruct (Pack_routed env m ma d s i p q O Ep Hst) as (m1 & Em1 & P1 & R1 & R2 & R3 & R4 & R5).
  destruct (packPropagated_seals env m m1 ma d s dj q j pj qj ratchet e iv P1) as
    (ct & d' & Pa & Ect & Eid & Eda & Edh & Hlen & Hse & O1 & O2 & O3);
    [rewrite R1; apply O|congruence|congruence|done..|].
  assert (ct <> []) as Hct by (intros ->; pose proof (zlen_nonneg (m_Packed ma)); unfold zlen in *; cbn in Hlen; lia).
  assert (m_PropagationStamp ma = []) as Eps by congruence.
  revert Esp. unfold stamp_propagated, GetPropagationStampWithContext. rewrite Eps. change (0 <? zlen []) with false. cbv iota zeta.
  destruct (cost <=? 0); [done|]. cbn [m_TransientID modify]. rewrite Eid.
  destruct (zlen_pos (FullHash (DHash d ++ ct))) as [-> _]; [intros E; apply (f_equal length) in E; unfold FullHash in E; by rewrite sha256_length in E|].
  destruct (GenerateStampWithContext _ _ _ _ _ _) as [[[[st v] rounds] err]|] eqn:Eg; [|done].
  apply GenerateStamp_outcome in Eg; [|done]. destruct st as [stamp|].
  2:{ destruct err; [done|]. change (zlen (default [] None) =? 0) with true. done. }
  destruct Eg as (-> & Hl & wb & Ew & Ev & Hv). cbn [default from_option id].
  assert (stamp <> []) as Hne by (intros ->; done). destruct (zlen_pos _ Hne) as [-> _].
  set (m2 := resetPackedState true _). destruct (Pack env m2) as [[m3 [[]|e3|]]|] eqn:E2; try done. intros [= ->].
  assert (outgoing m2 d' s i p q) as O'.
  { apply (outgoing_reset (m) (ma <| m_PropagationTargetCost := Some cost |> <| m_PropagationStampValue := Some v |>) d); try done.
    - by eapply packed_as_wire.
    - cbn. rewrite O1, R3. apply O. }
  destruct (Pack_routed env m2 m' d' s i p q O' E2 Hst') as (m3 & Em3 & P3 & S1 & S2 & S3 & S4 & S5).
  change (m_TransientID (ma <| m_PropagationTargetCost := Some cost |>)) with (m_TransientID ma) in Ew. rewrite Eid in Ew.
  exists ct, stamp, wb. split_and!; [exact Pa|exact Ect|exact Hlen|exact Hse|exact Hl|exact Ew|exact Hv|]. rewrite <- Edh.
  apply (packPropagated_again env m2 m3 m' d' s q ct stamp); try done.
  - by rewrite S1.
  - rewrite S2. cbn. congruence.
  - rewrite S5. done.
Qed.
(** ** The node *)

Lemma StampValid_less stamp cost cost' wb : StampValid stamp cost wb = true -> cost' <= cost -> StampValid stamp cost' wb = true.
Proof. unfold StampValid. intros H Hle. revert H. repeat case_match; lia. Qed.

Lemma uploaded_messages sealed stamp packed :
  uploaded sealed stamp packed -> sealed ++ stamp <> [] -> zlen (sealed ++ stamp) < 2 ^ 32 ->
  propagation_messages packed = Some [sealed ++ stamp].
Proof.
  intros (bits & Hbits & ->) Hne Hl. set (v := VArr _).
  assert (packable v) as Hp.
  { apply pk_arr; [done|]. repeat (apply Forall_cons; split); [by constructor| |constructor].
    apply pk_arr; [done|]. apply Forall_singleton. by constructor. }
  destruct (Unpack_Pack v Hp) as [_ Eu]. unfold propagation_messages, decodeAnyList.
  assert ((Msgpack.Pack v).1 <> []) as Hnn by (intros E; rewrite E in Eu; vm_compute in Eu; discriminate).
  destruct (Msgpack.Pack v).1; [done|]. rewrite Eu. unfold v. cbn [decoded map anyToFloat64 anySliceToByteSlices omap list_omap]. by destruct (sealed ++ stamp).
Qed.

(** An entry of the store that can be listed and served. *)
Record served (r : Router) (e : propagationEntry) (destination sealed : bytes) : Prop := {
  sv_destination : e_destinationHash e = destination;
  sv_listed : is_Some (propagationEntryListSize e r);
  sv_size : propagationEntryMessageSize e r <= zlen sealed + Z.of_nat StampSize;
  sv_payload : propagationEntryResponsePayload e r = Some sealed;
}.

(** What is asked of a router that only differs in counters. *)
Definition same_store (r r' : Router) : Prop :=
  r_messageStore r' = r_messageStore r /\ r_propagationEntries r' = r_propagationEntries r /\
  r_authRequired r' = r_authRequired r /\ r_allowedList r' = r_allowedList r.

Lemma served_same r r' e destination sealed : same_store r r' -> served r e destination sealed -> served r' e destination sealed.
Proof.
  intros (E & _) [S1 S2 S3 S4].
  split; [done|..]; unfold propagationEntryListSize, propagationEntryMessageSize, propagationEntryResponsePayload in *; by rewrite E.
Qed.

Lemma file_name_nonempty id t v stamp : zlen (file_name id t v stamp) =? 0 = false.
Proof.
  apply Z.eqb_neq. unfold file_name, zlen. destruct (_ && _); rewrite !length_app; cbn [length]; lia.
Qed.

Lemma zlen_stamp (stamp : bytes) : length stamp = StampSize -> zlen stamp = 32.
Proof. unfold zlen. by intros ->. Qed.

(** A stamped message that is stored is served. *)
Lemma stored_served nenv destination sealed stamp value r :
  length destination = DestinationLength -> length stamp = StampSize ->
  let '(r', id) := storePropagationMessageStamped nenv destination sealed stamp value [] r in
  id = FullHash sealed /\ r_authRequired r' = r_authRequired r /\ r_allowedList r' = r_allowedList r /\
  exists e, r_propagationEntries r' = <[FullHash sealed := e]> (r_propagationEntries r) /\ served r' e destination sealed.
Proof.
  intros Hd Hsz. unfold storePropagationMessageStamped.
  assert (forall r1 order, nextPropagationEntryOrderLocked (FullHash sealed) r = (r1, order) ->
    r_authRequired r1 = r_authRequired r /\ r_allowedList r1 = r_allowedList r /\
    r_propagationEntries r1 = r_propagationEntries r /\ r_propagationEnabled r1 = r_propagationEnabled r) as Hn.
  { intros r1 order. unfold nextPropagationEntryOrderLocked.
    destruct (r_propagationEntries r !! FullHash sealed); [destruct (_ <? _)|]; by intros [= <- <-]. }
  destruct (nextPropagationEntryOrderLocked (FullHash sealed) r) as [r1 order]. destruct (Hn r1 order eq_refl) as (E1 & E2 & E3 & E4).
  pose proof (zlen_stamp stamp Hsz) as Hsl.
  destruct (r_propagationEnabled r1 && re_writable nenv).
  - unfold writePropagationMessageFile. rewrite Hsl. change (0 <? 32) with true. cbv iota zeta beta.
    unfold enqueuePeerDistributionLocked. set (name := file_name _ _ _ _).
    assert (zlen name =? 0 = false) as Hnm by apply file_name_nonempty.
    destruct (zlen (FullHash sealed) =? 0); (split; [done|]; split; [done|]; split; [done|]);
      (eexists; split; [by rewrite <- E3|]); split; try done;
      unfold propagationEntryListSize, propagationEntryMessageSize, propagationEntryResponsePayload, propagationEntryHasPersistedStamp;
      cbn [e_path e_size e_payload e_stampValue e_destinationHash modify r_messageStore]; rewrite Hnm, lookup_insert_eq;
      rewrite ?zlen_app, ?Hsl; try done; try (cbn; lia).
    all: rewrite (proj2 (Z.leb_le (Z.of_nat StampSize) _)) by (change (Z.of_nat StampSize) with 32; lia);
      rewrite orb_true_r, length_app, Hsz; f_equal; apply take_app_length'; lia.
  - cbv iota zeta beta. unfold enqueuePeerDistributionLocked.
    assert (zlen destination = 16) as Hdl by (unfold zlen; by rewrite Hd).
    destruct (zlen (FullHash sealed) =? 0); (split; [done|]; split; [done|]; split; [done|]);
      (eexists; split; [by rewrite <- E3|]); split; try done;
      unfold propagationEntryMessageSize; cbn [e_path e_size e_payload]; change (zlen [] =? 0) with true; cbv iota;
      rewrite Hdl; change (Z.of_nat StampSize) with 32; destruct (_ <? _); lia.
Qed.
(** How a node is set up to store messages for a destination of somebody else,
    stamped with some cost. *)
Record storing (r : Router) (destination : bytes) (cost : Z) : Prop := {
  st_enabled : r_propagationEnabled r = true;
  st_foreign : r_deliveryDestinations r !! destination = None;
  st_cost : minAcceptedCost r <= cost;
}.

Lemma node_accepts nenv r destination ct stamp cost wb packed :
  storing r destination cost -> length destination = DestinationLength -> length stamp = StampSize ->
  96 <= zlen ct -> zlen ct < 2 ^ 31 ->
  already_processed (FullHash (destination ++ ct)) r = false ->
  StampWorkblock (FullHash (destination ++ ct)) WorkblockExpandRoundsPN = Ok wb -> StampValid stamp cost wb = true ->
  uploaded (destination ++ ct) stamp packed ->
  exists r' e, propagationPacket nenv true packed r = (r', Ok Proved) /\
    r_authRequired r' = r_authRequired r /\ r_allowedList r' = r_allowedList r /\
    r_propagationEntries r' = <[FullHash (destination ++ ct) := e]> (r_propagationEntries r) /\
    served r' e destination (destination ++ ct).
Proof.
  intros [S1 S2 S3] Hd Hsz Hlo Hhi Hnew Ew Hv Hup. set (sealed := destination ++ ct) in *.
  assert (zlen sealed = 16 + zlen ct) as Hsl by (unfold sealed; rewrite zlen_app; unfold zlen at 1; by rewrite Hd).
  assert (zlen (sealed ++ stamp) = 48 + zlen ct) as Hal by (rewrite zlen_app, Hsl, (zlen_stamp _ Hsz); lia).
  assert (length (sealed ++ stamp) - StampSize = length sealed)%nat as Hcut by (rewrite length_app; lia).
  unfold propagationPacket. cbn [negb]. cbv iota.
  rewrite (uploaded_messages sealed stamp packed Hup) by (try lia; intros E; rewrite E in Hal; change (zlen []) with 0 in Hal; lia).
  assert (validatePropagationMessage (sealed ++ stamp) (minAcceptedCost r) =
    Some (mkValidated (FullHash sealed) sealed stamp (StampValue wb stamp))) as Ev.
  { unfold validatePropagationMessage.
    rewrite (proj2 (Nat.leb_gt _ _)) by (unfold zlen in *; change (2 * DestinationLength + SignatureLength + StampSize)%nat with 128%nat; lia).
    rewrite Hcut, take_app_length, drop_app_length, Ew. by rewrite (StampValid_less stamp cost). }
  unfold validatePropagationMessages. cbn [omap list_omap]. rewrite Ev.
  cbn [ingest_client v_lxmfData v_stampData v_stampValue]. unfold ingestPropagationMessage, ingestPropagationMessageAllowDuplicate.
  rewrite (proj2 (Z.ltb_ge _ _)) by (rewrite Hsl; change (Z.of_nat DestinationLength) with 16; lia).
  rewrite Hnew. cbn [negb andb]. cbv iota zeta.
  replace (take DestinationLength sealed) with destination by (unfold sealed; by rewrite take_app_length').
  set (r1 := r <| r_locallyProcessedIDs ::= <[FullHash sealed := re_now nenv]> |>).
  change (r_deliveryDestinations r1) with (r_deliveryDestinations r). change (r_propagationEnabled r1) with (r_propagationEnabled r).
  rewrite S2, S1. cbn [negb].
  pose proof (stored_served nenv destination sealed stamp (StampValue wb stamp) r1 Hd Hsz) as Hst.
  destruct (storePropagationMessageStamped _ _ _ _ _ _ _) as [r2 id]. destruct Hst as (-> & A1 & A2 & e & A3 & A4).
  assert (0 <? zlen (FullHash sealed) = true) as -> by (unfold zlen, FullHash; by rewrite sha256_length).
  cbn [ingest_client length Nat.eqb]. eexists _, e. split; [reflexivity|].
  split; [done|]. split; [done|]. split; [done|]. by apply (served_same r2).
Qed.

(** ** Requests *)

(** What a client requests arrives. *)
Lemma request_decodes l :
  packable (VArr l) ->
  decodeAnyPreserveBinMapKeys (RequestDataBytes (VArr l)) = Some (decoded (mkOptions false true true) (VArr l)).
Proof.
  intros Hp. assert (run_unpack (mkOptions false true true) (Msgpack.Pack (VArr l)).1 = Ok (decoded (mkOptions false true true) (VArr l), [])) as Hr.
  { assert (roundtrips (mkOptions false true true) (VArr l)) as Hrt by (by apply packable_roundtrips).
    unfold run_unpack. rewrite <- (app_nil_r (Msgpack.Pack (VArr l)).1) at 2. unfold Msgpack.Pack. rewrite Hrt; [done|lia]. }
  unfold RequestDataBytes. pose proof (packable_clean (mkOptions false true true) _ Hp) as Hc.
  assert ((Msgpack.Pack (VArr l)).2 = None) as Hn by apply Hc.
  destruct (Msgpack.Pack (VArr l)) as [b err]. cbn [fst snd] in *. subst err. unfold decodeAnyPreserveBinMapKeys.
  generalize dependent (decoded (mkOptions false true true) (VArr l)). intros v Hr.
  destruct b as [|b0 b]; [vm_compute in Hr; discriminate|]. unfold UnpackStrictPreserveBinMapKeyOrder. by rewrite Hr.
Qed.
(** A client that may ask for the messages of a destination. *)
Record may_ask (r : Router) (who : Identity) (destination : bytes) : Prop := {
  ma_hash : CalculateHash (Some who) AppName [aspect_delivery] = destination;
  ma_access : r_authRequired r && negb (bool_decide (IHash who ∈ r_allowedList r)) = false;
}.

(** The node has exactly one message for a destination. *)
Record mailbox (r : Router) (es : gmap bytes propagationEntry) (id : bytes) (e : propagationEntry) (destination sealed : bytes)
    : Prop := {
  mb_entries : r_propagationEntries r = <[id := e]> es;
  mb_new : es !! id = None;
  mb_others : map_Forall (fun _ e' => e_destinationHash e' <> destination) es;
  mb_served : served r e destination sealed;
}.

Lemma mailbox_same r r' es id e destination sealed :
  same_store r r' -> mailbox r es id e destination sealed -> mailbox r' es id e destination sealed.
Proof. intros Hsm [M1 M2 M3 M4]. split; [|done..|by apply (served_same r)]. by rewrite <- M1; apply Hsm. Qed.

Lemma filter_none {A} (P : A -> Prop) `{forall x, Decision (P x)} l : (forall x, x ∈ l -> ~ P x) -> filter P l = [].
Proof.
  induction l as [|x l IH]; intros Hn; [done|]. rewrite filter_cons_False by (apply Hn; set_solver).
  apply IH. set_solver.
Qed.

Lemma mailbox_available r es id e destination sealed :
  mailbox r es id e destination sealed -> available_messages destination r = Some [id].
Proof.
  intros [M1 M2 M3 [V1 [n V2] V3 V4]]. unfold available_messages. rewrite M1.
  assert (filter (fun x => e_destinationHash x.2 = destination) (map_to_list (<[id := e]> es)) = [(id, e)]) as ->.
  { apply Permutation_singleton_r. rewrite (map_to_list_insert es id e M2). rewrite filter_cons_True by done.
    replace (filter _ (map_to_list es)) with (@nil (bytes * propagationEntry)); [done|]. symmetry.
    apply filter_none. intros [id' e'] Hin. apply elem_of_map_to_list in Hin. by apply (M3 id' e'). }
  cbn. by rewrite V2.
Qed.

Lemma list_request r who es id e destination sealed :
  may_ask r who destination -> mailbox r es id e destination sealed ->
  messageGetRequest (VArr [VNil; VNil]) (Some who) r = (r, VArr [VBin id]).
Proof.
  intros [A1 A2] M. unfold messageGetRequest. rewrite A2, A1, request_decodes by (apply pk_arr; [done|repeat constructor]).
  cbn. by rewrite (mailbox_available _ _ _ _ _ _ M).
Qed.

Lemma get_request r who es id e destination sealed limit :
  may_ask r who destination -> mailbox r es id e destination sealed -> zlen id < 2 ^ 32 ->
  match limitBytesFromFloat64 limit with Some b => zlen sealed + 72 <= b | None => True end ->
  exists r', messageGetRequest (VArr [VArr [VBin id]; VArr []; VFloat64 (float_bits limit)]) (Some who) r = (r', VArr [VBin sealed]) /\
    same_store r r'.
Proof.
  intros [A1 A2] [M1 M2 M3 [V1 V2 V3 V4]] Hid Hlim. unfold messageGetRequest. rewrite A2, A1, request_decodes.
  2:{ apply pk_arr; [done|]. repeat (apply Forall_cons; split); [| |constructor; apply float_bits_range|constructor].
      - apply pk_arr; [done|]. apply Forall_singleton. by constructor.
      - by apply pk_arr. }
  cbn [decoded map messageGetRequestRoot messageGetRequestEntries is_nil andb purge_haves negb].
  assert (parseLimitBytes [VArr [VBin id]; VArr []; VFloat64 (float_bits limit)] 2 = limitBytesFromFloat64 limit) as ->
    by (cbn; by rewrite float_bits_roundtrip).
  cbn [collect_wants messageGetRequestTransientID]. rewrite M1, lookup_insert_eq, V1, bytes_eqb_refl, V4. cbn [negb orb].
  assert (match limitBytesFromFloat64 limit with
          | Some limitBytes => limitBytes <? 24 + propagationEntryMessageSize e r + 16
          | None => false
          end = false) as ->.
  { destruct (limitBytesFromFloat64 limit); [|done]. apply Z.ltb_ge. change (Z.of_nat StampSize) with 32 in V3. lia. }
  cbn. eexists. split; [reflexivity|]. done.
Qed.

Lemma ack_request r who es id e destination sealed :
  may_ask r who destination -> mailbox r es id e destination sealed -> zlen id < 2 ^ 32 ->
  exists r', messageGetRequest (VArr [VNil; VArr [VBin id]]) (Some who) r = (r', VArr []) /\ r_propagationEntries r' = es.
Proof.
  intros [A1 A2] [M1 M2 M3 [V1 V2 V3 V4]] Hid. unfold messageGetRequest. rewrite A2, A1, request_decodes.
  2:{ apply pk_arr; [done|]. repeat (apply Forall_cons; split); [constructor| |constructor].
      apply pk_arr; [done|]. apply Forall_singleton. by constructor. }
  cbn [decoded map messageGetRequestRoot messageGetRequestEntries is_nil andb purge_haves negb messageGetRequestTransientID collect_wants].
  rewrite M1, lookup_insert_eq, V1, bytes_eqb_refl. eexists. split; [reflexivity|].
  unfold removePropagationEntryLocked. rewrite M1, lookup_insert_eq. cbn -[delete insert].
  destruct (zlen (e_path e) =? 0); cbn -[delete insert]; rewrite M1; by apply delete_insert_id.
Qed.

(** ** The client *)

Lemma list_response r id :
  hasDeliveredTransientIDLocked id r = false -> 0 <= r_propagationTransferMaxMessages r ->
  messageListResponse true (VArr [VBin id]) r = (r, Ok [MessagesRequested [VBin id] [] (r_deliveryPerTransferLimit r)]).
Proof.
  intros Hd Hm. unfold messageListResponse. cbn [responseErrorCode transientIDsFromResponse mapM mbind option_bind map].
  cbn. rewrite Hd. assert ((r_propagationTransferMaxMessages r =? 0) || (0 <? r_propagationTransferMaxMessages r) = true) as Hr by lia.
  change (zlen []) with 0. by rewrite Hr.
Qed.
(** The message of a response is given to the application. *)
Lemma get_response cenv r d s dj i m' sealed u :
  hears cenv r d s dj i -> take DestinationLength sealed = DHash d -> Z.of_nat DestinationLength <= zlen sealed ->
  already_processed (FullHash sealed) r = false -> hasDeliveredTransientIDLocked (m_Hash m') r = false ->
  (forall r1 id, hears cenv r1 d s dj i -> hasDeliveredTransientIDLocked (m_Hash m') r1 = false ->
    m_SignatureValidated u = true /\
    exists r2, deliver_encrypted cenv dj sealed id r1 = (r2, Ok true) /\ given cenv u r1 r2) ->
  exists r', messageGetResponse cenv (VArr [VBin sealed]) r = (r', Ok [Acknowledged [FullHash sealed]]) /\
    r_callbacks r' = r_callbacks r ++ [(re_now cenv, u)].
Proof.
  intros Hh Htk Hl Hnew Hnew' Hgive. set (r1 := r <| r_locallyProcessedIDs ::= <[FullHash sealed := re_now cenv]> |>).
  destruct (Hgive r1 (FullHash sealed)) as (_ & r2 & Edel & G1 & _); [by destruct Hh; split|done|].
  unfold messageGetResponse. cbn [responseErrorCode has_len]. change (zlen [VBin sealed]) with 1. cbn [Z.eqb messageGetResponseEntries].
  cbn [receive_messages]. unfold handlePropagatedInbound, handlePropagatedInboundAllowDuplicate.
  rewrite (proj2 (Z.ltb_ge _ _)) by done. rewrite Hnew, Htk. cbn [negb andb]. cbv iota zeta. fold r1.
  change (r_deliveryDestinations r1) with (r_deliveryDestinations r). rewrite (hr_here _ _ _ _ _ _ Hh), Edel.
  cbv iota zeta beta. eexists. split; [reflexivity|]. exact G1.
Qed.

(** ** Offers between nodes *)

(** The IDs that an answer to an offer asks for. *)
Definition answered (ids : list bytes) (answer : value) : option (list bytes) :=
  match answer with
  | VBool true => Some ids
  | VBool false => Some []
  | VArr _ => transientIDsFromResponse answer
  | _ => None
  end.

Lemma transientIDs_of ids : transientIDsFromResponse (VArr (map VBin ids)) = Some ids.
Proof. cbn. induction ids as [|id ids IH]; [done|]. cbn. by rewrite IH. Qed.

Lemma offer_arrives key ids :
  zlen key < 2 ^ 32 -> zlen ids < 2 ^ 32 -> Forall (fun id => id <> [] /\ zlen id < 2 ^ 32) ids ->
  decodeAnyList (RequestDataBytes (VArr [VBin key; VArr (map VBin ids)])) = Some [VBin key; VArr (map VBin ids)] /\
  anySliceToByteSlices (VArr (map VBin ids)) = ids.
Proof.
  intros Hk Hi Hf. set (v := VArr [VBin key; VArr (map VBin ids)]).
  assert (packable v) as Hp.
  { apply pk_arr; [done|]. repeat (apply Forall_cons; split); [by constructor| |constructor].
    apply pk_arr; [unfold zlen; by rewrite length_map|]. apply Forall_fmap. eapply Forall_impl; [exact Hf|]. intros id [_ H]. by constructor. }
  split.
  - assert (decoded (mkOptions false false false) v = v) as Ed.
    { unfold v. cbn [decoded map]. do 3 f_equal. rewrite map_map. by do 2 f_equal. }
    destruct (Unpack_Pack v Hp) as [En Eu]. rewrite Ed in Eu.
    assert (RequestDataBytes v = (Msgpack.Pack v).1) as ->.
    { unfold RequestDataBytes, v in *. by destruct (Msgpack.Pack _) as [b [err|]]. }
    unfold decodeAnyList. destruct (Msgpack.Pack v).1 as [|b0 b]; [|by rewrite Eu].
    assert (forall v', Unpack [] <> Ok v') as Hno by (intros v' E; vm_compute in E; discriminate). by destruct (Hno v).
  - cbn. clear Hp v Hi. induction Hf as [|id ids [Hne _] _ IH]; [done|]. cbn. destruct id; [done|]. by f_equal.
Qed.

Lemma filter_full {A} (P : A -> Prop) `{forall x, Decision (P x)} l : length (filter P l) = length l -> filter P l = l.
Proof.
  induction l as [|x l IH]; [done|]. rewrite filter_cons. case_decide; cbn; intros Hl.
  - f_equal. apply IH. lia.
  - pose proof (length_filter P l). lia.
Qed.

(** C27: the key that a node generates for a peer opens the peer: an offer made
    with it over a link is answered with exactly those of the offered messages
    that the peer does not have, and the link may then carry them. *)
Theorem peering_key_accepted fuel rnd recall own p p' i cost env r remote linkID ids :
  (forall b, rnd StampSize = Ok b -> length b = StampSize) ->
  pr_peeringCost p = Some cost -> 0 <= cost -> pr_peeringKey p = None -> pr_identity p = Some i ->
  GeneratePeeringKey fuel rnd recall own p = Some (p', true) ->
  IHash (r_identity r) = IHash i -> IHash i <> [] -> IHash remote = IHash own -> r_peeringCost r <= cost ->
  offer_gate env (CalculateHash (Some remote) AppName [aspect_propagation]) r = (r, None) ->
  linkID <> [] -> ids <> [] -> zlen ids < 2 ^ 32 -> Forall (fun id => id <> [] /\ zlen id < 2 ^ 32) ids ->
  exists key v r' answer, pr_peeringKey p' = Some (key, v) /\
    offerRequest env (VArr [VBin key; VArr (map VBin ids)]) linkID (Some remote) r = (r', answer) /\
    answered ids answer = Some (filter (fun id => r_propagationEntries r !! id = None) ids) /\
    linkID ∈ r_validatedPeerLinks r' /\ r_propagationEntries r' = r_propagationEntries r.
Proof.
  intros Hrnd Hc Hc0 Hnk Hi Eg Er Hine Erm Hle Hgate Hlk Hids Hn Hf. unfold GeneratePeeringKey in Eg. rewrite Hc, Hnk, Hi in Eg.
  cbv iota zeta in Eg. rewrite Hi in Eg.
  destruct (GenerateStamp _ _ _ _ _) as [[[[st v] rounds] err]|] eqn:Es; [|done].
  apply GenerateStamp_outcome in Es; [|done]. destruct err; [done|]. destruct (v <? cost); [done|].
  destruct st as [key|]; [|destruct Es as [_ Es]; specialize (Es eq_refl); lia].
  destruct Es as (_ & Hl & wb & Ew & _ & Hv). injection Eg as <-.
  set (X := offerRequest env (VArr [VBin key; VArr (map VBin ids)]) linkID (Some remote) r).
  exists key, (VInt v), X.1, X.2. split; [done|]. split; [apply surjective_pairing|].
  assert (zlen key = 32) as Hkl by (by apply zlen_stamp).
  destruct (offer_arrives key ids) as [Ea Eb]; [lia|done|done|].
  unfold X, offerRequest. rewrite Hgate, Ea, Eb. cbn [anyToBytes]. rewrite Hkl. change (32 =? 0) with false. cbv iota.
  assert (ValidatePeeringKey (IHash (r_identity r) ++ IHash remote) key (r_peeringCost r) = true) as ->.
  { unfold ValidatePeeringKey. rewrite Hkl, Er, Erm. destruct (zlen_pos (IHash i ++ IHash own)) as [-> _].
    { intros E. by apply app_eq_nil in E as [? _]. }
    change (32 =? 0) with false. cbn [orb]. unfold StampWorkblock. rewrite Ew. by apply (StampValid_less key cost). }
  rewrite andb_false_r. destruct (zlen_pos _ Hids) as [-> _]. destruct (zlen_pos _ Hlk) as [_ ->].
  cbn [r_propagationEntries modify].
  set (wanted := filter _ ids).
  destruct (Z.eqb_spec (zlen wanted) 0) as [Hz|Hz].
  { split; [|split; [set_solver|done]]. cbn. unfold zlen in Hz. destruct wanted; [done|cbn in Hz; lia]. }
  destruct (Z.eqb_spec (zlen wanted) (zlen ids)) as [Hq|Hq]; (split; [|split; [set_solver|done]]).
  - cbn. f_equal. symmetry. apply filter_full. unfold zlen in Hq. fold wanted. lia.
  - unfold answered. apply transientIDs_of.
Qed.

(** What a node sends to a peer is taken apart there as if it carried a stamp:
    the last 32 bytes of the sealed message are cut off, so that what the peer
    takes, if it takes anything, is another message. *)
Lemma synced_message_truncated env id entry p r data p' r' cost v :
  r_propagationEntries r !! id = Some entry -> e_payload entry <> [] -> zlen (e_payload entry) < 2 ^ 32 ->
  startSyncTransfer env [id] (p, r) = (p', r', [ResourceSent data]) ->
  propagation_messages data = Some [e_payload entry] /\
  (validatePropagationMessage (e_payload entry) cost = Some v ->
   v_lxmfData v = take (length (e_payload entry) - StampSize) (e_payload entry) /\ v_lxmfData v <> e_payload entry).
Proof.
  intros He Hne Hl Es. split.
  - unfold startSyncTransfer in Es. cbn [omap list_omap] in Es. rewrite He in Es.
    destruct (e_payload entry) as [|b0 payload] eqn:Ep; [done|]. cbn [map] in Es.
    destruct (Msgpack.Pack _) as [b [err|]] eqn:Eb; [by destruct (drop_link p)|].
    destruct (sy_newResource env); [|unfold drop_link in Es; by destruct (pr_link p)]. injection Es as <- <- <-.
    rewrite <- (app_nil_r (b0 :: payload)). apply uploaded_messages; rewrite ?app_nil_r; try done.
    exists (float_bits (peerTime (sy_now env))). split; [apply float_bits_range|]. by rewrite app_nil_r, Eb.
  - unfold validatePropagationMessage.
    destruct (Nat.leb_spec (length (e_payload entry)) (2 * DestinationLength + SignatureLength + StampSize)) as [|Hlen]; [done|].
    destruct (StampWorkblock _ _); [|done..]. destruct (StampValid _ _ _); [|done]. intros [= <-]. cbn. split; [done|].
    intros E. apply (f_equal length) in E. rewrite length_take in E. unfold StampSize in *. lia.
Qed.
(** A stamped message that is uploaded to the node its receiver runs itself is
    taken, but not delivered: it was marked as processed just before it is
    looked up. *)
Lemma local_message_dropped env data stamp value d r :
  Z.of_nat DestinationLength <= zlen data -> already_processed (FullHash data) r = false ->
  r_deliveryDestinations r !! take DestinationLength data = Some d ->
  ingestPropagationMessage env data stamp [] value r =
    (r <| r_locallyProcessedIDs ::= <[FullHash data := re_now env]> |>, Ok true).
Proof.
  intros Hl Hn Hd. unfold ingestPropagationMessage, ingestPropagationMessageAllowDuplicate, handlePropagatedInboundAllowDuplicate.
  rewrite (proj2 (Z.ltb_ge _ _)) by done. rewrite Hn. cbn [negb andb]. cbv iota zeta.
  set (r1 := r <| r_locallyProcessedIDs ::= _ |>). change (r_deliveryDestinations r1) with (r_deliveryDestinations r). rewrite Hd.
  assert (already_processed (FullHash data) r1 = true) as ->; [|done].
  unfold already_processed, hasProcessedTransientIDLocked. destruct (zlen_pos _ (FullHash_nonempty data)) as [-> _].
  rewrite (bool_decide_eq_true_2 (is_Some (r_locallyProcessedIDs r1 !! _))) by (cbn; by rewrite lookup_insert_eq). by rewrite orb_true_r.
Qed.
End Forward.

(** ** Witnesses *)

Module ToyMail.
Import ToyCrypto ToyCurves ToyIdentity ToyStamps ToyLxmf ToyText.

(** A hash whose values start with eight zero bytes, so that every stamp is
    worth 64. *)
#[export] Instance mail_sha : Sha256 := fun m =>
  replicate 8 0 ++ be_enc 24 (fold_left (fun a b => (a * 31 + b + 7)) m 1).
#[export] Instance mail_sha_laws : Sha256Laws.
Proof.
  split; intros m; unfold SHA256, mail_sha.
  - by rewrite length_app, length_replicate, be_enc_length.
  - apply bytes_ok_app; [apply bytes_ok_replicate; unfold is_byte; lia|apply be_enc_ok].
Qed.

Definition sender_id : Identity := with_keys (seed 3) (seed 4) zeroIdentity.
Definition reader_id : Identity := with_keys (seed 5) (seed 6) zeroIdentity.
Definition node_id : Identity := with_keys (seed 1) (seed 2) zeroIdentity.
Definition endpoint (dir : Z) (i : Identity) : DestinationT :=
  match NewDestination rnd rnd (Some i) dir DestinationSingle AppName [aspect_delivery] with
  | Ok d => d
  | _ => no_destination
  end.
Definition sender_in : DestinationT := endpoint DestinationIn sender_id.
Definition reader_out : DestinationT := endpoint DestinationOut reader_id.
(** The reader has two ratchets and insists on them; the sender knows one. *)
Definition reader_in : DestinationT :=
  endpoint DestinationIn reader_id <| ratchets := Some [seed 7; seed 8] |> <| enforceRatchets := true |>.
Definition mail_pack : PackEnv := mkPackEnv 1700000000000000000 rnd rnd (Some (seed 8)) 1.

Definition letter : Message :=
  match NewMessage (Some reader_out) (Some sender_in) [104; 105] [116] fields with
  | Ok m => m <| m_DesiredMethod := MethodPropagated |>
  | _ => zeroMessage
  end.
Definition packed_letter : Message := match Pack mail_pack letter with Some (m, _) => m | None => zeroMessage end.
Definition stamped_letter : Message :=
  match stamp_propagated mail_pack 16 packed_letter with Some (m, _) => m | None => zeroMessage end.

Definition mail_env (now : Z) : RouterEnv :=
  mkRouterEnv now (mkLxTransport (fun _ => Some sender_id) (fun _ => false)) (fun _ => 1) (fun _ => None) true id true.
Definition post_office : Router := NewRouter node_id <| r_propagationEnabled := true |>.
Definition reader : Router :=
  RegisterDeliveryCallback (NewRouter reader_id) <| r_deliveryDestinations := {[DHash reader_in := reader_in]} |>.

Lemma mail_worth wb stamp : 64 <= StampValue wb stamp.
Proof.
  unfold StampValue, FullHash, SHA256, mail_sha. cbn [replicate app leadingZeroBits]. cbn [Z.eqb].
  pose proof (leadingZeroBits_nonneg _ (be_enc_ok 24 (fold_left (fun a b => (a * 31 + b + 7)) (wb ++ stamp) 1))). lia.
Qed.

Lemma mail_generates material rounds cost :
  material <> [] -> 0 <= cost <= 64 ->
  exists v, GenerateStampWithContext 1 Background rnd material cost rounds = Some (Some (seed 9), v, 1, None) /\ cost <= v.
Proof.
  intros Hm Hc. destruct (StampWorkblock_ok material rounds Hm) as (wb & Ew & _).
  unfold GenerateStampWithContext. unfold StampWorkblock in Ew. rewrite Ew.
  rewrite (proj2 (Z.ltb_ge cost 0)), (proj2 (Z.ltb_ge 256 cost)) by lia.
  change (rnd StampSize) with (@Ok crypto_err bytes (seed 9)). cbv iota. cbn [search Background].
  pose proof (mail_worth wb (seed 9)) as Hw. unfold StampValue in Hw. rewrite candidate_hash_spec.
  rewrite (proj2 (Z.leb_le _ _)) by (unfold FullHash in *; lia). eexists. split; [reflexivity|]. unfold FullHash in *. lia.
Qed.
End ToyMail.

Section ForwardWitnesses.
Import ToyCrypto ToyCurves ToyIdentity ToyStamps ToyLxmf ToyText ToyMail.

Lemma mail_outgoing : outgoing letter reader_out sender_in sender_id (seed 3) (seed 4).
Proof.
  split; [vm_compute; reflexivity| vm_compute; reflexivity| vm_compute; reflexivity| vm_compute; reflexivity| |
    vm_compute; reflexivity| vm_compute; reflexivity| vm_compute; reflexivity| |].
  - apply (NewDestination_ok rnd rnd sender_id (seed 3) (seed 4) DestinationIn DestinationSingle AppName [aspect_delivery]).
    + by apply with_keys_keypair.
    + vm_compute. reflexivity.
  - apply toy_fields_packable.
  - apply toy_fields_sendable.
Qed.

Lemma mail_reaches : reaches mail_pack reader_out reader_id (Some (seed 8)) (seed 9) (replicate 16 9).
Proof.
  split; try reflexivity; [discriminate|exists reader_id; split; [vm_compute; reflexivity|done]|].
  apply bytes_ok_replicate. unfold is_byte. lia.
Qed.

Lemma mail_opens : opens reader_in reader_id (seed 5) (seed 6) (Some (seed 8)).
Proof.
  split; [discriminate|vm_compute; reflexivity|by apply with_keys_keypair|repeat constructor|].
  apply (bool_decide_unpack _). vm_compute. exact I.
Qed.

(** Neither ratchet takes the letter for one sealed with another key. *)
Lemma mail_no_collision :
  ~ ratchet_collision reader_in reader_id (sealing_key (seed 5) (Some (seed 8))) (seed 9) (m_propagationEncryptedData packed_letter).
Proof. apply (bool_decide_unpack _). vm_compute. exact I. Qed.

Lemma mail_hears now : hears (mail_env now) reader reader_out sender_in reader_in sender_id.
Proof. split; [vm_compute; reflexivity|vm_compute; reflexivity|reflexivity|by exists sender_id|reflexivity]. Qed.

Lemma mail_packed : Pack mail_pack letter = Some (packed_letter, Ok tt).
Proof. vm_compute. reflexivity. Qed.

(** The stamp that the search finds at once. *)
Lemma mail_restamped ma :
  m_PropagationStamp ma = [] -> m_TransientID ma <> [] ->
  exists v, stamp_propagated mail_pack 16 ma =
    match Pack mail_pack (resetPackedState true (ma <| m_PropagationTargetCost := Some 16 |> <| m_PropagationStampValue := Some v |>
                      <| m_PropagationStamp := seed 9 |> <| m_DeferPropagationStamp := false |>)) with
    | None => None
    | Some (m, Ok _) => Some (m, Ok true)
    | Some (m, Err _) => Some (m, Ok false)
    | Some (m, Panic) => Some (m, Panic)
    end.
Proof.
  intros E1 E2. destruct (mail_generates (m_TransientID ma) WorkblockExpandRoundsPN 16 E2 ltac:(lia)) as (v & Eg & _).
  exists v. unfold stamp_propagated, GetPropagationStampWithContext. rewrite E1. change (0 <? zlen []) with false.
  change (16 <=? 0) with false. cbv iota zeta.
  change (m_TransientID (ma <| m_PropagationTargetCost := Some 16 |>)) with (m_TransientID ma).
  destruct (zlen_pos _ E2) as [-> _]. cbv iota.
  change (m_TransientID (ma <| m_PropagationTargetCost := Some 16 |>)) with (m_TransientID ma). change (pe_fuel mail_pack) with 1%nat. change (pe_stamp_rnd mail_pack) with rnd. rewrite Eg. done.
Qed.

Lemma mail_stamped : stamp_propagated mail_pack 16 packed_letter = Some (stamped_letter, Ok true) /\ m_Stamp stamped_letter = [].
Proof.
  unfold stamped_letter. destruct (mail_restamped packed_letter) as [v ->]; [vm_compute; reflexivity|vm_compute; discriminate|].
  vm_compute. split; reflexivity.
Qed.


Definition friend : Peer := NewPeer (mail_env 0) [] <| pr_identity := Some node_id |> <| pr_peeringCost := Some 18 |>.

Lemma mail_key own p i :
  pr_peeringCost p = Some 18 -> pr_peeringKey p = None -> pr_identity p = Some i -> IHash i <> [] ->
  exists v, GeneratePeeringKey 1 rnd (fun _ => None) own p = Some (p <| pr_peeringKey := Some (seed 9, VInt v) |>, true).
Proof.
  intros E1 E2 E3 Hne.
  destruct (mail_generates (IHash i ++ IHash own) WorkblockExpandRoundsPeering 18) as (v & Eg & Hv);
    [intros E; by apply app_eq_nil in E as [? _]|lia|].
  exists v. unfold GeneratePeeringKey. rewrite E1, E2, E3. cbv iota zeta. rewrite E3. unfold GenerateStamp. rewrite Eg.
  by rewrite (proj2 (Z.ltb_ge v 18)).
Qed.

Lemma peering_key_accepted_witness :
  exists p' key v r' answer, pr_peeringKey p' = Some (key, v) /\
    offerRequest (mail_env 0) (VArr [VBin key; VArr (map VBin [seed 1; seed 2])]) [7] (Some reader_id) post_office = (r', answer) /\
    answered [seed 1; seed 2] answer = Some [seed 1; seed 2].
Proof.
  destruct (mail_key reader_id friend node_id) as [v Ek]; [reflexivity|reflexivity|reflexivity|vm_compute; discriminate|].
  destruct (peering_key_accepted 1 rnd (fun _ => None) reader_id friend
    (friend <| pr_peeringKey := Some (seed 9, VInt v) |>) node_id 18 (mail_env 0) post_office reader_id [7] [seed 1; seed 2])
    as (key & v' & r' & answer & H1 & H2 & H3 & _).
  - intros b [= <-]. reflexivity.
  - reflexivity.
  - lia.
  - reflexivity.
  - reflexivity.
  - exact Ek.
  - reflexivity.
  - vm_compute. discriminate.
  - reflexivity.
  - vm_compute. discriminate.
  - vm_compute. reflexivity.
  - discriminate.
  - discriminate.
  - reflexivity.
  - repeat constructor; discriminate.
  - exists (friend <| pr_peeringKey := Some (seed 9, VInt v) |>), key, v', r', answer. split; [exact H1|]. split; [exact H2|].
    rewrite H3. vm_compute. reflexivity.
Defined.
End ForwardWitnesses.
